(* ===== verification/_CoqProject ===== *)
-Q . S2P
Prelude.v
Effects.v
GoStrings.v
GoStrconv.v
GoFmt.v
GoPath.v
GoFlag.v
OS.v
GoTabwriter.v
GoSort.v
BPF.v
SandboxConfig.v
Protocol.v
Cgroup.v
Registry.v
Seccomp.v
Security.v
GoNet.v
FS.v
Ipam.v
IpamThreads.v
GoSha256.v
Dns.v
Network.v
Overlay.v
Resources.v
Pool.v
DaemonConfig.v
Recovery.v
Runner.v
Server.v
Locking.v
System.v
Ownership.v
Goroutines.v
Schedule.v
Shares.v
Shutdown.v
Client.v
Cli.v
EndToEnd.v
