(* ===== verification/Prelude.v ===== *)
(** * gojail: a verification development

    gojail runs untrusted commands in containers.  A daemon (gojaild) keeps a pool of
    frozen warm workers, each a process in its own namespaces with an overlay root and a
    cgroup; a client (gojail) sends it a request over a Unix socket and gets the output
    back as frames; the same binary can also run a container directly, without the
    daemon.  This library translates the Go sources under [src/pkg] and [src/cmd] into
    executable definitions and proves what each part promises.

    ** How the code is modelled

    - Integers are [Z] with the wrap-around of their width written out ([uint32],
      [int64], ... below); strings and byte slices are [string] and [list byte]; Go maps
      are [gmap]; an [error] is a value of the type [error] (a system error, a sentinel, an exit
      status, a message, or a wrapper), and a pair [(x, error)] a [result].
    - Code with effects is a program of the free monad [prog] of [Effects.v]: it makes
      calls of a signature and goes on with any answer.  [ends p tr r] says that [p],
      answered as in the trace [tr], returns [r]; [exec step p w r w'] runs [p] against a
      state whose steps may be nondeterministic.  The kernel, the netlink, netns, pty,
      JSON and YAML packages are calls or parameters: nothing is assumed of an answer
      unless a hypothesis says so.  A property of traces is stated with a monitor, a
      function that folds the calls and answers into a small state, and proved with the
      rules [wp_*] (all monitors) and [rwp_*] (state steps) and the tactics [wp_step] and
      [wp_steps]; [neutral m p] says that [p] leaves the monitor [m] alone.
    - [defer], early returns and error branches are translated one by one.  [let? x := p
      onerr e => h in k] is "if err != nil".
    - Concurrency: a registry method runs under its mutex and is one step.  The pool's
      channel, mutex and goroutines are the step relation [pool_step]; a request's handler
      alone is interleaved with the other connections' registry operations by [srv_step].
      The daemon as a whole ([Goroutines]) is a growing list of goroutines, one for each
      connection, each replacement worker, each terminal's input, and [Stop], that take
      turns at every call over the shared pool, registry and resources ([dstep]); they are
      proved safe together with a ghost share for each of them ([Ownership], [Shares]).
      Processes that start the daemon, and operations of the allocator, take turns at
      every system call ([tstep], with the rely-guarantee rule [threads_safe]).
      Goroutines that only copy bytes are merged in the order the answers give.

    ** Files, and the sources they model

    - Go's library: [GoStrings] (strings), [GoStrconv] (strconv), [GoFmt] (fmt, and the
      durations of time), [GoTabwriter] (text/tabwriter), [GoPath] (path/filepath),
      [GoFlag] (flag), [GoNet] (net: addresses), [GoSort] (sort, as a
      class of permutations), [GoSha256] (crypto/sha256); [OS] is the signature of the
      system calls and [FS] a file system that interprets the part the allocator uses;
      [BPF] the kernel's filter machine behind a class.
    - [SandboxConfig]: pkg/sandbox/config.go.  [Protocol]: pkg/protocol/protocol.go.
      [Cgroup], [Overlay], [Runner], [Pool], [Security]: the files of pkg/sandbox.
      [Registry], [Recovery], [Server]: pkg/server.  [Seccomp]: pkg/seccomp/filter.go.
      [Ipam], [Dns], [Network]: pkg/network.  [DaemonConfig]: pkg/config.  [Client]:
      pkg/client.  [Cli]: cmd/gojail and cmd/gojaild.
    - [Resources] is not code.  It has two accounts of a trace.  The monitor [res_mon] counts
      what the program made and has not tried to give back.  The [machine] follows the
      answers: a mount, directory or process goes only when the call that removes or kills
      it succeeds, and what a call refused to give back is noted as stuck.  The lemma
      [tracks_after] relates the two, and the theorems speak of the machine.  [Locking] is the
      kernel's side of the daemon's lock, for several processes, and [IpamThreads] the lock
      of the allocator, for several operations at once; [System] links a run's handler to
      all the components it calls.  [Goroutines] has the daemon's goroutines (those of
      pool.go and server.go) and their steps, [Ownership] the rule for programs that own a
      share of a common state, [Shares] the share and contract of each goroutine,
      [Shutdown] the invariant of the whole daemon and what holds after [Stop], and
      [Schedule] an executable scheduler for concrete runs.  [EndToEnd] composes the
      commands of [Cli] with the client's requests and the daemon's handlers.

    Definitions have the names of the functions they translate.  A part of a function
    that is a definition of its own (a loop body, a deferred block, a closure) has a name
    of its own and the function is composed of them.

    ** How the parts interact

    [Server.handleRun] is written against a signature of its own ([srv]: registry, pool,
    worker and network operations), so the order in which a request uses them is one
    object; [System.link_run] maps those calls to the code of [Pool], [Network] and
    [Ipam].  [Network] calls the allocator by a signature that [link_ipam] maps to
    [Ipam].  [Runner.Run] calls [Overlay], [Cgroup] and [Network] directly.  [Client]
    reads, frame by frame, the bytes that [Server] wrote.  [Seccomp] and [Security] are
    proved against the class [BPFMachine], and [Ipam] against the class of file systems;
    [BPF] and [FS] give the instances.

    ** What the theorems show

    - End to end: when the daemon's writes succeed, gojail run writes the worker's output,
      standard error to descriptor 2 and the rest to descriptor 1, and exits with the
      execution's code ([gojail_run_end_to_end]); gojail
      stats shows the samples the daemon took ([gojail_stats_end_to_end]), gojail ps its
      jobs as a table ([handlePsCommand_table]); what is typed reaches the
      worker's terminal in order, when frames are not written one inside another, but for
      the frames that the decoder of the request swallows ([typing_reaches_terminal]);
      frames are read back as written
      ([WriteFrame_ReadFrame]) and a cut stream gives no frame ([ReadFrame_truncated]).
    - Isolation: a child executes its command only with private mounts, the new root, no
      privileges and the filter asked for ([InitChild_jailed]); a compiled profile and
      the denylist decide every system call as specified ([compileBPF_verdict],
      [denylist_verdict], [DefaultHardenedProfile_verdict]); volumes with clean container
      paths stay in the root ([applyCustomMounts_confined]).
    - The daemon as a whole, from [Start] on and whatever its goroutines do at once: when
      nothing is under way every mount, running process and directory belongs to an idle
      worker, is shared by all, or was refused removal by the system; after [Stop] there is
      none but the last two kinds, no job looks active and every connection has ended
      ([daemon_stops_clean]); there is no deadlock ([daemon_never_stuck]).  The goroutines'
      programs on the pool are those of the pool's own theorems ([pool_programs_agree]).
    - No leaks, on any path, of mounts, running processes and directories, but what the
      system refuses to give back (ended processes that nobody waits for, and the pipes of
      idle workers at a close, do stay and are not claimed to go): [daemon_leaves_nothing] for any sequence of runs, replacements
      and the close, [run_leaves_nothing] for one run, [Run_releases] for a direct one, and
      for the parts [spawnWorker_no_leak],
      [Execute_releases], [handleConnection_releases], [SetupContainerNetwork_atomic],
      [configureInNetns_restores], [CgroupCleanup_kills], [Run_restores].
    - State: one daemon at a time ([one_daemon]), the pool's channel ([pool_safe]) and
      level ([pool_level]), the registry ([registry_invariant], [status_transitions],
      [registry_refines] to an abstract life-cycle, [handleRun_job_over]), the lease
      table ([AllocateIP_refines], [concurrent_leases] for any operations at once,
      [leases_distinct] and [lease_stable] for sequences, [AllocateIP_capacity],
      [ipam_operations_locked]).
    - Functional behaviour of the operations, errors included: the remaining
      [_spec], [_outcome], [_reads] and [_exact] theorems.
    - An [Example] that is no witness shows a behaviour that the code has and that may
      surprise: [handleRun_panics], [receive_cut_is_success], [mount_dst_escapes],
      [Stop_admits_two], [ps_newline_breaks], ...

    A theorem with hypotheses has a closed [_witness] that applies it to concrete data.

    ** Bounds and fuel

    Loops over a slice are structural.  Loops on a stream take fuel: [read_frames] and
    [Client.receive] one more than the bytes left, which suffices since a frame takes at
    least five ([read_frames_enough], [receive_total]); [digits] of a number its bit size.  The loops that only an outside event ends
    (ticks of a statistics stream, accepted connections, window changes) take the number
    of turns as a parameter, and their theorems hold for every number.

    ** Not modelled

    The log lines of the daemon and what the flag package prints on its own.  A printed
    text is one call, however many writes it takes, and the writes are not checked, as
    the code does not.  Memory races between goroutines (they are listed
    where the code has them, not proved absent).  The contents of error messages made by
    the kernel and by packages that are not under [src].  The text of JSON and YAML: a
    codec is a parameter with its round trip as law.  Scheduling fairness and time: a
    deadline is an answer of the context.  *)

From Stdlib Require Export ZArith Lia.
From Stdlib Require Export Strings.Ascii Strings.String.
From Stdlib Require Import Init.Byte Strings.Byte.
From stdpp Require Export base list strings gmap fin_maps sorting.

#[global] Open Scope string_scope.
#[global] Open Scope Z_scope.
#[global] Open Scope list_scope.

#[global] Arguments String.append !_ _ / : simpl nomatch.

(** ** Machine integers

    A Go unsigned integer of [w] bits is a [Z] in [0, 2^w); a conversion to the
    type wraps.  A signed one is a [Z] in [-2^(w-1), 2^(w-1)). *)

Definition wrapu (w z : Z) : Z := z mod 2 ^ w.

Definition wraps (w z : Z) : Z := (z + 2 ^ (w - 1)) mod 2 ^ w - 2 ^ (w - 1).

Abbreviation uint8 := (wrapu 8).
Abbreviation uint16 := (wrapu 16).
Abbreviation uint32 := (wrapu 32).
Abbreviation uint64 := (wrapu 64).
Abbreviation int64 := (wraps 64).

Definition in_uint (w z : Z) : Prop := 0 <= z < 2 ^ w.
Definition in_sint (w z : Z) : Prop := - 2 ^ (w - 1) <= z < 2 ^ (w - 1).

Lemma wrapu_range w z : 0 <= w -> in_uint w (wrapu w z).
Proof. intros Hw. apply Z.mod_pos_bound. by apply Z.pow_pos_nonneg. Qed.

Lemma wrapu_id w z : in_uint w z -> wrapu w z = z.
Proof. intros H. by apply Z.mod_small. Qed.

Lemma wraps_id w z : 0 < w -> in_sint w z -> wraps w z = z.
Proof.
  unfold in_sint, wraps. intros Hw H.
  assert (2 ^ w = 2 * 2 ^ (w - 1)) as E
    by (rewrite <- Z.pow_succ_r by lia; f_equal; lia).
  rewrite Z.mod_small by lia. lia.
Qed.

(** ** Bytes *)

Definition byteZ (b : byte) : Z := Z.of_N (Byte.to_N b).

Definition Zbyte (z : Z) : byte := default x00 (Byte.of_N (Z.to_N (wrapu 8 z))).

Lemma byteZ_range b : in_uint 8 (byteZ b).
Proof.
  unfold in_uint, byteZ. pose proof (Byte.to_N_bounded b). change (2 ^ 8) with 256. lia.
Qed.

Lemma Zbyte_byteZ b : Zbyte (byteZ b) = b.
Proof.
  unfold Zbyte. rewrite wrapu_id by apply byteZ_range.
  unfold byteZ. by rewrite N2Z.id, Byte.of_to_N.
Qed.

Lemma byteZ_Zbyte z : byteZ (Zbyte z) = wrapu 8 z.
Proof.
  pose proof (wrapu_range 8 z ltac:(lia)) as [H1 H2]. change (2 ^ 8) with 256 in H2.
  unfold Zbyte. destruct (Byte.of_N (Z.to_N (wrapu 8 z))) as [b|] eqn:E; simpl.
  - apply Byte.to_of_N in E. unfold byteZ. rewrite E. lia.
  - apply Byte.of_N_None_iff in E. lia.
Qed.

#[export] Instance byte_eq_dec : EqDecision byte := Byte.byte_eq_dec.

(** ** Characters of Go strings *)

Definition code (c : ascii) : Z := Z.of_N (N_of_ascii c).
Definition chr (z : Z) : ascii := ascii_of_N (Z.to_N z).

Lemma code_range c : 0 <= code c < 256.
Proof. unfold code. pose proof (N_ascii_bounded c). lia. Qed.

Lemma chr_code c : chr (code c) = c.
Proof. unfold chr, code. by rewrite N2Z.id, ascii_N_embedding. Qed.

Lemma code_chr z : 0 <= z < 256 -> code (chr z) = z.
Proof. intros H. unfold chr, code. rewrite N_ascii_embedding; lia. Qed.

Lemma code_inj c d : code c = code d -> c = d.
Proof. intros H. by rewrite <- (chr_code c), <- (chr_code d), H. Qed.

(** ** Go errors and (value, error) pairs *)

Inductive errno :=
| ENOENT | EEXIST | EINVAL | EPERM | EACCES | EBUSY | EWOULDBLOCK | EIO | ESRCH
| EOTHER (n : Z).

#[export] Instance errno_eq_dec : EqDecision errno.
Proof. solve_decision. Defined.

(** An error value: a system error (with the text the kernel and the Go wrappers
    give it), the sentinels the code compares against, an exited process's status, a
    message made by [errors.New] or by [fmt.Errorf] without [%w], and
    [fmt.Errorf("prefix: %w", err)] and [fmt.Errorf("prefix (%w)", err)]. *)
Inductive error :=
| SysErr (no : errno) (text : string)
| EOF
| ErrUnexpectedEOF
| ErrClosed
| DeadlineExceeded
| Canceled
| ExitError (status : Z) (text : string)
| NewErr (msg : string)
| WrapErr (prefix : string) (inner : error)
| WrapErrParen (prefix : string) (inner : error).

#[export] Instance error_eq_dec : EqDecision error.
Proof. solve_decision. Defined.

(** [err.Error()] *)
Fixpoint ErrorText (e : error) : string :=
  match e with
  | SysErr _ t => t
  | EOF => "EOF"
  | ErrUnexpectedEOF => "unexpected EOF"
  | ErrClosed => "use of closed network connection"
  | DeadlineExceeded => "context deadline exceeded"
  | Canceled => "context canceled"
  | ExitError _ t => t
  | NewErr m => m
  | WrapErr p i => p +:+ ": " +:+ ErrorText i
  | WrapErrParen p i => p +:+ " (" +:+ ErrorText i +:+ ")"
  end.

(** The innermost error of a chain of [%w] wrappers. *)
Fixpoint unwrap (e : error) : error :=
  match e with WrapErr _ i | WrapErrParen _ i => unwrap i | _ => e end.

(** [errors.Is(e, target)] for the sentinel targets. *)
Definition errors_Is (e target : error) : bool := bool_decide (unwrap e = target).

(** [os.IsNotExist] looks at the system error itself, not below [%w] wrappers. *)
Definition IsNotExist (e : error) : bool :=
  match e with SysErr no _ => bool_decide (no = ENOENT) | _ => false end.

(** [errors.Is(e, syscall.EINVAL)] *)
Definition IsEINVAL (e : error) : bool :=
  match unwrap e with SysErr no _ => bool_decide (no = EINVAL) | _ => false end.

Inductive result (A : Type) :=
| Ok (a : A)
| Err (e : error).
Arguments Ok {A} a.
Arguments Err {A} e.

Definition is_ok {A} (r : result A) : bool := match r with Ok _ => true | Err _ => false end.

Definition err_of {A} (r : result A) : option error :=
  match r with Ok _ => None | Err e => Some e end.

#[export] Instance result_ret : MRet result := fun A a => Ok a.
#[export] Instance result_bind : MBind result :=
  fun A B f r => match r with Ok a => f a | Err e => Err e end.

Lemma result_bind_Ok {A B} (f : A -> result B) r b :
  mbind f r = Ok b -> exists a, r = Ok a /\ f a = Ok b.
Proof. destruct r; [eauto | discriminate]. Qed.

(** ** Hint databases *)

Create HintDb gojail.
Create Rewrite HintDb gojail.
#[export] Hint Resolve wrapu_range byteZ_range code_range : gojail.
#[export] Hint Rewrite Zbyte_byteZ byteZ_Zbyte chr_code : gojail.

(** ** Tactics *)

(** Case analysis on the scrutinee of the innermost [match] or [if] of the goal. *)
Ltac case_goal :=
  match goal with
  | |- context [match ?x with _ => _ end] =>
      lazymatch x with
      | context [match _ with _ => _ end] => fail
      | _ => let E := fresh "E" in destruct x eqn:E
      end
  end.

(** Boolean tests in the hypotheses as propositions. *)
Ltac bool_hyps :=
  repeat match goal with
  | H : _ && _ = true |- _ => apply andb_true_iff in H as [? ?]
  | H : _ || _ = false |- _ => apply orb_false_iff in H as [? ?]
  | H : negb _ = true |- _ => apply negb_true_iff in H
  | H : negb _ = false |- _ => apply negb_false_iff in H
  | H : bool_decide _ = true |- _ => apply bool_decide_eq_true in H
  | H : bool_decide _ = false |- _ => apply bool_decide_eq_false in H
  | H : (_ <? _)%nat = true |- _ => apply Nat.ltb_lt in H
  | H : (_ <? _)%nat = false |- _ => apply Nat.ltb_ge in H
  | H : (_ <=? _)%nat = true |- _ => apply Nat.leb_le in H
  | H : (_ <=? _)%nat = false |- _ => apply Nat.leb_gt in H
  | H : (_ <? _) = true |- _ => apply Z.ltb_lt in H
  | H : (_ <? _) = false |- _ => apply Z.ltb_ge in H
  | H : (_ <=? _) = true |- _ => apply Z.leb_le in H
  | H : (_ <=? _) = false |- _ => apply Z.leb_gt in H
  | H : (_ =? _) = true |- _ => apply Z.eqb_eq in H
  | H : (_ =? _) = false |- _ => apply Z.eqb_neq in H
  end.
