(* ===== verification/Effects.v ===== *)
(** * Effects: programs that call their environment

    Code that calls the operating system, a socket or another component is modelled
    as a value of [prog S A]: a finite tree of calls of the signature [S], each with
    one branch for every answer the environment can give.  A theorem over all
    branches ([wp]) or over every handler ([run]) therefore covers every failure the
    environment can produce at every call. *)

From stdpp Require Import relations.
From S2P Require Import Prelude.

(** A signature: the calls and, for each, the type of its answers. *)
Record sig := Sig { call :> Type; ans : call -> Type }.
Arguments Sig call ans : clear implicits.
Arguments ans {s} c.

Inductive prog (S : sig) (A : Type) : Type :=
| Ret (a : A)
| Vis (c : S) (k : ans c -> prog S A).
Arguments Ret {S A} a.
Arguments Vis {S A} c k.

Definition do_call {S : sig} (c : S) : prog S (ans c) := Vis c Ret.

#[export] Instance prog_ret S : MRet (prog S) := fun A a => Ret a.

Fixpoint pbind {S A B} (f : A -> prog S B) (p : prog S A) : prog S B :=
  match p with
  | Ret a => f a
  | Vis c k => Vis c (fun r => pbind f (k r))
  end.

#[export] Instance prog_bind S : MBind (prog S) := fun A B f p => pbind f p.

(** ** Notation for Go's control flow *)

Declare Scope go_scope.
Delimit Scope go_scope with go.

(** [x, err := p; if err != nil { c }; k], with [e] bound in [c]. *)
Notation "'let?' x ':=' p 'onerr' e '=>' c 'in' k" :=
  (mbind (fun r => match r with Ok x => k | Err e => c end) p)
  (at level 10, x binder, e name, p at level 99, c at level 99, k at level 200,
   format "'[v' 'let?'  x  ':='  p  'onerr'  e  '=>'  c  'in' '/' k ']'") : go_scope.

(** [_ = p; k] *)
Notation "'do_' p ';;' k" := (mbind (fun _ => k) p)
  (at level 10, p at level 99, k at level 200,
   format "'[v' 'do_'  p ';;' '/' k ']'") : go_scope.

(** [defer d; body] *)
Definition defer {S A} (d : prog S unit) (body : prog S A) : prog S A :=
  mbind (fun a => mbind (fun _ => Ret a) d) body.

(** [for _, x := range xs { ... }] with a loop-carried state. *)
Fixpoint foldM {S A B} (f : B -> A -> prog S B) (b : B) (xs : list A) : prog S B :=
  match xs with
  | [] => Ret b
  | x :: xs => mbind (fun b' => foldM f b' xs) (f b x)
  end.

(** [for _, x := range xs { if err := f(x); err != nil { return err } }] *)
Fixpoint forErr {S A} (f : A -> prog S (result unit)) (xs : list A) : prog S (result unit) :=
  match xs with
  | [] => Ret (Ok tt)
  | x :: xs => mbind (fun r => match r with Ok _ => forErr f xs | Err e => Ret (Err e) end) (f x)
  end.

(** ** Runs and traces *)

Record event (S : sig) := Ev { ev_call : S; ev_ans : ans ev_call }.
Arguments Ev {S} ev_call ev_ans.
Arguments ev_call {S} e.
Arguments ev_ans {S} e.

(** An environment with state [W]. *)
Definition handler (S : sig) (W : Type) := forall c : S, W -> ans c * W.

Fixpoint run {S W A} (h : handler S W) (p : prog S A) (w : W) : A * W :=
  match p with
  | Ret a => (a, w)
  | Vis c k => let '(r, w') := h c w in run h (k r) w'
  end.

Fixpoint trace {S W A} (h : handler S W) (p : prog S A) (w : W) : list (event S) :=
  match p with
  | Ret _ => []
  | Vis c k => let '(r, w') := h c w in Ev c r :: trace h (k r) w'
  end.

Definition res {S W A} (h : handler S W) (p : prog S A) (w : W) : A := fst (run h p w).
Definition final {S W A} (h : handler S W) (p : prog S A) (w : W) : W := snd (run h p w).

(** The calls of a trace, without the answers. *)
Definition calls {S} (tr : list (event S)) : list S := map ev_call tr.

Lemma run_bind {S W A B} (h : handler S W) (f : A -> prog S B) p w :
  run h (mbind f p) w = let '(a, w') := run h p w in run h (f a) w'.
Proof.
  unfold mbind, prog_bind. revert w. induction p as [a | c k IH]; intros w; simpl; [done |].
  destruct (h c w) as [r w']. apply IH.
Qed.

Lemma trace_bind {S W A B} (h : handler S W) (f : A -> prog S B) p w :
  trace h (mbind f p) w =
  trace h p w ++ (let '(a, w') := run h p w in trace h (f a) w').
Proof.
  unfold mbind, prog_bind. revert w. induction p as [a | c k IH]; intros w; simpl; [done |].
  destruct (h c w) as [r w']. simpl. by rewrite IH.
Qed.

(** ** Weakest preconditions over a ghost state

    [mon] updates a ghost state at each call and answer; [wp mon p s Q] says that
    whatever the environment answers, [p] started in ghost state [s] ends with a value
    and a ghost state that satisfy [Q]. *)

Section wp.
Context {S : sig} {G : Type}.
Variable mon : G -> forall c : S, ans c -> G.

Fixpoint wp {A} (p : prog S A) (s : G) (Q : G -> A -> Prop) : Prop :=
  match p with
  | Ret a => Q s a
  | Vis c k => forall r : ans c, wp (k r) (mon s c r) Q
  end.

Lemma wp_mono {A} (p : prog S A) s (Q Q' : G -> A -> Prop) :
  (forall s a, Q s a -> Q' s a) -> wp p s Q -> wp p s Q'.
Proof. intros HQ. revert s. induction p as [a | c k IH]; simpl; eauto. Qed.

Lemma wp_bind {A B} (f : A -> prog S B) p s (Q : G -> B -> Prop) :
  wp p s (fun s' a => wp (f a) s' Q) -> wp (mbind f p) s Q.
Proof.
  unfold mbind, prog_bind. revert s. induction p as [a | c k IH]; simpl; eauto.
Qed.

Lemma wp_defer {A} (d : prog S unit) (p : prog S A) s Q :
  wp p s (fun s' a => wp d s' (fun s'' _ => Q s'' a)) -> wp (defer d p) s Q.
Proof.
  intros H. unfold defer. apply wp_bind. eapply wp_mono; [| exact H].
  intros s' a H'. apply wp_bind. exact H'.
Qed.

Lemma wp_foldM {A B} (f : B -> A -> prog S B) xs b s (I : list A -> G -> B -> Prop)
    (Q : G -> B -> Prop) :
  I xs s b ->
  (forall x xs s b, I (x :: xs) s b -> wp (f b x) s (fun s' b' => I xs s' b')) ->
  (forall s b, I [] s b -> Q s b) ->
  wp (foldM f b xs) s Q.
Proof.
  intros H0 Hstep Hend. revert b s H0. induction xs as [|x xs IH]; intros b s H0; simpl.
  - by apply Hend.
  - apply wp_bind. eapply wp_mono; [| by apply Hstep]. intros s' b'. apply IH.
Qed.

Lemma wp_forErr {A} (f : A -> prog S (result unit)) xs s (I : list A -> G -> Prop)
    (Q : G -> result unit -> Prop) :
  I xs s ->
  (forall x xs s, I (x :: xs) s ->
     wp (f x) s (fun s' r => match r with Ok _ => I xs s' | Err e => Q s' (Err e) end)) ->
  (forall s, I [] s -> Q s (Ok tt)) ->
  wp (forErr f xs) s Q.
Proof.
  intros H0 Hstep Hend. revert s H0. induction xs as [|x xs IH]; intros s H0; simpl.
  - by apply Hend.
  - apply wp_bind. eapply wp_mono; [| by apply Hstep].
    intros s' [[]|e] H; simpl; [by apply IH | done].
Qed.

(** The ghost state after a trace. *)
Definition mon_trace (s : G) (tr : list (event S)) : G :=
  fold_left (fun s e => mon s (ev_call e) (ev_ans e)) tr s.

(** What [wp] proves holds of the run under every environment. *)
Lemma wp_sound {A W} (h : handler S W) (p : prog S A) w s Q :
  wp p s Q -> Q (mon_trace s (trace h p w)) (res h p w).
Proof.
  unfold res. revert w s. induction p as [a | c k IH]; intros w s H; simpl in *; [done |].
  specialize (H (h c w).1). destruct (h c w) as [r w']. simpl in *. by apply IH.
Qed.
End wp.

(** The ghost state that records the whole history. *)
Definition log_mon {S : sig} (s : list (event S)) (c : S) (r : ans c) : list (event S) :=
  s ++ [Ev c r].

Lemma mon_trace_log {S : sig} (s tr : list (event S)) : mon_trace log_mon s tr = s ++ tr.
Proof.
  revert s. induction tr as [|[c r] tr IH]; intros s; simpl; [by rewrite app_nil_r |].
  rewrite IH. unfold log_mon. by rewrite <- app_assoc.
Qed.

Lemma wp_log_sound {S : sig} {A W} (h : handler S W) (p : prog S A) w Q :
  wp log_mon p [] Q -> Q (trace h p w) (res h p w).
Proof.
  intros H. apply (wp_sound log_mon h p w) in H. by rewrite mon_trace_log in H.
Qed.

(** ** Linking

    A component is written against the operations of the components it calls;
    [translate] replaces each call by the program that implements it. *)
Fixpoint translate {S T : sig} {A} (impl : forall c : S, prog T (ans c)) (p : prog S A) : prog T A :=
  match p with
  | Ret a => Ret a
  | Vis c k => mbind (fun r => translate impl (k r)) (impl c)
  end.

(** ** Possible endings

    [ends p tr a]: with the answers recorded in [tr], the program [p] makes the calls of
    [tr] and returns [a]. *)
Inductive ends {S : sig} {A : Type} : prog S A -> list (event S) -> A -> Prop :=
| ends_ret a : ends (Ret a) [] a
| ends_vis c k (r : ans c) tr a : ends (k r) tr a -> ends (Vis c k) (Ev c r :: tr) a.

Lemma wp_ends {S : sig} {G A} (mon : G -> forall c : S, ans c -> G) (p : prog S A) s Q tr a :
  wp mon p s Q -> ends p tr a -> Q (mon_trace mon s tr) a.
Proof.
  intros Hwp He. revert s Hwp. induction He as [a | c k r tr a He IH]; simpl; auto.
Qed.

Lemma run_ends {S : sig} {A W} (h : handler S W) (p : prog S A) w :
  ends p (trace h p w) (res h p w).
Proof.
  unfold res. revert w. induction p as [a | c k IH]; intros w; simpl; [constructor |].
  destruct (h c w) as [r w']. constructor. apply IH.
Qed.

Lemma ends_inv {S : sig} {A} (p : prog S A) tr a :
  ends p tr a ->
  match p with
  | Ret a' => a = a' /\ tr = []
  | Vis c k => exists r tr', tr = Ev c r :: tr' /\ ends (k r) tr' a
  end.
Proof. intros H. destruct H; eauto. Qed.

Lemma ends_bind_inv {S : sig} {A B} (f : A -> prog S B) p tr b :
  ends (mbind f p) tr b -> exists tr1 a tr2, ends p tr1 a /\ ends (f a) tr2 b /\ tr = tr1 ++ tr2.
Proof.
  unfold mbind, prog_bind. revert tr. induction p as [a | c k IH]; intros tr He; simpl in He.
  - exists [], a, tr. split; [constructor | done].
  - apply ends_inv in He as (r & tr' & -> & He). apply IH in He as (tr1 & a & tr2 & H1 & H2 & ->).
    exists (Ev c r :: tr1), a, tr2. split; [by constructor | done].
Qed.

(** What a linked program returns, its component's program returns for some answers of
    the interface: what is proved against the interface holds of the linked program. *)
Lemma translate_ends {S T : sig} {A} (impl : forall c : S, prog T (ans c)) (p : prog S A) tr a :
  ends (translate impl p) tr a -> exists tr', ends p tr' a.
Proof.
  revert tr. induction p as [a' | c k IH]; intros tr He; simpl in He.
  - apply ends_inv in He as [-> _]. exists []. constructor.
  - apply ends_bind_inv in He as (tr1 & r & tr2 & _ & H2 & _). apply IH in H2 as [tr' H'].
    exists (Ev c r :: tr'). by constructor.
Qed.

(** No ghost state: what holds of the value whatever the environment answers. *)
Definition no_mon {S : sig} (s : unit) (c : S) (r : ans c) : unit := tt.

Lemma wp_res {S : sig} {A W} (h : handler S W) (p : prog S A) w (Q : A -> Prop) :
  wp no_mon p tt (fun _ => Q) -> Q (res h p w).
Proof. apply (wp_sound no_mon h p w tt (fun _ => Q)). Qed.

Lemma wp_ends_res {S : sig} {A} (p : prog S A) tr a (Q : A -> Prop) :
  wp no_mon p tt (fun _ => Q) -> ends p tr a -> Q a.
Proof. intros H He. exact (wp_ends no_mon p tt (fun _ => Q) tr a H He). Qed.

Lemma wp_ends_log {S : sig} {A} (p : prog S A) tr a (Q : list (event S) -> A -> Prop) :
  wp log_mon p [] Q -> ends p tr a -> Q tr a.
Proof.
  intros H He. apply (wp_ends log_mon p [] Q tr a) in H; [| done].
  by rewrite mon_trace_log in H.
Qed.

Create HintDb effects.
#[export] Hint Resolve wp_mono : effects.

(** Step through a program, splitting on each fallible answer and on each match.  [simp]
    computes the ghost state; an answer on which neither it nor the rest of the program
    depends is not split on. *)
Ltac wp_split r :=
  lazymatch type of r with
  | result unit => let e := fresh "e" in destruct r as [[]|e]
  | result _ => let x := fresh "x" in let e := fresh "e" in destruct r as [x|e]
  | unit => destruct r
  | (_ * option _)%type =>
      let o := fresh "out" in let e := fresh "e" in destruct r as [o [e|]]
  | _ => idtac
  end.

Ltac wp_step_with simp :=
  lazymatch goal with
  | |- wp ?m (mbind ?f ?p) ?s ?Q => refine (wp_bind m f p s Q _); cbv beta
  | |- wp ?m (defer ?d ?p) ?s ?Q => refine (wp_defer m d p s Q _); cbv beta
  | |- wp ?m (mret ?a) ?s ?Q => change (Q s a); cbv beta iota
  | |- wp ?m (Ret ?a) ?s ?Q => change (Q s a); cbv beta iota
  | |- wp ?m (do_call ?c) ?s ?Q =>
      let r := fresh "r" in
      intros r; change (Q (m s c r) r); cbv beta; simp tt;
      first [clear r | cbn in r; wp_split r]; cbv iota; simp tt
  | |- wp _ (match ?x with _ => _ end) _ _ => let E := fresh "E" in destruct x eqn:E
  end.
Ltac wp_step := wp_step_with ltac:(fun _ => idtac).
Ltac wp_steps := repeat wp_step.

(** A linked program: the implementation of each call changes the ghost state as the
    call does at the interface. *)
Lemma wp_translate {S T : sig} {G A} (mS : G -> forall c : S, ans c -> G) (mT : G -> forall c : T, ans c -> G)
    (impl : forall c : S, prog T (ans c)) (p : prog S A) s Q :
  (forall s c, wp mT (impl c) s (fun s' r => s' = mS s c r)) ->
  wp mS p s Q -> wp mT (translate impl p) s Q.
Proof.
  intros Himpl. revert s. induction p as [a | c k IH]; intros s Hp; simpl in *; [done |].
  apply wp_bind. eapply wp_mono; [| apply Himpl]. intros s' r ->. by apply IH.
Qed.

(** A part of a ghost state that is a ghost state of its own. *)
Lemma wp_project {S : sig} {G H A} (mon : G -> forall c : S, ans c -> G)
    (mon' : H -> forall c : S, ans c -> H) (proj : G -> H) (p : prog S A) s Q :
  (forall s c r, proj (mon s c r) = mon' (proj s) c r) ->
  wp mon' p (proj s) Q -> wp mon p s (fun s' a => Q (proj s') a).
Proof.
  intros Hproj. revert s. induction p as [a | c k IH]; intros s Hp; simpl in *; [done |].
  intros r. apply IH. rewrite Hproj. apply Hp.
Qed.

(** Two ghost states at once. *)
Definition pair_mon {S : sig} {G H : Type} (mon : G -> forall c : S, ans c -> G)
    (mon' : H -> forall c : S, ans c -> H) (s : G * H) (c : S) (r : ans c) : G * H :=
  (mon s.1 c r, mon' s.2 c r).

Lemma wp_pair {S : sig} {G H A} (mon : G -> forall c : S, ans c -> G) (mon' : H -> forall c : S, ans c -> H)
    (p : prog S A) s t Q R :
  wp mon p s Q -> wp mon' p t R -> wp (pair_mon mon mon') p (s, t) (fun st a => Q st.1 a /\ R st.2 a).
Proof.
  revert s t. induction p as [a | c k IH]; intros s t Hp Hq; simpl in *; [done |].
  intros r. apply IH; [apply Hp | apply Hq].
Qed.

Lemma mon_trace_pair {S : sig} {G H} (mon : G -> forall c : S, ans c -> G)
    (mon' : H -> forall c : S, ans c -> H) s t tr :
  mon_trace (pair_mon mon mon') (s, t) tr = (mon_trace mon s tr, mon_trace mon' t tr).
Proof. revert s t. induction tr as [|e tr IH]; intros s t; [done |]. apply IH. Qed.

(** ** Programs that leave a ghost state alone *)

Section neutral.
Context {S : sig} {G : Type} (mon : G -> forall c : S, ans c -> G).

Definition neutral {A} (p : prog S A) : Prop := forall s, wp mon p s (fun s' _ => s' = s).

Lemma neutral_bind {A B} (f : A -> prog S B) p :
  neutral p -> (forall a, neutral (f a)) -> neutral (mbind f p).
Proof. intros Hp Hf s. apply wp_bind. eapply wp_mono; [| apply Hp]. intros s' a ->. apply Hf. Qed.

Lemma neutral_defer {A} d (p : prog S A) : neutral d -> neutral p -> neutral (defer d p).
Proof.
  intros Hd Hp. unfold defer. apply neutral_bind; [done |]. intros a. by apply neutral_bind.
Qed.

Lemma neutral_forErr {A} (f : A -> prog S (result unit)) xs :
  (forall x, neutral (f x)) -> neutral (forErr f xs).
Proof.
  intros Hf. induction xs as [|x xs IH]; [done |]. simpl. apply neutral_bind; [done |]. by intros [|].
Qed.

Lemma neutral_foldM {A B} (f : B -> A -> prog S B) b xs :
  (forall b x, neutral (f b x)) -> neutral (foldM f b xs).
Proof.
  intros Hf. revert b. induction xs as [|x xs IH]; intros b; [done |]. simpl. by apply neutral_bind.
Qed.
End neutral.

Ltac neutral_step :=
  lazymatch goal with
  | |- neutral _ (mbind _ _) => apply neutral_bind; [| intros ?]
  | |- neutral _ (defer _ _) => apply neutral_defer
  | |- neutral _ (forErr _ _) => apply neutral_forErr; intros ?
  | |- neutral _ (foldM _ _ _) => apply neutral_foldM; intros ? ?
  | |- neutral _ (do_call _) => intros ? ?; reflexivity
  | |- neutral _ (mret _) => intros ?; reflexivity
  | |- neutral _ (Ret _) => intros ?; reflexivity
  | |- neutral _ (match ?x with _ => _ end) => destruct x
  end.
Ltac neutral_steps := repeat neutral_step.

(** A goal [wp mon p s (fun s' _ => s' = s)] from [neutral mon p]. *)
Ltac wp_frame :=
  lazymatch goal with
  | |- wp ?m ?p ?s _ => let H := fresh "H" in enough (neutral m p) as H; [exact (H s) |]
  end.

(** ** Executions in an environment given as a relation

    [step w c r w']: in state [w] the environment may answer the call [c] with [r] and
    go to [w'].  [rwp] is the weakest precondition over all its executions. *)

Section exec.
Context {S : sig} {W : Type} (step : W -> forall c : S, ans c -> W -> Prop).

Inductive exec {A : Type} : prog S A -> W -> A -> W -> Prop :=
| exec_ret a w : exec (Ret a) w a w
| exec_vis c k r w w1 a w2 :
    step w c r w1 -> exec (k r) w1 a w2 -> exec (Vis c k) w a w2.

Fixpoint rwp {A} (p : prog S A) (w : W) (Q : A -> W -> Prop) : Prop :=
  match p with
  | Ret a => Q a w
  | Vis c k => forall r w', step w c r w' -> rwp (k r) w' Q
  end.

Lemma rwp_mono {A} (p : prog S A) w (Q Q' : A -> W -> Prop) :
  (forall a w, Q a w -> Q' a w) -> rwp p w Q -> rwp p w Q'.
Proof. intros HQ. revert w. induction p as [a | c k IH]; simpl; eauto. Qed.

Lemma rwp_bind {A B} (f : A -> prog S B) p w (Q : B -> W -> Prop) :
  rwp p w (fun a w' => rwp (f a) w' Q) -> rwp (mbind f p) w Q.
Proof. unfold mbind, prog_bind. revert w. induction p as [a | c k IH]; simpl; eauto. Qed.

Lemma rwp_defer {A} (d : prog S unit) (p : prog S A) w Q :
  rwp p w (fun a w' => rwp d w' (fun _ w'' => Q a w'')) -> rwp (defer d p) w Q.
Proof.
  intros H. unfold defer. apply rwp_bind. eapply rwp_mono; [| exact H].
  intros a w' H'. by apply rwp_bind.
Qed.

Lemma rwp_exec {A} (p : prog S A) w Q a w' : rwp p w Q -> exec p w a w' -> Q a w'.
Proof. intros H He. revert H. induction He; simpl; eauto. Qed.

(** A handler that the environment allows. *)
Lemma exec_run {A} (h : handler S W) (p : prog S A) w :
  (forall c w, step w c (h c w).1 (h c w).2) -> exec p w (res h p w) (final h p w).
Proof.
  intros Hh. unfold res, final. revert w. induction p as [a | c k IH]; intros w; simpl; [constructor |].
  pose proof (Hh c w) as Hs. destruct (h c w) as [r w']. simpl in Hs. econstructor; [exact Hs |]. apply IH.
Qed.

(** Several operations one after the other. *)
Inductive exec_seq {O : Type} {A : O -> Type} (code : forall o, prog S (A o)) :
  list O -> W -> W -> Prop :=
| exec_nil w : exec_seq code [] w w
| exec_cons o os w a w1 w2 :
    exec (code o) w a w1 -> exec_seq code os w1 w2 -> exec_seq code (o :: os) w w2.

Lemma exec_seq_inv {O : Type} {A : O -> Type} (code : forall o, prog S (A o)) (I : W -> Prop) os w w' :
  (forall o w a w', o ∈ os -> I w -> exec (code o) w a w' -> I w') ->
  I w -> exec_seq code os w w' -> I w'.
Proof.
  intros Hstep Hw He. revert Hw. induction He as [w | o os w a w1 w2 Ho He IH]; [done |].
  intros Hw. apply IH; [intros; eapply Hstep; [by right | ..]; eauto |].
  eapply Hstep; [by left | ..]; eauto.
Qed.
End exec.

(** Step through a program in a relational environment. *)
Ltac rwp_step :=
  lazymatch goal with
  | |- rwp ?m (mbind ?f ?p) ?s ?Q => refine (rwp_bind m f p s Q _); cbv beta
  | |- rwp ?m (defer ?d ?p) ?s ?Q => refine (rwp_defer m d p s Q _); cbv beta
  | |- rwp ?m (mret ?a) ?s ?Q => change (Q a s); cbv beta iota
  | |- rwp ?m (Ret ?a) ?s ?Q => change (Q a s); cbv beta iota
  | |- rwp ?m (do_call ?c) ?s ?Q =>
      let r := fresh "r" in let w := fresh "w" in let Hs := fresh "Hs" in
      intros r w Hs; change (Q r w); cbv beta; cbn in r;
      lazymatch type of r with
      | result unit => let e := fresh "e" in destruct r as [[]|e]
      | result _ => let x := fresh "x" in let e := fresh "e" in destruct r as [x|e]
      | unit => destruct r
      | _ => idtac
      end; cbv iota
  | |- rwp _ (match ?x with _ => _ end) _ _ => let E := fresh "E" in destruct x eqn:E
  end.
Ltac rwp_steps := repeat rwp_step.

(** ** Threads over a shared state

    Several programs take turns, one call at a time; [step i w c r w']: thread [i]'s call
    [c] may be answered [r] and change the shared state from [w] to [w']. *)

Section threads.
Context {S : sig} {W A : Type} (step : nat -> W -> forall c : S, ans c -> W -> Prop).

Inductive tstep : list (prog S A) * W -> list (prog S A) * W -> Prop :=
| tstep_at i c k (r : ans c) ps w w' :
    ps !! i = Some (Vis c k) -> step i w c r w' -> tstep (ps, w) (<[i := k r]> ps, w').

(** [rely i w w']: what the other threads may do to the state while thread [i] does not
    run; a thread's own steps must be such steps for all the others. *)
Variable rely : nat -> W -> W -> Prop.
Hypothesis rely_refl : forall i w, rely i w w.
Hypothesis rely_trans : forall i w1 w2 w3, rely i w1 w2 -> rely i w2 w3 -> rely i w1 w3.

Definition guar (i : nat) (w w' : W) : Prop := forall j, j <> i -> rely j w w'.

(** Thread [i] running [p] from [w], disturbed by the others at any time, disturbs them
    only as they expect and ends with [Q]. *)
Fixpoint tsafe {B} (i : nat) (p : prog S B) (w : W) (Q : B -> W -> Prop) : Prop :=
  match p with
  | Ret a => Q a w
  | Vis c k => forall w1, rely i w w1 -> forall (r : ans c) w2, step i w1 c r w2 ->
                 guar i w1 w2 /\ tsafe i (k r) w2 Q
  end.

Lemma tsafe_bind {B C} i (f : B -> prog S C) p w Q :
  tsafe i p w (fun a w' => tsafe i (f a) w' Q) -> tsafe i (mbind f p) w Q.
Proof.
  unfold mbind, prog_bind. revert w. induction p as [a | c k IH]; simpl; [done |].
  intros w H w1 Hw r w2 Hs. destruct (H w1 Hw r w2 Hs) as [Hg Hk]. split; [done |]. by apply IH.
Qed.

Lemma tsafe_mono {B} i (p : prog S B) w (Q Q' : B -> W -> Prop) :
  (forall a w, Q a w -> Q' a w) -> tsafe i p w Q -> tsafe i p w Q'.
Proof.
  intros HQ. revert w. induction p as [a | c k IH]; simpl; [auto |].
  intros w H w1 Hw r w2 Hs. destruct (H w1 Hw r w2 Hs) as [Hg Hk]. split; [done |]. by apply IH.
Qed.

Lemma tsafe_rely {B} i (p : prog S B) w w' (Q : B -> W -> Prop) :
  (forall a w1 w2, rely i w1 w2 -> Q a w1 -> Q a w2) ->
  rely i w w' -> tsafe i p w Q -> tsafe i p w' Q.
Proof using rely_trans.
  intros HQ Hr. destruct p as [a | c k]; simpl; [by apply HQ |].
  intros H w1 Hw. by apply H, (rely_trans _ _ w').
Qed.

(** Threads that are safe each by itself. *)
Definition all_safe (Q : nat -> A -> W -> Prop) (c : list (prog S A) * W) : Prop :=
  forall i p, c.1 !! i = Some p -> tsafe i p c.2 (Q i).

Section safe.
Variable Q : nat -> A -> W -> Prop.
Hypothesis HQ : forall i a w1 w2, rely i w1 w2 -> Q i a w1 -> Q i a w2.

Lemma all_safe_step c c' :
  all_safe Q c -> tstep c c' ->
  all_safe Q c' /\ forall j, c.1 !! j = None -> rely j c.2 c'.2 /\ c'.1 !! j = None.
Proof using rely_refl rely_trans HQ.
  intros Hs H1. revert Hs. destruct H1 as [i call k r ps w w1 Hi Hstep]. intros Hs.
  destruct (Hs i _ Hi w (rely_refl i w) r w1 Hstep) as [Hg Hk]. split; intros j; simpl.
  - intros p Hj. destruct (decide (j = i)) as [-> | Hne].
    + rewrite list_lookup_insert_eq in Hj by (by eapply lookup_lt_Some). by injection Hj as <-.
    + rewrite list_lookup_insert_ne in Hj by done.
      apply (tsafe_rely j p w w1); [apply HQ | by apply Hg | by apply Hs].
  - intros Hj. simpl in Hi. assert (j <> i) by congruence. split; [by apply Hg |].
    by rewrite list_lookup_insert_ne.
Qed.

(** They are safe together, and what happens while they run is what somebody who is not one
    of them relies on. *)
Lemma threads_safe c c' :
  all_safe Q c -> rtc tstep c c' ->
  all_safe Q c' /\ forall j, c.1 !! j = None -> rely j c.2 c'.2.
Proof using rely_refl rely_trans HQ.
  intros Hs Hr. revert Hs. induction Hr as [c | c c1 c' H1 Hr IH]; intros Hs; [done |].
  destruct (all_safe_step c c1 Hs H1) as [Hs1 Hj1]. destruct (IH Hs1) as [Hs' Hj']. split; [done |].
  intros j Hj. destruct (Hj1 j Hj) as [Hrel Hnone]. apply (rely_trans _ _ c1.2); auto.
Qed.
End safe.
End threads.

(** Concrete interleavings: the threads that the list names take the next steps, with the
    answers of an environment that [step] allows. *)
Section schedule.
Context {S : sig} {W A : Type} (step : nat -> W -> forall c : S, ans c -> W -> Prop).
Variable answer : nat -> W -> forall c : S, option (ans c * W).
Hypothesis answer_step : forall i w c r w', answer i w c = Some (r, w') -> step i w c r w'.

Fixpoint schedule (ts : list nat) (c : list (prog S A) * W) : option (list (prog S A) * W) :=
  match ts with
  | [] => Some c
  | i :: ts =>
      match c.1 !! i with
      | Some (Vis call k) =>
          match answer i c.2 call with
          | Some (r, w') => schedule ts (<[i := k r]> c.1, w')
          | None => None
          end
      | _ => None
      end
  end.

Lemma schedule_steps ts c c' : schedule ts c = Some c' -> rtc (tstep step) c c'.
Proof using answer_step.
  revert c. induction ts as [|i ts IH]; intros [ps w] H; simpl in H; [by injection H as -> |].
  destruct (ps !! i) as [[|call k]|] eqn:Hi; [done | | done].
  destruct (answer i w call) as [[r w']|] eqn:Ha; [| done].
  eapply rtc_l; [| by apply IH]. econstructor; [done | by apply answer_step].
Qed.
End schedule.

Definition returned {S : sig} {W A} (i : nat) (c : list (prog S A) * W) : option A :=
  match c.1 !! i with Some (Ret x) => Some x | _ => None end.

Lemma returned_lookup {S : sig} {W A} i (c : list (prog S A) * W) x :
  returned i c = Some x -> c.1 !! i = Some (Ret x).
Proof. unfold returned. destruct (c.1 !! i) as [[|]|]; [by intros [= ->] | done..]. Qed.

(** ** Programs that make only certain calls *)

Section only.
Context {S : sig} (ok : S -> Prop).

Fixpoint only {A} (p : prog S A) : Prop :=
  match p with Ret _ => True | Vis c k => ok c /\ forall r, only (k r) end.

Lemma only_bind {A B} (f : A -> prog S B) p : only p -> (forall a, only (f a)) -> only (mbind f p).
Proof.
  intros Hp Hf. unfold mbind, prog_bind. induction p as [a | c k IH]; simpl in *; [done |].
  destruct Hp as [Hc Hk]. split; [done |]. intros r. apply IH, Hk.
Qed.

Lemma only_defer {A} d (p : prog S A) : only d -> only p -> only (defer d p).
Proof. intros Hd Hp. unfold defer. apply only_bind; [done |]. intros a. by apply only_bind. Qed.

Lemma only_forErr {A} (f : A -> prog S (result unit)) xs : (forall x, only (f x)) -> only (forErr f xs).
Proof.
  intros Hf. induction xs as [|x xs IH]; [done |]. simpl. apply only_bind; [done |]. by intros [|].
Qed.

Lemma only_foldM {A B} (f : B -> A -> prog S B) b xs : (forall b x, only (f b x)) -> only (foldM f b xs).
Proof. intros Hf. revert b. induction xs as [|x xs IH]; intros b; [done |]. simpl. by apply only_bind. Qed.

(** A property of ghost states that these calls keep. *)
Lemma wp_only {G A} (mon : G -> forall c : S, ans c -> G) (I : G -> Prop) (p : prog S A) s :
  (forall s c r, ok c -> I s -> I (mon s c r)) -> only p -> I s -> wp mon p s (fun s' _ => I s').
Proof.
  intros HI. revert s. induction p as [a | c k IH]; simpl; [done |].
  intros s [Hc Hk] Hs r. by apply IH; [| apply HI].
Qed.
End only.

Lemma only_translate {S T : sig} {A} (okS : S -> Prop) (okT : T -> Prop)
    (impl : forall c : S, prog T (ans c)) (p : prog S A) :
  (forall c, okS c -> only okT (impl c)) -> only okS p -> only okT (translate impl p).
Proof.
  intros Hi. induction p as [a | c k IH]; simpl; [done |]. intros [Hc Hk].
  apply only_bind; [by apply Hi | auto].
Qed.

Ltac only_step :=
  lazymatch goal with
  | |- only _ (mbind _ _) => apply only_bind; [| intros ?]
  | |- only _ (defer _ _) => apply only_defer
  | |- only _ (forErr _ _) => apply only_forErr; intros ?
  | |- only _ (foldM _ _ _) => apply only_foldM; intros ? ?
  | |- only _ (do_call _) => split; [try exact I | done]
  | |- only _ (mret _) => exact I
  | |- only _ (Ret _) => exact I
  | |- only _ (match ?x with _ => _ end) => destruct x
  end.
Ltac only_steps := repeat only_step.

(** A linked program against what each call's implementation does to the ghost state. *)
Lemma wp_translate_spec {S T : sig} {G A} (R : G -> forall c : S, ans c -> G -> Prop)
    (mT : G -> forall c : T, ans c -> G) (impl : forall c : S, prog T (ans c)) (p : prog S A) s Q :
  (forall s c, wp mT (impl c) s (fun s' r => R s c r s')) ->
  rwp R p s (fun a s' => Q s' a) -> wp mT (translate impl p) s Q.
Proof.
  intros Himpl. revert s. induction p as [a | c k IH]; intros s Hp; simpl in *; [done |].
  apply wp_bind. eapply wp_mono; [| apply Himpl]. intros s' r Hr. by apply IH, Hp.
Qed.
