(* ===== verification/GoStrings.v ===== *)
(** * Go's string functions

    The parts of the packages [strings], [strconv], [path/filepath] (Unix) and [bufio]
    that gojail calls, on Go strings (byte strings).  White space is Unicode white
    space in its UTF-8 encoding, as in [unicode.IsSpace].  [ToLower] maps the ASCII
    letters and leaves other bytes alone: its results are only ever compared with
    ["tcp"], ["udp"], ["ro"] and ["rw"], and no other rune lowers to a letter of
    these words. *)

From S2P Require Import Prelude.

(** ** strings *)

Fixpoint list_of (s : string) : list ascii :=
  match s with "" => [] | String a s => a :: list_of s end.

Fixpoint of_list (l : list ascii) : string :=
  match l with [] => "" | a :: l => String a (of_list l) end.

Lemma of_list_of s : of_list (list_of s) = s.
Proof. induction s; simpl; congruence. Qed.

Lemma list_of_of l : list_of (of_list l) = l.
Proof. induction l; simpl; congruence. Qed.

Lemma list_of_app s t : list_of (s +:+ t) = list_of s ++ list_of t.
Proof. induction s; simpl; congruence. Qed.

Lemma list_of_inj s t : list_of s = list_of t -> s = t.
Proof. intros H. by rewrite <- (of_list_of s), H, of_list_of. Qed.

Lemma length_list_of s : length (list_of s) = String.length s.
Proof. induction s; simpl; congruence. Qed.

Definition HasPrefix (s p : string) : bool := String.prefix p s.

Fixpoint drop_str (n : nat) (s : string) : string :=
  match n, s with
  | O, _ => s
  | S n, String _ s => drop_str n s
  | S _, "" => ""
  end.

Fixpoint take_str (n : nat) (s : string) : string :=
  match n, s with
  | O, _ => ""
  | S n, String a s => String a (take_str n s)
  | S _, "" => ""
  end.

Definition TrimPrefix (s p : string) : string :=
  if HasPrefix s p then drop_str (String.length p) s else s.

(** [strings.Split(s, sep)] for a one-byte separator. *)
Fixpoint Split (sep : ascii) (s : string) : list string :=
  match s with
  | "" => [""]
  | String a s' =>
      if bool_decide (a = sep) then "" :: Split sep s'
      else match Split sep s' with
           | [] => [String a ""]
           | w :: ws => String a w :: ws
           end
  end.

Definition Join (l : list string) (sep : string) : string := String.concat sep l.

(** [strings.Index(s, sep)] for a one-byte separator; [None] is -1. *)
Fixpoint IndexByte (sep : ascii) (s : string) : option nat :=
  match s with
  | "" => None
  | String a s' => if bool_decide (a = sep) then Some O else S <$> IndexByte sep s'
  end.

Definition lower (c : ascii) : ascii :=
  if (65 <=? code c) && (code c <=? 90) then chr (code c + 32) else c.

Fixpoint ToLower (s : string) : string :=
  match s with "" => "" | String a s => String (lower a) (ToLower s) end.

(** The UTF-8 encodings of the runes for which [unicode.IsSpace] holds. *)
Definition bytes_str (l : list Z) : string := of_list (map chr l).

Definition unicode_spaces : list string :=
  map bytes_str
    ([[9]; [10]; [11]; [12]; [13]; [32]; [194; 133]; [194; 160]; [225; 154; 128]]
     ++ map (fun z => [226; 128; z]) [128; 129; 130; 131; 132; 133; 134; 135; 136; 137; 138;
                                      168; 169; 175]
     ++ [[226; 129; 159]; [227; 128; 128]]).

(** The number of bytes of the white-space rune at the front of [s], or 0. *)
Definition space_width (s : string) : nat :=
  match List.find (fun sp => HasPrefix s sp) unicode_spaces with
  | Some sp => String.length sp
  | None => O
  end.

(** Each byte with the mark whether it belongs to a white-space rune. *)
Fixpoint mark (skip : nat) (s : string) : list (bool * ascii) :=
  match s with
  | "" => []
  | String a s' =>
      match skip with
      | S k => (true, a) :: mark k s'
      | O => match space_width s with
             | O => (false, a) :: mark O s'
             | S k => (true, a) :: mark k s'
             end
      end
  end.

Fixpoint drop_marked (l : list (bool * ascii)) : list (bool * ascii) :=
  match l with (true, _) :: l' => drop_marked l' | _ => l end.

Definition TrimSpace (s : string) : string :=
  of_list (map snd (reverse (drop_marked (reverse (drop_marked (mark O s)))))).

Fixpoint fields_go (cur : list ascii) (l : list (bool * ascii)) : list string :=
  match l with
  | [] => match cur with [] => [] | _ => [of_list cur] end
  | (true, _) :: l =>
      match cur with [] => fields_go [] l | _ => of_list cur :: fields_go [] l end
  | (false, a) :: l => fields_go (cur ++ [a]) l
  end.

Definition Fields (s : string) : list string := fields_go [] (mark O s).

(** ** Lemmas on Split and Join *)

Fixpoint no_char (c : ascii) (s : string) : bool :=
  match s with "" => true | String a s => negb (bool_decide (a = c)) && no_char c s end.

Lemma Split_not_nil c s : Split c s <> [].
Proof. destruct s; simpl; [done |]. case_bool_decide; [done |]. by destruct (Split c s). Qed.

Lemma Join_Split c s : Join (Split c s) (String c "") = s.
Proof.
  unfold Join. induction s as [|a s IH]; simpl; [done |].
  pose proof (Split_not_nil c s) as Hn.
  case_bool_decide as Hc; subst; destruct (Split c s) as [|w ws]; simpl in *; try done.
  - by rewrite IH.
  - destruct ws; simpl in *; by rewrite <- IH.
Qed.

Lemma Split_no_char c s : Forall (fun w => no_char c w = true) (Split c s).
Proof.
  induction s as [|a s IH]; simpl; [by repeat constructor |].
  case_bool_decide as Hc; [by constructor |].
  destruct (Split c s) as [|w ws]; inversion IH; simplify_eq;
    constructor; simpl; try done; by rewrite bool_decide_false.
Qed.

Lemma Split_single c s : no_char c s = true -> Split c s = [s].
Proof.
  induction s as [|a s IH]; simpl; [done |]. intros [Ha Hs]%andb_prop.
  rewrite IH by done. by case_bool_decide.
Qed.

Lemma Split_app c s t : no_char c s = true -> Split c (s +:+ String c t) = s :: Split c t.
Proof.
  induction s as [|a s IH]; simpl.
  - intros _. by rewrite bool_decide_true.
  - intros [Ha Hs]%andb_prop. rewrite IH by done. by case_bool_decide.
Qed.

Lemma Split_Join c l :
  l <> [] -> Forall (fun w => no_char c w = true) l -> Split c (Join l (String c "")) = l.
Proof.
  unfold Join. intros Hne Hl. induction Hl as [|w l Hw Hl IH]; [done |].
  destruct l as [|w' l].
  - simpl. by apply Split_single.
  - change (String.concat (String c "") (w :: w' :: l))
      with (w +:+ String c (String.concat (String c "") (w' :: l))).
    rewrite Split_app by done. by rewrite IH.
Qed.

Lemma no_char_app c s t : no_char c (s +:+ t) = no_char c s && no_char c t.
Proof. induction s as [|a s IH]; simpl; [done |]. by rewrite IH, andb_assoc. Qed.

Lemma IndexByte_None c s : IndexByte c s = None <-> no_char c s = true.
Proof.
  induction s as [|a s IH]; simpl; [done |]. case_bool_decide; simpl; [done |].
  rewrite fmap_None. apply IH.
Qed.

Lemma IndexByte_app c s t :
  no_char c s = true -> IndexByte c (s +:+ String c t) = Some (String.length s).
Proof.
  induction s as [|a s IH]; simpl; [by rewrite bool_decide_true |].
  intros [Ha Hs]%andb_prop. rewrite IH by done. by case_bool_decide.
Qed.

Lemma IndexByte_Some c s i :
  IndexByte c s = Some i ->
  s = take_str i s +:+ String c (drop_str (S i) s) /\ no_char c (take_str i s) = true.
Proof.
  revert i. induction s as [|a s IH]; intros i; simpl; [done |].
  case_bool_decide as Hc.
  - intros [= <-]. by subst.
  - intros (j & Hj & ->)%fmap_Some. destruct (IH j Hj) as [H1 H2]. simpl.
    split; [by f_equal |]. by rewrite bool_decide_false.
Qed.

Lemma take_str_app s t : take_str (String.length s) (s +:+ t) = s.
Proof. induction s; simpl; [by destruct t | congruence]. Qed.

Lemma drop_str_app s t : drop_str (String.length s) (s +:+ t) = t.
Proof. induction s; simpl; [by destruct t | done]. Qed.

Lemma HasPrefix_app s t : HasPrefix (s +:+ t) s = true.
Proof.
  unfold HasPrefix. induction s as [|a s IH]; simpl; [by destruct t |].
  destruct (Ascii.ascii_dec a a); done.
Qed.

Lemma HasPrefix_elim s p : HasPrefix s p = true -> exists t, s = p +:+ t.
Proof.
  unfold HasPrefix. revert s. induction p as [|a p IH]; intros s; [by exists s |].
  destruct s as [|b s]; simpl; [done |]. destruct (Ascii.ascii_dec a b) as [<-|]; [| done].
  intros (t & ->)%IH. by exists t.
Qed.

Lemma app_str_assoc s t u : (s +:+ t) +:+ u = s +:+ (t +:+ u).
Proof. induction s; simpl; congruence. Qed.

Lemma app_str_nil_r s : s +:+ "" = s.
Proof. induction s; simpl; congruence. Qed.

#[export] Hint Rewrite app_str_assoc app_str_nil_r take_str_app drop_str_app : gojail.


(** ** White space around words of printable ASCII *)

Definition printable (a : ascii) : bool := (33 <=? code a) && (code a <=? 126).

Definition word (s : string) : Prop := s <> "" /\ forallb printable (list_of s) = true.

Lemma space_width_printable a s : printable a = true -> space_width (String a s) = O.
Proof.
  destruct a as [[] [] [] [] [] [] [] []]; intros H; first [discriminate H | reflexivity].
Qed.

Lemma mark_printable w s :
  forallb printable (list_of w) = true ->
  mark O (w +:+ s) = map (pair false) (list_of w) ++ mark O s.
Proof.
  induction w as [|a w IH]; [done |]. cbn [list_of forallb]. intros [Ha Hw]%andb_prop.
  change (String a w +:+ s) with (String a (w +:+ s)). cbn [mark].
  rewrite space_width_printable by done. cbn [map app]. by rewrite IH.
Qed.

Lemma mark_newline s : mark O (String "010" s) = (true, "010"%char) :: mark O s.
Proof. by destruct s. Qed.

Lemma mark_blank s : mark O (String " " s) = (true, " "%char) :: mark O s.
Proof. by destruct s. Qed.

Lemma fields_go_word cur l rest :
  cur ++ l <> [] ->
  fields_go cur (map (pair false) l ++ rest) =
  match rest with
  | [] => [of_list (cur ++ l)]
  | (true, _) :: rest' => of_list (cur ++ l) :: fields_go [] rest'
  | (false, a) :: rest' => fields_go ((cur ++ l) ++ [a]) rest'
  end.
Proof.
  revert cur. induction l as [|a l IH]; intros cur Hne; cbn [map app].
  - rewrite app_nil_r in *. destruct rest as [|[[] b] rest]; simpl; destruct cur; done.
  - cbn [fields_go]. rewrite IH by (by destruct cur). by rewrite <- app_assoc.
Qed.

Lemma list_of_not_nil s : s <> "" -> list_of s <> [].
Proof. by destruct s. Qed.

(** A word at the end of its line, before a blank, or alone. *)
Lemma Fields_newline w s : word w -> Fields (w +:+ String "010" s) = w :: Fields s.
Proof.
  intros [Hne Hw]. unfold Fields. rewrite mark_printable, mark_newline by done.
  rewrite fields_go_word by (by apply list_of_not_nil). by rewrite app_nil_l, of_list_of.
Qed.

Lemma Fields_blank w s : word w -> Fields (w +:+ String " " s) = w :: Fields s.
Proof.
  intros [Hne Hw]. unfold Fields. rewrite mark_printable, mark_blank by done.
  rewrite fields_go_word by (by apply list_of_not_nil). by rewrite app_nil_l, of_list_of.
Qed.

Lemma Fields_word w : word w -> Fields w = [w].
Proof.
  intros [Hne Hw]. unfold Fields. pose proof (mark_printable w "" Hw) as Hm.
  rewrite app_str_nil_r, app_nil_r in Hm. rewrite Hm, <- (app_nil_r (map _ _)).
  rewrite fields_go_word by (by apply list_of_not_nil). by rewrite app_nil_l, of_list_of.
Qed.

Definition lines (ws : list string) : string :=
  of_list (concat (map (fun w => list_of w ++ ["010"%char]) ws)).

Lemma lines_cons w ws : lines (w :: ws) = w +:+ String "010" (lines ws).
Proof.
  apply list_of_inj. unfold lines. rewrite list_of_app. cbn [list_of]. rewrite !list_of_of.
  cbn [map concat]. by rewrite <- app_assoc.
Qed.

Lemma Fields_lines ws : Forall word ws -> Fields (lines ws) = ws.
Proof.
  induction 1 as [|w ws Hw _ IH]; [done |]. by rewrite lines_cons, Fields_newline, IH.
Qed.

Lemma map_reverse {A B} (f : A -> B) l : map f (reverse l) = reverse (map f l).
Proof. apply (fmap_reverse f). Qed.

Lemma drop_marked_word l rest :
  l <> [] -> drop_marked (map (pair false) l ++ rest) = map (pair false) l ++ rest.
Proof. by destruct l. Qed.

Lemma drop_marked_false (l : list ascii) : drop_marked (map (pair false) l) = map (pair false) l.
Proof. by destruct l. Qed.

Lemma TrimSpace_line w : word w -> TrimSpace (w +:+ String "010" "") = w.
Proof.
  intros [Hne Hw]. unfold TrimSpace. rewrite mark_printable, mark_newline by done. cbn [mark].
  pose proof (list_of_not_nil w Hne) as Hl. rewrite drop_marked_word by done.
  rewrite reverse_app. change (reverse [(true, "010"%char)]) with [(true, "010"%char)].
  rewrite <- (of_list_of w) at 2. f_equal. cbn [app drop_marked].
  rewrite <- map_reverse, drop_marked_false, map_reverse, map_map. cbn [snd].
  by rewrite map_id, reverse_involutive.
Qed.

(** ** ASCII text *)

Fixpoint ascii_text (s : string) : bool :=
  match s with "" => true | String c s => (code c <? 128) && ascii_text s end.

Lemma ascii_text_app s t : ascii_text (s +:+ t) = ascii_text s && ascii_text t.
Proof.
  induction s as [|c s IH]; [done |]. change (String c s +:+ t) with (String c (s +:+ t)).
  simpl. by rewrite IH, andb_assoc.
Qed.

Lemma concat_str_cons a l : String.concat "" (a :: l) = a +:+ String.concat "" l.
Proof. destruct l as [|b l]; [by rewrite app_str_nil_r | done]. Qed.
