(* ===== verification/GoStrconv.v ===== *)
(** * Go's decimal conversions

    [strconv.ParseInt(s, 10, 64)], [strconv.Atoi] (the same function on a 64-bit
    machine) and [strconv.Itoa] / [strconv.FormatInt(n, 10)], with the values returned
    next to the errors: several callers of gojail ignore the error and use the value. *)

From S2P Require Import Prelude GoStrings.

Inductive num_error := ErrSyntax | ErrRange.

#[export] Instance num_error_eq_dec : EqDecision num_error.
Proof. solve_decision. Defined.

Definition maxUint64 : Z := 2 ^ 64 - 1.
(** [maxUint64/10 + 1] *)
Definition uint_cutoff : Z := 1844674407370955162.

Fixpoint ParseUint_go (s : string) (n : Z) : Z * option num_error :=
  match s with
  | "" => (n, None)
  | String a s' =>
      let d := code a - 48 in
      if (d <? 0) || (9 <? d) then (0, Some ErrSyntax)
      else if uint_cutoff <=? n then (maxUint64, Some ErrRange)
      else
        let n' := n * 10 in
        let n1 := uint64 (n' + d) in
        if n1 <? n' then (maxUint64, Some ErrRange) else ParseUint_go s' n1
  end.

Definition ParseUint (s : string) : Z * option num_error :=
  match s with "" => (0, Some ErrSyntax) | _ => ParseUint_go s 0 end.

Definition split_sign (s : string) : bool * string :=
  match s with
  | String a s' =>
      if bool_decide (a = "-"%char) then (true, s')
      else if bool_decide (a = "+"%char) then (false, s') else (false, s)
  | "" => (false, "")
  end.

Definition ParseInt (s : string) : Z * option num_error :=
  match s with
  | "" => (0, Some ErrSyntax)
  | _ =>
      let '(neg, s') := split_sign s in
      match ParseUint s' with
      | (_, Some ErrSyntax) => (0, Some ErrSyntax)
      | (un, _) =>
          if negb neg && (2 ^ 63 <=? un) then (2 ^ 63 - 1, Some ErrRange)
          else if neg && (2 ^ 63 <? un) then (- 2 ^ 63, Some ErrRange)
          else (if neg then - un else un, None)
      end
  end.

Definition Atoi (s : string) : Z * option num_error := ParseInt s.

Definition digit (d : Z) : ascii := chr (48 + d).

Fixpoint udigits (fuel : nat) (n : Z) (acc : string) : string :=
  match fuel with
  | O => acc
  | S f =>
      let acc' := String (digit (n mod 10)) acc in
      if n <? 10 then acc' else udigits f (n / 10) acc'
  end.

(** A number has at most as many decimal digits as bits. *)
Definition Utoa (n : Z) : string := udigits (S (Z.to_nat (Z.log2 n))) n "".

Definition Itoa (n : Z) : string := if n <? 0 then "-" +:+ Utoa (- n) else Utoa n.

(** ** The decimal value of a digit string *)

Definition is_digit (c : ascii) : bool := (48 <=? code c) && (code c <=? 57).

Fixpoint all_digits (s : string) : bool :=
  match s with "" => true | String a s => is_digit a && all_digits s end.

Fixpoint dec_value (acc : Z) (s : string) : Z :=
  match s with "" => acc | String a s => dec_value (acc * 10 + (code a - 48)) s end.

Lemma is_digit_code c : is_digit c = true <-> 48 <= code c <= 57.
Proof. unfold is_digit. rewrite andb_true_iff, !Z.leb_le. done. Qed.

Lemma dec_value_ge s n : 0 <= n -> all_digits s = true -> n <= dec_value n s.
Proof.
  revert n. induction s as [|a s IH]; intros n Hn; simpl; [lia |].
  intros [Ha%is_digit_code Hs]%andb_prop.
  specialize (IH (n * 10 + (code a - 48)) ltac:(lia) Hs). lia.
Qed.

Lemma ParseUint_go_ok s n :
  0 <= n -> all_digits s = true -> dec_value n s < 2 ^ 64 ->
  ParseUint_go s n = (dec_value n s, None).
Proof.
  revert n. induction s as [|a s IH]; intros n Hn; simpl; [done |].
  intros [Ha%is_digit_code Hs]%andb_prop Hlt.
  pose proof (dec_value_ge s (n * 10 + (code a - 48)) ltac:(lia) Hs) as Hge.
  assert (n < uint_cutoff) by (unfold uint_cutoff; lia).
  rewrite (wrapu_id 64) by (unfold in_uint; lia).
  repeat (rewrite (proj2 (Z.ltb_ge _ _)) by lia). simpl.
  rewrite (proj2 (Z.leb_gt _ _)) by done. apply IH; [lia | done | done].
Qed.

Lemma ParseUint_go_inv s n v :
  in_uint 64 n -> ParseUint_go s n = (v, None) ->
  all_digits s = true /\ v = dec_value n s /\ in_uint 64 v.
Proof.
  revert n. induction s as [|a s IH]; intros n Hn; simpl; [by intros [= <-] |].
  destruct ((code a - 48 <? 0) || (9 <? code a - 48)) eqn:Hd; [done |].
  apply orb_false_iff in Hd as [H1%Z.ltb_ge H2%Z.ltb_ge].
  destruct (uint_cutoff <=? n) eqn:Hc; [done | apply Z.leb_gt in Hc].
  destruct (_ <? n * 10) eqn:Hw; [done | apply Z.ltb_ge in Hw].
  unfold uint_cutoff, maxUint64 in Hc. unfold in_uint in Hn.
  assert (wrapu 64 (n * 10 + (code a - 48)) = n * 10 + (code a - 48)) as ->.
  { unfold wrapu in *. pose proof (Z.mod_pos_bound (n * 10 + (code a - 48)) (2 ^ 64) ltac:(lia)).
    destruct (Z.lt_ge_cases (n * 10 + (code a - 48)) (2 ^ 64)) as [Hlt | Hge];
      [by apply Z.mod_small; lia |].
    rewrite <- (Z.mod_unique (n * 10 + (code a - 48)) (2 ^ 64) 1
      (n * 10 + (code a - 48) - 2 ^ 64)) in Hw by lia. lia. }
  unfold wrapu in Hw.
  destruct (Z.lt_ge_cases (n * 10 + (code a - 48)) (2 ^ 64)) as [Hlt | Hge].
  - intros H. apply IH in H; [| unfold in_uint; lia].
    destruct H as (Hs & -> & Hr). rewrite Hs, andb_true_r.
    split; [apply is_digit_code; lia | done].
  - rewrite <- (Z.mod_unique (n * 10 + (code a - 48)) (2 ^ 64) 1
      (n * 10 + (code a - 48) - 2 ^ 64)) in Hw by lia. lia.
Qed.

(** ** Printing *)

Lemma digit_code d : 0 <= d <= 9 -> code (digit d) = 48 + d.
Proof. intros H. unfold digit. apply code_chr. lia. Qed.

Lemma udigits_spec fuel n acc :
  0 <= n < 10 ^ Z.of_nat fuel -> all_digits acc = true ->
  all_digits (udigits fuel n acc) = true /\
  dec_value 0 (udigits fuel n acc) = dec_value n acc.
Proof.
  revert n acc. induction fuel as [|f IH]; intros n acc Hn Hacc.
  - simpl in *. by replace n with 0 by lia.
  - rewrite Nat2Z.inj_succ, Z.pow_succ_r in Hn by lia. simpl.
    pose proof (Z.mod_pos_bound n 10 ltac:(lia)) as Hm.
    pose proof (Z.div_mod n 10 ltac:(lia)) as Hdm.
    assert (all_digits (String (digit (n mod 10)) acc) = true) as Hacc'.
    { simpl. rewrite Hacc, andb_true_r. apply is_digit_code. rewrite digit_code; lia. }
    destruct (Z.ltb_spec n 10).
    + split; [done |]. simpl. rewrite digit_code, Z.mod_small by lia. f_equal. lia.
    + destruct (IH (n / 10) _ ltac:(lia) Hacc') as [H1 H2]. split; [done |].
      rewrite H2. simpl. rewrite digit_code by lia. f_equal. lia.
Qed.

Lemma udigits_not_nil fuel n acc : (0 < fuel)%nat -> udigits fuel n acc <> "".
Proof.
  revert n acc. induction fuel as [|f IH]; intros n acc H; simpl; [lia |].
  case_match; [done |]. destruct f; [done | apply IH; lia].
Qed.

Lemma Utoa_fuel n : 0 <= n -> n < 10 ^ Z.of_nat (S (Z.to_nat (Z.log2 n))).
Proof.
  intros Hn. pose proof (Z.log2_nonneg n).
  rewrite Nat2Z.inj_succ, Z2Nat.id by done.
  destruct (Z.eq_dec n 0) as [-> | Hne]; [done |].
  pose proof (Z.log2_spec n ltac:(lia)) as [_ H2].
  eapply Z.lt_le_trans; [exact H2 |]. apply Z.pow_le_mono_l; lia.
Qed.

Lemma Utoa_spec n :
  0 <= n -> all_digits (Utoa n) = true /\ dec_value 0 (Utoa n) = n /\ Utoa n <> "".
Proof.
  intros Hn. unfold Utoa. pose proof (Utoa_fuel n Hn).
  destruct (udigits_spec _ n "" (conj Hn H) eq_refl) as [H1 H2].
  split; [done |]. split; [done |]. apply udigits_not_nil. lia.
Qed.

Lemma digits_no_char c s : is_digit c = false -> all_digits s = true -> no_char c s = true.
Proof.
  intros Hc. induction s as [|a s IH]; simpl; [done |]. intros [Ha Hs]%andb_prop.
  rewrite IH by done. case_bool_decide; [congruence | done].
Qed.

Lemma Itoa_no_char c n :
  is_digit c = false -> c <> "-"%char -> no_char c (Itoa n) = true.
Proof.
  intros Hc Hm. unfold Itoa. destruct (Z.ltb_spec n 0); simpl.
  - rewrite bool_decide_false by done. apply digits_no_char, Utoa_spec; [done | lia].
  - by apply digits_no_char, Utoa_spec.
Qed.

Lemma split_sign_digits s : all_digits s = true -> split_sign s = (false, s).
Proof.
  destruct s as [|a s]; simpl; [done |]. intros [Ha%is_digit_code _]%andb_prop.
  rewrite !bool_decide_false; [done | intros -> ..]; by destruct Ha.
Qed.

Lemma ParseInt_digits s :
  s <> "" -> all_digits s = true -> dec_value 0 s < 2 ^ 63 ->
  ParseInt s = (dec_value 0 s, None).
Proof.
  intros Hne Hs Hlt. unfold ParseInt. rewrite split_sign_digits by done.
  unfold ParseUint. pose proof (ParseUint_go_ok s 0 ltac:(lia) Hs ltac:(lia)) as Hgo.
  destruct s as [|a s]; [done |]. rewrite Hgo. simpl.
  by rewrite (proj2 (Z.leb_gt _ _)) by done.
Qed.

(** Printing and parsing an [int] are inverse. *)
Lemma Atoi_Itoa n : in_sint 64 n -> Atoi (Itoa n) = (n, None).
Proof.
  unfold in_sint, Atoi, Itoa. change (64 - 1) with 63. intros Hn.
  destruct (Z.ltb_spec n 0).
  - destruct (Utoa_spec (- n) ltac:(lia)) as (H1 & H2 & H3).
    unfold ParseInt. simpl. unfold ParseUint.
    pose proof (ParseUint_go_ok (Utoa (- n)) 0 ltac:(lia) H1 ltac:(lia)) as Hgo.
    destruct (Utoa (- n)) as [|a s] eqn:Hu; [done |]. rewrite Hgo, H2. simpl.
    rewrite (proj2 (Z.ltb_ge _ _)) by lia. f_equal. lia.
  - destruct (Utoa_spec n ltac:(lia)) as (H1 & H2 & H3).
    rewrite ParseInt_digits by (done || lia). by rewrite H2.
Qed.

(** An accepted string is an optional sign and a non-empty digit string, and the
    value is the signed decimal value, within 64 bits. *)
Lemma ParseInt_inv s v :
  ParseInt s = (v, None) ->
  let '(neg, ds) := split_sign s in
  ds <> "" /\ all_digits ds = true /\
  v = (if neg then - dec_value 0 ds else dec_value 0 ds) /\ in_sint 64 v.
Proof.
  unfold ParseInt. destruct s as [|a s]; [done |].
  destruct (split_sign (String a s)) as [neg ds]. unfold ParseUint.
  destruct ds as [|b ds]; [done |].
  destruct (ParseUint_go (String b ds) 0) as [un err] eqn:Hgo.
  assert (err = None -> all_digits (String b ds) = true /\ un = dec_value 0 (String b ds)
    /\ in_uint 64 un) as Hinv.
  { intros ->. by apply ParseUint_go_inv in Hgo. }
  assert (err = Some ErrRange -> un = maxUint64) as Hrange.
  { intros ->. clear Hinv. revert Hgo. generalize (String b ds) 0. clear.
    induction s as [|a s IH]; intros z; simpl; [done |].
    repeat case_match; naive_solver. }
  unfold in_sint, in_uint, maxUint64 in *. change (64 - 1) with 63.
  destruct err as [[]|]; simpl; [done | |].
  - rewrite Hrange by done. by destruct neg.
  - destruct Hinv as (H1 & H2 & H3); [done |]. simpl in H1, H2.
    destruct neg; simpl.
    + destruct (Z.ltb_spec (2 ^ 63) un); [done |]. intros [= <-].
      repeat split; [done | done | by rewrite H2 | lia | lia].
    + destruct (Z.leb_spec (2 ^ 63) un); [done |]. intros [= <-].
      repeat split; [done | done | by rewrite H2 | lia | lia].
Qed.

Example Atoi_examples :
  map Atoi ["8080"; "-1"; "+7"; "007"; "1_0"; ""; "-"; "9223372036854775807";
            "9223372036854775808"; "99999999999999999999x"] =
  [(8080, None); (-1, None); (7, None); (7, None); (0, Some ErrSyntax); (0, Some ErrSyntax);
   (0, Some ErrSyntax); (9223372036854775807, None);
   (9223372036854775807, Some ErrRange); (9223372036854775807, Some ErrRange)].
Proof. vm_compute. reflexivity. Qed.

#[export] Hint Resolve Itoa_no_char digits_no_char : gojail.

Lemma digits_printable s : all_digits s = true -> forallb printable (list_of s) = true.
Proof.
  induction s as [|a s IH]; [done |]. cbn [all_digits list_of forallb].
  intros [Ha%is_digit_code Hs]%andb_prop. rewrite IH by done. unfold printable.
  rewrite andb_true_r. apply andb_true_intro. split; apply Z.leb_le; lia.
Qed.

Lemma Itoa_word n : word (Itoa n).
Proof.
  unfold Itoa. destruct (Z.ltb_spec n 0).
  - destruct (Utoa_spec (- n) ltac:(lia)) as (H1 & _ & _). split; [done |].
    change ("-" +:+ Utoa (- n)) with (String "-" (Utoa (- n))). simpl. by apply digits_printable.
  - destruct (Utoa_spec n ltac:(lia)) as (H1 & _ & H3). split; [done |]. by apply digits_printable.
Qed.

Lemma digits_ascii s : all_digits s = true -> ascii_text s = true.
Proof.
  induction s as [|a s IH]; [done |]. cbn [all_digits ascii_text].
  intros [Ha%is_digit_code Hs]%andb_prop. rewrite IH by done.
  rewrite andb_true_r. apply Z.ltb_lt. lia.
Qed.

Lemma Itoa_ascii n : ascii_text (Itoa n) = true.
Proof.
  unfold Itoa. destruct (Z.ltb_spec n 0); [rewrite ascii_text_app; simpl |]; apply digits_ascii, Utoa_spec; lia.
Qed.
