(* ===== verification/GoFmt.v ===== *)
(** * What gojail prints with package fmt and package time

    Padding to a width in runes ([%-24s]), two decimals of a float64 ([%.2f]) and
    durations ([%v]).  [strconv] rounds the exact decimal value, ties to even. *)

From Stdlib Require Import SpecFloat.
From S2P Require Import Prelude GoStrings GoStrconv.

(** ** utf8.RuneCountInString

    An invalid byte counts as one rune.  [lead b] is the number of continuation bytes
    after the first byte [b], and the range the first of them has to lie in. *)

Definition lead (b : Z) : nat * Z * Z :=
  if (194 <=? b) && (b <=? 223) then (1%nat, 128, 191)
  else if b =? 224 then (2%nat, 160, 191)
  else if b =? 237 then (2%nat, 128, 159)
  else if (225 <=? b) && (b <=? 239) then (2%nat, 128, 191)
  else if b =? 240 then (3%nat, 144, 191)
  else if (241 <=? b) && (b <=? 243) then (3%nat, 128, 191)
  else if b =? 244 then (3%nat, 128, 143)
  else (0%nat, 0, 0).

Fixpoint continues (n : nat) (lo hi : Z) (s : string) : bool :=
  match n, s with
  | O, _ => true
  | S n, String b s => (lo <=? code b) && (code b <=? hi) && continues n 128 191 s
  | S _, "" => false
  end.

(** The bytes of the rune that starts with [a], after [a]. *)
Definition rune_tail (a : ascii) (s : string) : nat :=
  let '(n, lo, hi) := lead (code a) in if continues n lo hi s then n else O.

Fixpoint rune_count (skip : nat) (s : string) : nat :=
  match s with
  | "" => O
  | String a s' =>
      match skip with
      | S k => rune_count k s'
      | O => S (rune_count (rune_tail a s') s')
      end
  end.

Definition RuneCount : string -> nat := rune_count 0.

Fixpoint spaces (n : nat) : string :=
  match n with O => "" | S n => String " " (spaces n) end.

(** [%-ws] *)
Definition pad_right (w : nat) (s : string) : string := s +:+ spaces (w - RuneCount s).

(** ** %.2f *)

(** The integer nearest to [num / den], ties to even. *)
Definition round_half_even (num den : Z) : Z :=
  let q := num / den in
  let r := num mod den in
  if 2 * r <? den then q else if den <? 2 * r then q + 1 else if Z.even q then q else q + 1.

(** [m * 2^e] in hundredths. *)
Definition hundredths (m e : Z) : Z :=
  if 0 <=? e then m * 2 ^ e * 100 else round_half_even (m * 100) (2 ^ (- e)).

Definition show_hundredths (q : Z) : string :=
  Itoa (q / 100) +:+ "." +:+ String (digit (q mod 100 / 10)) (String (digit (q mod 10)) "").

Definition minus (neg : bool) : string := if neg then "-" else "".

Definition Format2f (x : spec_float) : string :=
  match x with
  | S754_zero s => minus s +:+ "0.00"
  | S754_infinity s => if s then "-Inf" else "+Inf"
  | S754_nan => "NaN"
  | S754_finite s m e => minus s +:+ show_hundredths (hundredths (Z.pos m) e)
  end.

(** ** time.Duration *)

(** [fmtFrac]: the last [prec] digits of [v] behind a point, without trailing zeros and
    without the point when they are all zero; and the rest of [v].  [acc] is what is
    printed already. *)
Fixpoint fmtFrac (prec : nat) (print : bool) (v : Z) (acc : string) : string * Z :=
  match prec with
  | O => (if print then "." +:+ acc else acc, v)
  | S prec =>
      let d := v mod 10 in
      let print := print || negb (d =? 0) in
      fmtFrac prec print (v / 10) (if print then String (digit d) acc else acc)
  end.

Definition Nanosecond : Z := 1.
Definition Microsecond : Z := 1000.
Definition Millisecond : Z := 1000000.

(** The micro sign is two bytes. *)
Definition micro : string := String (chr 194) (String (chr 181) "").

Definition small_duration (u : Z) (prec : nat) (unit : string) : string :=
  let '(frac, v) := fmtFrac prec false u unit in Itoa v +:+ frac.

Definition duration_text (u : Z) : string :=
  if u <? 1000 * Millisecond then
    if u =? 0 then "0s"
    else if u <? Microsecond then small_duration u 0 "ns"
    else if u <? Millisecond then small_duration u 3 (micro +:+ "s")
    else small_duration u 6 "ms"
  else
    let '(frac, v) := fmtFrac 9 false u "s" in
    let s := Itoa (v mod 60) +:+ frac in
    let minutes := v / 60 in
    if 0 <? minutes then
      let s := Itoa (minutes mod 60) +:+ "m" +:+ s in
      let hours := minutes / 60 in
      if 0 <? hours then Itoa hours +:+ "h" +:+ s else s
    else s.

(** [Duration.String] *)
Definition DurationString (d : Z) : string := minus (d <? 0) +:+ duration_text (Z.abs d).

(** [Duration.Truncate] *)
Definition Truncate_duration (d m : Z) : Z := if m <=? 0 then d else d - Z.rem d m.

Example duration_examples :
  map DurationString [0; 5; 1500; 2000000; 1500000000; 61000000000; 7325000000000; -1000000000; - 2 ^ 63] =
  ["0s"; "5ns"; "1.5" +:+ micro +:+ "s"; "2ms"; "1.5s"; "1m1s"; "2h2m5s"; "-1s"; "-2562047h47m16.854775808s"].
Proof. vm_compute. reflexivity. Qed.

Example format_examples :
  map Format2f [S754_zero false; S754_finite false 1 (-3); S754_finite false 3 (-3); S754_finite true 5 (-1);
                S754_finite false 7 10; S754_finite false 1 (-1074)] =
  ["0.00"; "0.12"; "0.38"; "-2.50"; "7168.00"; "0.00"].
Proof. vm_compute. reflexivity. Qed.

(** ** Lemmas *)

Lemma length_spaces n : String.length (spaces n) = n.
Proof. induction n as [|n IH]; simpl; [done | by rewrite IH]. Qed.

(** The number printed is the nearest one: the error is at most half a unit. *)
Lemma round_half_even_close num den :
  0 < den -> Z.abs (2 * (round_half_even num den * den - num)) <= den.
Proof.
  intros Hd. unfold round_half_even. pose proof (Z.div_mod num den ltac:(lia)) as E.
  pose proof (Z.mod_pos_bound num den Hd) as Hr.
  destruct (Z.ltb_spec (2 * (num mod den)) den); [nia |].
  destruct (Z.ltb_spec den (2 * (num mod den))); [nia |]. destruct (Z.even _); nia.
Qed.

Lemma rune_tail_ascii a s : code a < 128 -> rune_tail a s = O.
Proof.
  intros Ha. unfold rune_tail, lead.
  repeat match goal with
  | |- context [?x <=? code a] => rewrite (proj2 (Z.leb_gt x (code a))) by lia
  | |- context [code a =? ?x] => rewrite (proj2 (Z.eqb_neq (code a) x)) by lia
  end. done.
Qed.

(** Text of ASCII bytes has as many runes as bytes. *)
Lemma RuneCount_ascii s : ascii_text s = true -> RuneCount s = String.length s.
Proof.
  unfold RuneCount. induction s as [|a s IH]; [done |]. cbn [ascii_text].
  intros [Ha%Z.ltb_lt Hs]%andb_prop. cbn [rune_count String.length]. rewrite rune_tail_ascii by done.
  by rewrite IH.
Qed.

(** A space is never part of another rune. *)
Lemma continues_space n lo hi s t :
  32 < lo -> continues n lo hi (s +:+ String " " t) = continues n lo hi s.
Proof.
  revert lo hi s. induction n as [|n IH]; intros lo hi s Hlo; [done |]. destruct s as [|b s].
  - change ("" +:+ ?x) with x. cbn [continues]. change (code " ") with 32.
    by rewrite (proj2 (Z.leb_gt lo 32)) by lia.
  - change (String b s +:+ ?x) with (String b (s +:+ x)). cbn [continues]. by rewrite IH by lia.
Qed.

Lemma continues_length n lo hi s : continues n lo hi s = true -> (n <= String.length s)%nat.
Proof.
  revert lo hi s. induction n as [|n IH]; intros lo hi s; [lia |]. destruct s as [|b s]; [done |].
  cbn [continues String.length]. intros [_ H%IH]%andb_prop. lia.
Qed.

Lemma lead_range b : let '(n, lo, hi) := lead b in n = O \/ 32 < lo.
Proof. unfold lead. repeat case_match; simplify_eq; (by left) || (right; lia). Qed.

Lemma rune_tail_space a s t : rune_tail a (s +:+ String " " t) = rune_tail a s.
Proof.
  unfold rune_tail. pose proof (lead_range (code a)) as Hl. destruct (lead (code a)) as [[n lo] hi].
  destruct Hl as [-> | Hl]; [done |]. by rewrite continues_space.
Qed.

Lemma rune_tail_length a s : (rune_tail a s <= String.length s)%nat.
Proof.
  unfold rune_tail. destruct (lead (code a)) as [[n lo] hi]. destruct (continues n lo hi s) eqn:E; [| lia].
  by eapply continues_length.
Qed.

Lemma rune_count_space k s t :
  (k <= String.length s)%nat -> rune_count k (s +:+ String " " t) = (rune_count k s + S (RuneCount t))%nat.
Proof.
  revert k. induction s as [|a s IH]; intros k Hk.
  - simpl in Hk. replace k with O by lia. reflexivity.
  - change (String a s +:+ ?x) with (String a (s +:+ x)). cbn [rune_count]. simpl in Hk.
    destruct k as [|k]; [| apply IH; lia]. rewrite rune_tail_space, IH by apply rune_tail_length. lia.
Qed.

Lemma RuneCount_space s t : RuneCount (s +:+ String " " t) = (RuneCount s + S (RuneCount t))%nat.
Proof. apply rune_count_space. lia. Qed.

(** Padding counts. *)
Lemma RuneCount_spaces s n t :
  (0 < n)%nat -> RuneCount (s +:+ spaces n +:+ t) = (RuneCount s + n + RuneCount t)%nat.
Proof.
  revert s. induction n as [|n IH]; intros s Hn; [lia |].
  change (spaces (S n) +:+ t) with (String " " (spaces n +:+ t)). rewrite RuneCount_space.
  destruct n as [|n]; [change (spaces 0 +:+ t) with t; lia |].
  pose proof (IH "" ltac:(lia)) as E. change ("" +:+ ?x) with x in E. rewrite E. change (RuneCount "") with O. lia.
Qed.
