(* ===== verification/GoPath.v ===== *)
(** * Go's lexical path functions (Unix)

    [filepath.Clean], [filepath.Join], [filepath.Dir] and [filepath.IsAbs], by the
    components of the path between slashes. *)

From S2P Require Import Prelude GoStrings.

Definition slash : ascii := "/"%char.

(** The output components, most recent first in [acc]. *)
Fixpoint clean_go (rooted : bool) (acc : list string) (cs : list string) : list string :=
  match cs with
  | [] => reverse acc
  | c :: cs =>
      if bool_decide (c = "") || bool_decide (c = ".") then clean_go rooted acc cs
      else if bool_decide (c = "..") then
        match acc with
        | [] => if rooted then clean_go rooted [] cs else clean_go rooted [".."] cs
        | t :: acc' =>
            if bool_decide (t = "..") then clean_go rooted (".." :: acc) cs
            else clean_go rooted acc' cs
        end
      else clean_go rooted (c :: acc) cs
  end.

Definition IsAbs (p : string) : bool := HasPrefix p "/".

(** The components a path denotes. *)
Definition path_comps (p : string) : list string := clean_go (IsAbs p) [] (Split slash p).

Definition Clean (p : string) : string :=
  let out := Join (path_comps p) "/" in
  if IsAbs p then "/" +:+ out
  else if bool_decide (out = "") then "." else out.

Fixpoint PathJoin (elems : list string) : string :=
  match elems with
  | [] => ""
  | e :: rest => if bool_decide (e = "") then PathJoin rest else Clean (Join elems "/")
  end.

(** [Clean] of the path up to and including its last slash. *)
Definition Dir (p : string) : string :=
  Clean (Join (removelast (Split slash p) ++ [""]) "/").

(** [target == prefix || strings.HasPrefix(target, prefix+"/")] *)
Definition inside (prefix target : string) : bool :=
  bool_decide (target = prefix) || HasPrefix target (prefix +:+ "/").

(** ** Lemmas *)

(** A component that [Clean] keeps wherever it stands. *)
Definition plain (c : string) : Prop :=
  c <> "" /\ c <> "." /\ c <> ".." /\ no_char slash c = true.

Lemma clean_go_plain rooted acc cs :
  Forall plain cs -> clean_go rooted acc cs = reverse acc ++ cs.
Proof.
  intros H. revert acc. induction H as [|c cs (H1 & H2 & H3 & _) _ IH]; intros acc; simpl.
  - by rewrite app_nil_r.
  - rewrite !bool_decide_false by done. simpl. rewrite IH, reverse_cons.
    by rewrite <- app_assoc.
Qed.

Lemma clean_go_app rooted acc cs1 cs2 :
  clean_go rooted acc (cs1 ++ cs2) =
  clean_go rooted (reverse (clean_go rooted acc cs1)) cs2.
Proof.
  revert acc. induction cs1 as [|c cs1 IH]; intros acc; simpl.
  - by rewrite reverse_involutive.
  - repeat case_match; apply IH.
Qed.

(** What a rooted clean keeps: plain components only. *)
Lemma clean_go_rooted acc cs :
  Forall plain acc -> Forall (fun c => no_char slash c = true) cs ->
  Forall plain (clean_go true acc cs).
Proof.
  intros Hacc Hcs. revert acc Hacc.
  induction Hcs as [|c cs Hc _ IH]; intros acc Hacc; simpl; [by apply Forall_reverse |].
  repeat case_bool_decide; simpl; auto.
  - destruct Hacc as [|t acc' Ht Hacc]; [by apply IH; constructor |].
    case_bool_decide; [| by apply IH]. apply IH. by destruct Ht as (_ & _ & ? & _).
  - apply IH. by constructor.
Qed.

Lemma path_comps_plain p : IsAbs p = true -> Forall plain (path_comps p).
Proof.
  intros H. unfold path_comps. rewrite H. apply clean_go_rooted; [constructor |].
  apply Split_no_char.
Qed.

Lemma Split_rooted_Join cs :
  Forall plain cs ->
  Split slash ("/" +:+ Join cs "/") = "" :: match cs with [] => [""] | _ => cs end.
Proof.
  intros H. change ("/" +:+ Join cs "/") with ("" +:+ String slash (Join cs "/")).
  rewrite Split_app by done. f_equal. destruct cs as [|c cs]; [done |].
  apply Split_Join; [done |]. eapply Forall_impl; [exact H |]. by intros x (_ & _ & _ & ?).
Qed.

(** The components of a rooted path written from plain components. *)
Lemma path_comps_Join cs : Forall plain cs -> path_comps ("/" +:+ Join cs "/") = cs.
Proof.
  intros H. unfold path_comps. rewrite (Split_rooted_Join _ H).
  rewrite (HasPrefix_app "/" _ : IsAbs _ = true). destruct cs as [|c cs]; [done |].
  change (clean_go true [] ("" :: c :: cs)) with (clean_go true [] (c :: cs)).
  by rewrite clean_go_plain.
Qed.

Lemma Clean_rooted p : IsAbs p = true -> Clean p = "/" +:+ Join (path_comps p) "/".
Proof. intros H. unfold Clean. by rewrite H. Qed.

Lemma path_comps_Clean p : IsAbs p = true -> path_comps (Clean p) = path_comps p.
Proof. intros H. rewrite Clean_rooted by done. by apply path_comps_Join, path_comps_plain. Qed.

Lemma IsAbs_app p q : IsAbs p = true -> IsAbs (p +:+ q) = true.
Proof.
  unfold IsAbs. intros (t & ->)%HasPrefix_elim. rewrite app_str_assoc. apply HasPrefix_app.
Qed.

Lemma IsAbs_Clean p : IsAbs p = true -> IsAbs (Clean p) = true.
Proof. intros H. rewrite Clean_rooted by done. apply HasPrefix_app. Qed.

(** [Clean] is idempotent on rooted paths. *)
Lemma Clean_idemp p : IsAbs p = true -> Clean (Clean p) = Clean p.
Proof.
  intros H. rewrite (Clean_rooted (Clean p)) by by apply IsAbs_Clean.
  by rewrite path_comps_Clean, <- Clean_rooted.
Qed.

Lemma Split_app_slash p q : Split slash (p +:+ String slash q) = Split slash p ++ Split slash q.
Proof.
  induction p as [|a p IH]; simpl; [done |].
  case_bool_decide; rewrite IH; [done |].
  pose proof (Split_not_nil slash p). by destruct (Split slash p).
Qed.

(** Joining a rooted path with further text resolves the text's components on top of
    the root's. *)
Lemma path_comps_PathJoin root sub :
  IsAbs root = true ->
  path_comps (PathJoin [root; sub]) =
  clean_go true (reverse (path_comps root)) (Split slash sub).
Proof.
  intros H. destruct root as [|a root]; [done |].
  change (PathJoin [String a root; sub]) with (Clean (String a root +:+ String slash sub)).
  rewrite path_comps_Clean by by apply IsAbs_app.
  unfold path_comps. rewrite (IsAbs_app _ _ H), H, Split_app_slash.
  apply clean_go_app.
Qed.

Lemma PathJoin_rooted root sub :
  IsAbs root = true ->
  PathJoin [root; sub] = "/" +:+ Join (path_comps (PathJoin [root; sub])) "/".
Proof.
  intros H. destruct root as [|a root]; [done |].
  change (PathJoin [String a root; sub]) with (Clean (String a root +:+ String slash sub)).
  rewrite path_comps_Clean by by apply IsAbs_app. apply Clean_rooted. by apply IsAbs_app.
Qed.

(** Text made of plain components stays below the root it is joined to. *)
Lemma PathJoin_below root cs :
  IsAbs root = true -> Forall plain cs ->
  path_comps (PathJoin [root; Join cs "/"]) = path_comps root ++ cs.
Proof.
  intros H Hcs. rewrite path_comps_PathJoin by done.
  destruct cs as [|c cs].
  - simpl. by rewrite reverse_involutive, app_nil_r.
  - rewrite Split_Join; [| done |].
    + rewrite clean_go_plain by done. by rewrite reverse_involutive.
    + eapply Forall_impl; [exact Hcs |]. by intros x (_ & _ & _ & ?).
Qed.

Lemma Join_app l1 l2 :
  l1 <> [] -> l2 <> [] -> Join (l1 ++ l2) "/" = Join l1 "/" +:+ "/" +:+ Join l2 "/".
Proof.
  unfold Join. intros H1 H2. induction l1 as [|w l1 IH]; [done |].
  destruct l1 as [|w' l1].
  - simpl. destruct l2; [done |]. done.
  - change (String.concat "/" (w :: w' :: l1))
      with (w +:+ "/" +:+ String.concat "/" (w' :: l1)).
    change (String.concat "/" ((w :: w' :: l1) ++ l2))
      with (w +:+ "/" +:+ String.concat "/" ((w' :: l1) ++ l2)).
    rewrite IH by done. by rewrite !app_str_assoc.
Qed.

(** A path whose components extend a non-root prefix's is inside it. *)
Lemma inside_comps ps cs :
  ps <> [] -> inside ("/" +:+ Join ps "/") ("/" +:+ Join (ps ++ cs) "/") = true.
Proof.
  intros Hps. unfold inside. destruct cs as [|c cs].
  - rewrite app_nil_r. by rewrite bool_decide_true.
  - rewrite Join_app by done.
    replace ("/" +:+ Join ps "/" +:+ "/" +:+ Join (c :: cs) "/")
      with ((("/" +:+ Join ps "/") +:+ "/") +:+ Join (c :: cs) "/")
      by by rewrite !app_str_assoc.
    rewrite HasPrefix_app. apply orb_true_r.
Qed.

Example Clean_examples :
  map Clean [""; "/"; "a/../b"; "/../a//b/."; "../../x"; "a/../../b"; "/a/b/../../../c"] =
  ["."; "/"; "b"; "/a/b"; "../../x"; "../b"; "/c"].
Proof. vm_compute. reflexivity. Qed.

Example Dir_examples :
  map Dir ["/var/run/gojail.sock"; "x"; "/x"; "a/b/"; ""] = ["/var/run"; "."; "/"; "a/b"; "."].
Proof. vm_compute. reflexivity. Qed.

#[export] Hint Resolve path_comps_plain IsAbs_Clean IsAbs_app : gojail.

(** Joining a clean rooted path with one plain component. *)
Lemma PathJoin_plain ps c :
  Forall plain ps -> ps <> [] -> plain c ->
  PathJoin ["/" +:+ Join ps "/"; c] = ("/" +:+ Join ps "/") +:+ "/" +:+ c.
Proof.
  intros Hps Hne Hc. assert (IsAbs ("/" +:+ Join ps "/") = true) as Ha by apply HasPrefix_app.
  rewrite PathJoin_rooted by done.
  pose proof (PathJoin_below ("/" +:+ Join ps "/") [c] Ha) as E.
  change (Join [c] "/") with c in E. rewrite E by (by constructor).
  rewrite path_comps_Join by done. rewrite Join_app by done. by rewrite !app_str_assoc.
Qed.

Lemma inside_app p s : inside p (p +:+ "/" +:+ s) = true.
Proof. unfold inside. by rewrite <- app_str_assoc, HasPrefix_app, orb_true_r. Qed.

Lemma inside_refl p : inside p p = true.
Proof. unfold inside. by rewrite bool_decide_true. Qed.
