(* ===== verification/GoFlag.v ===== *)
(** * Go's flag package

    [FlagSet.Parse] as [cmd/gojail] uses it: boolean, string, integer and repeated string
    flags, with one or two dashes, [-name=value] and [-name value]; parsing stops at the
    first argument that is no flag or after [--]. *)

From S2P Require Import Prelude GoStrings GoStrconv.

(** ** strconv.ParseInt(s, 0, 64) *)

(** The value of a digit of any base up to 36. *)
Definition digit_value (c : ascii) : option Z :=
  let n := code c in
  if (48 <=? n) && (n <=? 57) then Some (n - 48)
  else if (97 <=? n) && (n <=? 122) then Some (n - 97 + 10)
  else if (65 <=? n) && (n <=? 90) then Some (n - 65 + 10)
  else None.

Fixpoint uint_base (base : Z) (s : string) (n : Z) : Z * option num_error :=
  match s with
  | "" => (n, None)
  | String c s =>
      if bool_decide (c = "_"%char) then uint_base base s n
      else match digit_value c with
           | Some d =>
               if base <=? d then (0, Some ErrSyntax)
               else if maxUint64 <? n * base + d then (maxUint64, Some ErrRange)
               else uint_base base s (n * base + d)
           | None => (0, Some ErrSyntax)
           end
  end.

(** The base of a prefix and what follows it. *)
Definition base_prefix (s : string) : Z * string :=
  match s with
  | String "0" (String b (String c s')) =>
      let b' := lower b in
      if bool_decide (b' = "b"%char) then (2, String c s')
      else if bool_decide (b' = "o"%char) then (8, String c s')
      else if bool_decide (b' = "x"%char) then (16, String c s')
      else (8, String b (String c s'))
  | String "0" s' => (8, s')
  | s => (10, s)
  end.

(** Underscores separate digits, or the base prefix from the digits: [prev] is the class
    of the character before. *)
Inductive uclass := UStart | UDigit | UUnder | UOther.

Fixpoint under_go (hex : bool) (prev : uclass) (s : string) : bool :=
  match s with
  | "" => match prev with UUnder => false | _ => true end
  | String c s =>
      match digit_value c with
      | Some d =>
          if (d <? 10) || (hex && (d <? 16)) then under_go hex UDigit s
          else match prev with UUnder => false | _ => under_go hex UOther s end
      | None =>
          if bool_decide (c = "_"%char) then
            match prev with UDigit => under_go hex UUnder s | _ => false end
          else match prev with UUnder => false | _ => under_go hex UOther s end
      end
  end.

Definition underscoreOK (s : string) : bool :=
  let s := snd (split_sign s) in
  match s with
  | String "0" (String b s') =>
      let b' := lower b in
      if bool_decide (b' = "b"%char) || bool_decide (b' = "o"%char) || bool_decide (b' = "x"%char)
      then under_go (bool_decide (b' = "x"%char)) UDigit s'
      else under_go false UStart s
  | _ => under_go false UStart s
  end.

Fixpoint has_underscore (s : string) : bool :=
  match s with "" => false | String c s => bool_decide (c = "_"%char) || has_underscore s end.

Definition ParseInt0 (s : string) : Z * option num_error :=
  match s with
  | "" => (0, Some ErrSyntax)
  | _ =>
      let '(neg, s') := split_sign s in
      match s' with
      | "" => (0, Some ErrSyntax)
      | _ =>
          let '(base, digits) := base_prefix s' in
          let '(un, err) := uint_base base digits 0 in
          let err := if has_underscore digits && negb (underscoreOK s') then
                       match err with Some ErrRange => err | _ => Some ErrSyntax end else err in
          match err with
          | Some ErrSyntax => (0, Some ErrSyntax)
          | _ =>
              if negb neg && (2 ^ 63 <=? un) then (2 ^ 63 - 1, Some ErrRange)
              else if neg && (2 ^ 63 <? un) then (- 2 ^ 63, Some ErrRange)
              else (if neg then - un else un, err)
          end
      end
  end.

Example ParseInt0_examples :
  map ParseInt0 ["10"; "0"; "-0x1f"; "017"; "0b101"; "1_000"; "_1"; "1__0"; "08"; "0x"; ""; "9223372036854775808"] =
  [(10, None); (0, None); (-31, None); (15, None); (5, None); (1000, None); (0, Some ErrSyntax);
   (0, Some ErrSyntax); (0, Some ErrSyntax); (0, Some ErrSyntax); (0, Some ErrSyntax);
   (9223372036854775807, Some ErrRange)].
Proof. vm_compute. reflexivity. Qed.

(** ** strconv.ParseBool *)

Definition ParseBool (s : string) : option bool :=
  if bool_decide (s ∈ ["1"; "t"; "T"; "true"; "TRUE"; "True"]) then Some true
  else if bool_decide (s ∈ ["0"; "f"; "F"; "false"; "FALSE"; "False"]) then Some false
  else None.

(** ** Flag sets *)

Inductive flag_kind := FBool | FString | FInt | FList.

(** The flags that were set, in order, and the remaining arguments; a request for help;
    or an error (both end the program, for the sets of [cmd/gojail] exit on errors). *)
Inductive parsed :=
| Parsed (settings : list (string * string)) (rest : list string)
| FlagHelp
| FlagError.

Definition value_ok (k : flag_kind) (v : string) : bool :=
  match k with
  | FBool => match ParseBool v with Some _ => true | None => false end
  | FInt => match ParseInt0 v with (_, None) => true | _ => false end
  | FString | FList => true
  end.

Definition add_setting (s : string * string) (p : parsed) : parsed :=
  match p with Parsed ss rest => Parsed (s :: ss) rest | p => p end.

(** The name part of a flag argument; [None] for an argument that is no flag. *)
Definition flag_name (s : string) : option string :=
  match s with
  | String "-" (String "-" s') => Some s'
  | String "-" (String c s') => Some (String c s')
  | _ => None
  end.

Definition bad_name (name : string) : bool :=
  match name with "" => true | String "-" _ | String "=" _ => true | _ => false end.

(** [name=value] at the first [=] *)
Definition split_value (name : string) : string * option string :=
  match IndexByte "=" name with
  | Some i => (take_str i name, Some (drop_str (S i) name))
  | None => (name, None)
  end.

Section flags.
Variable kinds : string -> option flag_kind.

Fixpoint Parse (args : list string) : parsed :=
  match args with
  | [] => Parsed [] []
  | s :: args =>
      match flag_name s with
      | None => Parsed [] (s :: args)
      | Some "" => Parsed [] args
      | Some name =>
          if bad_name name then FlagError
          else
            let '(name, value) := split_value name in
            match kinds name with
            | None => if bool_decide (name = "help") || bool_decide (name = "h") then FlagHelp else FlagError
            | Some FBool =>
                let v := default "true" value in
                if value_ok FBool v then add_setting (name, v) (Parse args) else FlagError
            | Some k =>
                match value with
                | Some v => if value_ok k v then add_setting (name, v) (Parse args) else FlagError
                | None =>
                    match args with
                    | [] => FlagError
                    | v :: args => if value_ok k v then add_setting (name, v) (Parse args) else FlagError
                    end
                end
            end
      end
  end.
End flags.

(** ** The values after parsing: the last setting, or the default *)

Definition last_setting (name : string) (ss : list (string * string)) : option string :=
  last (omap (fun s => if bool_decide (fst s = name) then Some (snd s) else None) ss).

Definition flag_string (ss : list (string * string)) (name dflt : string) : string :=
  default dflt (last_setting name ss).
Definition flag_int (ss : list (string * string)) (name : string) (dflt : Z) : Z :=
  match last_setting name ss with Some v => fst (ParseInt0 v) | None => dflt end.
Definition flag_bool (ss : list (string * string)) (name : string) : bool :=
  match last_setting name ss with Some v => default false (ParseBool v) | None => false end.

(** Two names of one repeated flag. *)
Definition flag_list (ss : list (string * string)) (name1 name2 : string) : list string :=
  omap (fun s => if bool_decide (fst s = name1) || bool_decide (fst s = name2) then Some (snd s) else None) ss.

(** Every setting has a known name and a value its kind takes. *)
Lemma Parse_settings kinds args ss rest :
  Parse kinds args = Parsed ss rest ->
  Forall (fun s => exists k, kinds (fst s) = Some k /\ value_ok k (snd s) = true) ss.
Proof.
  revert ss rest. induction args as [args IH] using (well_founded_induction (well_founded_ltof _ (@length string))).
  intros ss rest. destruct args as [|s args]; cbn [Parse]; [by intros [= <- <-] |].
  assert (forall n v k args', (length args' <= length args)%nat -> kinds n = Some k -> value_ok k v = true ->
    add_setting (n, v) (Parse kinds args') = Parsed ss rest ->
    Forall (fun s => exists k, kinds (fst s) = Some k /\ value_ok k (snd s) = true) ss) as Hadd.
  { intros n v k args' Hlen Hk Hv Hadd. unfold add_setting in Hadd.
    destruct (Parse kinds args') as [ss' rest'| |] eqn:E; simplify_eq.
    constructor; [by exists k |]. eapply IH; [| exact E]. unfold ltof. simpl. lia. }
  destruct (flag_name s) as [[|c n]|]; [by intros [= <- <-] | | by intros [= <- <-]].
  destruct (bad_name _); [done |]. destruct (split_value _) as [name value].
  destruct (kinds name) as [k|] eqn:Hk; [| by case_match].
  destruct k, value as [v|]; simpl; try (case_match eqn:Hv; [| done]); intros Hp;
    try (by eapply Hadd; eauto); destruct args as [|v args]; try done;
    try (case_match eqn:Hv'; [| done]); (eapply (Hadd name v); [| exact Hk | | exact Hp]; simpl; auto; lia).
Qed.

Example Parse_example :
  Parse (fun n => if bool_decide (n = "t") then Some FBool else if bool_decide (n = "mem") then Some FInt
                  else if bool_decide (n = "v") then Some FList else None)
    ["-t"; "--mem=0x10"; "-v"; "a:b"; "-v=c:d"; "--"; "-t"; "x"] =
  Parsed [("t", "true"); ("mem", "0x10"); ("v", "a:b"); ("v", "c:d")] ["-t"; "x"].
Proof. vm_compute. reflexivity. Qed.
