(* ===== verification/OS.v ===== *)
(** * The operating system as a signature of calls

    The calls gojail makes to the kernel and to the parts of Go's standard library and
    of its third-party packages (netlink, netns, pty) that reach the kernel, with the
    type of the answer of each.  No call has a semantics of its own: theorems quantify
    over the answers, or over handlers with the behaviour they name. *)

From S2P Require Import Prelude Effects GoStrings.

(** A BPF instruction as it is handed to the kernel: code, jt, jf, k. *)
Abbreviation raw_insn := (Z * Z * Z * Z)%type.

(** The kind of link [netlink.LinkByName] finds, with its index; [netlink.LinkAdd]
    answers with the index it stores in the new bridge.  A command answers with its
    output and its error. *)
Record link := Link { link_index : Z; link_is_bridge : bool }.

(** [PumpReads fds] stands for the reads of the goroutines that drain [fds], one
    goroutine for each: what each [Read] returns, in the order of time (descriptor,
    bytes, whether with an error).  [Captured pid] is what a waited-for command left in
    its output buffers. *)

(** How a [select] on a context and a process's end comes out. *)
Inductive select_answer :=
| CtxDone (e : error)
| ProcDone (e : option error).

Inductive oscall :=
(* files *)
| MkdirAll (path : string) (perm : Z)
| ReadFile (path : string)
| WriteFile (path data : string) (perm : Z)
| Rename (old new : string)
| Remove (path : string)
| RemoveAll (path : string)
| Stat (path : string)
| Lstat (path : string)
| OpenFile (path : string) (flags perm : Z)
| OpenScan (path : string)
| ReadDir (path : string)
| Truncate (fd size : Z)
| Seek (fd off : Z)
| WriteString (fd : Z) (data : string)
| CloseFd (fd : Z)
| ReadFd (fd n : Z)
| Flock (fd op : Z)
| Chmod (path : string) (mode : Z)
| Chdir (path : string)
| Symlink (old new : string)
| EvalSymlinks (path : string)
| Getwd
| Executable
| LookPath (file : string)
(* mounts *)
| Mount (src dst fstype : string) (flags : Z) (data : string)
| Unmount (target : string) (flags : Z)
| PivotRoot (new_root put_old : string)
(* identity and privileges *)
| Getpid
| Geteuid
| Prctl (option arg2 : Z)
| InstallFilter (insns : list raw_insn) (len : Z)
| Setgroups (gids : list Z)
| Setgid (gid : Z)
| Setuid (uid : Z)
(* processes *)
| Pipe
| StdinPipe
| StdoutPipe
| StderrPipe
| StartCmd (argv : list string) (cloneflags : Z) (extra : list Z)
| PtyStart (argv : list string) (cloneflags : Z)
| PtySetsize (fd rows cols : Z)
| KillProcess (pid : Z)
| SysKill (pid signo : Z)
| WaitProcess (pid : Z)
| WaitOrDone (ctx pid : Z)
| PumpReads (fds : list Z)
| Captured (pid : Z)
| Execve (path : string) (argv env : list string)
(* time and contexts *)
| Now
| CtxErr (ctx : Z)
| CancelCtx (ctx : Z)
(* network devices *)
| InterfaceByName (name : string)
| IoctlSetInt (fd req value : Z)
| LinkByName (name : string)
| LinkAddBridge (name : string)
| LinkAddVeth (name peer : string) (master : Z)
| LinkDel (name : string)
| LinkSetUp (name : string)
| LinkSetName (old new : string)
| LinkSetNsPid (name : string) (pid : Z)
| AddrAdd (link addr : string)
| RouteAddDefault (link_idx : Z) (gw : string)
| NetnsGet
| NetnsGetFromPid (pid : Z)
| NetnsSet (ns : Z)
| NetnsClose (ns : Z)
| RunCommand (argv : list string)
(* sockets *)
| ListenUnix (path : string)
| CloseListener.

Definition osans (c : oscall) : Type :=
  match c with
  | ReadFile _ | EvalSymlinks _ | Getwd | Executable | LookPath _ => result string
  | Stat _ => result bool
  | OpenFile _ _ _ | StdinPipe | StdoutPipe | StderrPipe => result Z
  | OpenScan _ => result (string * option error)
  | ReadDir _ => result (list (string * bool))
  | ReadFd _ _ => result string
  | Getpid | Geteuid | Now => Z
  | Pipe => result (Z * Z)
  | StartCmd _ _ _ => result Z
  | PtyStart _ _ => result (Z * Z)
  | WaitProcess _ | CtxErr _ => option error
  | WaitOrDone _ _ => select_answer
  | PumpReads _ => list (Z * string * bool)
  | Captured _ => (string * string)%type
  | CancelCtx _ => unit
  | InterfaceByName _ => result Z
  | LinkByName _ => result link
  | LinkAddBridge _ => result Z
  | NetnsGet | NetnsGetFromPid _ => result Z
  | RunCommand _ => (string * option error)%type
  | _ => result unit
  end.

Definition os : sig := Sig oscall osans.

Abbreviation sys c := (@do_call os c).
Abbreviation io A := (prog os A).

#[export] Instance oscall_eq_dec : EqDecision oscall.
Proof. solve_decision. Defined.

(** ** Constants of the Linux interface *)

Definition MNT_DETACH : Z := 2.
Definition MS_RDONLY : Z := 1.
Definition MS_REMOUNT : Z := 32.
Definition MS_BIND : Z := 4096.
Definition MS_REC : Z := 16384.
Definition MS_PRIVATE : Z := Z.shiftl 1 18.

Definition O_WRONLY : Z := 1.
Definition O_RDWR : Z := 2.
Definition O_CREATE : Z := 64.
Definition O_TRUNC : Z := 512.

Definition LOCK_EX : Z := 2.
Definition LOCK_NB : Z := 4.
Definition LOCK_UN : Z := 8.

(** Whether a granted [flock] gives the exclusive lock: only with the bit of [LOCK_EX].
    [LOCK_SH] and [LOCK_UN] leave the caller without it. *)
Definition exclusive (op : Z) : bool := negb (Z.land op LOCK_EX =? 0).

Definition CLONE_NEWNS : Z := 131072.
Definition CLONE_NEWUTS : Z := 67108864.
Definition CLONE_NEWIPC : Z := 134217728.
Definition CLONE_NEWPID : Z := 536870912.
Definition CLONE_NEWNET : Z := 1073741824.

Definition PR_CAPBSET_DROP : Z := 24.
Definition PR_SET_SECCOMP : Z := 22.
Definition PR_SET_NO_NEW_PRIVS : Z := 38.
Definition SIGKILL : Z := 9.
Definition SIOCSIFFLAGS : Z := 35092.

(** File modes are written in the source in octal. *)
Definition mode_0600 : Z := 384.
Definition mode_0644 : Z := 420.
Definition mode_0666 : Z := 438.
Definition mode_0700 : Z := 448.
Definition mode_0755 : Z := 493.
Definition mode_0777 : Z := 511.
Definition ModeSticky : Z := Z.shiftl 1 20.

(** ** bufio.Scanner

    The lines of a text, without their newline and a carriage return before it; a line
    that fills the 64 KiB buffer before its newline ends the scan with an error. *)

Definition MaxScanTokenSize : Z := 65536.

Definition ErrTooLong : error := NewErr "bufio.Scanner: token too long".

Definition newline : ascii := "010"%char.
Definition nl : string := String newline "".

Fixpoint raw_lines (s : string) : list string :=
  match s with
  | "" => []
  | String a s' =>
      if bool_decide (a = newline) then "" :: raw_lines s'
      else match raw_lines s' with
           | [] => [String a ""]
           | l :: ls => String a l :: ls
           end
  end.

Fixpoint drop_cr (s : string) : string :=
  match s with
  | "" => ""
  | String a "" => if bool_decide (a = "013"%char) then "" else String a ""
  | String a s' => String a (drop_cr s')
  end.

Fixpoint scan_go (ls : list string) (read_err : option error) : list string * option error :=
  match ls with
  | [] => ([], read_err)
  | l :: ls =>
      if MaxScanTokenSize <=? Z.of_nat (String.length l) then ([], Some ErrTooLong)
      else let '(rest, e) := scan_go ls read_err in (drop_cr l :: rest, e)
  end.

(** All tokens of [for scanner.Scan()] over a text whose reading ended with
    [read_err] ([None] at end of file), and [scanner.Err()]. *)
Definition scan (text : string) (read_err : option error) : list string * option error :=
  scan_go (raw_lines text) read_err.

(** Scanning lines gives them back. *)
Definition scannable (l : string) : Prop :=
  no_char newline l = true /\ no_char "013" l = true /\ Z.of_nat (String.length l) < MaxScanTokenSize.

Lemma raw_lines_line l s :
  no_char newline l = true -> raw_lines (l +:+ String newline s) = l :: raw_lines s.
Proof.
  induction l as [|a l IH]; [done |]. cbn [no_char]. intros [Ha Hl]%andb_prop.
  change (String a l +:+ ?t) with (String a (l +:+ t)). cbn [raw_lines].
  rewrite IH by done. by destruct (bool_decide (a = newline)).
Qed.

Lemma drop_cr_id l : no_char "013" l = true -> drop_cr l = l.
Proof.
  induction l as [|a l IH]; [done |]. cbn [no_char]. intros [Ha Hl]%andb_prop.
  cbn [drop_cr]. rewrite IH by done. destruct l; [| done]. by destruct (bool_decide (a = "013"%char)).
Qed.

Lemma scan_lines ls e : Forall scannable ls -> scan (lines ls) e = (ls, e).
Proof.
  unfold scan. induction 1 as [|l ls (Hn & Hr & Hl) _ IH]; [done |].
  rewrite lines_cons. change "010"%char with newline. rewrite raw_lines_line by done. cbn [scan_go].
  rewrite (proj2 (Z.leb_gt _ _)) by done. by rewrite IH, drop_cr_id.
Qed.

(** ** A cooperative environment

    Answers every call with success and a neutral value: used to run programs on
    concrete inputs. *)
Definition ok_os : handler os unit := fun c w =>
  (match c return osans c with
   | ReadFile _ | EvalSymlinks _ | Getwd | Executable | LookPath _ => Ok "/"
   | Stat _ => Ok true
   | OpenFile _ _ _ | StdinPipe | StdoutPipe | StderrPipe => Ok 3
   | OpenScan _ => Ok ("", None)
   | ReadDir _ => Ok []
   | ReadFd _ _ => Ok ""
   | Getpid | Geteuid | Now => 0
   | Pipe => Ok (3, 4)
   | StartCmd _ _ _ => Ok 100
   | PtyStart _ _ => Ok (100, 5)
   | WaitProcess _ | CtxErr _ => None
   | WaitOrDone _ _ => ProcDone None
   | PumpReads _ => []
   | Captured _ => ("", "")
   | CancelCtx _ => tt
   | InterfaceByName _ => Ok 1
   | LinkByName _ => Ok (Link 1 true)
   | NetnsGet | NetnsGetFromPid _ => Ok 6
   | LinkAddBridge _ => Ok 1
   | RunCommand _ => ("", None)
   | _ => Ok tt
   end, w).

(** In effectful code, message texts stay folded. *)
#[global] Arguments String.append : simpl never.
