(* ===== verification/GoTabwriter.v ===== *)
(** * Package text/tabwriter

    A writer with minimal width 0, padding 2, the pad character space and no flags
    ([tabwriter.NewWriter(w, 0, 8, 2, ' ', 0)]; the tab width is not used with spaces).
    Cells end at a tab, a vertical tab, a newline or a form feed; a column is a run of
    consecutive lines that have a cell ended by a tab there.  The escape byte 255 does
    not occur in the text gojail prints: it is no byte of UTF-8. *)

From S2P Require Import Prelude GoStrings GoFmt OS.

Definition padding : nat := 2.

(** ** Layout

    [widths] are the widths of the columns to the left.  A line of cells is cut into
    runs of lines with and without a cell in the next column. *)

Fixpoint runs {A} (p : A -> bool) (l : list A) : list (bool * list A) :=
  match l with
  | [] => []
  | x :: l =>
      match runs p l with
      | (b, g) :: gs => if Bool.eqb b (p x) then (b, x :: g) :: gs else (p x, [x]) :: (b, g) :: gs
      | [] => [(p x, [x])]
      end
  end.

(** The last cell of a line is not part of a column. *)
Definition has_cell (column : nat) (line : list string) : bool := (column <? length line - 1)%nat.

Definition column_width (column : nat) (block : list (list string)) : nat :=
  foldr (fun line w => Nat.max (RuneCount (nth column line "") + padding) w) O block.

Fixpoint line_text (widths : list nat) (line : list string) : string :=
  match line with
  | [] => ""
  | c :: line =>
      match widths with
      | w :: widths => c +:+ spaces (w - RuneCount c) +:+ line_text widths line
      | [] => c +:+ line_text [] line
      end
  end.

(** [format], with one level of recursion for each column. *)
Fixpoint format (fuel : nat) (widths : list nat) (block : list (list string)) : list string :=
  match fuel with
  | O => map (line_text widths) block
  | S fuel =>
      let column := length widths in
      concat (map (fun run : bool * list (list string) =>
                     if run.1 then format fuel (widths ++ [column_width column run.2]) run.2
                     else map (line_text widths) run.2)
                  (runs (has_cell column) block))
  end.

(** The number of columns is at most the number of cells of the longest line. *)
Definition columns (block : list (list string)) : nat := foldr (fun line n => Nat.max (length line) n) O block.

Definition format_lines (block : list (list string)) : string :=
  Join (format (columns block) [] block) nl.

(** ** The writer *)

(** What was written to the underlying writer, the complete lines, the cells of the
    current line, and the current cell. *)
Record tabwriter := {
  tw_out : string;
  tw_lines : list (list string);
  tw_line : list string;
  tw_cell : string;
}.

Definition new_tabwriter : tabwriter := {| tw_out := ""; tw_lines := []; tw_line := []; tw_cell := "" |}.

(** [Flush]; the line under construction is the last one and has no newline. *)
Definition tw_flush (w : tabwriter) : tabwriter :=
  let line := if bool_decide (tw_cell w = "") then tw_line w else tw_line w ++ [tw_cell w] in
  {| tw_out := tw_out w +:+ format_lines (tw_lines w ++ [line]); tw_lines := []; tw_line := []; tw_cell := "" |}.

Definition end_cell (w : tabwriter) : tabwriter :=
  {| tw_out := tw_out w; tw_lines := tw_lines w; tw_line := tw_line w ++ [tw_cell w]; tw_cell := "" |}.

Definition end_line (w : tabwriter) : tabwriter :=
  {| tw_out := tw_out w; tw_lines := tw_lines w ++ [tw_line w]; tw_line := []; tw_cell := "" |}.

Definition form_feed : ascii := chr 12.

(** One byte of the text: a line of one cell, or a form feed, flushes. *)
Definition tw_byte (w : tabwriter) (c : ascii) : tabwriter :=
  if bool_decide (c = chr 9) || bool_decide (c = chr 11) then end_cell w
  else if bool_decide (c = newline) || bool_decide (c = form_feed) then
    let w := end_cell w in
    let w' := end_line w in
    if bool_decide (c = form_feed) || (length (tw_line w) =? 1)%nat then tw_flush w' else w'
  else {| tw_out := tw_out w; tw_lines := tw_lines w; tw_line := tw_line w;
          tw_cell := tw_cell w +:+ String c "" |}.

Definition tw_write (w : tabwriter) (text : string) : tabwriter := fold_left tw_byte (list_of text) w.

(** The output for a text that is written and flushed. *)
Definition tabulate (text : string) : string := tw_out (tw_flush (tw_write new_tabwriter text)).

Definition tab : string := String (chr 9) "".

Example tabulate_example :
  tabulate ("a" +:+ tab +:+ "bbb" +:+ tab +:+ "c" +:+ nl +:+ "dddd" +:+ tab +:+ "e" +:+ tab +:+ "ff" +:+ nl) =
  "a     bbb  c" +:+ nl +:+ "dddd  e    ff" +:+ nl.
Proof. vm_compute. reflexivity. Qed.

(** A line without cells between two blocks separates their columns. *)
Example tabulate_blocks :
  tabulate ("a" +:+ tab +:+ "b" +:+ nl +:+ "x" +:+ nl +:+ "ccc" +:+ tab +:+ "d" +:+ nl) =
  "a  b" +:+ nl +:+ "x" +:+ nl +:+ "ccc  d" +:+ nl.
Proof. vm_compute. reflexivity. Qed.

(** ** Tables

    Rows of the same number of cells, none of which has a control character of the
    writer in it, come out as aligned rows. *)

Definition cell_char (c : ascii) : bool :=
  negb (bool_decide (c = chr 9) || bool_decide (c = chr 11) || bool_decide (c = newline) || bool_decide (c = form_feed)).

Definition plain_cell (s : string) : bool := forallb cell_char (list_of s).

Definition row_text (r : list string) : string := Join r tab +:+ nl.

(** The widths of all columns but the last. *)
Definition table_widths (n : nat) (rows : list (list string)) : list nat :=
  map (fun j => column_width j rows) (seq 0 (n - 1)).

Definition aligned (n : nat) (rows : list (list string)) : string :=
  String.concat "" (map (fun r => line_text (table_widths n rows) r +:+ nl) rows).

Definition row_ok (n : nat) (r : list string) : Prop := length r = n /\ forallb plain_cell r = true.

Lemma tw_write_app w s t : tw_write w (s +:+ t) = tw_write (tw_write w s) t.
Proof. unfold tw_write. by rewrite list_of_app, fold_left_app. Qed.

Lemma tw_write_cell out ls l cell s :
  plain_cell s = true ->
  tw_write {| tw_out := out; tw_lines := ls; tw_line := l; tw_cell := cell |} s =
  {| tw_out := out; tw_lines := ls; tw_line := l; tw_cell := cell +:+ s |}.
Proof.
  unfold plain_cell, tw_write. revert cell. induction s as [|c s IH]; intros cell; cbn [list_of forallb fold_left].
  - by rewrite app_str_nil_r.
  - intros [Hc Hs]%andb_prop. unfold cell_char in Hc. bool_hyps. unfold tw_byte at 2.
    rewrite !bool_decide_false by done. cbn [orb]. cbn [tw_out tw_lines tw_line tw_cell].
    rewrite IH by done. by rewrite app_str_assoc.
Qed.

Lemma tw_write_row out ls l r :
  forallb plain_cell r = true -> (2 <= length l + length r)%nat -> r <> [] ->
  tw_write {| tw_out := out; tw_lines := ls; tw_line := l; tw_cell := "" |} (row_text r) =
  {| tw_out := out; tw_lines := ls ++ [l ++ r]; tw_line := []; tw_cell := "" |}.
Proof.
  unfold row_text, Join. revert l. induction r as [|c r IH]; [done |]. intros l. cbn [forallb length].
  intros [Hc Hr]%andb_prop Hl _. destruct r as [|c' r].
  - cbn [String.concat]. rewrite tw_write_app, tw_write_cell by done. change ("" +:+ c) with c.
    unfold tw_write, nl. cbn [list_of fold_left]. unfold tw_byte.
    replace (bool_decide (newline = chr 9)) with false by done.
    replace (bool_decide (newline = chr 11)) with false by done.
    replace (bool_decide (newline = form_feed)) with false by done.
    rewrite (bool_decide_true (newline = newline)) by done. cbn [orb end_cell end_line tw_line tw_out tw_lines].
    rewrite (proj2 (Nat.eqb_neq _ _)); [done |]. rewrite length_app. simpl in *. lia.
  - change (String.concat tab (c :: c' :: r)) with (c +:+ tab +:+ String.concat tab (c' :: r)).
    rewrite <- !app_str_assoc, !tw_write_app, tw_write_cell by done. change ("" +:+ c) with c.
    change (tw_write {| tw_out := out; tw_lines := ls; tw_line := l; tw_cell := c |} tab) with
      {| tw_out := out; tw_lines := ls; tw_line := l ++ [c]; tw_cell := "" |}.
    rewrite <- tw_write_app, IH by (done || (rewrite length_app; simpl in *; lia)). by rewrite <- app_assoc.
Qed.

Lemma tw_write_rows n out ls rows :
  (2 <= n)%nat -> Forall (row_ok n) rows ->
  tw_write {| tw_out := out; tw_lines := ls; tw_line := []; tw_cell := "" |}
    (String.concat "" (map row_text rows)) =
  {| tw_out := out; tw_lines := ls ++ rows; tw_line := []; tw_cell := "" |}.
Proof.
  intros Hn Hrows. revert ls. induction Hrows as [|r rows [Hl Hr] _ IH]; intros ls; [by rewrite app_nil_r |].
  cbn [map]. rewrite concat_str_cons, tw_write_app, tw_write_row; [| done | simpl; lia | intros ->; simpl in Hl; lia].
  rewrite IH. by rewrite <- app_assoc.
Qed.

(** ** The layout of a table *)

Lemma runs_all {A} (p : A -> bool) b x l :
  Forall (fun y => p y = b) (x :: l) -> runs p (x :: l) = [(b, x :: l)].
Proof.
  revert x. induction l as [|y l IH]; intros x [Hx Hl]%Forall_cons; [by rewrite <- Hx |].
  change (runs p (x :: y :: l)) with
    (match runs p (y :: l) with
     | (b, g) :: gs => if Bool.eqb b (p x) then (b, x :: g) :: gs else (p x, [x]) :: (b, g) :: gs
     | [] => [(p x, [x])]
     end).
  by rewrite IH, Hx, eqb_reflx.
Qed.

Lemma runs_snoc {A} (p : A -> bool) b x l z :
  Forall (fun y => p y = b) (x :: l) -> p z = negb b -> runs p ((x :: l) ++ [z]) = [(b, x :: l); (negb b, [z])].
Proof.
  revert x. induction l as [|y l IH]; intros x [Hx Hl]%Forall_cons Hz.
  - simpl. rewrite Hx, Hz. by destruct b.
  - change ((x :: y :: l) ++ [z]) with (x :: ((y :: l) ++ [z])). cbn [runs]. rewrite IH by done.
    by rewrite Hx, eqb_reflx.
Qed.

Lemma has_cell_row n c r : row_ok n r -> has_cell c r = (c <? n - 1)%nat.
Proof. intros [Hl _]. unfold has_cell. by rewrite Hl. Qed.

Lemma rows_have_cell n c rows :
  Forall (row_ok n) rows -> Forall (fun r => has_cell c r = (c <? n - 1)%nat) rows.
Proof. intros Hr. eapply Forall_impl; [exact Hr |]. intros r. apply has_cell_row. Qed.

Lemma format_table n rows fuel k ws :
  Forall (row_ok n) rows -> (length ws + k = n - 1)%nat -> (k <= fuel)%nat ->
  format fuel ws rows = map (line_text (ws ++ map (fun j => column_width j rows) (seq (length ws) k))) rows.
Proof.
  intros Hrows. destruct rows as [|r rows]; [by destruct fuel |].
  revert fuel ws. induction k as [|k IH]; intros fuel ws Hk Hf; destruct fuel as [|fuel]; try lia;
    cbn [seq map]; rewrite ?app_nil_r; try done; cbn [format];
    (erewrite runs_all; [| exact (rows_have_cell n (length ws) _ Hrows)]).
  - rewrite (proj2 (Nat.ltb_ge _ _)) by lia. cbn [map concat fst snd]. by rewrite app_nil_r.
  - rewrite (proj2 (Nat.ltb_lt _ _)) by lia. cbn [map concat fst snd].
    rewrite app_nil_r, IH by (rewrite ?length_app; simpl; lia). f_equal. f_equal.
    rewrite <- app_assoc. rewrite length_app. simpl. by rewrite Nat.add_1_r.
Qed.

Lemma columns_table n r rows : Forall (row_ok n) (r :: rows) -> columns ((r :: rows) ++ [[]]) = n.
Proof.
  revert r. induction rows as [|r' rows IH]; intros r [[Hl _] Hrows]%Forall_cons; [simpl; lia |].
  change ((r :: r' :: rows) ++ [[]]) with (r :: ((r' :: rows) ++ [[]])). unfold columns in *. cbn [foldr].
  rewrite IH by done. lia.
Qed.

Lemma Join_lines (f : list string -> string) rows :
  Join (map f rows ++ [""]) nl = String.concat "" (map (fun r => f r +:+ nl) rows).
Proof.
  unfold Join. induction rows as [|r rows IH]; [done |]. cbn [map]. rewrite concat_str_cons, <- IH.
  destruct rows as [|r' rows]; cbn [map app String.concat]; rewrite ?app_str_assoc; reflexivity.
Qed.

(** A table is written row by row, each cell but the last padded to the width of its
    column: the widest cell of the column and two spaces. *)
Lemma tabulate_table n rows :
  (2 <= n)%nat -> Forall (row_ok n) rows ->
  tabulate (String.concat "" (map row_text rows)) = aligned n rows.
Proof.
  intros Hn Hrows. unfold tabulate, aligned. change new_tabwriter with
    {| tw_out := ""; tw_lines := []; tw_line := []; tw_cell := "" |}.
  rewrite (tw_write_rows n) by done. unfold tw_flush. cbn [tw_out tw_lines tw_line tw_cell app].
  rewrite bool_decide_true by done. change ("" +:+ ?x) with x. unfold format_lines.
  destruct rows as [|r rows]; [done |]. rewrite (columns_table n) by done.
  destruct n as [|n]; [lia |]. cbn [format length app].
  change (r :: rows ++ [[]]) with ((r :: rows) ++ [[] : list string]).
  rewrite (runs_snoc (has_cell 0) true).
  - cbn [map concat fst snd negb]. rewrite (format_table (S n) _ _ (n - 1)) by (done || simpl; lia).
    rewrite app_nil_r. change (map (line_text []) [[]]) with [""]. rewrite Join_lines.
    f_equal. unfold table_widths. replace (S n - 1)%nat with (S (n - 1)) by lia. done.
  - pose proof (rows_have_cell (S n) 0 _ Hrows) as Hc. rewrite (proj2 (Nat.ltb_lt _ _)) in Hc by lia. exact Hc.
  - done.
Qed.

Lemma column_width_ge column rows r :
  r ∈ rows -> (RuneCount (nth column r "") + padding <= column_width column rows)%nat.
Proof.
  unfold column_width. induction rows as [|r' rows IH]; [by intros ?%elem_of_nil |]. cbn [foldr].
  intros [<- | Hr%IH]%elem_of_cons; lia.
Qed.

Lemma line_text_cell ws r j :
  (j < length r)%nat -> (j <= length ws)%nat ->
  (forall i, (i < j)%nat -> (RuneCount (nth i r "") + padding <= nth i ws O)%nat) ->
  exists pre post, line_text ws r = pre +:+ nth j r "" +:+ post /\
    forall t, RuneCount (pre +:+ t) = (sum_list (take j ws) + RuneCount t)%nat.
Proof.
  revert ws r. induction j as [|j IH]; intros ws [|c r] Hr Hw Hc; try (simpl in Hr; lia).
  - exists "". destruct ws as [|w ws]; eexists; by split.
  - destruct ws as [|w ws]; [simpl in Hw; lia |].
    destruct (IH ws r) as (pre & post & E & Hpre); [simpl in *; lia | simpl in *; lia | |].
    { intros i Hi. apply (Hc (S i)). lia. }
    pose proof (Hc O ltac:(lia)) as H0. cbn [nth] in H0. unfold padding in H0.
    exists (c +:+ spaces (w - RuneCount c) +:+ pre), post. split.
    + cbn [line_text nth]. rewrite E. by rewrite !app_str_assoc.
    + intros t. rewrite !app_str_assoc, RuneCount_spaces, Hpre by lia. cbn [take]. simpl. lia.
Qed.

(** The cells of a column start at the same place in every row: after the widths of the
    columns before it. *)
Lemma table_cell n rows r j :
  Forall (row_ok n) rows -> r ∈ rows -> (j < n)%nat ->
  exists pre post, line_text (table_widths n rows) r = pre +:+ nth j r "" +:+ post /\
    RuneCount pre = sum_list (take j (table_widths n rows)).
Proof.
  intros Hrows Hr Hj. destruct (proj1 (Forall_forall _ _) Hrows r Hr) as [Hl _].
  destruct (line_text_cell (table_widths n rows) r j) as (pre & post & E & Hpre).
  - lia.
  - unfold table_widths. rewrite length_map, length_seq. lia.
  - intros i Hi. unfold table_widths.
    rewrite (nth_indep _ O (column_width O rows)) by (rewrite length_map, length_seq; lia).
    rewrite (map_nth (fun j => column_width j rows)), seq_nth by lia. by apply column_width_ge.
  - exists pre, post. split; [done |]. specialize (Hpre ""). rewrite app_str_nil_r in Hpre.
    change (RuneCount "") with O in Hpre. lia.
Qed.
