(* ===== verification/GoSort.v ===== *)
(** * sort.Slice

    [sort.Slice] is not stable: which order elements with equal keys come out in is not
    specified.  It is an interface: a permutation of the slice, sorted when [less]
    compares keys.  Insertion sort is an instance. *)

From S2P Require Import Prelude.

Class SliceSort := {
  sort_slice : forall {A : Type}, (A -> A -> bool) -> list A -> list A;
  sort_slice_perm {A} (less : A -> A -> bool) l : sort_slice less l ≡ₚ l;
  sort_slice_sorted {A} (less : A -> A -> bool) (key : A -> Z) l :
    (forall x y, less x y = (key x <? key y)) ->
    StronglySorted (fun x y => key x <= key y) (sort_slice less l);
}.

Section insertion.
Context {A : Type} (less : A -> A -> bool).

Fixpoint insert_sorted (x : A) (l : list A) : list A :=
  match l with
  | [] => [x]
  | y :: l' => if less x y then x :: y :: l' else y :: insert_sorted x l'
  end.

Definition insertion_sort (l : list A) : list A := fold_left (fun acc x => insert_sorted x acc) l [].

Lemma insert_sorted_perm x l : insert_sorted x l ≡ₚ x :: l.
Proof.
  induction l as [|y l IH]; simpl; [done |]. case_match; [done |]. rewrite IH. apply Permutation_swap.
Qed.

Lemma insertion_sort_perm_acc l acc :
  fold_left (fun acc x => insert_sorted x acc) l acc ≡ₚ acc ++ l.
Proof.
  revert acc. induction l as [|x l IH]; intros acc; simpl; [by rewrite app_nil_r |].
  rewrite IH, insert_sorted_perm. simpl. by rewrite Permutation_middle.
Qed.

Lemma insert_sorted_sorted (key : A -> Z) x l :
  (forall x y, less x y = (key x <? key y)) ->
  StronglySorted (fun x y => key x <= key y) l ->
  StronglySorted (fun x y => key x <= key y) (insert_sorted x l).
Proof.
  intros Hless. induction 1 as [|y l Hl IH Hy]; simpl; [by repeat constructor |].
  rewrite Hless. destruct (Z.ltb_spec (key x) (key y)).
  - constructor; [by constructor |]. constructor; [lia |].
    eapply Forall_impl; [exact Hy |]. simpl. lia.
  - constructor; [done |]. rewrite insert_sorted_perm. by constructor.
Qed.
End insertion.

#[export] Instance insertion_slice_sort : SliceSort.
Proof.
  refine {| sort_slice := @insertion_sort |}.
  - intros A less l. apply (insertion_sort_perm_acc less l []).
  - intros A less key l Hless. unfold insertion_sort.
    assert (forall acc, StronglySorted (fun x y => key x <= key y) acc ->
      StronglySorted (fun x y => key x <= key y)
        (fold_left (fun acc x => insert_sorted less x acc) l acc)) as H; [| by apply H; constructor].
    induction l as [|x l IH]; intros acc Hacc; simpl; [done |].
    apply IH. by apply insert_sorted_sorted.
Defined.

Lemma sorted_lookup {A} (R : A -> A -> Prop) l i j x y :
  StronglySorted R l -> l !! i = Some x -> l !! j = Some y -> (i < j)%nat -> R x y.
Proof.
  intros Hs. revert i j. induction Hs as [|z l Hl IH Hz]; intros i j Hi Hj Hlt; [done |].
  destruct j as [|j]; [lia |]. simpl in Hj. destruct i as [|i]; simpl in Hi.
  - simplify_eq. rewrite Forall_forall in Hz. apply Hz. by eapply list_elem_of_lookup_2.
  - apply (IH i j); [done | done | lia].
Qed.
