(* ===== verification/BPF.v ===== *)
(** * The seccomp BPF machine

    The kernel runs an installed filter on every system call.  The interface is the
    documented meaning of the three instructions the filters of this code base use:
    load a 32-bit word of the call's data, jump on equality, return a verdict.  An
    interpreter is an instance of it. *)

From S2P Require Import Prelude Effects OS.

(** The words of seccomp_data a filter may load: the call number at offset 0 and the
    architecture at offset 4. *)
Record sdata := { sd_nr : Z; sd_arch : Z }.

Definition sd_word (d : sdata) (off : Z) : option Z :=
  if off =? 0 then Some (sd_nr d) else if off =? 4 then Some (sd_arch d) else None.

Definition BPF_LD_W_ABS : Z := 32.
Definition BPF_JEQ_K : Z := 21.
Definition BPF_RET_K : Z := 6.

(** [bpf_exec p d pc a]: the verdict of program [p] on data [d] from instruction [pc]
    with accumulator [a]. *)
Class BPFMachine := {
  bpf_exec : list raw_insn -> sdata -> nat -> Z -> option Z;
  bpf_ld p d pc a jt jf k v :
    p !! pc = Some (BPF_LD_W_ABS, jt, jf, k) -> sd_word d k = Some v ->
    bpf_exec p d pc a = bpf_exec p d (S pc) v;
  bpf_jeq p d pc a jt jf k :
    p !! pc = Some (BPF_JEQ_K, jt, jf, k) ->
    bpf_exec p d pc a = bpf_exec p d (S pc + Z.to_nat (if a =? k then jt else jf)) a;
  bpf_ret p d pc a jt jf k :
    p !! pc = Some (BPF_RET_K, jt, jf, k) -> bpf_exec p d pc a = Some k;
}.

Definition bpf_verdict `{BPFMachine} (p : list raw_insn) (d : sdata) : option Z :=
  bpf_exec p d 0 0.

(** What is left of the program at an instruction: the form in which the correctness of
    the generated filters is proved. *)
Lemma drop_cons {A} (p : list A) pc x l :
  drop pc p = x :: l -> p !! pc = Some x /\ drop (S pc) p = l.
Proof.
  intros H. split.
  - by rewrite <- (Nat.add_0_r pc), <- lookup_drop, H.
  - replace (S pc) with (pc + 1)%nat by lia. by rewrite <- drop_drop, H.
Qed.

(** ** An interpreter *)

Fixpoint interp (fuel : nat) (p : list raw_insn) (d : sdata) (pc : nat) (a : Z) : option Z :=
  match fuel with
  | O => None
  | S fuel =>
      match p !! pc with
      | Some (code, jt, jf, k) =>
          if code =? BPF_LD_W_ABS then
            match sd_word d k with Some v => interp fuel p d (S pc) v | None => None end
          else if code =? BPF_JEQ_K then
            interp fuel p d (S pc + Z.to_nat (if a =? k then jt else jf)) a
          else if code =? BPF_RET_K then Some k else None
      | None => None
      end
  end.

Lemma interp_S fuel p d pc a :
  interp (S fuel) p d pc a =
  match p !! pc with
  | Some (code, jt, jf, k) =>
      if code =? BPF_LD_W_ABS then
        match sd_word d k with Some v => interp fuel p d (S pc) v | None => None end
      else if code =? BPF_JEQ_K then
        interp fuel p d (S pc + Z.to_nat (if a =? k then jt else jf)) a
      else if code =? BPF_RET_K then Some k else None
  | None => None
  end.
Proof. done. Qed.

(** Jumps only go forward, so the rest of the program bounds the number of steps. *)
Lemma interp_fuel n m p d pc a :
  (length p - pc < n)%nat -> (length p - pc < m)%nat -> interp n p d pc a = interp m p d pc a.
Proof.
  revert m pc a. induction n as [|n IH]; intros m pc a Hn Hm; [lia |].
  destruct m as [|m]; [lia |]. simpl.
  destruct (p !! pc) as [[[[code jt] jf] k]|] eqn:Hp; [| done].
  apply lookup_lt_Some in Hp. case_match; [case_match; [apply IH; lia | done] |].
  case_match; [apply IH; lia | done].
Qed.

#[export] Instance interp_machine : BPFMachine.
Proof.
  refine {| bpf_exec := fun p d pc a => interp (S (length p - pc)) p d pc a |}.
  - intros p d pc a jt jf k v Hp Hv. rewrite (interp_S (length p - pc)), Hp, Hv.
    rewrite Z.eqb_refl. apply lookup_lt_Some in Hp. apply interp_fuel; lia.
  - intros p d pc a jt jf k Hp. rewrite (interp_S (length p - pc)), Hp.
    change (BPF_JEQ_K =? BPF_LD_W_ABS) with false. rewrite Z.eqb_refl.
    apply lookup_lt_Some in Hp. apply interp_fuel; lia.
  - intros p d pc a jt jf k Hp. by rewrite (interp_S (length p - pc)), Hp.
Defined.
