(* ===== verification/SandboxConfig.v ===== *)
(** * Sandbox configuration (src/pkg/sandbox/config.go)

    The data types of a sandbox run and the parser of volume specifications. *)

From S2P Require Import Prelude GoStrings GoStrconv GoPath Effects OS.
#[local] Open Scope go_scope.

(** ** fmt's verbs *)

Definition dquote : ascii := chr 34.
Definition backslash : ascii := chr 92.

Definition hexdigit (d : Z) : ascii := chr (if d <? 10 then 48 + d else 87 + d).

(** [%q] on one byte: Go's escapes; bytes from 128 on are kept as they are. *)
Definition quote_char (c : ascii) : string :=
  let esc := fun z => String backslash (String (chr z) "") in
  if bool_decide (c = dquote) then esc 34
  else if bool_decide (c = backslash) then esc 92
  else match code c with
       | 7 => esc 97 | 8 => esc 98 | 9 => esc 116 | 10 => esc 110
       | 11 => esc 118 | 12 => esc 102 | 13 => esc 114
       | z => if (z <? 32) || (z =? 127)
              then String backslash (String (chr 120)
                     (String (hexdigit (z / 16)) (String (hexdigit (z mod 16)) "")))
              else String c ""
       end.

Fixpoint quote_body (s : string) : string :=
  match s with "" => "" | String a s => quote_char a +:+ quote_body s end.

Definition Quote (s : string) : string :=
  String dquote (quote_body s) +:+ String dquote "".

(** ** Data *)

Record ResourceMetrics := {
  PeakMemoryBytes : Z;
  UserCPUTimeUS : Z;
  SystemCPUTimeUS : Z;
}.

Record MountSpec := {
  HostPath : string;
  ContainerPath : string;
  ReadOnly : bool;
}.

(** network.PortMapping; sandbox.PortMapping is an alias of it. *)
Record PortMapping := {
  pm_HostPort : Z;
  pm_ContainerPort : Z;
  pm_Protocol : string;
}.

#[export] Instance ResourceMetrics_eq_dec : EqDecision ResourceMetrics.
Proof. solve_decision. Defined.
#[export] Instance MountSpec_eq_dec : EqDecision MountSpec.
Proof. solve_decision. Defined.
#[export] Instance PortMapping_eq_dec : EqDecision PortMapping.
Proof. solve_decision. Defined.

(** [Timeout] is a time.Duration in nanoseconds. *)
Record Config := {
  cfg_ID : string;
  cfg_MemoryLimitBytes : Z;
  cfg_MaxProcesses : Z;
  cfg_StorageLimitMB : Z;
  cfg_Timeout : Z;
  cfg_Command : string;
  cfg_Args : list string;
  cfg_Env : list string;
  cfg_RootPath : string;
  cfg_Rootfs : string;
  cfg_Mounts : list MountSpec;
  cfg_TTY : bool;
  cfg_SeccompProfile : string;
  cfg_NetworkMode : string;
  cfg_PortMappings : list PortMapping;
  cfg_DNSServers : list string;
}.

Record Result := {
  res_ExitCode : Z;
  res_Stdout : string;
  res_Stderr : string;
  res_Duration : Z;
  res_TimedOut : bool;
  res_Metrics : ResourceMetrics;
}.

(** ** ParseMountSpec *)

(** [filepath.Abs] *)
Definition Abs (p : string) : io (result string) :=
  if IsAbs p then mret (Ok (Clean p))
  else let? wd := sys Getwd onerr e => mret (Err e) in mret (Ok (PathJoin [wd; p])).

Definition parse_mount_mode (parts : list string) : result bool :=
  match parts with
  | [_; _; m] =>
      let mode := ToLower (TrimSpace m) in
      if bool_decide (mode = "ro") then Ok true
      else if bool_decide (mode = "rw") then Ok false
      else Err (NewErr ("invalid mount option " +:+ Quote mode +:+ ", expected 'ro' or 'rw'"))
  | _ => Ok false
  end.

Definition ParseMountSpec (spec : string) : io (result MountSpec) :=
  let parts := Split ":" spec in
  match parts with
  | p0 :: p1 :: rest =>
      if (1 <? length rest)%nat then
        mret (Err (NewErr ("invalid volume format " +:+ Quote spec +:+
                           ", expected 'host:container[:ro|rw]'")))
      else
        let hostPath := TrimSpace p0 in
        let containerPath := TrimSpace p1 in
        if bool_decide (hostPath = "") || bool_decide (containerPath = "") then
          mret (Err (NewErr ("empty host or container path in volume specification: " +:+
                             Quote spec)))
        else
          let? absHost := Abs hostPath onerr e =>
            mret (Err (WrapErr ("invalid host path " +:+ hostPath) e)) in
          let? realHost := sys (EvalSymlinks absHost) onerr e =>
            mret (Err (WrapErr ("failed to resolve host path symlinks " +:+ absHost) e)) in
          match parse_mount_mode parts with
          | Err e => mret (Err e)
          | Ok readOnly =>
              let abs := if IsAbs containerPath then containerPath else "/" +:+ containerPath in
              mret (Ok {| HostPath := realHost; ContainerPath := Clean abs;
                          ReadOnly := readOnly |})
          end
  | _ => mret (Err (NewErr ("invalid volume format " +:+ Quote spec +:+
                            ", expected 'host:container[:ro|rw]'")))
  end.

(** ** What the parser accepts *)

#[local] Arguments parse_mount_mode : simpl never.
#[local] Arguments Split : simpl never.

(** The third part of a specification, as the parser compares it. *)
Definition mode_of (parts : list string) : option string :=
  match parts with [_; _; m] => Some (ToLower (TrimSpace m)) | _ => None end.

Lemma parse_mount_mode_Ok parts b :
  parse_mount_mode parts = Ok b ->
  mode_of parts = (if b then Some "ro" else None) \/ (b = false /\ mode_of parts = Some "rw").
Proof.
  unfold parse_mount_mode, mode_of. destruct parts as [|? [|? [|m [|]]]]; try (intros [= <-]; auto).
  case_bool_decide as H1; [rewrite H1; intros [= <-]; auto |].
  case_bool_decide as H2; [rewrite H2; intros [= <-]; auto | done].
Qed.

Definition rooted (p : string) : string := if IsAbs p then p else "/" +:+ p.

Lemma IsAbs_rooted p : IsAbs (rooted p) = true.
Proof. unfold rooted. destruct (IsAbs p) eqn:E; [done |]. apply HasPrefix_app. Qed.

(** A rooted path that [Clean] leaves alone, so without [.], [..] or empty components. *)
Definition clean_abs (p : string) : Prop :=
  IsAbs p = true /\ Clean p = p /\ Forall plain (path_comps p).

Lemma clean_abs_Clean p : IsAbs p = true -> clean_abs (Clean p).
Proof.
  intros H. split; [by apply IsAbs_Clean |]. split; [by apply Clean_idemp |].
  by apply path_comps_plain, IsAbs_Clean.
Qed.

Lemma clean_abs_Join p : clean_abs p -> p = "/" +:+ Join (path_comps p) "/".
Proof. intros (H1 & H2 & _). by rewrite <- Clean_rooted, H2. Qed.

Lemma TrimPrefix_clean_abs p :
  clean_abs p -> TrimPrefix p "/" = Join (path_comps p) "/".
Proof.
  intros H. rewrite (clean_abs_Join p H) at 1.
  unfold TrimPrefix. by rewrite HasPrefix_app.
Qed.

(** Whatever the host answers, a volume specification is accepted only if it has a
    non-empty host part, a non-empty container part and at most one mode part, which
    must be ro or rw; the container path returned is absolute, in [filepath.Clean] form
    and free of [..] components, and the mount is read-only exactly when the mode is ro. *)
Theorem ParseMountSpec_sound {W} (h : handler os W) w spec m :
  res h (ParseMountSpec spec) w = Ok m ->
  exists host cont rest,
    Split ":" spec = host :: cont :: rest /\ (length rest <= 1)%nat /\
    TrimSpace host <> "" /\ TrimSpace cont <> "" /\
    ContainerPath m = Clean (rooted (TrimSpace cont)) /\ clean_abs (ContainerPath m) /\
    (ReadOnly m = true <-> mode_of (Split ":" spec) = Some "ro") /\
    (rest = [] \/ mode_of (Split ":" spec) = Some "ro" \/ mode_of (Split ":" spec) = Some "rw").
Proof.
  revert m. apply wp_res. unfold ParseMountSpec, Abs.
  destruct (Split ":" spec) as [|host [|cont rest]] eqn:Hs; wp_steps; try done.
  all: intros m [= <-].
  all: bool_hyps; match goal with Hm : parse_mount_mode _ = Ok _ |- _ =>
         apply parse_mount_mode_Ok in Hm end.
  all: exists host, cont, rest; split_and!; try done; simpl;
    try (apply clean_abs_Clean, IsAbs_rooted).
  all: destruct rest as [|r [|]]; simpl in *; [| | lia].
  all: repeat case_match; intuition (congruence || auto).
Qed.

Example ParseMountSpec_sound_witness :
  res ok_os (ParseMountSpec "/srv/data: /mnt/../data/ :RO ") tt =
    Ok {| HostPath := "/"; ContainerPath := "/data"; ReadOnly := true |} /\
  exists host cont rest,
    Split ":" "/srv/data: /mnt/../data/ :RO " = host :: cont :: rest /\ (length rest <= 1)%nat /\
    TrimSpace host <> "" /\ TrimSpace cont <> "" /\
    "/data" = Clean (rooted (TrimSpace cont)) /\ clean_abs "/data" /\
    (true = true <-> mode_of (Split ":" "/srv/data: /mnt/../data/ :RO ") = Some "ro") /\
    (rest = [] \/ mode_of (Split ":" "/srv/data: /mnt/../data/ :RO ") = Some "ro" \/
     mode_of (Split ":" "/srv/data: /mnt/../data/ :RO ") = Some "rw").
Proof.
  split; [vm_compute; reflexivity |].
  apply (ParseMountSpec_sound ok_os tt "/srv/data: /mnt/../data/ :RO "
           {| HostPath := "/"; ContainerPath := "/data"; ReadOnly := true |}).
  vm_compute; reflexivity.
Defined.

(** ** The whole contract *)

(** The documented form host:container[:ro|rw], with the host's and the container's path
    and whether the mount is read-only; spaces around the parts do not count, nor does the
    case of the mode. *)
Inductive volume (spec : string) : string -> string -> bool -> Prop :=
| volume_plain h c :
    Forall (fun p => no_char ":" p = true) [h; c] -> spec = Join [h; c] ":" ->
    TrimSpace h <> "" -> TrimSpace c <> "" -> volume spec (TrimSpace h) (TrimSpace c) false
| volume_mode h c m (b : bool) :
    Forall (fun p => no_char ":" p = true) [h; c; m] -> spec = Join [h; c; m] ":" ->
    TrimSpace h <> "" -> TrimSpace c <> "" -> ToLower (TrimSpace m) = (if b then "ro" else "rw") ->
    volume spec (TrimSpace h) (TrimSpace c) b.

(** The host's answer for a path, in the calls that were made: the working directory first
    if the path is relative, and then the resolved path. *)
Definition wd_answer (e : event os) : option string :=
  match e with
  | Ev c r => match c return osans c -> option string with
              | Getwd => fun r => match r with Ok wd => Some wd | Err _ => None end
              | _ => fun _ => None
              end r
  end.

Definition resolved (p : string) (e : event os) : option string :=
  match e with
  | Ev c r => match c return osans c -> option string with
              | EvalSymlinks q => fun r =>
                  if bool_decide (q = p) then match r with Ok real => Some real | Err _ => None end else None
              | _ => fun _ => None
              end r
  end.

Definition real_path (host : string) (tr : list (event os)) : option string :=
  if IsAbs host then match tr with [e] => resolved (Clean host) e | _ => None end
  else match tr with
       | [e; e'] => match wd_answer e with Some wd => resolved (PathJoin [wd; host]) e' | None => None end
       | _ => None
       end.

(** The form, by the parts. *)
Lemma volume_parts spec host cont b :
  volume spec host cont b <->
  exists h c rest, Split ":" spec = h :: c :: rest /\ host = TrimSpace h /\ cont = TrimSpace c /\
    host <> "" /\ cont <> "" /\ (length rest <= 1)%nat /\ parse_mount_mode (h :: c :: rest) = Ok b.
Proof.
  split.
  - intros [h c Hn -> Hh Hc | h c m b' Hn -> Hh Hc Hm].
    + exists h, c, []. pose proof (Split_Join ":" [h; c] ltac:(done) Hn) as ->. split_and!; done || (simpl; lia).
    + exists h, c, [m]. pose proof (Split_Join ":" [h; c; m] ltac:(done) Hn) as ->. split_and!; try done.
      unfold parse_mount_mode. rewrite Hm. by destruct b'.
  - intros (h & c & rest & Hs & -> & -> & Hh & Hc & Hl & Hm).
    pose proof (Split_no_char ":" spec) as Hn. pose proof (Join_Split ":" spec) as Hj. rewrite Hs in Hn, Hj.
    destruct rest as [|m [|]]; [| | simpl in Hl; lia].
    + injection Hm as <-. by apply volume_plain.
    + apply (volume_mode spec h c m b); [done | done | done | done |]. unfold parse_mount_mode in Hm.
      repeat case_bool_decide; by simplify_eq.
Qed.

(** What a specification that is accepted stands for. *)
Definition accepted (spec : string) (tr : list (event os)) (m : MountSpec) : Prop :=
  exists host cont b real, volume spec host cont b /\ real_path host tr = Some real /\
    m = {| HostPath := real; ContainerPath := Clean (rooted cont); ReadOnly := b |}.

Lemma accepted_parts spec tr m :
  accepted spec tr m <->
  exists h c rest b real, Split ":" spec = h :: c :: rest /\
    (TrimSpace h <> "" /\ TrimSpace c <> "" /\ (length rest <= 1)%nat) /\
    parse_mount_mode (h :: c :: rest) = Ok b /\ real_path (TrimSpace h) tr = Some real /\
    m = {| HostPath := real; ContainerPath := Clean (rooted (TrimSpace c)); ReadOnly := b |}.
Proof.
  split.
  - intros (host & cont & b & real & (h & c & rest & Hs & -> & -> & Hh & Hc & Hl & Hm)%volume_parts & Hr & ->).
    by exists h, c, rest, b, real.
  - intros (h & c & rest & b & real & Hs & (Hh & Hc & Hl) & Hm & Hr & ->).
    exists (TrimSpace h), (TrimSpace c), b, real. split; [| done]. apply volume_parts.
    by exists h, c, rest.
Qed.

(** C40: Whatever the host answers, a specification is accepted exactly if it has the documented
    form and the host resolves its path, made absolute: the mount is then of the resolved
    path, at the absolute and cleaned path in the container, without [..] components, and
    read-only exactly for the mode ro.  In every other case the parser reports an error. *)
Theorem ParseMountSpec_exact spec tr r (He : ends (ParseMountSpec spec) tr r) :
  (forall m, r = Ok m <-> accepted spec tr m) /\
  (forall m, r = Ok m -> clean_abs (ContainerPath m)).
Proof.
  enough (forall m, r = Ok m <-> accepted spec tr m) as Hex.
  { split; [done |]. intros m (host & cont & b & real & _ & _ & ->)%Hex.
    apply clean_abs_Clean, IsAbs_rooted. }
  revert He. apply (wp_ends_log _ tr r (fun tr r => forall m, r = Ok m <-> accepted spec tr m)).
  eapply wp_mono. { intros s a HQ m. rewrite accepted_parts. revert m. exact HQ. } cbv beta.
  unfold ParseMountSpec, Abs.
  destruct (Split ":" spec) as [|h [|c rest]] eqn:Hs; wp_steps.
  all: bool_hyps.
  all: intros m; split;
    [intros [= <-] | intros (h' & c' & rest' & b & real & Hs' & (Hh & Hc & Hl) & Hm & Hreal & ->)];
    try done; try injection Hs' as <- <- <-.
  all: try (unfold real_path in Hreal; rewrite ?E1 in Hreal; simpl in Hreal;
            try rewrite bool_decide_true in Hreal by done).
  all: try congruence.
  all: try (exfalso; lia).
  1: by apply orb_true_iff in E0 as [E0%bool_decide_eq_true | E0%bool_decide_eq_true].
  all: bool_hyps.
  1, 3: eexists h, c, rest, a, _; split_and!; try done; unfold real_path; rewrite E1; simpl; by rewrite bool_decide_true.
  all: unfold rooted; congruence.
Qed.

Lemma ParseMountSpec_exact_witness :
  accepted "/srv/data: /mnt/../data/ :RO " (trace ok_os (ParseMountSpec "/srv/data: /mnt/../data/ :RO ") tt)
    {| HostPath := "/"; ContainerPath := "/data"; ReadOnly := true |}.
Proof.
  apply (ParseMountSpec_exact "/srv/data: /mnt/../data/ :RO " _ (res ok_os (ParseMountSpec "/srv/data: /mnt/../data/ :RO ") tt)).
  - apply run_ends.
  - vm_compute. reflexivity.
Defined.
