(* ===== verification/Protocol.v ===== *)
(** * Wire protocol (src/pkg/protocol/protocol.go)

    The frames exchanged over the daemon's socket: a 5-byte header (stream type and
    big-endian 32-bit length) and a payload.  A writer is the sequence of [Write] calls
    it makes, each of which may fail; a reader is a byte stream that ends with an error
    ([EOF] when the peer closes).  [encoding/json] is a type class: the two functions
    the code calls and the documented law that relates them. *)

From Stdlib Require Import Init.Byte Strings.Byte SpecFloat.
From stdpp Require Import countable.
From S2P Require Import Prelude GoStrings Effects OS SandboxConfig.
#[local] Open Scope go_scope.

(** ** Payload types *)

Definition StreamStdout : Z := 1.
Definition StreamStderr : Z := 2.
Definition StreamExit : Z := 3.
Definition StreamStdin : Z := 4.
Definition StreamResize : Z := 5.
Definition StreamStats : Z := 6.

Record Request := {
  req_Action : string;
  req_TargetID : string;
  req_Command : string;
  req_Args : list string;
  req_Env : list string;
  req_Timeout : Z;
  req_MemoryLimitBytes : Z;
  req_MaxProcesses : Z;
  req_StorageLimitMB : Z;
  req_Mounts : list MountSpec;
  req_TTY : bool;
  req_SeccompProfile : string;
  req_NetworkMode : string;
  req_PortMappings : list PortMapping;
  req_DNSServers : list string;
}.

(** [CPUPercent] is a float64: an IEEE binary64 datum. *)
Record StatsPayload := {
  st_ContainerID : string;
  st_Timestamp : Z;
  st_MemoryBytes : Z;
  st_MemoryLimitBytes : Z;
  st_PeakMemoryBytes : Z;
  st_CPUUsageUS : Z;
  st_CPUPercent : spec_float;
  st_PIDsCurrent : Z;
  st_PIDsLimit : Z;
}.

Record JobInfo := {
  job_ID : string;
  job_PID : Z;
  job_Command : string;
  job_Args : list string;
  job_Status : string;
  job_StartTime : Z;
  job_Duration : Z;
  job_PeakMemoryBytes : Z;
  job_ExitCode : Z;
}.

Record ControlResponse := {
  resp_Success : bool;
  resp_Error : string;
  resp_Jobs : list JobInfo;
}.

Record WindowSize := { ws_Rows : Z; ws_Cols : Z }.

Record ExitPayload := {
  exit_ExitCode : Z;
  exit_Duration : Z;
  exit_TimedOut : bool;
  exit_Metrics : ResourceMetrics;
  exit_Error : string;
}.

(** ** encoding/binary, big endian *)

Definition PutUint16 (v : Z) : list byte := [Zbyte (Z.shiftr v 8); Zbyte v].

Definition PutUint32 (v : Z) : list byte :=
  [Zbyte (Z.shiftr v 24); Zbyte (Z.shiftr v 16); Zbyte (Z.shiftr v 8); Zbyte v].

Definition Uint16 (b0 b1 : byte) : Z := Z.lor (byteZ b1) (Z.shiftl (byteZ b0) 8).

Definition Uint32 (b0 b1 b2 b3 : byte) : Z :=
  Z.lor (Z.lor (Z.lor (byteZ b3) (Z.shiftl (byteZ b2) 8)) (Z.shiftl (byteZ b1) 16))
        (Z.shiftl (byteZ b0) 24).

(** ** encoding/json *)

(** [json.Marshal] and [json.Unmarshal] at a type, the values that survive the
    encoding (strings that are valid UTF-8), and that they do. *)
Class JSON (T : Type) := {
  Marshal : T -> result (list byte);
  Unmarshal : list byte -> result T;
  json_faithful : T -> Prop;
  Unmarshal_Marshal x b : json_faithful x -> Marshal x = Ok b -> Unmarshal b = Ok x;
}.

(** ** Writing *)

(** One [Write] on the connection. *)
Definition wire : sig := Sig (list byte) (fun _ => result unit).

Definition Write (bs : list byte) : prog wire (result unit) := @do_call wire bs.

Definition frame_header (streamType : Z) (payload : list byte) : list byte :=
  Zbyte streamType :: PutUint32 (uint32 (Z.of_nat (length payload))).

Definition WriteFrame (streamType : Z) (payload : list byte) : prog wire (result unit) :=
  let? _ := Write (frame_header streamType payload) onerr e => mret (Err e) in
  if (0 <? length payload)%nat then
    let? _ := Write payload onerr e => mret (Err e) in mret (Ok tt)
  else mret (Ok tt).

Section json_frames.
Context `{JSON ExitPayload, JSON StatsPayload}.

Definition WriteExitFrame (payload : ExitPayload) : prog wire (result unit) :=
  match Marshal payload with
  | Err e => mret (Err (WrapErr "failed to marshal exit payload" e))
  | Ok data => WriteFrame StreamExit data
  end.

Definition WriteStatsFrame (payload : StatsPayload) : prog wire (result unit) :=
  match Marshal payload with
  | Err e => mret (Err (WrapErr "failed to marshal stats payload" e))
  | Ok data => WriteFrame StreamStats data
  end.

Definition ParseExitPayload (payload : list byte) : result ExitPayload := Unmarshal payload.

Definition ParseStatsPayload (payload : list byte) : result StatsPayload := Unmarshal payload.
End json_frames.

(** ** Reading *)

(** What is left to read, and the error the reader then returns. *)
Record stream := Stream { s_data : list byte; s_end : error }.

(** [io.ReadFull(r, buf)] with [len(buf) = n]. *)
Definition ReadFull (n : nat) (s : stream) : result (list byte) * stream :=
  if (n <=? length (s_data s))%nat then
    (Ok (take n (s_data s)), Stream (drop n (s_data s)) (s_end s))
  else
    (Err (match s_data s, s_end s with
          | _ :: _, EOF => ErrUnexpectedEOF
          | _, e => e
          end), Stream [] (s_end s)).

Definition ReadFrame (s : stream) : result (Z * list byte) * stream :=
  match ReadFull 5 s with
  | (Ok [t; b0; b1; b2; b3], s1) =>
      let length := Uint32 b0 b1 b2 b3 in
      if 0 <? length then
        match ReadFull (Z.to_nat length) s1 with
        | (Ok payload, s2) => (Ok (byteZ t, payload), s2)
        | (Err e, s2) => (Err e, s2)
        end
      else (Ok (byteZ t, []), s1)
  | (Ok _, s1) => (Err ErrUnexpectedEOF, s1)
  | (Err e, s1) => (Err e, s1)
  end.

Definition ParseWindowSize (payload : list byte) : result WindowSize :=
  match payload with
  | b0 :: b1 :: b2 :: b3 :: _ => Ok {| ws_Rows := Uint16 b0 b1; ws_Cols := Uint16 b2 b3 |}
  | _ => Err (NewErr "invalid resize payload length")
  end.

Definition EncodeWindowSize (rows cols : Z) : list byte := PutUint16 rows ++ PutUint16 cols.

(** [for { st, p, err := fr.ReadFrame(); if err != nil { break } ... }]: the frames read
    and the error that ends the loop.  Every frame takes at least 5 bytes, so one more
    round than there are bytes is enough ([read_frames_fuel]). *)
Fixpoint read_frames_go (fuel : nat) (s : stream) : list (Z * list byte) * error :=
  match fuel with
  | O => ([], s_end s)
  | S fuel =>
      match ReadFrame s with
      | (Ok f, s') => let '(fs, e) := read_frames_go fuel s' in (f :: fs, e)
      | (Err e, _) => ([], e)
      end
  end.

Definition read_frames (s : stream) : list (Z * list byte) * error :=
  read_frames_go (S (length (s_data s))) s.

(** The bytes of a complete frame. *)
Definition frame_bytes (f : Z * list byte) : list byte := frame_header f.1 f.2 ++ f.2.

(** A frame the protocol can carry. *)
Definition frame_ok (f : Z * list byte) : Prop :=
  in_uint 8 f.1 /\ Z.of_nat (length f.2) < 2 ^ 32.

(** The bytes that reach the connection: those of the writes that succeeded. *)
Fixpoint written (tr : list (event wire)) : list byte :=
  match tr with
  | [] => []
  | Ev bs (Ok _) :: tr => bs ++ written tr
  | Ev _ (Err _) :: tr => written tr
  end.

(** ** Byte order *)

Lemma lor_shiftl a b n : 0 <= n -> 0 <= a < 2 ^ n -> Z.lor a (Z.shiftl b n) = a + b * 2 ^ n.
Proof.
  intros Hn Ha. rewrite Z.shiftl_mul_pow2 by done. symmetry. apply Z.add_nocarry_lor.
  apply Z.bits_inj'. intros i Hi. rewrite Z.land_spec, Z.bits_0.
  destruct (Z.lt_ge_cases i n).
  - rewrite Z.mul_pow2_bits_low by done. apply andb_false_r.
  - destruct (Z.eq_dec a 0) as [-> | Hne]; [by rewrite Z.testbit_0_l |].
    rewrite (Z.bits_above_log2 a i); [done | lia |].
    eapply Z.lt_le_trans; [apply (Z.log2_lt_pow2 a n); lia | done].
Qed.

Lemma byteZ_shiftr v k : 0 <= k -> byteZ (Zbyte (Z.shiftr v k)) = (v / 2 ^ k) mod 2 ^ 8.
Proof. intros Hk. rewrite byteZ_Zbyte, Z.shiftr_div_pow2 by done. done. Qed.

Lemma Uint16_PutUint16 v :
  in_uint 16 v -> Uint16 (Zbyte (Z.shiftr v 8)) (Zbyte v) = v.
Proof.
  unfold in_uint, Uint16. intros Hv. rewrite lor_shiftl by (lia || apply byteZ_range).
  rewrite byteZ_shiftr, byteZ_Zbyte by lia. unfold wrapu.
  rewrite (Z.mod_small (v / 2 ^ 8)); Z.to_euclidean_division_equations; lia.
Qed.

Lemma Uint32_arith b0 b1 b2 b3 :
  Uint32 b0 b1 b2 b3 =
  byteZ b3 + byteZ b2 * 2 ^ 8 + byteZ b1 * 2 ^ 16 + byteZ b0 * 2 ^ 24.
Proof.
  unfold Uint32.
  pose proof (byteZ_range b0). pose proof (byteZ_range b1).
  pose proof (byteZ_range b2). pose proof (byteZ_range b3). unfold in_uint in *.
  rewrite (lor_shiftl (byteZ b3) _ 8), (lor_shiftl _ _ 16), (lor_shiftl _ _ 24) by lia. lia.
Qed.

Lemma Uint32_PutUint32 v :
  in_uint 32 v ->
  Uint32 (Zbyte (Z.shiftr v 24)) (Zbyte (Z.shiftr v 16)) (Zbyte (Z.shiftr v 8)) (Zbyte v) = v.
Proof.
  unfold in_uint. intros Hv. rewrite Uint32_arith, !byteZ_shiftr, byteZ_Zbyte by lia.
  unfold wrapu. Z.to_euclidean_division_equations; lia.
Qed.

Lemma length_frame_header t p : length (frame_header t p) = 5%nat.
Proof. done. Qed.

(** ** Reading back *)

Lemma ReadFull_app n a b e :
  length a = n -> ReadFull n (Stream (a ++ b) e) = (Ok a, Stream b e).
Proof.
  intros <-. unfold ReadFull. simpl. rewrite length_app, (proj2 (Nat.leb_le _ _)) by lia.
  by rewrite take_app_length, drop_app_length.
Qed.

Lemma ReadFull_short n a e :
  (length a < n)%nat ->
  ReadFull n (Stream a e) =
  (Err (match a, e with _ :: _, EOF => ErrUnexpectedEOF | _, e => e end), Stream [] e).
Proof. intros H. unfold ReadFull. simpl. rewrite (proj2 (Nat.leb_gt _ _)) by done. by destruct a, e. Qed.

(** Reading a stream that starts with a header and enough bytes. *)
Lemma ReadFrame_header t p rest e :
  in_uint 8 t ->
  (Z.to_nat (uint32 (Z.of_nat (length p))) <= length rest)%nat ->
  ReadFrame (Stream (frame_header t p ++ rest) e) =
  let n := Z.to_nat (uint32 (Z.of_nat (length p))) in
  (Ok (t, take n rest), Stream (drop n rest) e).
Proof.
  intros Ht Hn. unfold ReadFrame. rewrite ReadFull_app by apply length_frame_header.
  unfold frame_header, PutUint32. cbv beta iota.
  pose proof (wrapu_range 32 (Z.of_nat (length p)) ltac:(lia)) as Hr.
  rewrite Uint32_PutUint32 by done. rewrite byteZ_Zbyte, (wrapu_id 8) by done.
  cbv zeta. destruct (Z.ltb_spec 0 (uint32 (Z.of_nat (length p)))) as [Hpos | Hz].
  - unfold ReadFull. cbn [s_data s_end]. by rewrite (proj2 (Nat.leb_le _ _)).
  - replace (wrapu 32 (Z.of_nat (length p))) with 0 by (unfold in_uint in Hr; lia).
    simpl. by rewrite take_0, drop_0.
Qed.

Lemma ReadFrame_frame_bytes f rest e :
  frame_ok f -> ReadFrame (Stream (frame_bytes f ++ rest) e) = (Ok f, Stream rest e).
Proof.
  destruct f as [t p]. unfold frame_ok, frame_bytes. cbn [fst snd]. intros [Ht Hp].
  rewrite <- app_assoc. rewrite ReadFrame_header; [| done |].
  - rewrite wrapu_id by (unfold in_uint; lia). rewrite Nat2Z.id.
    cbv zeta. by rewrite take_app_length, drop_app_length.
  - rewrite wrapu_id by (unfold in_uint; lia). rewrite Nat2Z.id, length_app. lia.
Qed.

Lemma written_app tr1 tr2 : written (tr1 ++ tr2) = written tr1 ++ written tr2.
Proof.
  induction tr1 as [|[bs [|]] tr IH]; simpl; [done | | done]. by rewrite IH, app_assoc.
Qed.

(** What [WriteFrame] puts on the wire, whatever the connection does. *)
Lemma WriteFrame_trace {W} (h : handler wire W) t p w :
  (res h (WriteFrame t p) w = Ok tt -> written (trace h (WriteFrame t p) w) = frame_bytes (t, p)).
Proof.
  apply (wp_log_sound h (WriteFrame t p) w
           (fun tr r => r = Ok tt -> written tr = frame_bytes (t, p))).
  unfold WriteFrame, Write. wp_steps; intros; try done; unfold log_mon, frame_bytes.
  - simpl. by rewrite app_nil_r.
  - bool_hyps. destruct p; simpl in *; [done | lia].
Qed.

Lemma read_frames_fuel fs n e :
  Forall frame_ok fs -> (length fs < n)%nat ->
  read_frames_go n (Stream (concat (map frame_bytes fs)) e) = (fs, e).
Proof.
  intros H. revert n. induction H as [|f fs Hf _ IH]; intros n Hn;
    (destruct n as [|n]; [simpl in Hn; lia |]).
  - simpl. destruct e; done.
  - cbn [map concat read_frames_go]. rewrite ReadFrame_frame_bytes by done.
    rewrite IH by (simpl in Hn; lia). done.
Qed.

Lemma length_frames fs : (length fs <= length (concat (map frame_bytes fs)))%nat.
Proof. induction fs as [|f fs IH]; simpl; [done |]. rewrite !length_app. simpl. lia. Qed.

(** Reading takes bytes away, so a reading loop has a bounded number of turns. *)
Lemma ReadFull_shrinks n s a s' :
  ReadFull n s = (Ok a, s') -> length (s_data s) = (n + length (s_data s'))%nat.
Proof.
  unfold ReadFull. destruct (Nat.leb_spec n (length (s_data s))); intros [= <- <-]. simpl.
  rewrite length_drop. lia.
Qed.

Lemma ReadFrame_shrinks s f s' :
  ReadFrame s = (Ok f, s') -> (length (s_data s') < length (s_data s))%nat.
Proof.
  unfold ReadFrame. destruct (ReadFull 5 s) as [[l|e] s1] eqn:E1; [| done].
  apply ReadFull_shrinks in E1. destruct l as [|t [|b0 [|b1 [|b2 [|b3 [|]]]]]]; try done.
  case_match; [| intros [= _ <-]; lia].
  destruct (ReadFull _ s1) as [[p|e] s2] eqn:E2; [| done].
  apply ReadFull_shrinks in E2. intros [= _ <-]. lia.
Qed.

Lemma read_frames_enough n m s :
  (length (s_data s) < n)%nat -> (length (s_data s) < m)%nat ->
  read_frames_go n s = read_frames_go m s.
Proof.
  revert m s. induction n as [|n IH]; intros [|m] s Hn Hm; try lia. simpl.
  destruct (ReadFrame s) as [[f|e] s'] eqn:E; [| done]. apply ReadFrame_shrinks in E.
  by rewrite (IH m) by lia.
Qed.

Lemma read_frames_step s :
  read_frames s =
  match ReadFrame s with
  | (Ok f, s') => (f :: (read_frames s').1, (read_frames s').2)
  | (Err e, _) => ([], e)
  end.
Proof.
  unfold read_frames at 1. cbn [read_frames_go].
  destruct (ReadFrame s) as [[f|e] s'] eqn:E; [| done]. apply ReadFrame_shrinks in E.
  rewrite (read_frames_enough _ (S (length (s_data s')))) by lia.
  fold (read_frames s'). by destruct (read_frames s').
Qed.

(** A JSON instance from any countable type: one byte per bit of its encoding.  It is
    used where a statement about JSON is evaluated on a concrete payload. *)
Fixpoint pos_bytes (p : positive) : list byte :=
  match p with
  | xH => [x01]
  | xO p => x00 :: pos_bytes p
  | xI p => x01 :: pos_bytes p
  end.

Fixpoint bytes_pos (l : list byte) : positive :=
  match l with
  | [] | [_] => xH
  | x00 :: l => xO (bytes_pos l)
  | _ :: l => xI (bytes_pos l)
  end.

Lemma bytes_pos_bytes p : bytes_pos (pos_bytes p) = p.
Proof. induction p as [p IH | p IH |]; simpl; [..| done]; rewrite IH; by destruct p. Qed.

Definition countable_json (T : Type) `{Countable T} : JSON T.
Proof.
  refine {| Marshal := fun x => Ok (pos_bytes (encode x));
            Unmarshal := fun b => match decode (bytes_pos b) with
                                  | Some x => Ok x | None => Err (NewErr "json") end;
            json_faithful := fun _ => True |}.
  intros x b _ [= <-]. by rewrite bytes_pos_bytes, decode_encode.
Defined.

#[export] Instance ResourceMetrics_countable : Countable ResourceMetrics.
Proof.
  refine (inj_countable'
    (fun m => (PeakMemoryBytes m, UserCPUTimeUS m, SystemCPUTimeUS m))
    (fun '(a, b, c) => Build_ResourceMetrics a b c) _).
  by intros [].
Defined.

#[export] Instance ExitPayload_eq_dec : EqDecision ExitPayload.
Proof. solve_decision. Defined.

#[export] Instance ExitPayload_countable : Countable ExitPayload.
Proof.
  refine (inj_countable'
    (fun x => (exit_ExitCode x, exit_Duration x, exit_TimedOut x, exit_Metrics x, exit_Error x))
    (fun '(a, b, c, d, e) => Build_ExitPayload a b c d e) _).
  by intros [].
Defined.

(** ** Properties *)

(** C32: A frame written on a connection is read back as written.  If [WriteFrame]
    returns nil, the bytes it put on the wire, followed by any others, make [ReadFrame]
    return the same stream type and payload and leave the reader exactly behind the
    frame, for every stream type of 8 bits and payload shorter than 2^32 bytes. *)
Theorem WriteFrame_ReadFrame {W} (h : handler wire W) w t p rest e :
  frame_ok (t, p) -> res h (WriteFrame t p) w = Ok tt ->
  ReadFrame (Stream (written (trace h (WriteFrame t p) w) ++ rest) e) =
    (Ok (t, p), Stream rest e).
Proof. intros Hf Hr. rewrite WriteFrame_trace by done. by apply ReadFrame_frame_bytes. Qed.

(** A stream of frames is parsed into exactly those frames, in order, and the
    reading loop ends with the reader's own end error (so it terminates, within one
    round per byte). *)
Theorem read_frames_sent fs e :
  Forall frame_ok fs -> read_frames (Stream (concat (map frame_bytes fs)) e) = (fs, e).
Proof. intros H. apply read_frames_fuel; [done |]. simpl. pose proof (length_frames fs). lia. Qed.

(** The header's length field is the payload length modulo 2^32, so the reader gets
    the first [len mod 2^32] bytes as the payload and the others are left in the stream,
    to be taken for the next frames.  A payload of 4 GiB or more is therefore corrupted. *)
Theorem ReadFrame_oversize t p rest e :
  in_uint 8 t ->
  let n := Z.to_nat (Z.of_nat (length p) mod 2 ^ 32) in
  ReadFrame (Stream (frame_bytes (t, p) ++ rest) e) =
    (Ok (t, take n p), Stream (drop n p ++ rest) e).
Proof.
  intros Ht n. unfold frame_bytes. cbn [fst snd]. rewrite <- app_assoc.
  assert (n <= length p)%nat as Hn.
  { subst n. pose proof (Z.mod_le (Z.of_nat (length p)) (2 ^ 32) ltac:(lia) ltac:(lia)). lia. }
  rewrite ReadFrame_header; [| done | rewrite length_app; unfold wrapu; lia].
  cbv zeta. change (Z.to_nat (uint32 (Z.of_nat (length p)))) with n.
  by rewrite take_app_le, drop_app_le.
Qed.

(** C34: A stream cut inside a frame never yields a frame: [ReadFrame] returns
    [io.ErrUnexpectedEOF], except when the cut is before the frame or exactly after its
    5-byte header, where it returns plain [io.EOF], as at a clean end. *)
Theorem ReadFrame_truncated f n :
  frame_ok f -> (n < length (frame_bytes f))%nat ->
  (ReadFrame (Stream (take n (frame_bytes f)) EOF)).1 =
    Err (if bool_decide (n = 0%nat \/ n = 5%nat) then EOF else ErrUnexpectedEOF).
Proof.
  destruct f as [t p]. intros [Ht Hp] Hn. unfold frame_bytes in *. cbn [fst snd] in *.
  rewrite length_app, length_frame_header in Hn.
  destruct (Nat.lt_ge_cases n 5) as [Hlt | Hge].
  - rewrite take_app_le by (rewrite length_frame_header; lia).
    unfold ReadFrame. rewrite ReadFull_short by (rewrite length_take, length_frame_header; lia).
    destruct n as [|n]; [done |]. cbn [fst]. rewrite bool_decide_false by lia. done.
  - rewrite take_app_ge, length_frame_header by (rewrite length_frame_header; lia).
    unfold ReadFrame. rewrite ReadFull_app by apply length_frame_header.
    unfold frame_header, PutUint32. cbv beta iota.
    rewrite (wrapu_id 32), Uint32_PutUint32 by (unfold in_uint; lia).
    cbv zeta. rewrite (proj2 (Z.ltb_lt _ _)), Nat2Z.id by lia.
    rewrite ReadFull_short by (rewrite length_take; lia). cbn [fst].
    destruct (decide (n = 5%nat)) as [-> | Hne]; [by rewrite take_0 |].
    rewrite bool_decide_false by lia.
    destruct p; simpl in *; [lia |]. destruct (n - 5)%nat eqn:E; [lia | done].
Qed.

(** A terminal size survives encoding and parsing (with any bytes after the four
    that are read), and a resize payload shorter than four bytes is rejected. *)
Theorem ParseWindowSize_spec rows cols extra payload :
  in_uint 16 rows -> in_uint 16 cols ->
  ParseWindowSize (EncodeWindowSize rows cols ++ extra) =
    Ok {| ws_Rows := rows; ws_Cols := cols |} /\
  length (EncodeWindowSize rows cols) = 4%nat /\
  ((length payload < 4)%nat <->
    ParseWindowSize payload = Err (NewErr "invalid resize payload length")).
Proof.
  intros Hr Hc. split_and!; [| done |].
  - simpl. by rewrite !Uint16_PutUint16.
  - do 4 (destruct payload as [|? payload]; [simpl; split; [done | lia] |]).
    simpl. split; [lia | done].
Qed.

(** The exit status that ends a run reaches the client: if [WriteExitFrame] returns
    nil, reading the wire gives one frame of type StreamExit whose payload parses to the
    exit payload that was sent, for every JSON codec that keeps it. *)
Theorem WriteExitFrame_ParseExitPayload `{JSON ExitPayload} {W} (h : handler wire W) w x rest e :
  json_faithful x ->
  (forall b, Marshal x = Ok b -> Z.of_nat (length b) < 2 ^ 32) ->
  res h (WriteExitFrame x) w = Ok tt ->
  exists p, ReadFrame (Stream (written (trace h (WriteExitFrame x) w) ++ rest) e) =
      (Ok (StreamExit, p), Stream rest e) /\ ParseExitPayload p = Ok x.
Proof.
  intros Hx Hlen Hr. unfold WriteExitFrame in *. destruct (Marshal x) as [b|] eqn:Hb; [| done].
  exists b. split; [| by apply (Unmarshal_Marshal x)].
  rewrite WriteFrame_trace by done. apply ReadFrame_frame_bytes. by split; [| apply Hlen].
Qed.

(** ** Concrete instances *)

Definition ok_wire : handler wire unit := fun c w => (Ok tt, w).

Definition hello : list byte := [x68; x69].

Lemma hello_ok : frame_ok (StreamStdout, hello).
Proof. done. Qed.

Example WriteFrame_ReadFrame_witness :
  ReadFrame (Stream [x01; x00; x00; x00; x02; x68; x69; x0a] EOF) =
    (Ok (1, [x68; x69]), Stream [x0a] EOF).
Proof. apply (WriteFrame_ReadFrame ok_wire tt StreamStdout hello [x0a] EOF); done. Defined.

Example read_frames_sent_witness :
  read_frames (Stream (frame_bytes (1, hello) ++ frame_bytes (3, []) ++ []) ErrClosed) =
    ([(1, hello); (3, [])], ErrClosed).
Proof. apply (read_frames_sent [(1, hello); (3, [])] ErrClosed). by repeat constructor. Defined.

Example ReadFrame_oversize_witness :
  ReadFrame (Stream (frame_bytes (2, hello) ++ [x00]) EOF) = (Ok (2, hello), Stream [x00] EOF).
Proof. apply (ReadFrame_oversize 2 hello [x00] EOF). done. Defined.

Example ReadFrame_truncated_witness :
  (ReadFrame (Stream [x01; x00; x00; x00; x02; x68] EOF)).1 = Err ErrUnexpectedEOF /\
  (ReadFrame (Stream [x01; x00; x00; x00; x02] EOF)).1 = Err EOF.
Proof.
  split; [apply (ReadFrame_truncated (StreamStdout, hello) 6 hello_ok) |
          apply (ReadFrame_truncated (StreamStdout, hello) 5 hello_ok)]; simpl; lia.
Defined.

Example ParseWindowSize_spec_witness :
  ParseWindowSize (EncodeWindowSize 24 80 ++ []) = Ok {| ws_Rows := 24; ws_Cols := 80 |}.
Proof. apply (ParseWindowSize_spec 24 80 [] []); done. Defined.

Definition killed_payload : ExitPayload := {|
  exit_ExitCode := 124; exit_Duration := 5; exit_TimedOut := true;
  exit_Metrics := {| PeakMemoryBytes := 4096; UserCPUTimeUS := 1; SystemCPUTimeUS := 2 |};
  exit_Error := "late" |}.

Example WriteExitFrame_ParseExitPayload_witness :
  let J := countable_json ExitPayload in
  exists p, ReadFrame (Stream (written (trace ok_wire (WriteExitFrame killed_payload) tt) ++ []) EOF) =
      (Ok (StreamExit, p), Stream [] EOF) /\ ParseExitPayload p = Ok killed_payload.
Proof.
  intros J. apply (WriteExitFrame_ParseExitPayload ok_wire tt killed_payload [] EOF).
  - exact I.
  - intros b [= <-]. vm_compute. reflexivity.
  - vm_compute. reflexivity.
Defined.
