(* ===== verification/Cgroup.v ===== *)
(** * Cgroup controller (src/pkg/sandbox/cgroup_linux.go)

    The files a sandbox's cgroup is driven by.  The CPU percentage is an IEEE binary64
    value computed with the standard rounding. *)

From Stdlib Require Import SpecFloat.
From S2P Require Import Prelude GoStrings GoStrconv GoPath Effects OS SandboxConfig.
#[local] Open Scope go_scope.

(** ** float64 *)

Definition f64_of_Z (z : Z) : spec_float := binary_normalize 53 1024 z 0 false.
Definition f64_div : spec_float -> spec_float -> spec_float := SFdiv 53 1024.
Definition f64_mul : spec_float -> spec_float -> spec_float := SFmul 53 1024.

(** ** time.Duration *)

Definition maxDuration : Z := 2 ^ 63 - 1.
Definition minDuration : Z := - 2 ^ 63.

(** [t.Sub(u)] saturates. *)
Definition time_Sub (t u : Z) : Z := Z.max minDuration (Z.min maxDuration (t - u)).

(** [d.Microseconds()] truncates toward zero. *)
Definition Microseconds (d : Z) : Z := Z.quot d 1000.

(** ** The controller *)

Definition defaultCgroupRoot : string := "/sys/fs/cgroup/gojail".

Record LiveStats := {
  MemoryCurrentBytes : Z;
  MemoryPeakBytes : Z;
  CPUUsageUS : Z;
  PIDsCurrent : Z;
}.

Record CgroupController := {
  cg_id : string;
  cg_cgroupPath : string;
  cg_prevCPUUS : Z;
  cg_prevTime : Z;
}.

#[export] Instance CgroupController_eq_dec : EqDecision CgroupController.
Proof. solve_decision. Defined.

(** [for _, ctrl := range controllers { _ = os.WriteFile(subtree, "+"+ctrl) }] *)
Definition enable_controllers (subtree : string) (controllers : list string) : io unit :=
  foldM (fun _ ctrl => do_ sys (WriteFile subtree ("+" +:+ ctrl) mode_0644) ;; mret tt)
        tt controllers.

Definition NewCgroupController (id : string) : io (result CgroupController) :=
  let? _ := sys (MkdirAll defaultCgroupRoot mode_0755) onerr e =>
    mret (Err (WrapErr ("failed to create base cgroup root " +:+ defaultCgroupRoot) e)) in
  let subtreeControl := PathJoin [defaultCgroupRoot; "cgroup.subtree_control"] in
  do_ (mbind (fun r => match r with
                       | Ok data => enable_controllers subtreeControl (Fields data)
                       | Err _ => mret tt
                       end)
             (sys (ReadFile (PathJoin [defaultCgroupRoot; "cgroup.controllers"])))) ;;
  let cgroupPath := PathJoin [defaultCgroupRoot; id] in
  let? _ := sys (MkdirAll cgroupPath mode_0755) onerr e =>
    mret (Err (WrapErr ("failed to create cgroup directory " +:+ cgroupPath) e)) in
  now ← sys Now;
  mret (Ok {| cg_id := id; cg_cgroupPath := cgroupPath; cg_prevCPUUS := 0;
              cg_prevTime := now |}).

Definition cg_file (c : CgroupController) (name : string) : string :=
  PathJoin [cg_cgroupPath c; name].

Definition ApplyLimits (c : CgroupController) (memLimitBytes maxProcs : Z) : io (result unit) :=
  let? _ := (if 0 <? memLimitBytes then
               let? _ := sys (WriteFile (cg_file c "memory.max") (Itoa memLimitBytes) mode_0644)
                 onerr e => mret (Err (WrapErr "failed to set memory.max" e)) in
               mret (Ok tt)
             else mret (Ok tt)) onerr e => mret (Err e) in
  if 0 <? maxProcs then
    let? _ := sys (WriteFile (cg_file c "pids.max") (Itoa maxProcs) mode_0644)
      onerr e => mret (Err (WrapErr "failed to set pids.max" e)) in
    mret (Ok tt)
  else mret (Ok tt).

Definition AttachPID (c : CgroupController) (pid : Z) : io (result unit) :=
  let? _ := sys (WriteFile (cg_file c "cgroup.procs") (Itoa pid) mode_0644) onerr e =>
    mret (Err (WrapErr ("failed to attach pid " +:+ Itoa pid +:+ " to cgroup") e)) in
  mret (Ok tt).

Definition Freeze (c : CgroupController) : io (result unit) :=
  sys (WriteFile (cg_file c "cgroup.freeze") "1" mode_0644).

Definition Thaw (c : CgroupController) : io (result unit) :=
  sys (WriteFile (cg_file c "cgroup.freeze") "0" mode_0644).

(** [v, _ = strconv.ParseInt(strings.TrimSpace(string(data)), 10, 64)] *)
Definition parse_stat (data : string) : Z := (ParseInt (TrimSpace data)).1.

(** [if data, err := os.ReadFile(...); err == nil { v, _ = ParseInt(...) }], else 0. *)
Definition read_stat (c : CgroupController) (name : string) : io Z :=
  r ← sys (ReadFile (cg_file c name));
  mret (match r with Ok data => parse_stat data | Err _ => 0 end).

(** One line of cpu.stat updates the (user, system) microseconds. *)
Definition cpu_line (acc : Z * Z) (line : string) : Z * Z :=
  match Fields line with
  | [k; v] =>
      if bool_decide (k = "user_usec") then ((ParseInt v).1, acc.2)
      else if bool_decide (k = "system_usec") then (acc.1, (ParseInt v).1)
      else acc
  | _ => acc
  end.

Definition read_cpu_stat (c : CgroupController) : io (Z * Z) :=
  r ← sys (OpenScan (cg_file c "cpu.stat"));
  mret (match r with
        | Ok (text, rerr) => fold_left cpu_line (scan text rerr).1 (0, 0)
        | Err _ => (0, 0)
        end).

Definition cpu_percent (c : CgroupController) (now totalCPUUS : Z) : spec_float :=
  let elapsedUS := Microseconds (time_Sub now (cg_prevTime c)) in
  if (0 <? elapsedUS) && (0 <? cg_prevCPUUS c) && (cg_prevCPUUS c <=? totalCPUUS) then
    let deltaCPUUS := int64 (totalCPUUS - cg_prevCPUUS c) in
    f64_mul (f64_div (f64_of_Z deltaCPUUS) (f64_of_Z elapsedUS)) (f64_of_Z 100)
  else S754_zero false.

(** Returns the controller with its previous sample updated; the error is always nil. *)
Definition SampleStats (c : CgroupController) :
    io (CgroupController * (LiveStats * spec_float * result unit)) :=
  memCur ← read_stat c "memory.current";
  memPeak ← read_stat c "memory.peak";
  pids ← read_stat c "pids.current";
  us ← read_cpu_stat c;
  let totalCPUUS := int64 (us.1 + us.2) in
  now ← sys Now;
  let pct := cpu_percent c now totalCPUUS in
  mret ({| cg_id := cg_id c; cg_cgroupPath := cg_cgroupPath c;
           cg_prevCPUUS := totalCPUUS; cg_prevTime := now |},
        ({| MemoryCurrentBytes := memCur; MemoryPeakBytes := memPeak;
            CPUUsageUS := totalCPUUS; PIDsCurrent := pids |}, pct, Ok tt)).

Definition ReadMetrics (c : CgroupController) : io ResourceMetrics :=
  peak ← (r ← sys (ReadFile (cg_file c "memory.peak"));
          match r with
          | Ok data => mret (parse_stat data)
          | Err _ => read_stat c "memory.current"
          end);
  us ← read_cpu_stat c;
  mret {| PeakMemoryBytes := peak; UserCPUTimeUS := us.1; SystemCPUTimeUS := us.2 |}.

(** The pids of cgroup.procs that are killed. *)
Definition kill_pid (pidStr : string) : io unit :=
  match Atoi pidStr with
  | (pid, None) => if 0 <? pid then do_ sys (SysKill pid SIGKILL) ;; mret tt else mret tt
  | _ => mret tt
  end.

Definition CgroupCleanup (c : CgroupController) : io (result unit) :=
  do_ (mbind (fun r => match r with
                       | Ok data => foldM (fun _ p => kill_pid p) tt (Fields data)
                       | Err _ => mret tt
                       end)
             (sys (ReadFile (cg_file c "cgroup.procs")))) ;;
  do_ sys (Remove (cg_cgroupPath c)) ;;
  mret (Ok tt).

(** ** What clean-up signals *)

(** The pid a word of cgroup.procs names. *)
Definition listed (w : string) : option Z :=
  match Atoi w with (pid, None) => if 0 <? pid then Some pid else None | _ => None end.

Lemma ends_kill_pids ws tr x :
  ends (foldM (fun (_ : unit) p => kill_pid p) tt ws) tr x ->
  calls tr = map (fun pid => SysKill pid SIGKILL : os) (omap listed ws).
Proof.
  revert tr. induction ws as [|w ws IH]; intros tr He; cbn [foldM] in He.
  - by apply ends_inv in He as [_ ->].
  - apply ends_bind_inv in He as (tr1 & [] & tr2 & H1 & H2 & ->). apply IH in H2.
    unfold calls in *. rewrite map_app, H2.
    change (omap listed (w :: ws)) with
      (match listed w with Some p => p :: omap listed ws | None => omap listed ws end).
    unfold listed at 2. unfold kill_pid in H1.
    destruct (Atoi w) as [pid [e|]]; [by apply ends_inv in H1 as [_ ->] |].
    destruct (0 <? pid); [| by apply ends_inv in H1 as [_ ->]].
    apply ends_inv in H1 as (r & tr' & -> & H1). by apply ends_inv in H1 as [_ ->].
Qed.

Lemma listed_inv w pid : listed w = Some pid -> 0 < pid /\ Atoi w = (pid, None).
Proof.
  unfold listed. destruct (Atoi w) as [p [|]]; [done |]. destruct (Z.ltb_spec 0 p); [| done].
  by intros [= ->].
Qed.

Lemma listed_Itoa pids :
  Forall (fun p => 0 < p < 2 ^ 63) pids -> omap listed (Fields (lines (map Itoa pids))) = pids.
Proof.
  intros Hp. rewrite Fields_lines.
  2: { apply Forall_forall. intros w [p [-> _]]%list_elem_of_fmap. apply Itoa_word. }
  induction Hp as [|p pids Hp _ IH]; [done |].
  change (omap listed (map Itoa (p :: pids))) with
    (match listed (Itoa p) with Some y => y :: omap listed (map Itoa pids) | None => omap listed (map Itoa pids) end).
  rewrite IH. unfold listed.
  rewrite Atoi_Itoa by (unfold in_sint; change (64 - 1) with 63; lia).
  by rewrite (proj2 (Z.ltb_lt _ _)) by lia.
Qed.

(** C25: Removing a cgroup reads its process list once, kills processes that the list names
    and nothing else, and then removes the directory.  No signal is ever sent to 0, -1 or
    a group (the pids are positive), whatever the file holds; when it holds the pids one
    to a line, as the kernel writes them, exactly those are killed, in order; and the
    directory is removed whatever failed before. *)
Theorem CgroupCleanup_kills c tr r :
  ends (CgroupCleanup c) tr r ->
  r = Ok tt /\
  exists procs pids tr',
    tr = Ev (ReadFile (cg_file c "cgroup.procs") : os) procs :: tr' /\
    calls tr' = map (fun pid => SysKill pid SIGKILL : os) pids ++ [Remove (cg_cgroupPath c) : os] /\
    (forall pid, pid ∈ pids -> 0 < pid /\
       exists data w, procs = Ok data /\ w ∈ Fields data /\ Atoi w = (pid, None)) /\
    (forall ps, procs = Ok (lines (map Itoa ps)) -> Forall (fun p => 0 < p < 2 ^ 63) ps -> pids = ps).
Proof.
  unfold CgroupCleanup. intros He.
  apply ends_bind_inv in He as (tr1 & [] & tr2 & H1 & H2 & ->).
  apply ends_inv in H2 as (x & tr3 & -> & H2). apply ends_inv in H2 as [-> ->]. split; [done |].
  apply ends_inv in H1 as (procs & tr4 & -> & H1). simpl in procs.
  exists procs, (match procs with Ok data => omap listed (Fields data) | Err _ => [] end),
    (tr4 ++ [Ev (Remove (cg_cgroupPath c) : os) x]).
  split; [done |]. split; [| split].
  - unfold calls. rewrite map_app. f_equal. destruct procs as [data|e].
    + by apply ends_kill_pids in H1.
    + by apply ends_inv in H1 as [_ ->].
  - destruct procs as [data|e]; [| by intros pid ?%elem_of_nil].
    intros pid (w & Hw & Hl)%list_elem_of_omap. apply listed_inv in Hl as [Hpos Ha]. eauto 10.
  - intros ps ->. apply listed_Itoa.
Qed.

(** ** What the statistics are *)

Lemma parse_stat_Itoa n : in_sint 64 n -> parse_stat (Itoa n +:+ String "010" "") = n.
Proof.
  intros Hn. unfold parse_stat. rewrite TrimSpace_line by apply Itoa_word.
  pose proof (Atoi_Itoa n Hn) as H. unfold Atoi in H. by rewrite H.
Qed.

(** A file of keys and numbers, as the kernel writes cpu.stat. *)
Definition stat_line (kv : string * Z) : string := kv.1 +:+ String " " (Itoa kv.2).

Definition stat_file (kvs : list (string * Z)) : string := lines (map stat_line kvs).

Definition stat_entry (kv : string * Z) : Prop :=
  word kv.1 /\ in_sint 64 kv.2 /\ Z.of_nat (String.length (stat_line kv)) < MaxScanTokenSize.

Lemma word_no_char c w : printable c = false -> word w -> no_char c w = true.
Proof.
  intros Hc [_ Hw]. induction w as [|a w IH]; [done |]. cbn [list_of forallb] in Hw.
  apply andb_prop in Hw as [Ha Hw]. cbn [no_char]. rewrite IH by done.
  rewrite andb_true_r, bool_decide_false; [done | congruence].
Qed.

Lemma stat_line_scannable kv : stat_entry kv -> scannable (stat_line kv).
Proof.
  intros (Hk & _ & Hl). unfold scannable. split; [| split; [| done]]; unfold stat_line;
    rewrite no_char_app; (rewrite word_no_char by done); cbn [no_char andb];
    (rewrite Itoa_no_char by done); reflexivity.
Qed.

Lemma cpu_line_entry acc kv :
  stat_entry kv ->
  cpu_line acc (stat_line kv) =
    if bool_decide (kv.1 = "user_usec") then (kv.2, acc.2)
    else if bool_decide (kv.1 = "system_usec") then (acc.1, kv.2) else acc.
Proof.
  intros (Hk & Hv & _). unfold cpu_line, stat_line.
  rewrite Fields_blank, Fields_word by (done || apply Itoa_word).
  pose proof (Atoi_Itoa _ Hv) as H. unfold Atoi in H. by rewrite H.
Qed.

Definition stat_value (kvs : list (string * Z)) (k : string) (d : Z) : Z :=
  default d ((list_to_map kvs : gmap string Z) !! k).

Lemma cpu_lines kvs u s :
  NoDup (map fst kvs) -> Forall stat_entry kvs ->
  fold_left cpu_line (map stat_line kvs) (u, s) =
    (stat_value kvs "user_usec" u, stat_value kvs "system_usec" s).
Proof.
  intros Hnd Hok. revert u s Hnd. induction Hok as [|[k v] kvs Hkv _ IH]; intros u s Hnd; [done |].
  cbn [map] in Hnd. apply NoDup_cons in Hnd as [Hk Hnd]. cbn [map fold_left].
  rewrite cpu_line_entry by done. cbn [fst snd].
  assert (Hnone : (list_to_map kvs : gmap string Z) !! k = None) by by apply not_elem_of_list_to_map_1.
  unfold stat_value. cbn [list_to_map].
  case_bool_decide as Hu; [subst k | case_bool_decide as Hs; [subst k |]]; rewrite IH by done;
    unfold stat_value; simpl; simplify_map_eq; rewrite ?Hnone; done.
Qed.

(** The number in a file of one line; 0 for a file that cannot be read. *)
Definition reading (answer : result string) (v : Z) : Prop :=
  (forall n, in_sint 64 n -> answer = Ok (Itoa n +:+ String "010" "") -> v = n) /\
  (forall e, answer = Err e -> v = 0).

(** User and system time in a file of keys and numbers. *)
Definition cpu_reading (answer : result (string * option error)) (user system : Z) : Prop :=
  (forall kvs e, NoDup (map fst kvs) -> Forall stat_entry kvs -> answer = Ok (stat_file kvs, e) ->
     user = stat_value kvs "user_usec" 0 /\ system = stat_value kvs "system_usec" 0) /\
  (forall e, answer = Err e -> user = 0 /\ system = 0).

Lemma ends_read_stat c name tr v :
  ends (read_stat c name) tr v ->
  exists a, tr = [Ev (ReadFile (cg_file c name) : os) a] /\ reading a v.
Proof.
  intros He. apply ends_inv in He as (a & tr' & -> & He). apply ends_inv in He as [-> ->].
  exists a. split; [done |]. split; [| by intros e ->].
  intros n Hn ->. by apply parse_stat_Itoa.
Qed.

Lemma ends_read_cpu_stat c tr us :
  ends (read_cpu_stat c) tr us ->
  exists a, tr = [Ev (OpenScan (cg_file c "cpu.stat") : os) a] /\ cpu_reading a us.1 us.2.
Proof.
  intros He. apply ends_inv in He as (a & tr' & -> & He). apply ends_inv in He as [-> ->].
  exists a. split; [done |]. split; [| by intros e ->].
  intros kvs e Hnd Hok ->. unfold stat_file. rewrite scan_lines.
  - cbn [fst]. by rewrite cpu_lines.
  - apply Forall_forall. intros l [kv [-> Hkv]]%list_elem_of_fmap.
    apply stat_line_scannable. by eapply Forall_forall.
Qed.

(** C26: One sample reads the four files of the cgroup once each and then the clock.  It
    never fails; each number of the result is the number its file holds when the file is
    as the kernel writes it, and 0 when it cannot be read; the CPU time is the sum of
    user and system time as an int64.  The CPU percentage is 0 for the first sample, when
    no time has passed and when the counter went backwards.  The controller keeps this
    sample's CPU time and clock for the next one, and nothing else changes in it. *)
Theorem SampleStats_reads c tr c' live pct e :
  ends (SampleStats c) tr (c', (live, pct, e)) ->
  exists cur peak pids cpu user system now,
    tr = [Ev (ReadFile (cg_file c "memory.current") : os) cur;
          Ev (ReadFile (cg_file c "memory.peak") : os) peak;
          Ev (ReadFile (cg_file c "pids.current") : os) pids;
          Ev (OpenScan (cg_file c "cpu.stat") : os) cpu; Ev (Now : os) now] /\
    e = Ok tt /\ reading cur (MemoryCurrentBytes live) /\ reading peak (MemoryPeakBytes live) /\
    reading pids (PIDsCurrent live) /\ cpu_reading cpu user system /\
    CPUUsageUS live = int64 (user + system) /\
    (cg_prevCPUUS c = 0 \/ Microseconds (time_Sub now (cg_prevTime c)) <= 0 \/
     CPUUsageUS live < cg_prevCPUUS c -> pct = S754_zero false) /\
    c' = {| cg_id := cg_id c; cg_cgroupPath := cg_cgroupPath c;
            cg_prevCPUUS := CPUUsageUS live; cg_prevTime := now |}.
Proof.
  unfold SampleStats. intros He.
  apply ends_bind_inv in He as (t1 & v1 & t & (cur & -> & H1)%ends_read_stat & He & ->).
  apply ends_bind_inv in He as (t2 & v2 & t' & (peak & -> & H2)%ends_read_stat & He & ->).
  apply ends_bind_inv in He as (t3 & v3 & t'' & (pids & -> & H3)%ends_read_stat & He & ->).
  apply ends_bind_inv in He as (t4 & us & t''' & (cpu & -> & H4)%ends_read_cpu_stat & He & ->).
  apply ends_inv in He as (now & t5 & -> & He). simpl in now. apply ends_inv in He as [[= -> -> -> ->] ->].
  exists cur, peak, pids, cpu, us.1, us.2, now. repeat (split; [done |]). split; [| done].
  simpl. intros Hc. unfold cpu_percent.
  destruct Hc as [-> | [Hc | Hc]].
  - by rewrite andb_false_r.
  - by rewrite (proj2 (Z.ltb_ge _ _)).
  - rewrite (proj2 (Z.leb_gt (cg_prevCPUUS c) _)) by done. by rewrite andb_false_r.
Qed.

(** The metrics of a finished execution are those its cgroup's files hold: the peak, or
    the current use where the kernel has no peak file, and the two CPU times. *)
Theorem ReadMetrics_reads c tr m :
  ends (ReadMetrics c) tr m ->
  exists peak cur cpu,
    tr = Ev (ReadFile (cg_file c "memory.peak") : os) peak ::
         (if is_ok peak then [] else [Ev (ReadFile (cg_file c "memory.current") : os) cur]) ++
         [Ev (OpenScan (cg_file c "cpu.stat") : os) cpu] /\
    reading (if is_ok peak then peak else cur) (PeakMemoryBytes m) /\
    cpu_reading cpu (UserCPUTimeUS m) (SystemCPUTimeUS m).
Proof.
  unfold ReadMetrics. intros He.
  apply ends_bind_inv in He as (t1 & v & t & H1 & He & ->).
  apply ends_bind_inv in He as (t2 & us & t' & (cpu & -> & H2)%ends_read_cpu_stat & He & ->).
  apply ends_inv in He as [-> ->]. apply ends_inv in H1 as (peak & t3 & -> & H1). simpl in peak.
  destruct peak as [data|e].
  - apply ends_inv in H1 as [-> ->]. exists (Ok data), (Ok data), cpu. split; [done |]. split; [| done].
    split; [| done]. intros n Hn [= ->]. by apply parse_stat_Itoa.
  - apply ends_read_stat in H1 as (cur & -> & H1). by exists (Err e), cur, cpu.
Qed.

(** ** Concrete cgroups *)

Definition demo_cg : CgroupController :=
  {| cg_id := "j"; cg_cgroupPath := "/sys/fs/cgroup/gojail/j"; cg_prevCPUUS := 0; cg_prevTime := 0 |}.

Definition demo_stats : list (string * Z) :=
  [("usage_usec", 1500); ("user_usec", 1000); ("system_usec", 500)].

(** The files of a cgroup with two processes. *)
Definition demo_files : handler os unit := fun c w =>
  (match c return osans c with
   | ReadFile p =>
       if bool_decide (p = "/sys/fs/cgroup/gojail/j/cgroup.procs") then Ok (lines (map Itoa [12; 7]))
       else if bool_decide (p = "/sys/fs/cgroup/gojail/j/memory.peak") then Err (SysErr ENOENT "")
       else Ok (Itoa 4096 +:+ String "010" "")
   | OpenScan _ => Ok (stat_file demo_stats, None)
   | c => (ok_os c w).1
   end, w).

(** The answers of a file read and of a scanned file, in a trace. *)
Definition read_of (tr : list (event os)) : option (result string) :=
  match tr with Ev (ReadFile _) a :: _ => Some a | _ => None end.

Definition scan_of (tr : list (event os)) : option (result (string * option error)) :=
  match tr with Ev (OpenScan _) a :: _ => Some a | _ => None end.

Lemma CgroupCleanup_kills_witness :
  calls (tail (trace demo_files (CgroupCleanup demo_cg) tt)) =
    [SysKill 12 SIGKILL : os; SysKill 7 SIGKILL : os; Remove "/sys/fs/cgroup/gojail/j" : os].
Proof.
  destruct (CgroupCleanup_kills demo_cg _ _ (run_ends demo_files (CgroupCleanup demo_cg) tt))
    as (_ & procs & pids & tr' & Htr & Hc & _ & Hk).
  assert (pids = [12; 7]) as ->.
  { apply Hk; [| by repeat constructor].
    apply (f_equal read_of) in Htr. vm_compute in Htr. injection Htr as <-. reflexivity. }
  rewrite Htr. exact Hc.
Defined.

Lemma demo_stats_ok : NoDup (map fst demo_stats) /\ Forall stat_entry demo_stats.
Proof.
  split; [by apply (bool_decide_unpack _) |].
  repeat (apply List.Forall_cons; [split; [by split | split; [by vm_compute | by vm_compute]] |]). constructor.
Qed.

Lemma SampleStats_reads_witness :
  let r := res demo_files (SampleStats demo_cg) tt in
  MemoryCurrentBytes r.2.1.1 = 4096 /\ MemoryPeakBytes r.2.1.1 = 0 /\ CPUUsageUS r.2.1.1 = 1500 /\
  r.2.1.2 = S754_zero false.
Proof.
  intros r.
  destruct (SampleStats_reads demo_cg (trace demo_files (SampleStats demo_cg) tt) r.1 r.2.1.1 r.2.1.2 r.2.2
              (run_ends demo_files (SampleStats demo_cg) tt))
    as (cur & peak & pids & cpu & user & system & now & Htr & _ & H1 & H2 & _ & H4 & H5 & H6 & _).
  pose proof (f_equal read_of Htr) as E1. pose proof (f_equal (fun t => read_of (drop 1 t)) Htr) as E2.
  pose proof (f_equal (fun t => scan_of (drop 3 t)) Htr) as E4.
  vm_compute in E1, E2, E4. injection E1 as <-. injection E2 as <-. injection E4 as <-.
  split; [by apply H1 |]. split; [by eapply H2 |]. split; [| by apply H6; left].
  destruct demo_stats_ok as [Hn Hf]. destruct (proj1 H4 demo_stats None Hn Hf eq_refl) as [-> ->].
  rewrite H5. reflexivity.
Defined.
