(* ===== verification/Registry.v ===== *)
(** * Job registry (src/pkg/server/registry.go)

    The daemon's table of containers.  Every method runs under the registry's mutex, so
    a method is one atomic operation on the table; methods that freeze or thaw a cgroup
    or cancel a context call the operating system while they hold it.  A registry's
    [*activeJob] values are reached only through the table, so the table maps an id to
    the job itself. *)

From stdpp Require Import relations.
From S2P Require Import Prelude GoStrings Effects OS SandboxConfig Cgroup Protocol.
#[local] Open Scope go_scope.

(** ** Data *)

(** [cancel] is the context the function cancels. *)
Record activeJob := {
  aj_info : JobInfo;
  aj_cancel : option Z;
  aj_cgroup : option CgroupController;
  aj_memLim : Z;
  aj_procLim : Z;
}.

Abbreviation registry := (gmap string activeJob).

Definition NewJobRegistry : registry := ∅.

Definition set_info (f : JobInfo -> JobInfo) (j : activeJob) : activeJob :=
  {| aj_info := f (aj_info j); aj_cancel := aj_cancel j; aj_cgroup := aj_cgroup j;
     aj_memLim := aj_memLim j; aj_procLim := aj_procLim j |}.

Definition with_status (s : string) (i : JobInfo) : JobInfo :=
  {| job_ID := job_ID i; job_PID := job_PID i; job_Command := job_Command i;
     job_Args := job_Args i; job_Status := s; job_StartTime := job_StartTime i;
     job_Duration := job_Duration i; job_PeakMemoryBytes := job_PeakMemoryBytes i;
     job_ExitCode := job_ExitCode i |}.

Definition with_pid (pid : Z) (i : JobInfo) : JobInfo :=
  {| job_ID := job_ID i; job_PID := pid; job_Command := job_Command i;
     job_Args := job_Args i; job_Status := job_Status i; job_StartTime := job_StartTime i;
     job_Duration := job_Duration i; job_PeakMemoryBytes := job_PeakMemoryBytes i;
     job_ExitCode := job_ExitCode i |}.

Definition with_duration (d : Z) (i : JobInfo) : JobInfo :=
  {| job_ID := job_ID i; job_PID := job_PID i; job_Command := job_Command i;
     job_Args := job_Args i; job_Status := job_Status i; job_StartTime := job_StartTime i;
     job_Duration := d; job_PeakMemoryBytes := job_PeakMemoryBytes i;
     job_ExitCode := job_ExitCode i |}.

Definition with_outcome (exitCode peakMem d : Z) (i : JobInfo) : JobInfo :=
  {| job_ID := job_ID i; job_PID := job_PID i; job_Command := job_Command i;
     job_Args := job_Args i; job_Status := job_Status i; job_StartTime := job_StartTime i;
     job_Duration := d; job_PeakMemoryBytes := peakMem; job_ExitCode := exitCode |}.

Definition status (j : activeJob) : string := job_Status (aj_info j).

Definition not_found (id : string) : error :=
  NewErr ("container instance " +:+ Quote id +:+ " not found").

(** ** Operations *)

Definition Register (r : registry) (id : string) (pid : Z) (cmd : string) (args : list string)
    (cancel : option Z) : io registry :=
  now ← sys Now;
  mret (<[id := {|
    aj_info := {| job_ID := id; job_PID := pid; job_Command := cmd; job_Args := args;
                  job_Status := "running"; job_StartTime := now; job_Duration := 0;
                  job_PeakMemoryBytes := 0; job_ExitCode := 0 |};
    aj_cancel := cancel; aj_cgroup := None; aj_memLim := 0; aj_procLim := 0 |}]> r).

Definition AttachCgroup (r : registry) (id : string) (cg : option CgroupController)
    (memLimit procLimit : Z) : registry :=
  match r !! id with
  | Some job =>
      <[id := {| aj_info := aj_info job; aj_cancel := aj_cancel job; aj_cgroup := cg;
                 aj_memLim := memLimit; aj_procLim := procLimit |}]> r
  | None => r
  end.

Definition GetJob (r : registry) (id : string) :
    option (JobInfo * option CgroupController * Z * Z) :=
  match r !! id with
  | Some job => Some (aj_info job, aj_cgroup job, aj_memLim job, aj_procLim job)
  | None => None
  end.

Definition UpdatePID (r : registry) (id : string) (pid : Z) : registry :=
  match r !! id with
  | Some job => <[id := set_info (with_pid pid) job]> r
  | None => r
  end.

(** The status a finished run gets. *)
Definition finished_status (exitCode : Z) (timedOut : bool) : string :=
  if timedOut then "timed_out" else if exitCode =? 0 then "completed" else "failed".

Definition UpdateFinished (r : registry) (id : string) (exitCode peakMem : Z)
    (timedOut : bool) : io registry :=
  match r !! id with
  | None => mret r
  | Some job =>
      now ← sys Now;
      let job := set_info (with_outcome exitCode peakMem
                             (time_Sub now (job_StartTime (aj_info job)))) job in
      if bool_decide (status job = "killed") then mret (<[id := job]> r)
      else mret (<[id := set_info (with_status (finished_status exitCode timedOut)) job]> r)
  end.

Definition Pause (r : registry) (id : string) : io (registry * result unit) :=
  match r !! id with
  | None => mret (r, Err (not_found id))
  | Some job =>
      if negb (bool_decide (status job = "running")) then
        mret (r, Err (NewErr ("cannot pause container " +:+ Quote id +:+ " with status " +:+
                              Quote (status job))))
      else
        match aj_cgroup job with
        | None => mret (r, Err (NewErr ("cgroup controller not attached to container " +:+
                                        Quote id)))
        | Some cg =>
            let? _ := Freeze cg onerr e =>
              mret (r, Err (WrapErr "failed to freeze container cgroup" e)) in
            mret (<[id := set_info (with_status "paused") job]> r, Ok tt)
        end
  end.

Definition Unpause (r : registry) (id : string) : io (registry * result unit) :=
  match r !! id with
  | None => mret (r, Err (not_found id))
  | Some job =>
      if negb (bool_decide (status job = "paused")) then
        mret (r, Err (NewErr ("cannot unpause container " +:+ Quote id +:+ " with status " +:+
                              Quote (status job))))
      else
        match aj_cgroup job with
        | None => mret (r, Err (NewErr ("cgroup controller not attached to container " +:+
                                        Quote id)))
        | Some cg =>
            let? _ := Thaw cg onerr e =>
              mret (r, Err (WrapErr "failed to thaw container cgroup" e)) in
            mret (<[id := set_info (with_status "running") job]> r, Ok tt)
        end
  end.

Definition Stop (r : registry) (id : string) : io (registry * result unit) :=
  match r !! id with
  | None => mret (r, Err (not_found id))
  | Some job =>
      if negb (bool_decide (status job = "running")) && negb (bool_decide (status job = "paused"))
      then
        mret (r, Err (NewErr ("container instance " +:+ Quote id +:+
                              " is not active (current status: " +:+ status job +:+ ")")))
      else
        do_ (match aj_cgroup job with
             | Some cg => if bool_decide (status job = "paused")
                          then do_ Thaw cg ;; mret tt else mret tt
             | None => mret tt
             end) ;;
        let r := <[id := set_info (with_status "killed") job]> r in
        do_ (match aj_cancel job with
             | Some ctx => sys (CancelCtx ctx)
             | None => mret tt
             end) ;;
        mret (r, Ok tt)
  end.

Definition active_status (s : string) : bool :=
  bool_decide (s = "running") || bool_decide (s = "paused").

(** One entry of [List]: an active job's duration is its time since the start. *)
Definition list_entry (job : activeJob) : io JobInfo :=
  if active_status (status job) then
    now ← sys Now;
    mret (with_duration (time_Sub now (job_StartTime (aj_info job))) (aj_info job))
  else mret (aj_info job).

(** [order] is the order in which Go ranges over the map, which is not specified. *)
Definition List (order : list (string * activeJob)) : io (list JobInfo) :=
  foldM (fun acc kv => i ← list_entry kv.2; mret (acc ++ [i])) [] order.

(** ** The operations that change the table, as one type *)

Inductive reg_op :=
| OpRegister (id : string) (pid : Z) (cmd : string) (args : list string) (cancel : option Z)
| OpAttachCgroup (id : string) (cg : option CgroupController) (memLimit procLimit : Z)
| OpUpdatePID (id : string) (pid : Z)
| OpUpdateFinished (id : string) (exitCode peakMem : Z) (timedOut : bool)
| OpPause (id : string)
| OpUnpause (id : string)
| OpStop (id : string).

Definition op_id (o : reg_op) : string :=
  match o with
  | OpRegister id _ _ _ _ | OpAttachCgroup id _ _ _ | OpUpdatePID id _
  | OpUpdateFinished id _ _ _ | OpPause id | OpUnpause id | OpStop id => id
  end.

Definition exec_op (r : registry) (o : reg_op) : io (registry * result unit) :=
  match o with
  | OpRegister id pid cmd args cancel =>
      r' ← Register r id pid cmd args cancel; mret (r', Ok tt)
  | OpAttachCgroup id cg m p => mret (AttachCgroup r id cg m p, Ok tt)
  | OpUpdatePID id pid => mret (UpdatePID r id pid, Ok tt)
  | OpUpdateFinished id c p t => r' ← UpdateFinished r id c p t; mret (r', Ok tt)
  | OpPause id => Pause r id
  | OpUnpause id => Unpause r id
  | OpStop id => Stop r id
  end.

(** One method call of some goroutine, under the mutex, with any answers. *)
Definition reg_step (r r' : registry) : Prop :=
  exists o tr ret, ends (exec_op r o) tr (r', ret).

Definition reachable (r : registry) : Prop := rtc reg_step NewJobRegistry r.

(** ** Invariant of a job and of the table *)

Definition wf_job (id : string) (j : activeJob) : Prop :=
  job_ID (aj_info j) = id /\
  ((active_status (status j) = true /\ job_ExitCode (aj_info j) = 0 /\
    job_PeakMemoryBytes (aj_info j) = 0 /\ job_Duration (aj_info j) = 0) \/
   (status j = "completed" /\ job_ExitCode (aj_info j) = 0) \/
   (status j = "failed" /\ job_ExitCode (aj_info j) <> 0) \/
   status j = "timed_out" \/ status j = "killed").

Definition wf_registry (r : registry) : Prop := map_Forall wf_job r.


(** ** Abstract life cycle *)

Inductive life := Running | Paused | Killed | Completed | Failed | TimedOut.

#[export] Instance life_eq_dec : EqDecision life.
Proof. solve_decision. Defined.

Definition life_of (s : string) : life :=
  if bool_decide (s = "running") then Running
  else if bool_decide (s = "paused") then Paused
  else if bool_decide (s = "killed") then Killed
  else if bool_decide (s = "completed") then Completed
  else if bool_decide (s = "failed") then Failed
  else TimedOut.

Definition abs (r : registry) : gmap string life := (fun j => life_of (status j)) <$> r.

Definition outcome (exitCode : Z) (timedOut : bool) : life :=
  if timedOut then TimedOut else if exitCode =? 0 then Completed else Failed.

(** What a method that succeeds does to the life cycles. *)
Definition spec_apply (o : reg_op) (m : gmap string life) : gmap string life :=
  match o with
  | OpRegister id _ _ _ _ => <[id := Running]> m
  | OpUpdateFinished id c _ t =>
      alter (fun l => if bool_decide (l = Killed) then Killed else outcome c t) id m
  | OpPause id => <[id := Paused]> m
  | OpUnpause id => <[id := Running]> m
  | OpStop id => <[id := Killed]> m
  | OpAttachCgroup _ _ _ _ | OpUpdatePID _ _ => m
  end.

(** When a method may succeed. *)
Definition spec_enabled (o : reg_op) (m : gmap string life) : Prop :=
  match o with
  | OpPause id => m !! id = Some Running
  | OpUnpause id => m !! id = Some Paused
  | OpStop id => m !! id = Some Running \/ m !! id = Some Paused
  | _ => True
  end.

(** ** The effect of a method call on the table *)

(** The job after [UpdateFinished] with a duration [d]. *)
Definition finish (exitCode peakMem : Z) (timedOut : bool) (d : Z) (j : activeJob) : activeJob :=
  let j' := set_info (with_outcome exitCode peakMem d) j in
  if bool_decide (status j = "killed") then j'
  else set_info (with_status (finished_status exitCode timedOut)) j'.

(** What each method leaves in the table when it returns nil, in every environment. *)
Definition effect (r : registry) (o : reg_op) (r' : registry) : Prop :=
  match o with
  | OpRegister id _ _ _ _ =>
      exists j, r' = <[id := j]> r /\ wf_job id j /\ status j = "running"
  | OpAttachCgroup id cg m p => r' = AttachCgroup r id cg m p
  | OpUpdatePID id pid => r' = UpdatePID r id pid
  | OpUpdateFinished id c p t =>
      match r !! id with
      | None => r' = r
      | Some j => exists d, r' = <[id := finish c p t d j]> r
      end
  | OpPause id =>
      exists j, r !! id = Some j /\ status j = "running" /\ aj_cgroup j <> None /\
        r' = <[id := set_info (with_status "paused") j]> r
  | OpUnpause id =>
      exists j, r !! id = Some j /\ status j = "paused" /\ aj_cgroup j <> None /\
        r' = <[id := set_info (with_status "running") j]> r
  | OpStop id =>
      exists j, r !! id = Some j /\ active_status (status j) = true /\
        r' = <[id := set_info (with_status "killed") j]> r
  end.

Lemma exec_op_effect r o tr r' ret :
  ends (exec_op r o) tr (r', ret) ->
  match ret with Ok _ => effect r o r' | Err _ => r' = r end.
Proof.
  intros He. refine (wp_ends_res _ tr (r', ret) (fun x =>
    match x.2 with Ok _ => effect r o x.1 | Err _ => x.1 = r end) _ He). clear He.
  destruct o; unfold exec_op, Register, UpdateFinished, Pause, Unpause, Stop, Freeze, Thaw;
    wp_steps; simpl in *; try done.
  all: bool_hyps; repeat match goal with H : @lookup _ _ registry _ _ _ = _ |- _ => rewrite H end.
  all: try (eexists; split_and!; try done; by split; [| left]).
  all: try (eexists; unfold finish; rewrite bool_decide_decide; by case_decide).
  all: eexists; split_and!; try done; try congruence.
  all: unfold active_status; match goal with H : _ && _ = false |- _ => revert H end.
  all: by repeat case_bool_decide.
Qed.

(** ** Helper lemmas *)

(** ** Helper lemmas *)

Lemma life_of_running s : life_of s = Running <-> s = "running".
Proof. unfold life_of. repeat case_bool_decide; naive_solver. Qed.

Lemma life_of_paused s : life_of s = Paused <-> s = "paused".
Proof. unfold life_of. repeat case_bool_decide; naive_solver. Qed.

Lemma life_of_killed s : life_of s = Killed <-> s = "killed".
Proof. unfold life_of. repeat case_bool_decide; naive_solver. Qed.

Lemma life_of_finished c t : life_of (finished_status c t) = outcome c t.
Proof. unfold finished_status, outcome. by destruct t, (c =? 0). Qed.

Lemma abs_lookup r id j : r !! id = Some j -> abs r !! id = Some (life_of (status j)).
Proof. intros H. unfold abs. by rewrite lookup_fmap, H. Qed.

Lemma abs_insert r id j : abs (<[id := j]> r) = <[id := life_of (status j)]> (abs r).
Proof. unfold abs. by rewrite fmap_insert. Qed.

Lemma abs_insert_same r id j j' :
  r !! id = Some j -> status j' = status j -> abs (<[id := j']> r) = abs r.
Proof. intros H Hs. rewrite abs_insert, Hs. apply insert_id. by apply abs_lookup. Qed.

Lemma alter_abs r id j f :
  r !! id = Some j -> alter f id (abs r) = <[id := f (life_of (status j))]> (abs r).
Proof.
  intros H. apply map_eq. intros k. rewrite lookup_alter, lookup_insert.
  case_decide; [| done]. subst. by rewrite (abs_lookup _ _ _ H).
Qed.

#[export] Hint Rewrite abs_insert life_of_finished : gojail.

(** ** Properties *)

(** C13: The registry implements the container life cycle.  A method call that returns
    nil was enabled in the abstract life-cycle table (pause from running, unpause from
    paused, stop from running or paused) and changes the abstract table as its
    specification says, in particular a job killed by Stop keeps that status when its run
    later finishes; a call that returns an error leaves the registry unchanged. *)
Theorem registry_refines r o tr r' ret :
  ends (exec_op r o) tr (r', ret) ->
  match ret with
  | Ok _ => spec_enabled o (abs r) /\ abs r' = spec_apply o (abs r)
  | Err _ => r' = r
  end.
Proof.
  intros He%exec_op_effect. destruct ret; [| done]. destruct o; simpl in *.
  - destruct He as (j & -> & _ & Hj). by rewrite abs_insert, Hj.
  - subst. split; [done |]. unfold AttachCgroup. destruct (r !! id) eqn:E; [| done].
    by eapply abs_insert_same.
  - subst. split; [done |]. unfold UpdatePID. destruct (r !! id) eqn:E; [| done].
    by eapply abs_insert_same.
  - split; [done |]. destruct (r !! id) as [j|] eqn:E.
    + destruct He as (d & ->). rewrite abs_insert, (alter_abs _ _ _ _ E). f_equal.
      unfold finish. rewrite (bool_decide_ext _ _ (life_of_killed (status j))).
      case_bool_decide as Hk; [| apply life_of_finished].
      change (status (set_info _ j)) with (status j). by apply life_of_killed.
    + subst. unfold abs. rewrite alter_id; [done |]. intros l. by rewrite lookup_fmap, E.
  - destruct He as (j & Hj & Hs & _ & ->). rewrite (abs_lookup _ _ _ Hj), abs_insert, Hs. done.
  - destruct He as (j & Hj & Hs & _ & ->). rewrite (abs_lookup _ _ _ Hj), abs_insert, Hs. done.
  - destruct He as (j & Hj & Hs & ->). rewrite (abs_lookup _ _ _ Hj), abs_insert. split; [| done].
    unfold active_status in Hs. apply orb_true_iff in Hs. bool_hyps.
    destruct Hs as [Hs | Hs]; apply bool_decide_eq_true in Hs; rewrite Hs; auto.
Qed.

Lemma wf_insert r id j : wf_registry r -> wf_job id j -> wf_registry (<[id := j]> r).
Proof. intros Hr Hj. by apply map_Forall_insert_2. Qed.

Lemma finished_status_cases c t :
  (finished_status c t = "completed" /\ c = 0) \/ (finished_status c t = "failed" /\ c <> 0) \/
  finished_status c t = "timed_out".
Proof. unfold finished_status. destruct t; [auto |]. destruct (Z.eqb_spec c 0); auto. Qed.

Lemma wf_finish id c p t d j : wf_job id j -> wf_job id (finish c p t d j).
Proof.
  intros [Hid _]. unfold finish. case_bool_decide as Hk; (split; [done |]).
  - by repeat right.
  - destruct (finished_status_cases c t) as [[H1 H2] | [[H1 H2] | H]]; right;
      [left | right; left | right; right; left]; try split; done.
Qed.

(** A change of status to [running], [paused] or [killed] of a job that has not ended. *)
Lemma wf_with_status id s j :
  wf_job id j -> active_status (status j) = true ->
  active_status s = true \/ s = "killed" -> wf_job id (set_info (with_status s) j).
Proof.
  intros [Hid Hw] Hj Hs. split; [done |].
  destruct Hs as [Hs | ->]; [| by repeat right]. left.
  destruct Hw as [(_ & H) | Hw]; [done |]. exfalso.
  unfold active_status in Hj. destruct Hw as [[H _] | [[H _] | [H | H]]]; by rewrite H in Hj.
Qed.

Lemma effect_wf r o r' : effect r o r' -> wf_registry r -> wf_registry r'.
Proof.
  intros He Hr. assert (forall id j, r !! id = Some j -> wf_job id j) as Hl by apply Hr.
  destruct o; simpl in He.
  - destruct He as (j & -> & Hj & _). by apply wf_insert.
  - subst. unfold AttachCgroup. case_match eqn:E; [| done]. apply wf_insert; [done |].
    by apply Hl in E.
  - subst. unfold UpdatePID. case_match eqn:E; [| done]. apply wf_insert; [done |].
    by apply Hl in E.
  - case_match eqn:E; [destruct He as (d & ->) | by subst].
    apply wf_insert; [done |]. apply wf_finish. by apply Hl.
  - destruct He as (j & Hj & Hs & _ & ->). apply wf_insert; [done |].
    apply wf_with_status; [by apply Hl | by rewrite Hs | by left].
  - destruct He as (j & Hj & Hs & _ & ->). apply wf_insert; [done |].
    apply wf_with_status; [by apply Hl | by rewrite Hs | by left].
  - destruct He as (j & Hj & Hs & ->). apply wf_insert; [done |].
    apply wf_with_status; [by apply Hl | done | by right].
Qed.

(** C35: Whatever interleaving of registry method calls the daemon's goroutines make, and
    whatever the operating system answers, every job stays filed under its own id, and its
    status is running, paused, completed, failed, timed_out or killed; an active (running
    or paused) job has no exit code, peak memory or duration yet, a completed one has exit
    code 0 and a failed one a non-zero exit code. *)
Theorem registry_invariant r : reachable r -> wf_registry r.
Proof.
  revert r. apply (rtc_ind_r wf_registry).
  - apply map_Forall_empty.
  - intros r1 r2 _ (o & tr & ret & He) IH. apply exec_op_effect in He. destruct ret; [| by subst]. by eapply effect_wf.
Qed.


(** The system calls of a successful Stop. *)
Definition stop_calls (j : activeJob) : list oscall :=
  (if bool_decide (status j = "paused") then
     match aj_cgroup j with
     | Some cg => [WriteFile (cg_file cg "cgroup.freeze") "0" mode_0644]
     | None => []
     end
   else []) ++
  match aj_cancel j with Some ctx => [CancelCtx ctx] | None => [] end.

(** Stop on an active job always succeeds, whatever the operating system answers: it
    thaws the cgroup of a paused job first (so the kill can be delivered), cancels the
    job's context exactly once, makes no other system call, and leaves the job killed and
    the rest of the table unchanged; on an unknown or finished job it makes no system
    call and reports an error. *)
Theorem Stop_spec (r : registry) id tr r' ret :
  ends (Stop r id) tr (r', ret) ->
  match r !! id with
  | Some j =>
      if active_status (status j) then
        ret = Ok tt /\ calls tr = stop_calls j /\
        r' = <[id := set_info (with_status "killed") j]> r
      else calls tr = [] /\ r' = r /\ is_ok ret = false
  | None => calls tr = [] /\ r' = r /\ ret = Err (not_found id)
  end.
Proof.
  intros He. refine (wp_ends_log _ tr (r', ret) (fun tr x =>
    match r !! id with
    | Some j =>
        if active_status (status j) then
          x.2 = Ok tt /\ calls tr = stop_calls j /\
          x.1 = <[id := set_info (with_status "killed") j]> r
        else calls tr = [] /\ x.1 = r /\ is_ok x.2 = false
    | None => calls tr = [] /\ x.1 = r /\ x.2 = Err (not_found id)
    end) _ He). clear He. unfold Stop, Thaw, stop_calls, active_status.
  wp_steps; simpl; try done; rewrite <- ?negb_orb in *; bool_hyps;
    repeat match goal with H : (_ || _) = _ |- _ => rewrite H end; try done.
  all: by repeat case_bool_decide.
Qed.

(** What a method that moves a job from one active status to the other promises. *)
Definition toggled (from to data : string) (r : registry) (id : string)
    (tr : list (event os)) (r' : registry) (ret : result unit) : Prop :=
  match r !! id with
  | Some j =>
      match aj_cgroup j with
      | Some cg =>
          if bool_decide (status j = from) then
            exists a : result unit,
              tr = [Ev (WriteFile (cg_file cg "cgroup.freeze") data mode_0644 : os) a] /\
              r' = (if is_ok a then <[id := set_info (with_status to) j]> r else r) /\
              is_ok ret = is_ok a
          else tr = [] /\ r' = r /\ is_ok ret = false
      | None => tr = [] /\ r' = r /\ is_ok ret = false
      end
  | None => tr = [] /\ r' = r /\ ret = Err (not_found id)
  end.

(** Pause and Unpause change the recorded status only together with the cgroup.
    Pause of a running job writes "1" to its cgroup.freeze, Unpause of a paused job writes
    "0"; the status follows exactly when that single write succeeds.  A wrong status, a
    missing cgroup or an unknown id gives an error with no system call and no change. *)
Theorem Pause_Unpause_spec (r : registry) id tr r' ret :
  (ends (Pause r id) tr (r', ret) -> toggled "running" "paused" "1" r id tr r' ret) /\
  (ends (Unpause r id) tr (r', ret) -> toggled "paused" "running" "0" r id tr r' ret).
Proof.
  split; intros He;
    [refine (wp_ends_log _ tr (r', ret) (fun tr x =>
       toggled "running" "paused" "1" r id tr x.1 x.2) _ He) |
     refine (wp_ends_log _ tr (r', ret) (fun tr x =>
       toggled "paused" "running" "0" r id tr x.1 x.2) _ He)].
  all: clear He; unfold Pause, Unpause, Freeze, Thaw, toggled; wp_steps; simpl; bool_hyps;
    repeat match goal with H : @lookup _ _ registry _ _ _ = _ |- _ => rewrite H
           | H : aj_cgroup _ = _ |- _ => rewrite H end; try done.
  all: try (rewrite bool_decide_false by done; by repeat case_match).
  all: rewrite bool_decide_true by done; by eexists.
Qed.

(** What an entry of the list shows of a job. *)
Definition shows (kv : string * activeJob) (i : JobInfo) : Prop :=
  if active_status (status kv.2) then exists d, i = with_duration d (aj_info kv.2)
  else i = aj_info kv.2.

Lemma List_shows order : wp no_mon (List order) tt (fun _ l => Forall2 shows order l).
Proof.
  apply (wp_foldM no_mon _ order [] tt
    (fun xs _ acc => exists seen, order = seen ++ xs /\ Forall2 shows seen acc)).
  - by exists [].
  - intros kv xs [] acc (seen & -> & Hs).
    assert (forall i, shows kv i -> exists seen', seen ++ kv :: xs = seen' ++ xs /\
      Forall2 shows seen' (acc ++ [i])) as Hnext.
    { intros i Hi. exists (seen ++ [kv]). rewrite <- app_assoc. split; [done |].
      apply Forall2_app; [done | by repeat constructor]. }
    unfold list_entry. wp_steps; apply Hnext; unfold shows;
      match goal with H : active_status _ = _ |- _ => rewrite H end; eauto.
  - intros [] acc (seen & -> & Hs). by rewrite app_nil_r.
Qed.

(** List returns one entry per registered job, whatever order Go ranges over the map
    in: the entries' ids are the table's keys, each once, and every entry is the job's
    record, where only an active job's duration is replaced (by its uptime). *)
Theorem List_spec (r : registry) order tr l :
  wf_registry r -> order ≡ₚ map_to_list r -> ends (List order) tr l ->
  map job_ID l ≡ₚ (map_to_list r).*1 /\ NoDup (map job_ID l) /\
  (forall id j, r !! id = Some j -> exists i, i ∈ l /\ shows (id, j) i).
Proof.
  intros Hr Ho He%(wp_ends_res _ _ _ _ (List_shows order)).
  assert (map job_ID l = order.*1) as Hids.
  { assert (forall id j, (id, j) ∈ order -> job_ID (aj_info j) = id) as Hid.
    { intros id j Hin. rewrite Ho in Hin. apply elem_of_map_to_list in Hin.
      by apply Hr in Hin as [? _]. }
    clear Ho. induction He as [|[id j] i order l Hs _ IH]; simpl; [done |]. f_equal.
    - rewrite <- (Hid id j) by left. unfold shows in Hs. simpl in Hs.
      case_match; [by destruct Hs as [d ->] | by subst].
    - apply IH. intros. apply Hid. by right. }
  split_and!.
  - by rewrite Hids, Ho.
  - rewrite Hids, Ho. apply NoDup_fst_map_to_list.
  - intros id j Hj%elem_of_map_to_list. rewrite <- Ho in Hj.
    apply list_elem_of_lookup in Hj as [n Hn].
    destruct (Forall2_lookup_l _ _ _ _ _ He Hn) as (i & Hi & Hsh).
    exists i. split; [by eapply list_elem_of_lookup_2 | done].
Qed.

(** ** Concrete instances *)

Definition sample_job (st : string) : activeJob := {|
  aj_info := {| job_ID := "warm-1"; job_PID := 42; job_Command := "/bin/sh"; job_Args := [];
                job_Status := st; job_StartTime := 0; job_Duration := 0;
                job_PeakMemoryBytes := 0; job_ExitCode := 0 |};
  aj_cancel := Some 7;
  aj_cgroup := Some {| cg_id := "warm-1"; cg_cgroupPath := "/sys/fs/cgroup/gojail/warm-1";
                       cg_prevCPUUS := 0; cg_prevTime := 0 |};
  aj_memLim := 0; aj_procLim := 0 |}.

Definition sample (st : string) : registry := {["warm-1" := sample_job st]}.

(** The run of a method against the cooperative operating system. *)
Abbreviation run_op r o := (res ok_os (exec_op r o) tt).
Abbreviation trace_op r o := (trace ok_os (exec_op r o) tt).

Lemma run_op_ends r o : ends (exec_op r o) (trace_op r o) ((run_op r o).1, (run_op r o).2).
Proof. rewrite <- surjective_pairing. apply run_ends. Qed.

Example registry_refines_witness :
  spec_enabled (OpStop "warm-1") (abs (sample "paused")) /\
  abs (run_op (sample "paused") (OpStop "warm-1")).1 =
    spec_apply (OpStop "warm-1") (abs (sample "paused")).
Proof.
  exact (registry_refines (sample "paused") (OpStop "warm-1") _ _ _
           (run_op_ends (sample "paused") (OpStop "warm-1"))).
Defined.

Example registry_invariant_witness :
  wf_registry (run_op NewJobRegistry (OpRegister "warm-1" 42 "/bin/sh" ["-c"; "true"] None)).1.
Proof.
  apply registry_invariant. apply rtc_once.
  exists (OpRegister "warm-1" 42 "/bin/sh" ["-c"; "true"] None). do 2 eexists. apply run_op_ends.
Defined.


Example Stop_spec_witness :
  (run_op (sample "paused") (OpStop "warm-1")).2 = Ok tt /\
  calls (trace_op (sample "paused") (OpStop "warm-1")) =
    [WriteFile "/sys/fs/cgroup/gojail/warm-1/cgroup.freeze" "0" mode_0644; CancelCtx 7] /\
  (run_op (sample "paused") (OpStop "warm-1")).1 =
    <["warm-1" := sample_job "killed"]> (sample "paused").
Proof.
  exact (Stop_spec (sample "paused") "warm-1" _ _ _
           (run_op_ends (sample "paused") (OpStop "warm-1"))).
Defined.

Example Pause_Unpause_spec_witness :
  toggled "running" "paused" "1" (sample "running") "warm-1"
    (trace_op (sample "running") (OpPause "warm-1"))
    (run_op (sample "running") (OpPause "warm-1")).1
    (run_op (sample "running") (OpPause "warm-1")).2.
Proof.
  apply Pause_Unpause_spec. exact (run_op_ends (sample "running") (OpPause "warm-1")).
Defined.

Example List_spec_witness :
  map job_ID (res ok_os (List (map_to_list (sample "running"))) tt) ≡ₚ
    (map_to_list (sample "running")).*1.
Proof.
  apply (List_spec (sample "running") (map_to_list (sample "running"))
           (trace ok_os (List (map_to_list (sample "running"))) tt)).
  - apply map_Forall_singleton. split; [done | by left].
  - done.
  - apply run_ends.
Defined.
