(* ===== verification/Seccomp.v ===== *)
(** * Seccomp profiles (src/pkg/seccomp/filter.go)

    Declarative profiles, their compilation to a BPF filter, and the loading of the
    filter into the calling process. *)

From S2P Require Import Prelude GoStrings GoSort Effects OS BPF.
#[local] Open Scope go_scope.

(** ** Data *)

(** [unix.EPERM] as a number. *)
Definition EPERM_no : Z := 1.

Definition ActionAllow : string := "allow".
Definition ActionErrno : string := "errno".
Definition ActionKill : string := "kill".
Definition ActionTrap : string := "trap".
Definition ActionTrace : string := "trace".

Record SyscallRule := { rule_Name : string; rule_Action : string; rule_Errno : Z }.

Record Profile := { DefaultAction : string; Syscalls : list SyscallRule }.

Definition DefaultHardenedProfile : Profile :=
  let mk := fun n a e => {| rule_Name := n; rule_Action := a; rule_Errno := e |} in
  {| DefaultAction := ActionAllow;
     Syscalls :=
     [mk "ptrace" ActionErrno EPERM_no;
      mk "bpf" ActionErrno EPERM_no;
      mk "kexec_load" ActionKill 0;
      mk "kexec_file_load" ActionKill 0;
      mk "reboot" ActionKill 0;
      mk "sysfs" ActionErrno EPERM_no;
      mk "pivot_root" ActionErrno EPERM_no;
      mk "mount" ActionErrno EPERM_no;
      mk "umount2" ActionErrno EPERM_no;
      mk "swapon" ActionErrno EPERM_no;
      mk "swapoff" ActionErrno EPERM_no;
      mk "init_module" ActionKill 0;
      mk "finit_module" ActionKill 0;
      mk "delete_module" ActionKill 0] |}.

Record bpfInstruction := { bi_code : Z; bi_jt : Z; bi_jf : Z; bi_k : Z }.

Definition raw (i : bpfInstruction) : raw_insn := (bi_code i, bi_jt i, bi_jf i, bi_k i).

(** ** Compilation *)

Definition actionToValue (act : string) (errnoVal : Z) : Z :=
  if bool_decide (act = ActionAllow) then 0x7fff0000
  else if bool_decide (act = ActionErrno) then
    let errnoVal := if errnoVal =? 0 then uint32 EPERM_no else errnoVal in
    Z.lor 0x00050000 (Z.land errnoVal 0x0000ffff)
  else if bool_decide (act = ActionKill) then 0x00000000
  else if bool_decide (act = ActionTrap) then 0x00030000
  else if bool_decide (act = ActionTrace) then 0x7ff00000
  else Z.lor 0x00050000 (uint32 EPERM_no).

Definition syscall_table : list (string * Z) :=
  [("read", 0); ("write", 1); ("open", 2); ("close", 3); ("stat", 4); ("fstat", 5);
   ("lstat", 6); ("poll", 7); ("lseek", 8); ("mmap", 9); ("mprotect", 10); ("munmap", 11);
   ("brk", 12); ("rt_sigaction", 13); ("rt_sigprocmask", 14); ("rt_sigreturn", 15);
   ("ioctl", 16); ("access", 21); ("pipe", 22); ("select", 23); ("sched_yield", 24);
   ("mremap", 25); ("dup", 32); ("dup2", 33); ("pause", 34); ("nanosleep", 35); ("getpid", 39);
   ("socket", 41); ("connect", 42); ("accept", 43); ("sendto", 44); ("recvfrom", 45);
   ("clone", 56); ("fork", 57); ("vfork", 58); ("execve", 59); ("exit", 60); ("wait4", 61);
   ("kill", 62); ("uname", 63); ("fcntl", 72); ("fsync", 74); ("getdents", 78); ("getcwd", 79);
   ("chdir", 80); ("mkdir", 83); ("rmdir", 84); ("unlink", 87); ("readlink", 89);
   ("chmod", 90); ("chown", 92); ("umask", 95); ("getuid", 102); ("syslog", 103);
   ("getgid", 104); ("setuid", 105); ("setgid", 106); ("ptrace", 101); ("prctl", 157);
   ("pivot_root", 155); ("mount", 165); ("umount2", 166); ("swapon", 167); ("swapoff", 168);
   ("reboot", 169); ("sethostname", 170); ("init_module", 175); ("delete_module", 176);
   ("futex", 202); ("exit_group", 231); ("epoll_wait", 232); ("epoll_ctl", 233);
   ("tgkill", 234); ("kexec_load", 246); ("openat", 257); ("mkdirat", 258);
   ("newfstatat", 262); ("unlinkat", 263); ("unshare", 272); ("finit_module", 313);
   ("seccomp", 317); ("kexec_file_load", 320); ("bpf", 321); ("clone3", 435);
   ("close_range", 436)].

(** The lookup in the map literal. *)
Definition syscallNameToNR (name : string) : option Z :=
  snd <$> List.find (fun kv => bool_decide (kv.1 = name)) syscall_table.

Record compiledRule := { cr_nr : Z; cr_value : Z }.

Definition bpfLd : Z := 0x00.
Definition bpfW : Z := 0x00.
Definition bpfAbs : Z := 0x20.
Definition bpfJmp : Z := 0x05.
Definition bpfJeq : Z := 0x10.
Definition bpfK : Z := 0x00.
Definition bpfRet : Z := 0x06.

Definition seccompDataNrOffset : Z := 0.
Definition seccompDataArchOffset : Z := 4.
Definition auditArchX86_64 : Z := 0xc000003e.

Definition ld_abs (off : Z) : bpfInstruction :=
  {| bi_code := Z.lor (Z.lor bpfLd bpfW) bpfAbs; bi_jt := 0; bi_jf := 0; bi_k := off |}.
Definition jeq (k jt jf : Z) : bpfInstruction :=
  {| bi_code := Z.lor (Z.lor bpfJmp bpfJeq) bpfK; bi_jt := jt; bi_jf := jf; bi_k := k |}.
Definition ret (k : Z) : bpfInstruction :=
  {| bi_code := Z.lor bpfRet bpfK; bi_jt := 0; bi_jf := 0; bi_k := k |}.

(** Rules with an unknown name are skipped. *)
Definition compile_rules (rs : list SyscallRule) : list compiledRule :=
  omap (fun r => (fun nr => {| cr_nr := nr; cr_value := actionToValue (rule_Action r) (rule_Errno r) |})
                 <$> syscallNameToNR (rule_Name r)) rs.

Definition rule_insns (r : compiledRule) : list bpfInstruction :=
  [jeq (cr_nr r) 0 1; ret (cr_value r)].

Section compile.
Context `{SliceSort}.

(** The error is always nil. *)
Definition compileBPF (profile : Profile) : list bpfInstruction :=
  let rules := sort_slice (fun a b => cr_nr a <? cr_nr b) (compile_rules (Syscalls profile)) in
  let defaultRet := actionToValue (DefaultAction profile) (uint32 EPERM_no) in
  [ld_abs seccompDataArchOffset; jeq auditArchX86_64 1 0; ret 0x00000000;
   ld_abs seccompDataNrOffset] ++
  concat (map rule_insns rules) ++ [ret defaultRet].

(** ** Loading *)

(** [json.Unmarshal] into a Profile. *)
Variable profile_json : string -> result Profile.

Definition LoadProfile (path : string) : io (result Profile) :=
  if bool_decide (path = "") then mret (Ok DefaultHardenedProfile)
  else
    let? data := sys (ReadFile path) onerr e =>
      mret (Err (WrapErr "failed to read seccomp profile" e)) in
    match profile_json data with
    | Err e => mret (Err (WrapErr "failed to parse seccomp profile json" e))
    | Ok prof => mret (Ok prof)
    end.

Definition ApplyProfile (profilePath : string) : io (result unit) :=
  let? prof := LoadProfile profilePath onerr e => mret (Err e) in
  let filter := compileBPF prof in
  let? _ := sys (Prctl PR_SET_NO_NEW_PRIVS 1) onerr e =>
    mret (Err (WrapErr "failed to set PR_SET_NO_NEW_PRIVS" e)) in
  let? _ := sys (InstallFilter (map raw filter) (uint16 (Z.of_nat (length filter)))) onerr e =>
    mret (Err (WrapErr "failed to install seccomp filter" e)) in
  mret (Ok tt).
End compile.

(** ** Running a compiled filter *)

(** The value of the first rule for call number [nr], or the default. *)
Definition first_match (nr : Z) (rules : list compiledRule) (def : Z) : Z :=
  match List.find (fun r => nr =? cr_nr r) rules with
  | Some r => cr_value r
  | None => def
  end.

Section run.
Context `{BPFMachine}.

(** One instruction of a filter whose rest at [pc] is known. *)
Lemma exec_ret p pc k post d a :
  drop pc p = raw (ret k) :: post -> bpf_exec p d pc a = Some k.
Proof. intros [Hp _]%drop_cons. by eapply bpf_ret. Qed.

Lemma exec_ld p pc off post d a v :
  drop pc p = raw (ld_abs off) :: post -> sd_word d off = Some v ->
  bpf_exec p d pc a = bpf_exec p d (S pc) v.
Proof. intros [Hp _]%drop_cons Hv. by eapply bpf_ld. Qed.

Lemma exec_jeq p pc k jt jf post d a :
  drop pc p = raw (jeq k jt jf) :: post ->
  bpf_exec p d pc a = bpf_exec p d (S pc + Z.to_nat (if a =? k then jt else jf)) a.
Proof. intros [Hp _]%drop_cons. by eapply bpf_jeq. Qed.

(** From the first rule on, with the call number in the accumulator. *)
Lemma exec_rules p pc rules def d a :
  drop pc p = map raw (concat (map rule_insns rules) ++ [ret def]) ->
  bpf_exec p d pc a = Some (first_match a rules def).
Proof.
  revert pc. induction rules as [|r rules IH]; intros pc Hp; simpl in Hp.
  - eapply exec_ret; exact Hp.
  - pose proof Hp as [_ [_ Hr]%drop_cons]%drop_cons.
    erewrite exec_jeq by exact Hp. unfold first_match. simpl.
    destruct (a =? cr_nr r) eqn:E; simpl.
    + rewrite Nat.add_0_r. apply drop_cons in Hp as [_ Hp]. eapply exec_ret; exact Hp.
    + replace (S (pc + Z.to_nat 1)) with (S (S pc)) by lia. apply IH; exact Hr.
Qed.

(** What a compiled profile returns for a call. *)
Lemma compileBPF_run `{SliceSort} prof d :
  bpf_verdict (map raw (compileBPF prof)) d =
  Some (if sd_arch d =? auditArchX86_64 then
          first_match (sd_nr d)
            (sort_slice (fun a b => cr_nr a <? cr_nr b) (compile_rules (Syscalls prof)))
            (actionToValue (DefaultAction prof) (uint32 EPERM_no))
        else 0).
Proof.
  unfold bpf_verdict, compileBPF. set (rules := sort_slice _ _). set (def := actionToValue _ _).
  erewrite exec_ld by reflexivity. erewrite exec_jeq by reflexivity.
  destruct (sd_arch d =? auditArchX86_64).
  - cbn [Nat.add Z.to_nat Pos.to_nat Pos.iter_op].
    erewrite exec_ld by reflexivity. by apply exec_rules.
  - eapply exec_ret. reflexivity.
Qed.
End run.

(** ** What a compiled profile decides *)

Lemma first_match_cases nr rules def :
  (exists r, r ∈ rules /\ cr_nr r = nr /\ first_match nr rules def = cr_value r) \/
  ((forall r, r ∈ rules -> cr_nr r <> nr) /\ first_match nr rules def = def).
Proof.
  unfold first_match. destruct (List.find _ rules) as [r|] eqn:E.
  - left. apply List.find_some in E as [Hr Hn%Z.eqb_eq]. exists r.
    split; [by apply list_elem_of_In | done].
  - right. split; [| done]. intros r Hr Hn. apply list_elem_of_In in Hr.
    eapply List.find_none in E; [| exact Hr]. simpl in E. apply Z.eqb_neq in E. by subst.
Qed.




(** The rules of a profile with at most one rule for each call number, in any order. *)
Lemma first_match_perm nr rules rules' def :
  NoDup (map cr_nr rules) -> rules ≡ₚ rules' ->
  first_match nr rules def = first_match nr rules' def.
Proof.
  intros Hnd Hp. destruct (first_match_cases nr rules def) as [(r & Hr & Hn & ->) | [H1 ->]];
    destruct (first_match_cases nr rules' def) as [(r' & Hr' & Hn' & ->) | [H2 ->]]; [| | | done].
  - rewrite <- Hp in Hr'. assert (r = r') as ->; [| done].
    apply list_elem_of_lookup in Hr as [i Hi], Hr' as [j Hj].
    assert (i = j) as ->; [| congruence].
    eapply (NoDup_lookup (map cr_nr rules)); [done | |];
      rewrite list_lookup_fmap; [by rewrite Hi | rewrite Hj; simpl; congruence].
  - rewrite Hp in Hr. by destruct (H2 r).
  - rewrite <- Hp in Hr'. by destruct (H1 r').
Qed.

(** The decision of the hardened profile: call numbers denied with EPERM, and killed. *)
Definition hardened_errno : list Z := [101; 321; 155; 165; 166; 167; 168].
Definition hardened_kill : list Z := [246; 320; 169; 175; 313; 176].

(** C24: The default hardened profile, compiled, denies exactly ptrace, bpf, pivot_root,
    mount, umount2, swapon and swapoff with EPERM, kills exactly kexec_load,
    kexec_file_load, reboot and the three module calls, and allows every other x86-64
    call: sysfs (139) too, which the profile means to deny, because the table of names
    does not have it. *)
Theorem DefaultHardenedProfile_verdict `{BPFMachine} `{SliceSort} nr :
  bpf_verdict (map raw (compileBPF DefaultHardenedProfile))
    {| sd_nr := nr; sd_arch := auditArchX86_64 |} =
  Some (if bool_decide (nr ∈ hardened_errno) then 0x00050001
        else if bool_decide (nr ∈ hardened_kill) then 0 else 0x7fff0000).
Proof.
  rewrite compileBPF_run. f_equal. cbn [sd_arch sd_nr]. rewrite Z.eqb_refl.
  rewrite <- (first_match_perm nr (compile_rules (Syscalls DefaultHardenedProfile)));
    [| by apply (bool_decide_unpack _); vm_compute | by rewrite sort_slice_perm].
  unfold first_match, hardened_errno, hardened_kill.
  change (compile_rules (Syscalls DefaultHardenedProfile)) with
    (ltac:(let x := eval vm_compute in (compile_rules (Syscalls DefaultHardenedProfile)) in exact x)).
  cbn [List.find cr_nr].
  repeat match goal with |- context [nr =? ?n] =>
    destruct (Z.eqb_spec nr n) as [-> | ?]; [by vm_compute |] end.
  rewrite !bool_decide_eq_false_2 by (rewrite !elem_of_cons, elem_of_nil; intuition). done.
Qed.

#[local] Opaque compileBPF DefaultHardenedProfile.

(** C23: Whatever the kernel and the file system answer, [ApplyProfile] that succeeds has
    made, in this order and nothing else: the read of the profile (when a path was
    given), the setting of no_new_privs, and the installation of the filter compiled
    from exactly that profile; a filter is never handed to the kernel unless
    no_new_privs was set before. *)
Theorem ApplyProfile_installs `{SliceSort} (profile_json : string -> result Profile) path tr r :
  ends (ApplyProfile profile_json path) tr r ->
  (r = Ok tt ->
   exists prof rd,
     tr = rd ++ [@Ev os (Prctl PR_SET_NO_NEW_PRIVS 1) (Ok tt);
                 @Ev os (InstallFilter (map raw (compileBPF prof))
                           (uint16 (Z.of_nat (length (compileBPF prof))))) (Ok tt)] /\
     ((path = "" /\ rd = [] /\ prof = DefaultHardenedProfile) \/
      (path <> "" /\ exists data, rd = [@Ev os (ReadFile path) (Ok data)] /\
                                  profile_json data = Ok prof))) /\
  (forall i f n, calls tr !! S i = Some (InstallFilter f n : os) ->
     calls tr !! i = Some (Prctl PR_SET_NO_NEW_PRIVS 1 : os)).
Proof.
  apply (wp_ends_log _ tr r (fun tr r => _)). unfold ApplyProfile, LoadProfile.
  wp_steps; unfold log_mon; simpl; (split;
    [intros HOk; simplify_eq | intros [|[|[|i]]] f n Hi; simplify_eq/=; eauto]);
    eauto; bool_hyps; simplify_eq.
  - exists DefaultHardenedProfile, []. split; [done |]. by left.
  - eexists _, [_]. split; [reflexivity |]. right. eauto.
Qed.

Lemma ApplyProfile_installs_witness :
  exists prof rd, trace ok_os (ApplyProfile (fun _ => Err EOF) "") tt =
    rd ++ [@Ev os (Prctl PR_SET_NO_NEW_PRIVS 1) (Ok tt);
           @Ev os (InstallFilter (map raw (compileBPF prof))
                     (uint16 (Z.of_nat (length (compileBPF prof))))) (Ok tt)] /\
    (("" = "" /\ rd = [] /\ prof = DefaultHardenedProfile) \/
     ("" <> "" /\ exists data, rd = [@Ev os (ReadFile "") (Ok data)] /\ Err EOF = Ok prof)).
Proof.
  apply (ApplyProfile_installs (fun _ => Err EOF) "" _
           (res ok_os (ApplyProfile (fun _ => Err EOF) "") tt)).
  - apply run_ends.
  - reflexivity.
Defined.
