(* ===== verification/Security.v ===== *)
(** * Capabilities and the syscall denylist (src/pkg/sandbox/security_linux.go) *)

From S2P Require Import Prelude GoSort Effects OS BPF Seccomp.
#[local] Open Scope go_scope.

(** The bounding capabilities, numbers 0 to 63; the failures of the single drops are
    ignored. *)
Definition DropCapabilities : io (result unit) :=
  let? _ := sys (Prctl PR_SET_NO_NEW_PRIVS 1) onerr e =>
    mret (Err (WrapErr "failed to set PR_SET_NO_NEW_PRIVS" e)) in
  do_ foldM (fun _ capID => do_ sys (Prctl PR_CAPBSET_DROP capID);; mret tt) tt (seqZ 0 64);;
  mret (Ok tt).

(** ** The denylist *)

Definition SYS_PTRACE : Z := 101.
Definition SYS_BPF : Z := 321.
Definition SYS_MOUNT : Z := 165.
Definition SYS_UMOUNT2 : Z := 166.
Definition SYS_PIVOT_ROOT : Z := 155.
Definition SYS_REBOOT : Z := 169.
Definition SYS_KEXEC_LOAD : Z := 246.
Definition SYS_SYSLOG : Z := 103.
Definition SYS_KEYCTL : Z := 250.
Definition SYS_ADD_KEY : Z := 248.
Definition SYS_REQUEST_KEY : Z := 249.
Definition SYS_SWAPON : Z := 167.
Definition SYS_SWAPOFF : Z := 168.
Definition SYS_CHROOT : Z := 161.

Definition blockedSyscalls : list Z :=
  [SYS_PTRACE; SYS_BPF; SYS_MOUNT; SYS_UMOUNT2; SYS_PIVOT_ROOT; SYS_REBOOT; SYS_KEXEC_LOAD;
   SYS_SYSLOG; SYS_KEYCTL; SYS_ADD_KEY; SYS_REQUEST_KEY; SYS_SWAPON; SYS_SWAPOFF; SYS_CHROOT].

Definition SECCOMP_RET_ALLOW : Z := 0x7fff0000.
Definition SECCOMP_RET_ERRNO : Z := 0x00050000.

(** The loop over the blocked calls, [i] being its index: the jump that a match takes is
    a byte. *)
Fixpoint denylist_checks (totalBlocked i : nat) (bs : list Z) : list bpfInstruction :=
  match bs with
  | [] => []
  | syscallNum :: bs =>
      jeq syscallNum (uint8 (Z.of_nat totalBlocked - Z.of_nat i)) 0 ::
      denylist_checks totalBlocked (S i) bs
  end.

Definition denylist_deny : Z := Z.lor SECCOMP_RET_ERRNO (Z.land EPERM_no 0x0000ffff).

Definition denylist_filter (bs : list Z) : list bpfInstruction :=
  ld_abs 0 :: denylist_checks (length bs) 0 bs ++ [ret SECCOMP_RET_ALLOW; ret denylist_deny].

Definition ApplySeccompDenylist : io (result unit) :=
  let filter := denylist_filter blockedSyscalls in
  let? _ := sys (InstallFilter (map raw filter) (uint16 (Z.of_nat (length filter)))) onerr e =>
    mret (Err (WrapErr "prctl(PR_SET_SECCOMP) failed" e)) in
  mret (Ok tt).

Definition ApplySeccompFilter `{SliceSort} (profile_json : string -> result Profile)
    (profilePath : string) : io (result unit) :=
  if negb (bool_decide (profilePath = "")) then ApplyProfile profile_json profilePath
  else ApplySeccompDenylist.

(** ** What the denylist decides *)

Lemma length_denylist_checks n i bs : length (denylist_checks n i bs) = length bs.
Proof. revert i. induction bs as [|b bs IH]; intros i; simpl; [done | by rewrite IH]. Qed.

Section run.
Context `{BPFMachine}.

Lemma exec_denylist p pc n i bs d a :
  drop pc p = map raw (denylist_checks n i bs ++ [ret SECCOMP_RET_ALLOW; ret denylist_deny]) ->
  (n = i + length bs)%nat -> (length bs < 256)%nat ->
  bpf_exec p d pc a =
  Some (if bool_decide (a ∈ bs) then denylist_deny else SECCOMP_RET_ALLOW).
Proof.
  revert pc i. induction bs as [|b bs IH]; intros pc i Hp Hn Hlen; simpl in Hp, Hn, Hlen.
  - eapply exec_ret; exact Hp.
  - pose proof Hp as [_ Hr]%drop_cons. erewrite exec_jeq by exact Hp.
    rewrite wrapu_id by (unfold in_uint; lia). destruct (Z.eqb_spec a b) as [-> | Hne].
    + rewrite bool_decide_eq_true_2 by set_solver.
      replace (Z.to_nat _) with (S (length bs)) by lia.
      apply (exec_ret _ _ _ []). rewrite <- drop_drop, Hr, map_app, drop_app_ge;
        rewrite length_map, length_denylist_checks; [| lia].
      by replace (S (length bs) - length bs)%nat with 1%nat by lia.
    + rewrite (bool_decide_ext (a ∈ b :: bs) (a ∈ bs)) by set_solver.
      rewrite Nat.add_0_r. eapply IH; [exact Hr | lia | lia].
Qed.
End run.

(** C27: The jump offsets of the denylist filter are right: for every list of at most 255
    blocked calls (an offset is one byte), a call is denied with EPERM exactly when its
    number is in the list and is allowed otherwise, whatever its architecture. *)
Theorem denylist_verdict `{BPFMachine} bs nr arch (Hlen : (length bs < 256)%nat) :
  bpf_verdict (map raw (denylist_filter bs)) {| sd_nr := nr; sd_arch := arch |} =
  Some (if bool_decide (nr ∈ bs) then 0x00050001 else 0x7fff0000).
Proof.
  unfold bpf_verdict, denylist_filter. erewrite exec_ld by reflexivity.
  rewrite (exec_denylist _ 1 (length bs) 0 bs); done.
Qed.

Lemma denylist_verdict_witness :
  (length blockedSyscalls < 256)%nat /\
  bpf_verdict (map raw (denylist_filter blockedSyscalls)) {| sd_nr := 161; sd_arch := 0 |} =
  Some (if bool_decide (161 ∈ blockedSyscalls) then 0x00050001 else 0x7fff0000).
Proof. split; [simpl; lia | apply (denylist_verdict blockedSyscalls 161 0); simpl; lia]. Defined.
