(* ===== verification/GoNet.v ===== *)
(** * Go's package net: textual IP addresses

    [net.ParseIP], [net.ParseCIDR], [IP.String], [IP.To4], [IP.Mask], [IP.Equal] and
    [IP.IsLoopback] (an [IP] is a list of 4 or 16 bytes), after the Go sources, and the
    round trip of IPv4 addresses. *)

From S2P Require Import Prelude GoStrings GoStrconv.

Definition IP : Type := list Z.

Definition v4InV6Prefix : list Z := [0; 0; 0; 0; 0; 0; 0; 0; 0; 0; 255; 255].

Definition To4 (ip : IP) : option IP :=
  if (length ip =? 4)%nat then Some ip
  else if (length ip =? 16)%nat && bool_decide (take 12 ip = v4InV6Prefix) then Some (drop 12 ip)
  else None.

(** [net.IPv4(a, b, c, d)] *)
Definition IPv4 (a b c d : Z) : IP := v4InV6Prefix ++ [a; b; c; d].

(** [ip.Equal(x)] *)
Definition IPEqual (ip x : IP) : bool :=
  if (length ip =? length x)%nat then bool_decide (ip = x)
  else if (length ip =? 4)%nat && (length x =? 16)%nat then bool_decide (v4InV6Prefix ++ ip = x)
  else if (length ip =? 16)%nat && (length x =? 4)%nat then bool_decide (ip = v4InV6Prefix ++ x)
  else false.

Definition IPv6loopback : IP := replicate 15 0 ++ [1].

Definition IsLoopback (ip : IP) : bool :=
  match To4 ip with
  | Some ip4 => default 0 (ip4 !! O) =? 127
  | None => IPEqual ip IPv6loopback
  end.

(** ** Printing *)

Definition dotted (ip4 : IP) : string := Join (map Itoa ip4) ".".

Definition hex_lower (d : Z) : ascii := chr (if d <? 10 then 48 + d else 87 + d).

(** A 16-bit group in hexadecimal without leading zeros. *)
Definition hex16 (x : Z) : string :=
  let ds := [Z.shiftr x 12; Z.land (Z.shiftr x 8) 15; Z.land (Z.shiftr x 4) 15; Z.land x 15] in
  let ds := if Z.shiftr x 12 =? 0 then drop 1 ds else ds in
  let ds := if Z.shiftr x 8 =? 0 then drop 1 ds else ds in
  let ds := if Z.shiftr x 4 =? 0 then drop 1 ds else ds in
  of_list (map hex_lower ds).

Fixpoint groups (bs : list Z) : list Z :=
  match bs with
  | a :: b :: bs => (a * 256 + b) :: groups bs
  | _ => []
  end.

Fixpoint zero_run (gs : list Z) : nat :=
  match gs with 0 :: gs => S (zero_run gs) | _ => O end.

(** The first longest run of at least two zero groups: its start and length. *)
Fixpoint longest_run (i : nat) (gs : list Z) (best : nat * nat) : nat * nat :=
  match gs with
  | [] => best
  | _ :: gs' =>
      let l := zero_run gs in
      longest_run (S i) gs' (if (2 <=? l)%nat && (snd best <? l)%nat then (i, l) else best)
  end.

Definition v6_text (ip : IP) : string :=
  let gs := groups ip in
  let '(start, len) := longest_run 0 gs (255%nat, 0%nat) in
  if (len =? 0)%nat then Join (map hex16 gs) ":"
  else Join (map hex16 (take start gs)) ":" +:+ "::" +:+
       Join (map hex16 (drop (start + len) gs)) ":".

Definition IPString (ip : IP) : string :=
  if (length ip =? 0)%nat then "<nil>"
  else match To4 ip with
       | Some ip4 => dotted ip4
       | None => if (length ip =? 16)%nat then v6_text ip
                 else "?" +:+ of_list (flat_map (fun b => [hex_lower (Z.shiftr b 4);
                                                           hex_lower (Z.land b 15)]) ip)
       end.

(** ** Parsing (net/netip) *)

(** [parseIPv4Fields]: [prev] is the previous character, [digLen] the number of digits of
    the field under way. *)
Fixpoint v4_go (s : string) (prev : option ascii) (val digLen : Z) (fields : list Z) :
    option (list Z) :=
  match s with
  | "" => if (length fields <? 3)%nat then None else Some (fields ++ [val])
  | String c s' =>
      if is_digit c then
        if (digLen =? 1) && (val =? 0) then None
        else
          let val := val * 10 + (code c - 48) in
          if 255 <? val then None else v4_go s' (Some c) val (digLen + 1) fields
      else if bool_decide (c = "."%char) then
        if bool_decide (prev = None) || bool_decide (s' = "") || bool_decide (prev = Some "."%char)
        then None
        else if (length fields =? 3)%nat then None
        else v4_go s' (Some c) 0 0 (fields ++ [val])
      else None
  end.

Definition parseIPv4 (s : string) : option (list Z) := v4_go s None 0 0 [].

Definition hex_val (c : ascii) : option Z :=
  let n := code c in
  if (48 <=? n) && (n <=? 57) then Some (n - 48)
  else if (97 <=? n) && (n <=? 102) then Some (n - 87)
  else if (65 <=? n) && (n <=? 70) then Some (n - 55)
  else None.

(** One group: at most four hexadecimal digits; the number of digits, the value and the
    rest. *)
Fixpoint hex_scan (s : string) (off acc : Z) : option (Z * Z * string) :=
  match s with
  | "" => Some (off, acc, s)
  | String c s' =>
      match hex_val c with
      | None => Some (off, acc, s)
      | Some d =>
          let acc := acc * 16 + d in
          if 3 <? off then None
          else if 65535 <? acc then None
          else hex_scan s' (off + 1) acc
      end
  end.

(** The loop over the groups: the bytes read, the place of the ellipsis in bytes, and
    what is left of the text.  Each round reads two bytes of at most sixteen, so eight
    rounds exhaust the loop. *)
Fixpoint v6_go (fuel : nat) (s : string) (ip : list Z) (ellipsis : option nat) :
    option (list Z * option nat * string) :=
  match fuel with
  | O => Some (ip, ellipsis, s)
  | S fuel =>
      if (16 <=? length ip)%nat then Some (ip, ellipsis, s) else
      match hex_scan s 0 0 with
      | None => None
      | Some (off, acc, rest) =>
          if off =? 0 then None
          else match rest with
          | String "." _ =>
              if bool_decide (ellipsis = None) && negb (length ip =? 12)%nat then None
              else if (16 <? length ip + 4)%nat then None
              else match parseIPv4 s with
                   | None => None
                   | Some f => Some (ip ++ f, ellipsis, "")
                   end
          | _ =>
              let ip := ip ++ [Z.shiftr acc 8; Z.land acc 255] in
              match rest with
              | "" => Some (ip, ellipsis, "")
              | String ":" "" => None
              | String ":" (String ":" s') =>
                  match ellipsis with
                  | Some _ => None
                  | None =>
                      if bool_decide (s' = "") then Some (ip, Some (length ip), "")
                      else v6_go fuel s' ip (Some (length ip))
                  end
              | String ":" s' => v6_go fuel s' ip ellipsis
              | _ => None
              end
          end
      end
  end.

(** The sixteen bytes and the zone. *)
Definition parseIPv6 (s0 : string) : option (list Z * string) :=
  let '(s, zone, zone_ok) :=
    match IndexByte "%" s0 with
    | None => (s0, "", true)
    | Some i => (take_str i s0, drop_str (S i) s0, negb (bool_decide (drop_str (S i) s0 = "")))
    end in
  if negb zone_ok then None else
  let lead := HasPrefix s "::" in
  let s := if lead then drop_str 2 s else s in
  if lead && bool_decide (s = "") then Some (replicate 16 0, zone) else
  match v6_go 8 s [] (if lead then Some O else None) with
  | None => None
  | Some (ip, ellipsis, rest) =>
      if negb (bool_decide (rest = "")) then None
      else if (length ip <? 16)%nat then
        match ellipsis with
        | None => None
        | Some e => Some (take e ip ++ replicate (16 - length ip) 0 ++ drop e ip, zone)
        end
      else if bool_decide (ellipsis = None) then Some (ip, zone) else None
  end.

Inductive addr :=
| Addr4 (ip4 : list Z)
| Addr6 (ip16 : list Z) (zone : string).

(** [netip.ParseAddr]: the first of dot, colon and percent sign decides. *)
Fixpoint parse_addr_scan (s whole : string) : option addr :=
  match s with
  | "" => None
  | String c s' =>
      if bool_decide (c = "."%char) then Addr4 <$> parseIPv4 whole
      else if bool_decide (c = ":"%char) then (fun r => Addr6 r.1 r.2) <$> parseIPv6 whole
      else if bool_decide (c = "%"%char) then None
      else parse_addr_scan s' whole
  end.

Definition ParseAddr (s : string) : option addr := parse_addr_scan s s.

Definition As16 (a : addr) : IP :=
  match a with Addr4 f => v4InV6Prefix ++ f | Addr6 ip _ => ip end.

Definition has_zone (a : addr) : bool :=
  match a with Addr4 _ => false | Addr6 _ z => negb (bool_decide (z = "")) end.

Definition ParseIP (s : string) : option IP :=
  match ParseAddr s with
  | Some a => if has_zone a then None else Some (As16 a)
  | None => None
  end.

(** ** Networks *)

Record IPNet := { net_IP : IP; net_Mask : list Z }.

(** [net.CIDRMask(n, 8 * len)] *)
Fixpoint CIDRMask (n : Z) (len : nat) : list Z :=
  match len with
  | O => []
  | S len => (if 8 <=? n then 255 else 255 - Z.shiftr 255 n) ::
             CIDRMask (if 8 <=? n then n - 8 else 0) len
  end.

(** [ip.Mask(mask)]; [None] is nil. *)
Definition IPMask (ip : IP) (mask : list Z) : option IP :=
  let mask := if (length mask =? 16)%nat && (length ip =? 4)%nat &&
                 bool_decide (take 12 mask = replicate 12 255)
              then drop 12 mask else mask in
  let ip := if (length mask =? 4)%nat && (length ip =? 16)%nat &&
               bool_decide (take 12 ip = v4InV6Prefix)
            then drop 12 ip else ip in
  if (length ip =? length mask)%nat then Some (zip_with Z.land ip mask) else None.

(** The digits at the front of a text, below 0xFFFFFF. *)
Fixpoint dtoi_go (s : string) (n i : Z) : option (Z * Z) :=
  match s with
  | String c s' =>
      if is_digit c then
        let n := n * 10 + (code c - 48) in
        if 0xFFFFFF <=? n then None else dtoi_go s' n (i + 1)
      else if i =? 0 then None else Some (n, i)
  | "" => if i =? 0 then None else Some (n, i)
  end.

(** [net.ParseCIDR]; [None] is the [ParseError]. *)
Definition ParseCIDR (s : string) : option (IP * IPNet) :=
  match IndexByte "/" s with
  | None => None
  | Some k =>
      let addr := take_str k s in
      let mask := drop_str (S k) s in
      match ParseAddr addr with
      | None => None
      | Some a =>
          if has_zone a then None else
          let len := match a with Addr4 _ => 4%nat | Addr6 _ _ => 16%nat end in
          match dtoi_go mask 0 0 with
          | None => None
          | Some (n, i) =>
              if negb (i =? Z.of_nat (String.length mask)) || (8 * Z.of_nat len <? n) then None
              else
                let m := CIDRMask n len in
                Some (As16 a, {| net_IP := default [] (IPMask (As16 a) m); net_Mask := m |})
          end
      end
  end.

(** ** IPv4 addresses survive printing and parsing *)

Lemma octet_ind (P : Z -> Prop) :
  Forall P (seqZ 0 256) -> forall b, 0 <= b < 256 -> P b.
Proof. intros H b Hb. rewrite Forall_forall in H. apply H, elem_of_seqZ. lia. Qed.

(** Reading a printed octet. *)
Lemma v4_go_octet b : 0 <= b < 256 ->
  exists c n, c <> "."%char /\
  forall rest prev fields,
    v4_go (Itoa b +:+ rest) prev 0 0 fields = v4_go rest (Some c) b n fields.
Proof.
  revert b. apply octet_ind. repeat (constructor; [eexists _, _; split;
    [| intros rest prev fields; reflexivity]; discriminate |]). constructor.
Qed.

Lemma parse_addr_scan_octet b rest whole : 0 <= b < 256 ->
  parse_addr_scan (Itoa b +:+ "." +:+ rest) whole = Addr4 <$> parseIPv4 whole.
Proof. revert b. apply octet_ind. repeat (constructor; [reflexivity |]). constructor. Qed.

Definition octets (ip4 : IP) : Prop :=
  length ip4 = 4%nat /\ Forall (fun b => 0 <= b < 256) ip4.

Lemma octets_inv ip4 : octets ip4 ->
  exists a b c d, ip4 = [a; b; c; d] /\ 0 <= a < 256 /\ 0 <= b < 256 /\ 0 <= c < 256 /\ 0 <= d < 256.
Proof.
  intros [Hlen Hb]. destruct ip4 as [|a [|b [|c [|d [|]]]]]; try discriminate Hlen.
  exists a, b, c, d. rewrite !Forall_cons in Hb. tauto.
Qed.

(** A dot between two octets. *)
Lemma v4_go_dot c s val n fields :
  c <> "."%char -> s <> "" -> (length fields < 3)%nat ->
  v4_go ("." +:+ s) (Some c) val n fields = v4_go s (Some "."%char) 0 0 (fields ++ [val]).
Proof.
  intros Hc Hs Hf. change ("." +:+ s) with (String "." s). cbn [v4_go]. change (is_digit ".") with false. cbv iota.
  rewrite !(bool_decide_eq_true_2 (_ = _)) by done.
  rewrite !(bool_decide_eq_false_2 (_ = _)) by congruence. simpl.
  destruct (Nat.eqb_spec (length fields) 3); [lia | done].
Qed.

Lemma Itoa_octet_app b s : 0 <= b < 256 -> Itoa b +:+ s <> "".
Proof.
  intros Hb. revert s. revert b Hb. apply (octet_ind (fun b => forall s, Itoa b +:+ s <> "")).
  repeat (constructor; [intros s; discriminate |]). constructor.
Qed.

Lemma parseIPv4_dotted ip4 : octets ip4 -> parseIPv4 (dotted ip4) = Some ip4.
Proof.
  intros (a & b & c & d & -> & Ha & Hb & Hc & Hd)%octets_inv.
  unfold parseIPv4, dotted, Join. cbn [map String.concat].
  rewrite <- (app_str_nil_r (Itoa d)).
  destruct (v4_go_octet a Ha) as (ca & na & Hca & ->).
  rewrite v4_go_dot; [| done | by apply Itoa_octet_app | simpl; lia].
  destruct (v4_go_octet b Hb) as (cb & nb & Hcb & ->).
  rewrite v4_go_dot; [| done | by apply Itoa_octet_app | simpl; lia].
  destruct (v4_go_octet c Hc) as (cc & nc & Hcc & ->).
  rewrite v4_go_dot; [| done | by apply Itoa_octet_app | simpl; lia].
  by destruct (v4_go_octet d Hd) as (cd & nd & Hcd & ->).
Qed.

(** [ParseIP(ip.String())] for IPv4. *)
Lemma ParseIP_dotted ip4 : octets ip4 -> ParseIP (dotted ip4) = Some (v4InV6Prefix ++ ip4).
Proof.
  intros H. pose proof (parseIPv4_dotted ip4 H) as Hp.
  unfold ParseIP, ParseAddr.
  destruct (octets_inv ip4 H) as (a & b & c & d & -> & Ha & _).
  unfold dotted, Join in Hp |- *. cbn [map String.concat] in Hp |- *.
  rewrite parse_addr_scan_octet by done. by rewrite Hp.
Qed.

Lemma IPString_To4 ip ip4 : To4 ip = Some ip4 -> length ip4 = 4%nat -> IPString ip = dotted ip4.
Proof.
  intros H Hl. unfold IPString. destruct (Nat.eqb_spec (length ip) 0) as [E|_]; [| by rewrite H].
  unfold To4 in H. rewrite E in H. discriminate.
Qed.

Lemma dotted_inj ip4 ip4' : octets ip4 -> octets ip4' -> dotted ip4 = dotted ip4' -> ip4 = ip4'.
Proof.
  intros H H' E. apply parseIPv4_dotted in H, H'. congruence.
Qed.
