(* ===== verification/FS.v ===== *)
(** * A file system as an environment

    The documented behaviour of the file calls that the persistent state of the program
    relies on, as an interface: which files a call may change, and what a successful
    call has done.  Every call may fail at any time.  An in-memory file system is an
    instance. *)

From S2P Require Import Prelude Effects OS.

Class FileSystem (W : Type) := {
  fs_step : W -> forall c : os, ans c -> W -> Prop;
  file : W -> string -> option string;
  fs_ReadFile p w r w' : fs_step w (ReadFile p) r w' ->
    (forall q, file w' q = file w q) /\
    match r with
    | Ok d => file w p = Some d
    | Err e => IsNotExist e = true -> file w p = None
    end;
  fs_WriteFile p d m w r w' : fs_step w (WriteFile p d m) r w' ->
    (forall q, q <> p -> file w' q = file w q) /\ (is_ok r = true -> file w' p = Some d);
  fs_Rename a b w r w' : fs_step w (Rename a b) r w' ->
    (forall q, q <> a -> q <> b -> file w' q = file w q) /\
    (a <> b -> file w' b = if is_ok r then file w a else file w b);
  fs_Remove p w r w' : fs_step w (Remove p) r w' -> forall q, q <> p -> file w' q = file w q;
  fs_OpenFile p fl m w r w' :
    fs_step w (OpenFile p fl m) r w' -> forall q, q <> p -> file w' q = file w q;
  fs_MkdirAll p m w r w' : fs_step w (MkdirAll p m) r w' -> forall q, file w' q = file w q;
  fs_Flock fd op w r w' : fs_step w (Flock fd op) r w' -> forall q, file w' q = file w q;
  fs_CloseFd fd w r w' : fs_step w (CloseFd fd) r w' -> forall q, file w' q = file w q;
}.

(** ** An in-memory file system *)

Definition ENOENT_err (p : string) : error := SysErr ENOENT ("open " +:+ p +:+ ": no such file").

Definition memfs : handler os (gmap string string) := fun c w =>
  match c return osans c * gmap string string with
  | ReadFile p => (match w !! p with Some d => Ok d | None => Err (ENOENT_err p) end, w)
  | WriteFile p d _ => (Ok tt, <[p := d]> w)
  | Rename a b =>
      match w !! a with
      | Some d => (Ok tt, <[b := d]> (delete a w))
      | None => (Err (ENOENT_err a), w)
      end
  | Remove p => (Ok tt, delete p w)
  | c => (fst (ok_os c tt), w)
  end.

Definition mem_step (w : gmap string string) (c : os) (r : ans c) (w' : gmap string string) : Prop :=
  (r, w') = memfs c w \/
  (w' = w /\ match c return osans c -> Prop with
             | ReadFile p => fun r => exists e, r = Err e /\ IsNotExist e = false
             | WriteFile _ _ _ | Rename _ _ | Remove _ | OpenFile _ _ _ | MkdirAll _ _
             | Flock _ _ | CloseFd _ => fun r => is_ok r = false
             | _ => fun _ => True
             end r).

Lemma memfs_step c w : mem_step w c (memfs c w).1 (memfs c w).2.
Proof. left. by destruct (memfs c w). Qed.

#[export] Instance mem_fs : FileSystem (gmap string string).
Proof.
  refine {| fs_step := mem_step; file := fun w p => w !! p |};
    unfold mem_step; simpl.
  - intros p w r w' [E | (-> & e & -> & He)].
    + destruct (w !! p) eqn:Hp; simplify_eq; eauto.
    + split; [done |]. congruence.
  - intros p d m w r w' [E | [-> Hr]]; simplify_eq.
    + split; intros; simplify_map_eq; done.
    + split; [done | congruence].
  - intros a b w r w' [E | [-> Hr]].
    + destruct (w !! a) eqn:Ha; simplify_eq; (split; [intros; by simplify_map_eq |]);
        intros; simpl; by simplify_map_eq.
    + split; [done |]. by rewrite Hr.
  - intros p w r w' [E | [-> Hr]] q Hq; simplify_eq; by simplify_map_eq.
  - intros p fl m w r w' [E | [-> Hr]] q Hq; by simplify_eq.
  - intros p m w r w' [E | [-> Hr]] q; by simplify_eq.
  - intros fd op w r w' [E | [-> Hr]] q; by simplify_eq.
  - intros fd w r w' [E | [-> Hr]] q; by simplify_eq.
Defined.
