(* ===== verification/Ipam.v ===== *)
(** * IP address management (src/pkg/network/ipam.go)

    The persistent lease table: a JSON file, replaced atomically, that every operation
    reads and writes under a file lock.  Here one operation runs at a time; [IpamThreads]
    has any number of them at once.  The in-memory mutex of [withLock] is left out: it
    orders the operations of one process, as the file lock does those of all of them. *)

From S2P Require Import Prelude GoStrings GoStrconv GoPath GoNet Effects OS FS SandboxConfig.
#[local] Open Scope go_scope.

Definition DefaultStateDir : string := "/var/run/gojail".
Definition DefaultStateFile : string := "/var/run/gojail/ipam.json".
Definition DefaultLockFile : string := "/var/run/gojail/ipam.lock".

(** A nil map is [None]. *)
Record IPAMState := { Subnet : string; Allocations : option (gmap string string) }.

(** Reading a nil map finds nothing. *)
Definition allocations (st : IPAMState) : gmap string string := default ∅ (Allocations st).

Record IPAM := {
  stateFile : string;
  lockFile : string;
  subnet : IPNet;
  gateway : IP;
}.

Definition parse_error (cidr : string) : error := NewErr ("invalid CIDR address: " +:+ cidr).

(** [gw := make(net.IP, 4); copy(gw, masked); gw[3] = 1] *)
Definition gateway_of (masked : IP) : IP :=
  <[3%nat := 1]> (take 4 (masked ++ drop (length masked) [0; 0; 0; 0])).

Definition NewIPAM (cidr : string) : result IPAM :=
  let cidr := if bool_decide (cidr = "") then "10.200.0.0/24" else cidr in
  match ParseCIDR cidr with
  | None => Err (WrapErr ("invalid CIDR " +:+ Quote cidr) (parse_error cidr))
  | Some (ip, ipNet) =>
      match To4 ip with
      | None => Err (NewErr ("only IPv4 subnets are currently supported: " +:+ cidr))
      | Some ip4 =>
          Ok {| stateFile := DefaultStateFile; lockFile := DefaultLockFile; subnet := ipNet;
                gateway := gateway_of (default [] (IPMask ip4 (net_Mask ipNet))) |}
      end
  end.

Definition NewIPAMWithPaths (cidr state lock : string) : result IPAM :=
  match NewIPAM cidr with
  | Err e => Err e
  | Ok ipam => Ok {| stateFile := state; lockFile := lock; subnet := subnet ipam;
                     gateway := gateway ipam |}
  end.

Definition Gateway (ipam : IPAM) : IP := gateway ipam.

(** [IPNet.String] for a prefix mask. *)
Definition mask_ones (m : list Z) : Z :=
  fold_right (fun b n => n + Z.of_nat (length (filter (fun i => Z.testbit b i = true) (seqZ 0 8)))) 0 m.

Definition IPNetString (n : IPNet) : string :=
  match To4 (net_IP n) with
  | Some ip4 =>
      let m := if (length (net_Mask n) =? 16)%nat then drop 12 (net_Mask n) else net_Mask n in
      IPString ip4 +:+ "/" +:+ Itoa (mask_ones m)
  | None => if (length (net_IP n) =? length (net_Mask n))%nat
            then IPString (net_IP n) +:+ "/" +:+ Itoa (mask_ones (net_Mask n)) else "<nil>"
  end.

(** ** The critical section *)

Definition withLock {A} (ipam : IPAM) (fn : io (result A)) : io (result A) :=
  let? _ := sys (MkdirAll (Dir (lockFile ipam)) mode_0755) onerr e =>
    mret (Err (WrapErr "failed to create lock directory" e)) in
  let? f := sys (OpenFile (lockFile ipam) (Z.lor O_CREATE O_RDWR) mode_0600) onerr e =>
    mret (Err (WrapErr ("failed to open lock file " +:+ lockFile ipam) e)) in
  defer (do_ sys (CloseFd f);; mret tt)
    (let? _ := sys (Flock f LOCK_EX) onerr e =>
       mret (Err (WrapErr "failed to acquire IPAM lock" e)) in
     defer (do_ sys (Flock f LOCK_UN);; mret tt) fn).

(** ** The state file

    [json.MarshalIndent] of a state, [json.Unmarshal] into one, and the documented law
    that a state of ASCII strings survives. *)

Definition ascii_table (m : gmap string string) : Prop :=
  map_Forall (fun c s => ascii_text c = true /\ ascii_text s = true) m.

Class IpamJSON := {
  MarshalState : IPAMState -> result string;
  UnmarshalState : string -> IPAMState -> result IPAMState;
  Unmarshal_MarshalState st m s0 d :
    Allocations st = Some m -> ascii_table m ->
    MarshalState st = Ok d ->
    exists s, UnmarshalState d {| Subnet := s0; Allocations := Some ∅ |} =
              Ok {| Subnet := s; Allocations := Some m |};
}.

Section ipam.
Context `{IpamJSON}.

Definition fresh_state (ipam : IPAM) : IPAMState :=
  {| Subnet := IPNetString (subnet ipam); Allocations := Some ∅ |}.

Definition loadState (ipam : IPAM) : io (result IPAMState) :=
  let state := fresh_state ipam in
  let? data := sys (ReadFile (stateFile ipam)) onerr e =>
    (if IsNotExist e then mret (Ok state)
     else mret (Err (WrapErr "failed to read IPAM state" e))) in
  match UnmarshalState data state with
  | Err e => mret (Err (WrapErr "corrupted IPAM state file" e))
  | Ok state => mret (Ok {| Subnet := Subnet state; Allocations := Some (allocations state) |})
  end.

Definition tmpFile (ipam : IPAM) : string := stateFile ipam +:+ ".tmp".

Definition saveState (ipam : IPAM) (state : IPAMState) : io (result unit) :=
  let? _ := sys (MkdirAll (Dir (stateFile ipam)) mode_0755) onerr e =>
    mret (Err (WrapErr "failed to create state dir" e)) in
  match MarshalState state with
  | Err e => mret (Err (WrapErr "failed to marshal IPAM state" e))
  | Ok data =>
      let? _ := sys (WriteFile (tmpFile ipam) data mode_0644) onerr e =>
        mret (Err (WrapErr "failed to write temporary state file" e)) in
      let? _ := sys (Rename (tmpFile ipam) (stateFile ipam)) onerr e =>
        (do_ sys (Remove (tmpFile ipam));;
         mret (Err (WrapErr "failed to commit IPAM state" e))) in
      mret (Ok tt)
  end.

(** ** Operations *)

(** [used[s]] *)
Definition is_used (m : gmap string string) (s : string) : bool :=
  bool_decide (s ∈ (map_to_list m).*2).

(** [net.IPv4(baseIP[0], baseIP[1], baseIP[2], byte(i)).To4()] *)
Definition candidate (baseIP : IP) (i : Z) : IP :=
  default [] (To4 (IPv4 (default 0 (baseIP !! 0%nat)) (default 0 (baseIP !! 1%nat))
                        (default 0 (baseIP !! 2%nat)) (uint8 i))).

(** The loop over the host numbers, up to the first free one. *)
Fixpoint first_free (ipam : IPAM) (m : gmap string string) (baseIP : IP) (hosts : list Z) : option IP :=
  match hosts with
  | [] => None
  | i :: hosts =>
      let c := candidate baseIP i in
      if negb (is_used m (IPString c)) && negb (IPEqual c (gateway ipam)) then Some c
      else first_free ipam m baseIP hosts
  end.

(** An existing IPv4 lease: [net.ParseIP(existing).To4()]. *)
Definition existing_lease (st : IPAMState) (containerID : string) : option IP :=
  match allocations st !! containerID with
  | Some existing => match ParseIP existing with Some ip => To4 ip | None => None end
  | None => None
  end.

Definition set_lease (st : IPAMState) (containerID s : string) : IPAMState :=
  {| Subnet := Subnet st; Allocations := Some (<[containerID := s]> (allocations st)) |}.

Definition exhausted : error := NewErr "IPAM subnet address space exhausted (no free IPs)".

Definition AllocateIP (ipam : IPAM) (containerID : string) : io (result IP) :=
  withLock ipam
    (let? state := loadState ipam onerr e => mret (Err e) in
     match existing_lease state containerID with
     | Some allocatedIP => mret (Ok allocatedIP)
     | None =>
         match To4 (net_IP (subnet ipam)) with
         | None => mret (Err (NewErr "subnet IP is not a valid IPv4 address"))
         | Some baseIP =>
             match first_free ipam (allocations state) baseIP (seqZ 2 253) with
             | Some c =>
                 let? _ := saveState ipam (set_lease state containerID (IPString c)) onerr e =>
                   mret (Err e) in
                 mret (Ok c)
             | None => mret (Err exhausted)
             end
         end
     end).

Definition ReleaseIP (ipam : IPAM) (containerID : string) : io (result unit) :=
  withLock ipam
    (let? state := loadState ipam onerr e => mret (Err e) in
     match allocations state !! containerID with
     | Some _ => saveState ipam {| Subnet := Subnet state;
                                   Allocations := Some (delete containerID (allocations state)) |}
     | None => mret (Ok tt)
     end).

(** The address (nil is [None]) and whether there is one. *)
Definition GetIP (ipam : IPAM) (containerID : string) : io (option IP * bool) :=
  mbind (fun r => match r with Ok x => mret x | Err _ => mret (None, false) end)
    (withLock ipam
       (let? state := loadState ipam onerr e => mret (Err e) in
        match allocations state !! containerID with
        | Some ipStr =>
            match ParseIP ipStr with
            | Some parsed => mret (Ok (To4 parsed, true))
            | None => mret (Ok (None, false))
            end
        | None => mret (Ok (None, false))
        end)).
End ipam.

(** ** What the operations promise: the lease table

    The abstract state is the table the state file holds; an operation is one step on
    it.  [base] is the subnet's address. *)

Definition host (base : IP) (i : Z) : IP := take 3 base ++ [i].

Definition lease_free (base gw : IP) (m : gmap string string) (i : Z) : Prop :=
  host base i <> gw /\ forall cid, m !! cid <> Some (dotted (host base i)).

Definition v4_lease (m : gmap string string) (cid : string) (ip4 : IP) : Prop :=
  exists s ip, m !! cid = Some s /\ ParseIP s = Some ip /\ To4 ip = Some ip4.

Inductive alloc_spec (base gw : IP) (cid : string) (m : gmap string string) :
    result IP -> gmap string string -> Prop :=
| alloc_again ip4 : v4_lease m cid ip4 -> alloc_spec base gw cid m (Ok ip4) m
| alloc_fresh i :
    2 <= i <= 254 -> lease_free base gw m i -> (forall j, 2 <= j < i -> ~ lease_free base gw m j) ->
    (forall ip4, ~ v4_lease m cid ip4) ->
    alloc_spec base gw cid m (Ok (host base i)) (<[cid := dotted (host base i)]> m)
| alloc_full :
    (forall i, 2 <= i <= 254 -> ~ lease_free base gw m i) ->
    (forall ip4, ~ v4_lease m cid ip4) ->
    alloc_spec base gw cid m (Err exhausted) m
| alloc_fail p e : alloc_spec base gw cid m (Err (WrapErr p e)) m.

(** What the table of a well-formed allocator satisfies: every lease is a host address
    from .2 to .254 other than the gateway, and no two containers have the same. *)
Record lease_inv (base gw : IP) (m : gmap string string) : Prop := {
  lease_host cid s : m !! cid = Some s ->
    exists i, 2 <= i <= 254 /\ host base i <> gw /\ s = dotted (host base i);
  lease_inj c1 c2 s : m !! c1 = Some s -> m !! c2 = Some s -> c1 = c2;
}.

Record ipam_wf (ipam : IPAM) (base : IP) : Prop := {
  wf_subnet : To4 (net_IP (subnet ipam)) = Some base;
  wf_base : octets base;
  wf_gateway : length (gateway ipam) = 4%nat;
  wf_lock_state : stateFile ipam <> lockFile ipam;
  wf_lock_tmp : tmpFile ipam <> lockFile ipam;
}.

Lemma default_wf ipam : NewIPAM "10.200.0.0/24" = Ok ipam -> ipam_wf ipam [10; 200; 0; 0].
Proof.
  intros H. assert (ipam = {| stateFile := DefaultStateFile; lockFile := DefaultLockFile;
    subnet := {| net_IP := [10; 200; 0; 0]; net_Mask := [255; 255; 255; 0] |};
    gateway := [10; 200; 0; 1] |}) as ->.
  { enough (Ok ipam = NewIPAM "10.200.0.0/24") as E; [by vm_compute in E; injection E | done]. }
  split; [done | | done | discriminate | discriminate].
  split; [done |]. repeat (constructor; [lia |]). constructor.
Qed.

(** ** The search *)

Lemma octets_host base i : octets base -> 0 <= i < 256 -> octets (host base i).
Proof.
  intros (a & b & c & d & -> & Ha & Hb & Hc & Hd)%octets_inv Hi. split; [done |].
  repeat (constructor; [done |]). constructor.
Qed.

Lemma candidate_host base i : octets base -> 0 <= i < 256 -> candidate base i = host base i.
Proof.
  intros (a & b & c & d & -> & _)%octets_inv Hi. unfold candidate. simpl.
  by rewrite wrapu_id by (unfold in_uint; lia).
Qed.

Lemma is_used_spec m s : is_used m s = true <-> exists cid, m !! cid = Some s.
Proof.
  unfold is_used. rewrite bool_decide_eq_true, list_elem_of_fmap. split.
  - intros ([cid s'] & -> & Hin%elem_of_map_to_list). by exists cid.
  - intros [cid Hc%elem_of_map_to_list]. by exists (cid, s).
Qed.

Lemma IPString_octets ip4 : octets ip4 -> IPString ip4 = dotted ip4.
Proof. intros (a & b & c & d & -> & _)%octets_inv. done. Qed.

(** The test of the loop is [lease_free]. *)
Lemma lease_free_test ipam base m i :
  ipam_wf ipam base -> 0 <= i < 256 ->
  negb (is_used m (IPString (candidate base i))) && negb (IPEqual (candidate base i) (gateway ipam)) = true
  <-> lease_free base (gateway ipam) m i.
Proof.
  intros [_ Hb Hg _ _] Hi. rewrite candidate_host by done.
  pose proof (octets_host base i Hb Hi) as Ho. rewrite IPString_octets by done.
  unfold lease_free, IPEqual. destruct Ho as [-> _]. rewrite Hg. simpl.
  rewrite andb_true_iff, !negb_true_iff, bool_decide_eq_false, <- not_true_iff_false, is_used_spec.
  naive_solver.
Qed.

Lemma first_free_spec ipam base m n lo :
  ipam_wf ipam base -> 0 <= lo -> lo + Z.of_nat n <= 256 ->
  match first_free ipam m base (seqZ lo (Z.of_nat n)) with
  | Some c => exists i, lo <= i < lo + Z.of_nat n /\ c = host base i /\
                        lease_free base (gateway ipam) m i /\
                        forall j, lo <= j < i -> ~ lease_free base (gateway ipam) m j
  | None => forall j, lo <= j < lo + Z.of_nat n -> ~ lease_free base (gateway ipam) m j
  end.
Proof.
  intros Hwf. revert lo. induction n as [|n IH]; intros lo Hlo Hhi; [simpl; lia |].
  rewrite (seqZ_cons lo) by lia. cbn [first_free].
  pose proof (lease_free_test ipam base m lo Hwf ltac:(lia)) as Ht.
  destruct (negb _ && negb _).
  - exists lo. rewrite candidate_host by (apply (wf_base _ _ Hwf) || lia).
    split; [lia |]. split; [done |]. split; [by apply Ht | lia].
  - assert (~ lease_free base (gateway ipam) m lo) as Hno by (intros Hf%Ht; done).
    replace (Z.pred (Z.of_nat (S n))) with (Z.of_nat n) by lia.
    specialize (IH (Z.succ lo) ltac:(lia) ltac:(lia)). case_match.
    + destruct IH as (k & Hk & -> & Hf & Hj). exists k. split; [lia |]. split; [done |].
      split; [done |]. intros j Hr. destruct (Z.eq_dec j lo) as [-> | ]; [done |]. apply Hj. lia.
    + intros j Hr. destruct (Z.eq_dec j lo) as [-> | ]; [done |]. apply IH. lia.
Qed.

Lemma existing_lease_spec st m cid :
  Allocations st = Some m ->
  match existing_lease st cid with
  | Some ip4 => v4_lease m cid ip4
  | None => forall ip4, ~ v4_lease m cid ip4
  end.
Proof.
  unfold existing_lease, v4_lease, allocations. intros ->. simpl.
  destruct (m !! cid) as [s|]; [| naive_solver].
  destruct (ParseIP s) as [ip|] eqn:E; [| naive_solver].
  destruct (To4 ip) eqn:E2; naive_solver.
Qed.

(** ** The operations on the state file *)

Lemma dotted_ascii ip4 : octets ip4 -> ascii_text (dotted ip4) = true.
Proof.
  intros (a & b & c & d & -> & Ha & Hb & Hc & Hd)%octets_inv. unfold dotted, Join.
  assert (forall x, 0 <= x < 256 -> ascii_text (Itoa x) = true) as Hx
    by (apply octet_ind; repeat (constructor; [reflexivity |]); constructor).
  cbn [map String.concat]. rewrite !ascii_text_app, !Hx by done. done.
Qed.

Section refinement.
Context `{IpamJSON} {W : Type} `{FileSystem W}.
Context (ipam : IPAM) (base : IP) (Hwf : ipam_wf ipam base).

(** The table that a state file with these contents holds; [None] for corrupted
    contents. *)
Definition decode (contents : option string) : option (gmap string string) :=
  match contents with
  | None => Some ∅
  | Some d => match UnmarshalState d (fresh_state ipam) with
              | Ok st => Some (allocations st)
              | Err _ => None
              end
  end.

Definition table (w : W) : option (gmap string string) := decode (file w (stateFile ipam)).

Lemma tmp_not_state : tmpFile ipam <> stateFile ipam.
Proof.
  unfold tmpFile. intros E. apply (f_equal list_of) in E. rewrite list_of_app in E.
  apply (f_equal length) in E. rewrite length_app in E. simpl in E. lia.
Qed.

(** Conclusions that depend on the world only through the state file. *)
Abbreviation on_state Q := (fun r w' => Q r (file w' (stateFile ipam))).

Lemma rwp_withLock {A} (fn : io (result A)) w (Q : result A -> option string -> Prop) :
  (forall p e, Q (Err (WrapErr p e)) (file w (stateFile ipam))) ->
  (forall w1, file w1 (stateFile ipam) = file w (stateFile ipam) ->
     rwp fs_step fn w1 (on_state Q)) ->
  rwp fs_step (withLock ipam fn) w (on_state Q).
Proof using Hwf.
  intros Herr Hfn. unfold withLock. pose proof (wf_lock_state _ _ Hwf) as Hne.
  rwp_step. rwp_step; pose proof (fs_MkdirAll _ _ _ _ _ Hs) as E1; [| by rwp_step; rewrite E1].
  rwp_step. rwp_step; pose proof (fs_OpenFile _ _ _ _ _ _ Hs0 _ Hne) as E2;
    [| by rwp_step; rewrite E2, E1].
  rwp_step. rwp_step. rwp_step; pose proof (fs_Flock _ _ _ _ _ Hs1) as E3.
  - rwp_step. eapply rwp_mono; [| apply Hfn; by rewrite E3, E2, E1].
    intros r w3 HQ. rwp_step. intros r4 w4 Hs4. pose proof (fs_Flock _ _ _ _ _ Hs4) as E4.
    rwp_step. rwp_step. rwp_step. intros r5 w5 Hs5. pose proof (fs_CloseFd _ _ _ _ Hs5) as E5.
    do 2 rwp_step. by rewrite E5, E4.
  - rwp_step. rwp_step. intros r5 w5 Hs5. pose proof (fs_CloseFd _ _ _ _ Hs5) as E5.
    do 2 rwp_step. by rewrite E5, E3, E2, E1.
Qed.

Lemma rwp_loadState w (Q : result IPAMState -> option string -> Prop) :
  (forall p e, Q (Err (WrapErr p e)) (file w (stateFile ipam))) ->
  (forall st m, table w = Some m -> Allocations st = Some m ->
     Q (Ok st) (file w (stateFile ipam))) ->
  rwp fs_step (loadState ipam) w (on_state Q).
Proof.
  intros Herr Hok. unfold loadState. unfold table, decode in Hok. rwp_step.
  rwp_step; destruct (fs_ReadFile _ _ _ _ Hs) as [E Hf].
  - rewrite Hf in Hok. rwp_step; rwp_step; rewrite E, Hf.
    + by apply Hok with (m := allocations a).
    + rewrite <- Hf. apply Herr.
  - rwp_step; rwp_step; rewrite E.
    + rewrite Hf in Hok |- * by done. by apply (Hok _ ∅).
    + apply Herr.
Qed.

Lemma rwp_saveState w st m (Q : result unit -> option string -> Prop) :
  Allocations st = Some m -> ascii_table m ->
  (forall p e, Q (Err (WrapErr p e)) (file w (stateFile ipam))) ->
  (forall d, decode (Some d) = Some m -> Q (Ok tt) (Some d)) ->
  rwp fs_step (saveState ipam st) w (on_state Q).
Proof.
  intros Hst Hm Herr Hok. unfold saveState. pose proof tmp_not_state as Hne.
  rwp_step. rwp_step; pose proof (fs_MkdirAll _ _ _ _ _ Hs) as E1; [| by rwp_step; rewrite E1].
  rwp_step; [| by rwp_step; rewrite E1].
  rwp_step. rwp_step; destruct (fs_WriteFile _ _ _ _ _ _ Hs0) as [E2 Hd];
    [| by rwp_step; rewrite E2, E1].
  specialize (Hd eq_refl). rwp_step.
  rwp_step; destruct (fs_Rename _ _ _ _ _ Hs1) as [_ E3]; specialize (E3 Hne); simpl in E3.
  - rwp_step. rewrite E3, Hd. apply Hok. unfold decode, fresh_state.
    destruct (Unmarshal_MarshalState st m (IPNetString (subnet ipam)) a) as [s ->]; done.
  - rwp_step. intros r2 w4 E4. do 2 rwp_step. by rewrite (fs_Remove _ _ _ _ E4), E3, E2, E1 by done.
Qed.

Lemma rwp_AllocateIP w cid m :
  table w = Some m -> ascii_table m -> ascii_text cid = true ->
  rwp fs_step (AllocateIP ipam cid) w (fun r w' =>
    (is_ok r = false -> file w' (stateFile ipam) = file w (stateFile ipam)) /\
    exists m', table w' = Some m' /\ alloc_spec base (gateway ipam) cid m r m').
Proof using Hwf.
  intros Ht Hm Hc. unfold AllocateIP. unfold table in *.
  set (f0 := file w (stateFile ipam)) in *.
  apply (rwp_withLock _ w (fun r f => (is_ok r = false -> f = f0) /\ exists m', decode f = Some m' /\
    alloc_spec base (gateway ipam) cid m r m')).
  { intros p e. fold f0. split; [done |]. eexists. split; [exact Ht | constructor]. }
  intros w1 E1. fold f0 in E1. rwp_step.
  eapply rwp_mono; [| apply (rwp_loadState w1 (fun r f => f = f0 /\
    match r with Ok st => Allocations st = Some m | Err e => exists p e', e = WrapErr p e' end))].
  2: { intros p e. split; [done | eauto]. }
  2: { intros st m0 Hm0 Hst. unfold table in Hm0. rewrite E1 in *. split; [done | congruence]. }
  intros [st | e] w2 [E2 Hst].
  2: { rwp_step. destruct Hst as (p & e' & ->). split; [done |]. rewrite E2.
       eexists. split; [exact Ht | constructor]. }
  pose proof (existing_lease_spec st m cid Hst) as Hex.
  destruct (existing_lease st cid) as [ip4|].
  { rwp_step. split; [done |]. rewrite E2. eexists. split; [exact Ht | by constructor]. }
  rewrite (wf_subnet _ _ Hwf).
  assert (allocations st = m) as Em by (unfold allocations; by rewrite Hst). rewrite Em.
  pose proof (first_free_spec ipam base m 253 2 Hwf ltac:(lia) ltac:(lia)) as Hff.
  change (Z.of_nat 253) with 253 in Hff.
  destruct (first_free _ _ _ _) as [c|].
  2: { rwp_step. split; [done |]. rewrite E2. eexists. split; [exact Ht |]. constructor; [| exact Hex].
       intros i Hi. apply Hff. lia. }
  destruct Hff as (i & Hi & -> & Hfree & Hlow).
  assert (octets (host base i)) as Ho by (apply octets_host; [apply Hwf | lia]).
  rewrite IPString_octets by done. rwp_step.
  eapply rwp_mono; [| apply (rwp_saveState w2 (set_lease st cid (dotted (host base i)))
    (<[cid := dotted (host base i)]> m) (fun r f =>
      match r with Ok _ => decode f = Some (<[cid := dotted (host base i)]> m)
                 | Err e => f = f0 /\ exists p e', e = WrapErr p e' end))].
  - intros [[]|e] w3 Hr; rwp_step.
    + split; [done |]. eexists. split; [exact Hr |]. constructor; [lia | done | | done].
      intros j Hj. apply Hlow. lia.
    + destruct Hr as (E3 & p & e' & ->). split; [done |]. rewrite E3.
      eexists. split; [exact Ht | constructor].
  - unfold set_lease. simpl. by rewrite Em.
  - apply map_Forall_insert_2; [| done]. split; [done | by apply dotted_ascii].
  - rewrite E2. eauto.
  - done.
Qed.

Lemma rwp_ReleaseIP w cid m :
  table w = Some m -> ascii_table m ->
  rwp fs_step (ReleaseIP ipam cid) w (fun r w' =>
    table w' = Some (if is_ok r then delete cid m else m) /\
    (is_ok r = false -> file w' (stateFile ipam) = file w (stateFile ipam))).
Proof using Hwf.
  intros Ht Hm. unfold ReleaseIP. unfold table in *. set (f0 := file w (stateFile ipam)) in *.
  apply (rwp_withLock _ w (fun r f => decode f = Some (if is_ok r then delete cid m else m) /\
                                      (is_ok r = false -> f = f0))).
  { intros p e. by fold f0. }
  intros w1 E1. fold f0 in E1. rwp_step.
  eapply rwp_mono; [| apply (rwp_loadState w1 (fun r f => f = f0 /\
    match r with Ok st => Allocations st = Some m | Err e => True end))].
  2: { intros p e. by split. }
  2: { intros st m0 Hm0 Hst. unfold table in Hm0. rewrite E1 in *. split; [done | congruence]. }
  intros [st | e] w2 [E2 Hst]; [| by rwp_step; rewrite E2].
  assert (allocations st = m) as Em by (unfold allocations; by rewrite Hst). rewrite Em.
  destruct (m !! cid) eqn:Hl; [| by rwp_step; rewrite E2; simpl; rewrite delete_id].
  apply (rwp_saveState w2 _ (delete cid m) (fun r f =>
    decode f = Some (if is_ok r then delete cid m else m) /\ (is_ok r = false -> f = f0)));
    [done | by apply map_Forall_delete | |].
  - intros p e. by rewrite E2.
  - intros d Hd. by split.
Qed.

(** [GetIP] does not change the state. *)
Lemma rwp_GetIP w cid m :
  table w = Some m ->
  rwp fs_step (GetIP ipam cid) w (fun r w' =>
    file w' (stateFile ipam) = file w (stateFile ipam) /\
    (r.2 = true -> exists s ip, m !! cid = Some s /\ ParseIP s = Some ip /\ r.1 = To4 ip) /\
    (r.2 = false -> r.1 = None)).
Proof using Hwf.
  intros Ht. unfold GetIP. unfold table in *. set (f0 := file w (stateFile ipam)) in *.
  rwp_step. eapply rwp_mono; [| apply (rwp_withLock _ w (fun r f => f = f0 /\
    match r with
    | Ok (o, b) => (b = true -> exists s ip, m !! cid = Some s /\ ParseIP s = Some ip /\ o = To4 ip) /\
                   (b = false -> o = None)
    | Err _ => True end))].
  - intros [[o b]|e] w' [E Hr]; by rwp_step.
  - by intros p e.
  - intros w1 E1. fold f0 in E1. rwp_step.
    eapply rwp_mono; [| apply (rwp_loadState w1 (fun r f => f = f0 /\
      match r with Ok st => Allocations st = Some m | Err e => True end))].
    + intros [st|e] w2 [E2 Hst]; [| by rwp_step].
      unfold allocations. rewrite Hst. simpl.
      rwp_steps; (split; [done |]); split; try done; eauto.
    + by intros p e.
    + intros st m0 Hm0 Hst. unfold table in Hm0. rewrite E1 in *. split; [done | congruence].
Qed.

(** ** Sequences of operations *)

Inductive ipam_op := OpAllocate (cid : string) | OpRelease (cid : string).

Definition op_ans (o : ipam_op) : Type :=
  match o with OpAllocate _ => result IP | OpRelease _ => result unit end.

Definition op_code (o : ipam_op) : io (op_ans o) :=
  match o with OpAllocate cid => AllocateIP ipam cid | OpRelease cid => ReleaseIP ipam cid end.

Definition op_id (o : ipam_op) : string :=
  match o with OpAllocate cid | OpRelease cid => cid end.

(** The invariant of the state: a readable table of distinct host addresses. *)
Definition ipam_inv (w : W) : Prop :=
  exists m, table w = Some m /\ ascii_table m /\ lease_inv base (gateway ipam) m.

Lemma host_inj i j : octets base -> host base i = host base j -> i = j.
Proof using. clear. intros (a & b & c & d & -> & _)%octets_inv. unfold host. simpl. congruence. Qed.

Lemma dotted_host_inj i j : octets base -> 0 <= i < 256 -> 0 <= j < 256 ->
  dotted (host base i) = dotted (host base j) -> i = j.
Proof using.
  clear. intros Hb Hi Hj E. apply (host_inj i j Hb). apply dotted_inj; [by apply octets_host.. | done].
Qed.

Lemma alloc_spec_inv cid m r m' :
  ascii_text cid = true -> octets base -> ascii_table m -> lease_inv base (gateway ipam) m ->
  alloc_spec base (gateway ipam) cid m r m' ->
  ascii_table m' /\ lease_inv base (gateway ipam) m'.
Proof using.
  clear. intros Hc Hb Hm [Hh Hinj] Hs. destruct Hs as [| i Hi [Hg Hfree] Hlow Hno | |];
    try (split; [done | by split]).
  split.
  - apply map_Forall_insert_2; [| done]. split; [done |]. by apply dotted_ascii, octets_host; [| lia].
  - split.
    + intros c s [(_ & <-) | (_ & Hl)]%lookup_insert_Some; [by exists i | by apply (Hh c)].
    + intros c1 c2 s [(<- & <-) | (Hn1 & H1)]%lookup_insert_Some
        [(<- & ?) | (Hn2 & H2)]%lookup_insert_Some; simplify_eq; try done.
      * by destruct (Hfree c2).
      * by destruct (Hfree c1).
      * by apply (Hinj _ _ s).
Qed.

Lemma lease_inv_delete cid m :
  lease_inv base (gateway ipam) m -> lease_inv base (gateway ipam) (delete cid m).
Proof using.
  clear. intros [Hh Hinj]. split.
  - intros c s [_ Hl]%lookup_delete_Some. by apply (Hh c).
  - intros c1 c2 s [_ H1]%lookup_delete_Some [_ H2]%lookup_delete_Some. by apply (Hinj _ _ s).
Qed.

Lemma op_inv o w a w' :
  ascii_text (op_id o) = true -> ipam_inv w -> exec fs_step (op_code o) w a w' -> ipam_inv w'.
Proof using Hwf.
  intros Hid (m & Ht & Hm & Hi) He. destruct o as [cid | cid]; simpl in *.
  - eapply rwp_exec in He; [| by apply (rwp_AllocateIP w cid m)]. destruct He as (_ & m' & Ht' & Hs).
    exists m'. split; [done |]. eapply alloc_spec_inv; [| | | | exact Hs]; try done. apply Hwf.
  - eapply rwp_exec in He; [| by apply (rwp_ReleaseIP w cid m)]. destruct He as (Ht' & _).
    exists (if is_ok a then delete cid m else m). split; [done |].
    destruct (is_ok a); [| done]. split; [by apply map_Forall_delete | by apply lease_inv_delete].
Qed.

Lemma ops_inv os w w' :
  Forall (fun o => ascii_text (op_id o) = true) os -> ipam_inv w ->
  exec_seq fs_step op_code os w w' -> ipam_inv w'.
Proof using Hwf.
  intros Hos Hw He. eapply (exec_seq_inv fs_step op_code ipam_inv); [| exact Hw | exact He].
  intros o w1 a w2 Ho Hi Hex. rewrite Forall_forall in Hos. eapply op_inv; eauto.
Qed.

Lemma inv_missing w : file w (stateFile ipam) = None -> ipam_inv w.
Proof using.
  intros E. exists ∅. unfold table. rewrite E. split; [done |]. split; [apply map_Forall_empty |].
  split; [by intros c s ?%lookup_empty_Some | by intros ?? s ?%lookup_empty_Some].
Qed.
End refinement.

(** ** The properties *)

Section properties.
Context `{IpamJSON} {W : Type} `{FileSystem W}.

(** C6: [AllocateIP] refines the abstract lease table under every behaviour of the file
    system: it returns the container's existing IPv4 lease and changes nothing, or the
    lowest-numbered free host address of .2 to .254 and records it, or an error with the
    table unchanged (the state file keeps its contents), and the error that the space is
    exhausted only when no host address is free. *)
Theorem AllocateIP_refines ipam base cid m w r w'
    (Hwf : ipam_wf ipam base) (Hm : ascii_table m) (Hc : ascii_text cid = true)
    (Ht : table ipam w = Some m) (He : exec fs_step (AllocateIP ipam cid) w r w') :
  (is_ok r = false -> file w' (stateFile ipam) = file w (stateFile ipam)) /\
  exists m', table ipam w' = Some m' /\ alloc_spec base (gateway ipam) cid m r m'.
Proof. exact (rwp_exec _ _ _ _ r w' (rwp_AllocateIP ipam base Hwf w cid m Ht Hm Hc) He). Qed.

(** No two containers ever share an address: from a missing state file, after any
    sequence of allocations and releases, whatever calls fail on the way, the table is
    readable and maps distinct containers to distinct host addresses of the subnet, from
    .2 to .254, none of them the gateway's. *)
Theorem leases_distinct ipam base os w w'
    (Hwf : ipam_wf ipam base) (Hids : Forall (fun o => ascii_text (op_id o) = true) os)
    (Hf : file w (stateFile ipam) = None) (He : exec_seq fs_step (op_code ipam) os w w') :
  exists m, table ipam w' = Some m /\
    (forall c s, m !! c = Some s ->
       exists i, 2 <= i <= 254 /\ host base i <> gateway ipam /\ s = dotted (host base i)) /\
    (forall c1 c2 s, m !! c1 = Some s -> m !! c2 = Some s -> c1 = c2).
Proof.
  destruct (ops_inv ipam base Hwf os w w' Hids (inv_missing ipam base w Hf) He) as (m & Ht & _ & Hi).
  exists m. split; [done |]. split; apply Hi.
Qed.

Lemma lease_v4 base gw m cid s :
  octets base -> lease_inv base gw m -> m !! cid = Some s ->
  exists ip4, v4_lease m cid ip4 /\ s = dotted ip4.
Proof.
  intros Hb Hi Hl. destruct (lease_host _ _ _ Hi cid s Hl) as (i & Hr & _ & ->).
  pose proof (octets_host base i Hb ltac:(lia)) as Ho.
  exists (host base i). split; [| done]. exists (dotted (host base i)), (v4InV6Prefix ++ host base i).
  split; [done |]. split; [by apply ParseIP_dotted |].
  by destruct (octets_inv _ Ho) as (a & b & c & d & -> & _).
Qed.

Lemma v4_lease_fun m cid ip1 ip2 : v4_lease m cid ip1 -> v4_lease m cid ip2 -> ip1 = ip2.
Proof. intros (s & ip & H1 & H2 & H3) (s' & ip' & H1' & H2' & H3'). congruence. Qed.

(** What a successful allocation leaves in the table. *)
Lemma alloc_spec_leased ipam base cid m ip4 m' :
  ipam_wf ipam base -> alloc_spec base (gateway ipam) cid m (Ok ip4) m' -> v4_lease m' cid ip4.
Proof.
  intros Hwf Hs. inversion Hs as [ip4' Hl | i Hi Hf Hlow Hno | |]; subst; [done |].
  pose proof (octets_host base i (wf_base _ _ Hwf) ltac:(lia)) as Ho.
  exists (dotted (host base i)), (v4InV6Prefix ++ host base i). rewrite lookup_insert_eq.
  split; [done |]. split; [by apply ParseIP_dotted |].
  by destruct (octets_inv _ Ho) as (a & b & c & d & -> & _).
Qed.

(** Operations on other containers keep a lease. *)
Lemma ops_keep_lease ipam base os w w' cid ip4 (Hwf : ipam_wf ipam base) :
  Forall (fun o => ascii_text (op_id o) = true /\ op_id o <> cid) os ->
  ipam_inv ipam base w -> (exists m, table ipam w = Some m /\ v4_lease m cid ip4) ->
  exec_seq fs_step (op_code ipam) os w w' ->
  exists m, table ipam w' = Some m /\ v4_lease m cid ip4.
Proof.
  intros Hos Hi Hl He. rewrite Forall_forall in Hos.
  enough (ipam_inv ipam base w' /\ exists m, table ipam w' = Some m /\ v4_lease m cid ip4) by tauto.
  eapply (exec_seq_inv fs_step (op_code ipam) (fun w => ipam_inv ipam base w /\
    exists m, table ipam w = Some m /\ v4_lease m cid ip4)); [| by split | exact He].
  intros o w1 a w2 Ho [Hi1 (m & Ht & Hlm)] Hex. destruct (Hos o Ho) as [Hid Hne].
  split; [by eapply op_inv |]. destruct Hi1 as (m1 & Ht1 & Hm1 & _). assert (m1 = m) as -> by congruence.
  destruct o as [c | c]; simpl in *.
  - eapply rwp_exec in Hex; [| by apply (rwp_AllocateIP ipam base Hwf w1 c m)].
    destruct Hex as (_ & m' & Ht' & Hs). exists m'. split; [done |].
    unfold v4_lease in *. destruct Hs; try done. rewrite lookup_insert_ne by done. done.
  - eapply rwp_exec in Hex; [| by apply (rwp_ReleaseIP ipam base Hwf w1 c m)].
    destruct Hex as (Ht' & _). eexists. split; [exact Ht' |]. destruct (is_ok a); [| done].
    unfold v4_lease in *. by rewrite lookup_delete_ne.
Qed.

(** A lease is stable: after a successful [AllocateIP], any operations on other
    containers leave the address the container's: a later [GetIP] that finds a lease and
    a later [AllocateIP] that succeeds both return the same address. *)
Theorem lease_stable ipam base os cid ip w w1 w2
    (Hwf : ipam_wf ipam base) (Hi : ipam_inv ipam base w) (Hc : ascii_text cid = true)
    (Hos : Forall (fun o => ascii_text (op_id o) = true /\ op_id o <> cid) os)
    (Ha : exec fs_step (AllocateIP ipam cid) w (Ok ip) w1)
    (Hs : exec_seq fs_step (op_code ipam) os w1 w2) :
  (forall ip' w3, exec fs_step (AllocateIP ipam cid) w2 (Ok ip') w3 -> ip' = ip) /\
  (forall o w3, exec fs_step (GetIP ipam cid) w2 (o, true) w3 -> o = Some ip).
Proof.
  assert (ipam_inv ipam base w1) as Hi1 by (by apply (op_inv ipam base Hwf (OpAllocate cid) w (Ok ip))).
  assert (exists m, table ipam w1 = Some m /\ v4_lease m cid ip) as Hl1.
  { destruct Hi as (m & Ht & Hm & _). eapply rwp_exec in Ha; [| by apply (rwp_AllocateIP ipam base Hwf w cid m)].
    destruct Ha as (_ & m' & Ht' & Hsp). exists m'. split; [done |]. by eapply alloc_spec_leased. }
  pose proof (ops_keep_lease ipam base os w1 w2 cid ip Hwf Hos Hi1 Hl1 Hs) as (m2 & Ht2 & Hl2).
  assert (ipam_inv ipam base w2) as (m & Ht & Hm & _).
  { eapply ops_inv; [done | | exact Hi1 | exact Hs]. eapply Forall_impl; [exact Hos |]. by intros o []. }
  assert (m = m2) as -> by congruence. split.
  - intros ip' w3 He. eapply rwp_exec in He; [| by apply (rwp_AllocateIP ipam base Hwf w2 cid m2)].
    destruct He as (_ & m' & _ & Hsp). inversion Hsp; subst.
    + by eapply v4_lease_fun.
    + naive_solver.
  - intros o w3 He. eapply rwp_exec in He; [| by apply (rwp_GetIP ipam base Hwf w2 cid m2)].
    destruct He as (_ & (s & ip' & H1 & H2 & H3) & _); [done |]. simpl in H3. rewrite H3.
    destruct Hl2 as (s' & ip'' & H1' & H2' & H3'). congruence.
Qed.

(** *** How many leases fit *)

Lemma NoDup_hosts base : octets base -> NoDup ((fun i => dotted (host base i)) <$> seqZ 2 253).
Proof using.
  clear. intros Hb. apply NoDup_fmap_2_strong; [| apply NoDup_seqZ].
  intros i j Hi%elem_of_seqZ Hj%elem_of_seqZ. apply dotted_host_inj; [done | lia | lia].
Qed.

(** Leases are distinct host addresses, so at most 253 of them fit. *)
Lemma leases_fit base gw m : octets base -> lease_inv base gw m -> (size m <= 253)%nat.
Proof using.
  clear. intros Hb [Hh Hinj].
  assert ((map_to_list m).*2 ⊆+ ((fun i => dotted (host base i)) <$> seqZ 2 253)) as Hsub%submseteq_length.
  { apply NoDup_submseteq.
    - apply NoDup_fmap_2_strong; [| apply NoDup_map_to_list].
      intros [c1 s1] [c2 s2] H1%elem_of_map_to_list H2%elem_of_map_to_list E. simpl in E. subst s2.
      by rewrite (Hinj c1 c2 s1).
    - intros s ([c s'] & -> & Hin%elem_of_map_to_list)%list_elem_of_fmap.
      destruct (Hh _ _ Hin) as (i & Hi & _ & E). cbn [snd]. rewrite E.
      apply list_elem_of_fmap. exists i. split; [done |]. apply elem_of_seqZ. lia. }
  rewrite !length_fmap, length_seqZ, length_map_to_list in Hsub. lia.
Qed.

(** Without a free host address, 253 are leased. *)
Lemma full_table base m :
  octets base -> (forall i, 2 <= i <= 254 -> ~ lease_free base (host base 1) m i) -> (253 <= size m)%nat.
Proof using.
  clear. intros Hb Hfull.
  assert (((fun i => dotted (host base i)) <$> seqZ 2 253) ⊆+ (map_to_list m).*2) as Hsub%submseteq_length.
  { apply NoDup_submseteq; [by apply NoDup_hosts |].
    intros s (i & -> & Hi%elem_of_seqZ)%list_elem_of_fmap.
    destruct (is_used m (dotted (host base i))) eqn:Hu; [by apply bool_decide_eq_true in Hu |].
    exfalso. apply (Hfull i); [lia |]. split.
    - intros E%host_inj; [lia | done].
    - intros c Hl. assert (is_used m (dotted (host base i)) = true) by (apply is_used_spec; eauto). congruence. }
  rewrite !length_fmap, length_seqZ, length_map_to_list in Hsub. lia.
Qed.

(** C33: Capacity: at most 253 containers ever hold a lease (with the gateway at .1, as
    [NewIPAM] sets it), and [AllocateIP] uses all of it: it says that the address space is
    exhausted only for a container without a lease when 253 others have one, and then it
    never gives one; it gives a container a first lease only while there are fewer. *)
Theorem AllocateIP_capacity ipam base cid m w r w'
    (Hwf : ipam_wf ipam base) (Hgw : gateway ipam = host base 1)
    (Hm : ascii_table m) (Hinv : lease_inv base (gateway ipam) m) (Hc : ascii_text cid = true)
    (Ht : table ipam w = Some m) (He : exec fs_step (AllocateIP ipam cid) w r w') :
  (size m <= 253)%nat /\
  (r = Err exhausted -> size m = 253%nat /\ m !! cid = None) /\
  (forall ip, r = Ok ip -> m !! cid = None -> (size m < 253)%nat).
Proof.
  pose proof (wf_base _ _ Hwf) as Hb. pose proof (leases_fit _ _ _ Hb Hinv) as Hfit. split; [done |].
  eapply rwp_exec in He; [| by apply (rwp_AllocateIP ipam base Hwf w cid m)].
  destruct He as (_ & m' & _ & Hs). split.
  - intros ->. inversion Hs as [| | Hfull Hno |]; subst. rewrite Hgw in Hfull.
    apply (full_table base m' Hb) in Hfull. split; [lia |].
    destruct (m' !! cid) as [s|] eqn:El; [| done]. exfalso.
    destruct (lease_host _ _ _ Hinv _ _ El) as (i & Hi & _ & ->).
    pose proof (octets_host base i Hb ltac:(lia)) as Ho. destruct (octets_inv _ Ho) as (x1 & x2 & x3 & x4 & Eh & _).
    eapply (Hno (host base i)). eexists _, _. split; [exact El |]. split; [by apply ParseIP_dotted | by rewrite Eh].
  - intros ip -> Hnone. pose proof (alloc_spec_inv _ _ _ _ _ _ Hc Hb Hm Hinv Hs) as [_ Hinv'%(leases_fit _ _ _ Hb)].
    inversion Hs as [ip4 (s & ip' & Hl & _) | i Hi Hf Hlow Hno | |]; subst; [congruence |].
    rewrite map_size_insert_None in Hinv' by done. lia.
Qed.
End properties.

(** ** The lock discipline *)

(** The descriptor of the lock file while it is open, whether the lock is held, and
    whether every access to the files so far was made under it. *)
Record lock_state := { lk_fd : option Z; lk_held : bool; lk_ok : bool }.

Definition lock_mon (s : lock_state) (c : os) (r : ans c) : lock_state :=
  match c return osans c -> lock_state with
  | OpenFile _ _ _ => fun r => match r with
      | Ok fd => {| lk_fd := Some fd; lk_held := lk_held s; lk_ok := lk_ok s && bool_decide (lk_fd s = None) |}
      | Err _ => s end
  | Flock fd op => fun r => match r with
      | Ok _ => {| lk_fd := lk_fd s; lk_held := op =? LOCK_EX;
                   lk_ok := lk_ok s && bool_decide (lk_fd s = Some fd) |}
      | Err _ => {| lk_fd := lk_fd s; lk_held := lk_held s && negb (op =? LOCK_UN);
                    lk_ok := lk_ok s && bool_decide (lk_fd s = Some fd) |} end
  | CloseFd fd => fun _ =>
      {| lk_fd := None; lk_held := lk_held s;
         lk_ok := lk_ok s && bool_decide (lk_fd s = Some fd) && negb (lk_held s) |}
  | ReadFile _ | WriteFile _ _ _ | Rename _ _ | Remove _ => fun _ =>
      {| lk_fd := lk_fd s; lk_held := lk_held s; lk_ok := lk_ok s && lk_held s |}
  | _ => fun _ => s
  end r.

Definition unlocked : lock_state := {| lk_fd := None; lk_held := false; lk_ok := true |}.

Definition holding (fd : Z) : lock_state := {| lk_fd := Some fd; lk_held := true; lk_ok := true |}.

Ltac lock_steps :=
  wp_steps; cbn [lock_mon unlocked holding lk_fd lk_held lk_ok negb andb Z.eqb Pos.eqb LOCK_EX LOCK_UN];
  rewrite ?bool_decide_eq_true_2 by done; reflexivity.

Section lock.
Context `{IpamJSON} (ipam : IPAM).

(** Code that only runs under the lock keeps it. *)
Definition keeps_lock {A} (p : io A) : Prop :=
  forall fd, wp lock_mon p (holding fd) (fun s _ => s = holding fd).

Lemma keeps_bind {A B} (f : A -> io B) p :
  keeps_lock p -> (forall a, keeps_lock (f a)) -> keeps_lock (mbind f p).
Proof.
  intros Hp Hf fd. apply wp_bind. eapply wp_mono; [| apply Hp]. intros s a ->. apply Hf.
Qed.

Lemma keeps_ret {A} (a : A) : keeps_lock (mret a).
Proof. done. Qed.

Lemma keeps_loadState : keeps_lock (loadState ipam).
Proof. intros fd. unfold loadState. lock_steps. Qed.

Lemma keeps_saveState st : keeps_lock (saveState ipam st).
Proof. intros fd. unfold saveState. lock_steps. Qed.

Lemma withLock_releases {A} (fn : io (result A)) :
  keeps_lock fn -> wp lock_mon (withLock ipam fn) unlocked (fun s _ => s = unlocked).
Proof.
  intros Hfn. unfold withLock.
  wp_step. wp_step; [| by wp_step]. wp_step. wp_step; [| by wp_step].
  wp_step. wp_step. wp_step; [| lock_steps].
  wp_step. eapply wp_mono; [| cbn; rewrite !bool_decide_eq_true_2 by done; apply Hfn].
  intros s r ->. lock_steps.
Qed.
End lock.

#[export] Hint Resolve keeps_bind keeps_ret keeps_loadState keeps_saveState : gojail.

(** C22: Every read, write and rename of the state file that an operation makes, on every
    path and whatever the system answers, happens while the operation holds the file
    lock; the operation then releases the lock and closes the lock file exactly once. *)
Theorem ipam_operations_locked `{IpamJSON} ipam cid :
  (forall tr r, ends (AllocateIP ipam cid) tr r -> mon_trace lock_mon unlocked tr = unlocked) /\
  (forall tr r, ends (ReleaseIP ipam cid) tr r -> mon_trace lock_mon unlocked tr = unlocked) /\
  (forall tr r, ends (GetIP ipam cid) tr r -> mon_trace lock_mon unlocked tr = unlocked).
Proof.
  split; [| split]; intros tr r; apply (wp_ends lock_mon _ _ (fun s _ => s = unlocked));
    [| | apply wp_bind; eapply (wp_mono _ _ _ (fun s _ => s = unlocked)); [by intros s [x|e] -> |]];
    apply withLock_releases;
    (apply keeps_bind; [apply keeps_loadState | intros [st|e]; [| apply keeps_ret]]);
    repeat case_match; auto with gojail.
  apply keeps_bind; [apply keeps_saveState |]. intros [[]|e]; apply keeps_ret.
Qed.

(** ** Concrete runs *)

(** A JSON instance for concrete runs: a text is its characters, each after a mark, and
    a final dot; a table is its entries, each after a mark. *)
Fixpoint put_text (s rest : string) : string :=
  match s with "" => String "." rest | String c s => String "x" (String c (put_text s rest)) end.

Fixpoint get_text (s : string) : string * string :=
  match s with
  | String "x" (String c s) => let '(t, rest) := get_text s in (String c t, rest)
  | String _ rest => ("", rest)
  | "" => ("", "")
  end.

Fixpoint put_table (l : list (string * string)) : string :=
  match l with [] => "" | (k, v) :: l => String "e" (put_text k (put_text v (put_table l))) end.

Fixpoint get_table (fuel : nat) (s : string) : list (string * string) :=
  match fuel, s with
  | S fuel, String _ s =>
      let '(k, s) := get_text s in let '(v, s) := get_text s in (k, v) :: get_table fuel s
  | _, _ => []
  end.

Lemma get_put_text s rest : get_text (put_text s rest) = (s, rest).
Proof. induction s as [|c s IH]; simpl; [done | by rewrite IH]. Qed.

Lemma length_put_text s rest : (String.length rest < String.length (put_text s rest))%nat.
Proof. induction s as [|c s IH]; simpl; lia. Qed.

Lemma get_put_table l fuel :
  (String.length (put_table l) <= fuel)%nat -> get_table fuel (put_table l) = l.
Proof.
  revert fuel. induction l as [|[k v] l IH]; intros fuel Hf; [by destruct fuel |].
  simpl in Hf. destruct fuel as [|fuel]; [lia |].
  pose proof (length_put_text k (put_text v (put_table l))).
  pose proof (length_put_text v (put_table l)).
  simpl. rewrite !get_put_text. f_equal. apply IH. lia.
Qed.

Definition plain_ipam_json : IpamJSON.
Proof.
  refine {| MarshalState := fun st => Ok (put_text (Subnet st) (put_table (map_to_list (allocations st))));
            UnmarshalState := fun d _ =>
              let '(s, t) := get_text d in
              Ok {| Subnet := s; Allocations := Some (list_to_map (get_table (String.length t) t)) |} |}.
  intros st m s0 d Hst _ [= <-]. exists (Subnet st).
  rewrite get_put_text, get_put_table by done. unfold allocations. rewrite Hst. simpl.
  by rewrite list_to_map_to_list.
Defined.

Definition demo_ipam : IPAM := {|
  stateFile := DefaultStateFile; lockFile := DefaultLockFile;
  subnet := {| net_IP := [10; 200; 0; 0]; net_Mask := [255; 255; 255; 0] |};
  gateway := [10; 200; 0; 1] |}.

Lemma demo_wf : ipam_wf demo_ipam [10; 200; 0; 0].
Proof. by apply default_wf. Qed.

#[local] Existing Instance plain_ipam_json.

(** The world after [gojail-1] and [gojail-2] have leases, and after one more. *)
Definition demo_w0 : gmap string string := ∅.
Definition demo_w1 := Eval vm_compute in final memfs (AllocateIP demo_ipam "gojail-1") demo_w0.
Definition demo_w2 := Eval vm_compute in final memfs (AllocateIP demo_ipam "gojail-2") demo_w1.

Lemma demo_exec {A} (p : io A) w a w' :
  res memfs p w = a -> final memfs p w = w' -> exec (W := gmap string string) fs_step p w a w'.
Proof. intros <- <-. apply exec_run. intros c v. apply memfs_step. Qed.

Lemma demo_run1 :
  exec fs_step (AllocateIP demo_ipam "gojail-1") demo_w0 (Ok [10; 200; 0; 2]) demo_w1.
Proof. apply demo_exec; vm_compute; reflexivity. Qed.

Lemma demo_run2 :
  exec fs_step (AllocateIP demo_ipam "gojail-2") demo_w1 (Ok [10; 200; 0; 3]) demo_w2.
Proof. apply demo_exec; vm_compute; reflexivity. Qed.

Lemma demo_seq2 : exec_seq fs_step (op_code demo_ipam) [OpAllocate "gojail-2"] demo_w1 demo_w2.
Proof. eapply exec_cons; [exact demo_run2 | constructor]. Qed.

Lemma demo_seq : exec_seq fs_step (op_code demo_ipam)
  [OpAllocate "gojail-1"; OpAllocate "gojail-2"] demo_w0 demo_w2.
Proof. eapply exec_cons; [exact demo_run1 | exact demo_seq2]. Qed.

Lemma AllocateIP_refines_witness :
  exists m', table demo_ipam demo_w1 = Some m' /\
    alloc_spec [10; 200; 0; 0] [10; 200; 0; 1] "gojail-1" ∅ (Ok [10; 200; 0; 2]) m'.
Proof.
  apply (AllocateIP_refines demo_ipam [10; 200; 0; 0] "gojail-1" ∅ demo_w0 (Ok [10; 200; 0; 2]) demo_w1
    demo_wf).
  - apply map_Forall_empty.
  - reflexivity.
  - reflexivity.
  - exact demo_run1.
Defined.

Lemma leases_distinct_witness :
  exists m, table demo_ipam demo_w2 = Some m /\
    (forall c s, m !! c = Some s -> exists i, 2 <= i <= 254 /\
       host [10; 200; 0; 0] i <> gateway demo_ipam /\ s = dotted (host [10; 200; 0; 0] i)) /\
    (forall c1 c2 s, m !! c1 = Some s -> m !! c2 = Some s -> c1 = c2).
Proof.
  apply (leases_distinct demo_ipam [10; 200; 0; 0] [OpAllocate "gojail-1"; OpAllocate "gojail-2"]
           demo_w0 demo_w2 demo_wf).
  - repeat constructor.
  - reflexivity.
  - exact demo_seq.
Defined.

Lemma lease_stable_witness :
  (forall ip' w3, exec fs_step (AllocateIP demo_ipam "gojail-1") demo_w2 (Ok ip') w3 ->
     ip' = [10; 200; 0; 2]) /\
  (forall o w3, exec fs_step (GetIP demo_ipam "gojail-1") demo_w2 (o, true) w3 ->
     o = Some [10; 200; 0; 2]).
Proof.
  apply (lease_stable demo_ipam [10; 200; 0; 0] [OpAllocate "gojail-2"] "gojail-1" [10; 200; 0; 2]
           demo_w0 demo_w1 demo_w2 demo_wf).
  - apply inv_missing. reflexivity.
  - reflexivity.
  - repeat constructor. discriminate.
  - exact demo_run1.
  - exact demo_seq2.
Defined.

(** A world in which every host address is leased. *)
Definition full_m : gmap string string :=
  list_to_map (map (fun i => ("c" +:+ Itoa i, dotted (host [10; 200; 0; 0] i))) (seqZ 2 253)).
Definition full_w : gmap string string :=
  {[ DefaultStateFile := put_text "10.200.0.0/24" (put_table (map_to_list full_m)) ]}.

Lemma full_table_read : table demo_ipam full_w = Some full_m.
Proof.
  assert (file full_w (stateFile demo_ipam) =
          Some (put_text "10.200.0.0/24" (put_table (map_to_list full_m)))) as E by apply lookup_singleton_eq.
  unfold table. rewrite E. unfold decode. cbn [UnmarshalState plain_ipam_json]. rewrite get_put_text, get_put_table by done.
  cbn. by rewrite list_to_map_to_list.
Qed.

Lemma full_inv : lease_inv [10; 200; 0; 0] [10; 200; 0; 1] full_m.
Proof.
  assert (octets [10; 200; 0; 0]) as Hb by (split; [done | repeat constructor; done]).
  assert (forall c s, full_m !! c = Some s -> exists i, 2 <= i <= 254 /\ c = "c" +:+ Itoa i /\
            s = dotted (host [10; 200; 0; 0] i)) as Hin.
  { intros c s Hl%elem_of_list_to_map_2. apply list_elem_of_In, in_map_iff in Hl as (i & [= <- <-] & Hi).
    exists i. split; [| done]. apply list_elem_of_In, elem_of_seqZ in Hi. lia. }
  split.
  - intros c s (i & Hi & _ & ->)%Hin. exists i. split; [done |]. split; [| done]. unfold host. simpl. intros [= E]. lia.
  - intros c1 c2 s (i & Hi & -> & ->)%Hin (j & Hj & -> & E)%Hin.
    by rewrite (dotted_host_inj [10; 200; 0; 0] i j Hb ltac:(lia) ltac:(lia) E).
Qed.

Lemma AllocateIP_capacity_witness :
  size full_m = 253%nat /\ full_m !! "gojail-1" = None /\
  forall ip, res memfs (AllocateIP demo_ipam "gojail-1") full_w <> Ok ip.
Proof.
  assert (size full_m = 253%nat) as Hsize by (vm_compute; reflexivity).
  assert (full_m !! "gojail-1" = None) as Hnone by (vm_compute; reflexivity).
  split; [exact Hsize |]. split; [exact Hnone |]. intros ip Hok.
  destruct (AllocateIP_capacity demo_ipam [10; 200; 0; 0] "gojail-1" full_m full_w
    (res memfs (AllocateIP demo_ipam "gojail-1") full_w) (final memfs (AllocateIP demo_ipam "gojail-1") full_w) demo_wf)
    as (_ & _ & Hroom).
  - reflexivity.
  - apply (bool_decide_eq_true_1 (ascii_table full_m)). vm_compute. reflexivity.
  - exact full_inv.
  - reflexivity.
  - exact full_table_read.
  - exact (demo_exec (AllocateIP demo_ipam "gojail-1") full_w _ _ eq_refl eq_refl).
  - pose proof (Hroom ip Hok Hnone) as Hlt. rewrite Hsize in Hlt. lia.
Defined.

Lemma ipam_operations_locked_witness :
  mon_trace lock_mon unlocked (trace memfs (AllocateIP demo_ipam "gojail-3") demo_w2) = unlocked.
Proof.
  apply (ipam_operations_locked demo_ipam "gojail-3") with
    (r := res memfs (AllocateIP demo_ipam "gojail-3") demo_w2). apply run_ends.
Defined.

(** A stored IPv6 lease makes [GetIP] return nil with [true]. *)
Definition v6_world : gmap string string :=
  match MarshalState {| Subnet := ""; Allocations := Some {[ "c" := "fe80::1" ]} |} with
  | Ok d => {[ DefaultStateFile := d ]}
  | Err _ => ∅
  end.

Example GetIP_nil_true : res memfs (GetIP demo_ipam "c") v6_world = (None, true).
Proof. vm_compute. reflexivity. Qed.
(** For a prefix longer than /24 the gateway and the candidates are outside the subnet. *)
Example NewIPAM_gateway_outside :
  exists ipam, NewIPAM "10.0.0.128/25" = Ok ipam /\ net_IP (subnet ipam) = [10; 0; 0; 128] /\
    net_Mask (subnet ipam) = [255; 255; 255; 128] /\ gateway ipam = [10; 0; 0; 1] /\
    candidate [10; 0; 0; 128] 2 = [10; 0; 0; 2].
Proof. eexists. repeat split. Qed.
