(* ===== verification/IpamThreads.v ===== *)
(** * The allocator under concurrency (src/pkg/network/ipam.go)

    Operations of the allocator by several goroutines and processes at once: they take
    turns at every system call, over one file system and one advisory lock.  The
    in-memory mutex of [withLock] only forbids some of these interleavings.  Each
    operation is for a container of its own, as in the daemon, where the container is the
    worker of one request. *)

From stdpp Require Import relations.
From S2P Require Import Prelude GoStrings GoPath GoNet Effects OS FS Ipam.
#[local] Open Scope go_scope.

Section threads.
Context `{IpamJSON} {W : Type} `{FileSystem W}.
Variables (ipam : IPAM) (base : IP).

(** The file system and the holder of the lock: a goroutine, with its descriptor. *)
Record locked_fs := { lf_fs : W; lf_owner : option (nat * Z) }.

(** Letting go of what one holds. *)
Definition unown (k : nat * Z) (o : option (nat * Z)) : option (nat * Z) :=
  if decide (o = Some k) then None else o.

(** Goroutine [i]'s call: the exclusive lock is granted when nobody else has it, and goes
    when it is let go of or the descriptor is closed; a shared lock gives nothing.  Every call may fail. *)
Definition lf_step (i : nat) (w : locked_fs) (c : os) (r : ans c) (w' : locked_fs) : Prop :=
  fs_step (lf_fs w) c r (lf_fs w') /\
  match c return osans c -> Prop with
  | Flock fd op => fun r =>
      match r with
      | Ok _ =>
          if exclusive op
          then (lf_owner w = None \/ lf_owner w = Some (i, fd)) /\ lf_owner w' = Some (i, fd)
          else lf_owner w' = unown (i, fd) (lf_owner w)
      | Err _ => lf_owner w' = lf_owner w
      end
  | CloseFd fd => fun _ => lf_owner w' = unown (i, fd) (lf_owner w)
  | _ => fun _ => lf_owner w' = lf_owner w
  end r.

(** A goroutine's operation, with the address if it asked for one. *)
Definition op_thread (o : ipam_op) : io (result (option IP)) :=
  match o with
  | OpAllocate cid =>
      r ← AllocateIP ipam cid; mret (match r with Ok ip => Ok (Some ip) | Err e => Err e end)
  | OpRelease cid =>
      r ← ReleaseIP ipam cid; mret (match r with Ok _ => Ok None | Err e => Err e end)
  end.

Context (Hwf : ipam_wf ipam base).
Variable ops : list ipam_op.
Hypothesis Hascii : Forall (fun o => ascii_text (op_id o) = true) ops.
Hypothesis Hdistinct : NoDup (op_id <$> ops).

Definition contents (w : locked_fs) : option string := file (lf_fs w) (stateFile ipam).
Definition staged (w : locked_fs) : option string := file (lf_fs w) (tmpFile ipam).

(** A container's lease, by the state file. *)
Definition lease_in (f : option string) (cid : string) : option string := decode ipam f ≫= (.!! cid).

(** A state file that holds a readable table of distinct host addresses. *)
Definition good (f : option string) : Prop :=
  exists m, decode ipam f = Some m /\ ascii_table m /\ lease_inv base (gateway ipam) m.

(** What the others do while a goroutine does not run: they leave a good state file good,
    and the leases of the containers that are not theirs as they are; they leave the lock
    and the files alone while it has the lock. *)
Record elsewhere (i : nat) (w w' : locked_fs) : Prop := {
  el_good : good (contents w) -> good (contents w');
  el_lease cid : (forall j o, ops !! j = Some o -> op_id o = cid -> j = i) -> good (contents w) ->
    lease_in (contents w') cid = lease_in (contents w) cid;
  el_lock fd : lf_owner w = Some (i, fd) ->
    lf_owner w' = Some (i, fd) /\ contents w' = contents w /\ staged w' = staged w;
}.

Lemma elsewhere_refl i w : elsewhere i w w.
Proof using. by split. Qed.

Lemma elsewhere_trans i w1 w2 w3 : elsewhere i w1 w2 -> elsewhere i w2 w3 -> elsewhere i w1 w3.
Proof using.
  intros [G1 L1 O1] [G2 L2 O2]. split; [auto | |].
  - intros cid Hc Hg. rewrite L2; auto.
  - intros fd Hfd. destruct (O1 fd Hfd) as (Ho & Hc & Hs). destruct (O2 fd Ho) as (Ho2 & Hc2 & Hs2).
    split; [done |]. split; congruence.
Qed.

Abbreviation safe := (tsafe lf_step elsewhere).

(** A call of [i] that leaves the state file alone disturbs nobody, if it also leaves the
    staged file and the lock of somebody else alone. *)
Lemma guar_kept i w w' :
  contents w' = contents w ->
  (forall j fd, j <> i -> lf_owner w = Some (j, fd) -> lf_owner w' = Some (j, fd) /\ staged w' = staged w) ->
  guar elsewhere i w w'.
Proof using.
  intros E Hl j Hj. split; [by rewrite E | intros o _ _; by rewrite E |].
  intros fd Hfd. destruct (Hl j fd Hj Hfd). by rewrite E.
Qed.

(** [i] has the lock, and the state file has the contents [f]. *)
Record inside (i : nat) (fd : Z) (f : option string) (w : locked_fs) : Prop := {
  in_good : good f;
  in_lock : lf_owner w = Some (i, fd);
  in_file : contents w = f;
}.

Lemma inside_stable i fd f w w' : elsewhere i w w' -> inside i fd f w -> inside i fd f w'.
Proof using.
  intros [_ _ Ho] [Hg Hl Hf]. destruct (Ho fd Hl) as (Hl' & Hc & _). split; congruence.
Qed.

(** In the critical section, a call that changes neither the state file nor the lock. *)
Lemma guar_inside i fd f w w' :
  inside i fd f w -> contents w' = contents w -> lf_owner w' = lf_owner w ->
  guar elsewhere i w w' /\ inside i fd f w'.
Proof using.
  intros [Hg Hl Hf] E Eo. split; [| split; congruence].
  apply guar_kept; [done |]. intros j fd' Hj Hfd'. congruence.
Qed.

Lemma safe_sys {B} i (c : os) (k : ans c -> io B) w Q :
  (forall w1, elsewhere i w w1 -> forall r w2, lf_step i w1 c r w2 ->
     guar elsewhere i w1 w2 /\ safe i (k r) w2 Q) ->
  safe i (mbind k (sys c)) w Q.
Proof using. exact id. Qed.

(** A call inside that is known to keep the state file. *)
Lemma safe_inside {B} i fd f (c : os) (k : ans c -> io B) w Q :
  inside i fd f w ->
  match (c : oscall) with Flock _ _ | CloseFd _ => False | _ => True end ->
  (forall v r v', fs_step v c r v' -> file v' (stateFile ipam) = file v (stateFile ipam)) ->
  (forall w1 r w2, inside i fd f w1 -> inside i fd f w2 -> fs_step (lf_fs w1) c r (lf_fs w2) -> safe i (k r) w2 Q) ->
  safe i (mbind k (sys c)) w Q.
Proof using.
  intros Hin Hc Hkeep Hk. apply safe_sys. intros w1 Hw r w2 [Hs Ho].
  apply (inside_stable _ _ _ _ _ Hw) in Hin. assert (lf_owner w2 = lf_owner w1) as Eo by by destruct c.
  destruct (guar_inside i fd f w1 w2 Hin (Hkeep _ _ _ Hs) Eo) as [Hg Hin2]. split; [done |].
  by apply (Hk w1).
Qed.

(** ** The parts of an operation *)

Lemma load_safe i fd f w m (Q : result IPAMState -> locked_fs -> Prop) :
  inside i fd f w -> decode ipam f = Some m ->
  (forall w' p e, inside i fd f w' -> Q (Err (WrapErr p e)) w') ->
  (forall w' st, inside i fd f w' -> Allocations st = Some m -> Q (Ok st) w') ->
  safe i (loadState ipam) w Q.
Proof using.
  intros Hin Hm Herr Hok. unfold loadState. cbv zeta. apply (safe_inside i fd f); [done | done | |].
  { intros v r v' Hs. by apply fs_ReadFile in Hs as [-> _]. }
  clear w Hin. intros w r w2 Hin Hin2 Hs. apply fs_ReadFile in Hs as [_ Hr]. unfold decode in Hm.
  destruct r as [d|e].
  - fold (contents w) in Hr. rewrite (in_file _ _ _ _ Hin) in Hr. rewrite Hr in Hm.
    destruct (UnmarshalState d (fresh_state ipam)) as [st|e]; [| done]. apply Hok; [done |]. simpl. congruence.
  - destruct (IsNotExist e) eqn:E; [| by apply Herr]. specialize (Hr eq_refl).
    fold (contents w) in Hr. rewrite (in_file _ _ _ _ Hin) in Hr. rewrite Hr in Hm. by apply Hok.
Qed.

(** A new table is put in place in one step, and differs for one container only. *)
Lemma rename_guar i fd f w w' o m m' d :
  inside i fd f w -> decode ipam f = Some m -> ops !! i = Some o ->
  decode ipam (Some d) = Some m' -> (forall cid, cid <> op_id o -> m' !! cid = m !! cid) ->
  good (Some d) -> contents w' = Some d -> guar elsewhere i w w'.
Proof using.
  intros [Hg Hl Hf] Hm Ho Hd Hrest Hgood E j Hj. split.
  - intros _. by rewrite E.
  - intros cid Hc _. rewrite E, Hf. unfold lease_in. rewrite Hd, Hm. simpl. apply Hrest. intros ->.
    by specialize (Hc i o Ho eq_refl).
  - intros fd' Hfd'. congruence.
Qed.

Lemma save_safe i fd f w o m m' st (Q : result unit -> locked_fs -> Prop) :
  inside i fd f w -> decode ipam f = Some m -> ops !! i = Some o ->
  Allocations st = Some m' -> (forall cid, cid <> op_id o -> m' !! cid = m !! cid) ->
  ascii_table m' -> lease_inv base (gateway ipam) m' ->
  (forall w' p e, inside i fd f w' -> Q (Err (WrapErr p e)) w') ->
  (forall w' d, inside i fd (Some d) w' -> decode ipam (Some d) = Some m' -> Q (Ok tt) w') ->
  safe i (saveState ipam st) w Q.
Proof using.
  intros Hin Hm Ho Hst Hrest Ha Hi Herr Hok. unfold saveState. pose proof (tmp_not_state ipam) as Hne.
  apply (safe_inside i fd f); [done | done | intros v r v' Hs; by apply (fs_MkdirAll _ _ _ _ _ Hs) |].
  clear w Hin. intros w0 [[]|e] w _ Hin _; [| by apply Herr]. clear w0.
  destruct (MarshalState st) as [d|e] eqn:Hd; [| by apply Herr].
  destruct (Unmarshal_MarshalState st m' (IPNetString (subnet ipam)) d Hst Ha Hd) as [s Hun].
  assert (decode ipam (Some d) = Some m') as Hdec by (unfold decode, fresh_state; by rewrite Hun).
  apply (safe_inside i fd f); [done | done | |].
  { intros v r v' Hs. apply fs_WriteFile in Hs as [Hk _]. by apply Hk. }
  clear w Hin. intros w0 [[]|e] w _ Hin Hs; [| by apply Herr].
  apply fs_WriteFile in Hs as [_ Hw]. specialize (Hw eq_refl). fold (staged w) in Hw. clear w0.
  apply safe_sys. intros w1 Hels r w2 [Hs Hown]. assert (staged w1 = Some d) as Hstage.
  { destruct (el_lock _ _ _ Hels fd (in_lock _ _ _ _ Hin)) as (_ & _ & ->). done. }
  apply (inside_stable _ _ _ _ _ Hels) in Hin. apply fs_Rename in Hs as [_ Hren]. specialize (Hren Hne).
  fold (contents w2) in Hren. fold (contents w1) in Hren. destruct r as [[]|e]; simpl in Hren.
  - fold (staged w1) in Hren. rewrite Hstage in Hren.
    assert (good (Some d)) as Hg by by exists m'. split; [by apply (rename_guar i fd f w1 w2 o m m' d) |].
    apply (Hok _ d); [| done]. split; [done | | done]. rewrite Hown. apply Hin.
  - destruct (guar_inside i fd f w1 w2 Hin Hren Hown) as [Hg Hin2]. split; [done |].
    apply (safe_inside i fd f); [done | done | intros v r v' Hs; by apply (fs_Remove _ _ _ _ Hs) |].
    intros w3 r w4 _ Hin4 _. by apply Herr.
Qed.

(** The critical section: what holds before it, whatever the others do, holds in it. *)
Definition steady (i : nat) (P : option string -> Prop) : Prop :=
  forall w w', elsewhere i w w' -> good (contents w) -> P (contents w) -> P (contents w').

(** A call of [i] that changes at most the lock, and that only if nobody else has it. *)
Record quiet (i : nat) (w w' : locked_fs) : Prop := {
  q_file : contents w' = contents w;
  q_tmp : staged w' = staged w;
  q_lock j fd : j <> i -> lf_owner w = Some (j, fd) -> lf_owner w' = Some (j, fd);
}.

Lemma safe_quiet {B} i (c : os) (k : ans c -> io B) w (P : option string -> Prop) Q :
  steady i P -> good (contents w) -> P (contents w) ->
  (forall w1 r w2, lf_step i w1 c r w2 -> quiet i w1 w2) ->
  (forall w1 r w2, lf_step i w1 c r w2 -> good (contents w2) -> P (contents w2) -> safe i (k r) w2 Q) ->
  safe i (mbind k (sys c)) w Q.
Proof using.
  intros HP Hg Hp Hquiet Hk. apply safe_sys. intros w1 Hels r w2 Hs.
  pose proof (el_good _ _ _ Hels Hg) as Hg1. pose proof (HP w w1 Hels Hg Hp) as Hp1.
  destruct (Hquiet _ _ _ Hs) as [Hc Ht Ho]. split.
  - apply guar_kept; [done |]. intros j fd Hj Hfd. split; [by apply (Ho j fd) | done].
  - apply (Hk w1 r w2 Hs); by rewrite Hc.
Qed.

(** A call that leaves both files and the lock alone. *)
Lemma quiet_call i (c : os) w r w' :
  match (c : oscall) with Flock _ _ | CloseFd _ => False | _ => True end ->
  (forall v r v', fs_step v c r v' -> forall q, q <> lockFile ipam -> file v' q = file v q) ->
  lf_step i w c r w' -> quiet i w w'.
Proof using Hwf.
  intros Hc Hkeep [Hs Ho]. assert (lf_owner w' = lf_owner w) as Eo by by destruct c.
  split; [apply (Hkeep _ _ _ Hs), Hwf | apply (Hkeep _ _ _ Hs), Hwf | intros j fd _ Hfd; congruence].
Qed.

Lemma unown_other i fd j fd' o : j <> i -> o = Some (j, fd') -> unown (i, fd) o = Some (j, fd').
Proof using. intros Hj ->. unfold unown. rewrite decide_False; congruence. Qed.

Lemma quiet_Flock i fd op w r w' : lf_step i w (Flock fd op) r w' -> quiet i w w'.
Proof using.
  intros [Hs Ho]. pose proof (fs_Flock _ _ _ _ _ Hs) as Hf. split; [apply Hf | apply Hf |].
  intros j fd' Hj Hfd. destruct r as [[]|e]; simpl in Ho; [| congruence].
  destruct (exclusive op); [| rewrite Ho; by apply unown_other]. destruct Ho as [[Hn | Hn] _]; congruence.
Qed.

Lemma quiet_CloseFd i fd w r w' : lf_step i w (CloseFd fd) r w' -> quiet i w w'.
Proof using.
  intros [Hs Ho]. pose proof (fs_CloseFd _ _ _ _ Hs) as Hf. split; [apply Hf | apply Hf |].
  intros j fd' Hj Hfd. simpl in Ho. rewrite Ho. by apply unown_other.
Qed.

(** A deferred call at the end. *)
Lemma defer_safe {B} i (c : os) (body : io B) w (Q : B -> option string -> Prop) :
  (forall r, steady i (Q r)) -> (forall w1 r w2, lf_step i w1 c r w2 -> quiet i w1 w2) ->
  safe i body w (fun r w' => good (contents w') /\ Q r (contents w')) ->
  safe i (defer (do_ sys c;; mret tt) body) w (fun r w' => good (contents w') /\ Q r (contents w')).
Proof using.
  intros HQ Hc Hb. unfold defer. apply tsafe_bind.
  eapply (tsafe_mono _ _ i body); [| exact Hb]. intros r w' [Hg Hr]. apply tsafe_bind.
  by apply (safe_quiet i c _ w' (Q r)).
Qed.

Lemma withLock_safe {A} i (fn : io (result A)) w P (Q : result A -> option string -> Prop) :
  steady i P -> (forall r, steady i (Q r)) ->
  (forall f p e, P f -> Q (Err (WrapErr p e)) f) ->
  (forall fd f w, inside i fd f w -> P f ->
     safe i fn w (fun r w' => exists f', inside i fd f' w' /\ Q r f')) ->
  good (contents w) -> P (contents w) ->
  safe i (withLock ipam fn) w (fun r w' => good (contents w') /\ Q r (contents w')).
Proof using Hwf.
  intros HP HQ Herr Hfn Hg Hp. unfold withLock.
  apply (safe_quiet i _ _ w P); [done.. | |].
  { intros w1 r w2. apply quiet_call; [done |]. intros v r' v' Hs q _. by apply (fs_MkdirAll _ _ _ _ _ Hs). }
  clear w Hg Hp. intros _ [[]|e] w _ Hg Hp; [| split; auto].
  apply (safe_quiet i _ _ w P); [done.. | |].
  { intros w1 r w2. apply quiet_call; [done |]. intros v r' v' Hs q. by apply (fs_OpenFile _ _ _ _ _ _ Hs). }
  clear w Hg Hp. intros _ [fd|e] w _ Hg Hp; [| split; auto].
  apply defer_safe; [done | apply quiet_CloseFd |].
  apply (safe_quiet i _ _ w P); [done.. | apply quiet_Flock |].
  clear w Hg Hp. intros w0 [[]|e] w [_ Hown] Hg Hp; [| split; auto].
  apply defer_safe; [done | apply quiet_Flock |].
  eapply (tsafe_mono _ _ i fn); [| apply (Hfn fd (contents w))]; [| split; [done | apply Hown | done] | done].
  intros r w' (f' & Hin & Hr). rewrite (in_file _ _ _ _ Hin). split; [apply Hin | done].
Qed.

(** ** The operations *)

(** The IPv4 address that a lease stands for. *)
Definition address (l : option string) : option IP :=
  match l with
  | Some s => match ParseIP s with Some ip => To4 ip | None => None end
  | None => None
  end.

Lemma address_existing st cid : existing_lease st cid = address (allocations st !! cid).
Proof using. done. Qed.

Lemma address_host k : 0 <= k < 256 -> address (Some (dotted (host base k))) = Some (host base k).
Proof using Hwf.
  intros Hk. pose proof (octets_host base k (wf_base _ _ Hwf) Hk) as Ho. unfold address. simpl.
  rewrite ParseIP_dotted by done. simpl. by destruct (octets_inv _ Ho) as (a & b & c & d & -> & _).
Qed.

Lemma address_none m cid : address (m !! cid) = None -> forall ip4, ~ v4_lease m cid ip4.
Proof using.
  unfold address, v4_lease. intros E ip4 (s & ip & Hs & Hp & Ht). rewrite Hs in E. simpl in E.
  rewrite Hp in E. simpl in E. congruence.
Qed.

(** What a finished operation has done to its container's lease, which was [l0]. *)
Definition op_done (o : ipam_op) (l0 : option string) (r : result (option IP)) (l : option string) : Prop :=
  match o, r with
  | _, Err _ => l = l0
  | OpAllocate _, Ok a => address l = a /\ a <> None /\ (address l0 = None \/ l = l0)
  | OpRelease _, Ok a => l = None /\ a = None
  end.

Definition own_lease (o : ipam_op) (f : option string) : option string := lease_in f (op_id o).

Lemma steady_own i o (P : option string -> Prop) : ops !! i = Some o -> steady i (fun f => P (own_lease o f)).
Proof using Hdistinct.
  intros Ho w w' Hels Hg Hp. unfold own_lease. rewrite (el_lease _ _ _ Hels (op_id o)); [done | | done].
  intros j o' Ho' Eid. apply (NoDup_lookup (op_id <$> ops) j i (op_id o) Hdistinct);
    rewrite list_lookup_fmap; [rewrite Ho' | rewrite Ho]; simpl; congruence.
Qed.

(** The table is read, and the rest runs on it. *)
Lemma with_state {B} i fd f w (k : IPAMState -> io (result B)) (Q : result B -> option string -> Prop) :
  inside i fd f w -> (forall p e, Q (Err (WrapErr p e)) f) ->
  (forall w' st m, inside i fd f w' -> decode ipam f = Some m -> ascii_table m ->
     lease_inv base (gateway ipam) m -> Allocations st = Some m ->
     safe i (k st) w' (fun r w2 => exists f', inside i fd f' w2 /\ Q r f')) ->
  safe i (let? state := loadState ipam onerr e => mret (Err e) in k state) w
    (fun r w2 => exists f', inside i fd f' w2 /\ Q r f').
Proof using.
  intros Hin Herr Hok. pose proof (in_good _ _ _ _ Hin) as (m & Hm & Ha & Hi).
  apply tsafe_bind. apply (load_safe i fd f w m); [done | done | |].
  - intros w' p e Hin'. exists f. split; [done | apply Herr].
  - intros w' st Hin' Hst. by apply (Hok w' st m).
Qed.

Lemma allocate_safe i cid l0 w :
  ops !! i = Some (OpAllocate cid) -> good (contents w) -> lease_in (contents w) cid = l0 ->
  safe i (AllocateIP ipam cid) w (fun r w' => good (contents w') /\
    op_done (OpAllocate cid) l0 (match r with Ok ip => Ok (Some ip) | Err e => Err e end)
      (lease_in (contents w') cid)).
Proof using Hwf Hascii Hdistinct.
  intros Ho Hg Hl. unfold AllocateIP.
  pose proof (Forall_lookup_1 _ _ _ _ Hascii Ho) as Hc. pose proof (wf_base _ _ Hwf) as Hb.
  set (done_as := fun (r : result IP) (f : option string) => op_done (OpAllocate cid) l0
         (match r with Ok ip => Ok (Some ip) | Err e => Err e end) (lease_in f cid)).
  apply (withLock_safe i _ w (fun f => lease_in f cid = l0) done_as);
    [apply (steady_own i (OpAllocate cid) (fun l => l = l0) Ho)
    |intros r; apply (steady_own i (OpAllocate cid) _ Ho) | done | | done | done].
  clear w Hg Hl. intros fd f w Hin Hl. apply (with_state i fd f); [done | done |].
  clear w Hin. intros w st m Hin Hm Ha Hi Hst.
  assert (allocations st = m) as Em by (unfold allocations; by rewrite Hst).
  assert (lease_in f cid = m !! cid) as El by (unfold lease_in; by rewrite Hm).
  rewrite address_existing, Em. destruct (address (m !! cid)) as [ip4|] eqn:Ead.
  { exists f. split; [done |]. unfold done_as, op_done. rewrite El. split; [done |]. split; [done | right; congruence]. }
  rewrite (wf_subnet _ _ Hwf).
  pose proof (first_free_spec ipam base m 253 2 Hwf ltac:(lia) ltac:(lia)) as Hff.
  change (Z.of_nat 253) with 253 in Hff. destruct (first_free _ _ _ _) as [c|]; [| by exists f].
  destruct Hff as (k & Hk & -> & Hfree & Hlow).
  rewrite IPString_octets by (apply octets_host; [done | lia]). apply tsafe_bind.
  assert (alloc_spec base (gateway ipam) cid m (Ok (host base k)) (<[cid := dotted (host base k)]> m)) as Hs.
  { apply alloc_fresh; [lia | done | intros j Hj; apply Hlow; lia | by apply address_none]. }
  destruct (alloc_spec_inv ipam base cid m _ _ Hc Hb Ha Hi Hs) as [Ha' Hi'].
  apply (save_safe i fd f w (OpAllocate cid) m (<[cid := dotted (host base k)]> m)); try done.
  - unfold set_lease. simpl. by rewrite Em.
  - intros cid' Hne. by apply lookup_insert_ne.
  - intros w' p e Hin'. by exists f.
  - intros w' d Hin' Hd. exists (Some d). split; [done |].
    assert (lease_in (Some d) cid = Some (dotted (host base k))) as E
      by (unfold lease_in; rewrite Hd; apply lookup_insert_eq).
    unfold done_as, op_done. rewrite E, address_host by lia. split; [done |]. split; [done | left; congruence].
Qed.

Lemma release_safe i cid l0 w :
  ops !! i = Some (OpRelease cid) -> good (contents w) -> lease_in (contents w) cid = l0 ->
  safe i (ReleaseIP ipam cid) w (fun r w' => good (contents w') /\
    op_done (OpRelease cid) l0 (match r with Ok _ => Ok None | Err e => Err e end) (lease_in (contents w') cid)).
Proof using Hwf Hdistinct.
  intros Ho Hg Hl. unfold ReleaseIP.
  set (done_as := fun (r : result unit) (f : option string) => op_done (OpRelease cid) l0
         (match r with Ok _ => Ok None | Err e => Err e end) (lease_in f cid)).
  apply (withLock_safe i _ w (fun f => lease_in f cid = l0) done_as);
    [apply (steady_own i (OpRelease cid) (fun l => l = l0) Ho)
    |intros r; apply (steady_own i (OpRelease cid) _ Ho) | done | | done | done].
  clear w Hg Hl. intros fd f w Hin Hl. apply (with_state i fd f); [done | done |].
  clear w Hin. intros w st m Hin Hm Ha Hi Hst.
  assert (allocations st = m) as -> by (unfold allocations; by rewrite Hst).
  assert (lease_in f cid = m !! cid) as El by (unfold lease_in; by rewrite Hm).
  destruct (m !! cid) eqn:Em; [| by exists f].
  apply (save_safe i fd f w (OpRelease cid) m (delete cid m)); try done.
  - intros cid' Hne. by apply lookup_delete_ne.
  - by apply map_Forall_delete.
  - by apply lease_inv_delete.
  - intros w' p e Hin'. by exists f.
  - intros w' d Hin' Hd. exists (Some d). split; [done |].
    assert (lease_in (Some d) cid = None) as E by (unfold lease_in; rewrite Hd; apply lookup_delete_eq).
    unfold done_as, op_done. by rewrite E.
Qed.

(** ** All of them together *)

Variable w0 : locked_fs.
Hypothesis Hgood : good (contents w0).

Definition op_post (i : nat) (r : result (option IP)) (w : locked_fs) : Prop :=
  good (contents w) /\
  forall o, ops !! i = Some o -> op_done o (own_lease o (contents w0)) r (own_lease o (contents w)).

Lemma op_post_stable i r w w' : elsewhere i w w' -> op_post i r w -> op_post i r w'.
Proof using Hdistinct.
  intros Hels [Hg Hd]. split; [by apply (el_good _ _ _ Hels) |]. intros o Ho.
  by apply (steady_own i o (op_done o (own_lease o (contents w0)) r) Ho w w'); auto.
Qed.

Lemma ops_safe : all_safe lf_step elsewhere op_post (op_thread <$> ops, w0).
Proof using Hwf Hascii Hdistinct Hgood.
  intros i p. simpl. rewrite list_lookup_fmap. destruct (ops !! i) as [o|] eqn:Ho; [| done].
  intros [= <-]. destruct o as [cid | cid]; apply tsafe_bind; eapply tsafe_mono;
    [| by apply (allocate_safe i cid) | | by apply (release_safe i cid)];
    intros r w [Hg Hd]; (split; [done |]); intros o' Ho'; rewrite Ho in Ho'; injection Ho' as <-;
    by destruct r.
Qed.

Lemma ops_run ps w :
  rtc (tstep lf_step) (op_thread <$> ops, w0) (ps, w) ->
  good (contents w) /\
  (forall cid, (forall o, o ∈ ops -> op_id o <> cid) -> lease_in (contents w) cid = lease_in (contents w0) cid) /\
  (forall i r o, ps !! i = Some (Ret r) -> ops !! i = Some o ->
     op_done o (own_lease o (contents w0)) r (own_lease o (contents w))).
Proof using Hwf Hascii Hdistinct Hgood.
  intros Hr.
  destruct (threads_safe lf_step elsewhere elsewhere_refl elsewhere_trans op_post op_post_stable
    _ _ ops_safe Hr) as [Hs Hout].
  assert (elsewhere (length ops) w0 w) as Hels.
  { apply Hout. simpl. by rewrite list_lookup_fmap, lookup_ge_None_2. }
  split; [by apply (el_good _ _ _ Hels) |]. split.
  - intros cid Hc. apply (el_lease _ _ _ Hels); [| done]. intros j o Ho Eid.
    by destruct (Hc o); [apply (list_elem_of_lookup_2 _ j) |].
  - intros i r o Hi Ho. by destruct (Hs i _ Hi) as [_ Hd]; apply Hd.
Qed.
End threads.

(** ** The property *)

Section properties.
Context `{IpamJSON} {W : Type} `{FileSystem W}.

(** C16: No two containers ever share an address, whatever runs at the same time:
    allocations and releases for distinct containers are started at once from a good lease
    table, take turns at every system call in any order, and any call may fail.  At every
    moment the state file is readable and maps distinct containers to distinct host
    addresses other than the gateway's, with the leases of all other containers as they
    were.  An operation that has finished has had its effect on its container's lease and
    keeps it while the others go on: an allocation returned the address of the lease, the
    one it had before if any; a release left none; a failed operation changed nothing.  Two
    allocations that have finished returned different addresses. *)
Theorem concurrent_leases ipam base os m0 w0 ps w
    (Hwf : ipam_wf ipam base) (Hids : Forall (fun o => ascii_text (op_id o) = true) os)
    (Hdistinct : NoDup (op_id <$> os))
    (Ht : table ipam (lf_fs w0) = Some m0) (Hm : ascii_table m0) (Hi : lease_inv base (gateway ipam) m0)
    (Hr : rtc (tstep lf_step) (op_thread ipam <$> os, w0) (ps, w)) :
  exists m, table ipam (lf_fs w) = Some m /\ lease_inv base (gateway ipam) m /\
    (forall cid, (forall o, o ∈ os -> op_id o <> cid) -> m !! cid = m0 !! cid) /\
    (forall i o r, os !! i = Some o -> ps !! i = Some (Ret r) -> op_done o (m0 !! op_id o) r (m !! op_id o)) /\
    (forall i j ci cj a, os !! i = Some (OpAllocate ci) -> os !! j = Some (OpAllocate cj) ->
       ps !! i = Some (Ret (Ok a)) -> ps !! j = Some (Ret (Ok a)) -> i = j).
Proof.
  destruct (ops_run ipam base Hwf os Hids Hdistinct w0 (ex_intro _ m0 (conj Ht (conj Hm Hi))) ps w Hr)
    as ((m & Hd & Ha & Hinv) & Hrest & Hdone).
  unfold own_lease, lease_in in *. rewrite Hd in *. unfold contents in *. fold (table ipam (lf_fs w0)) in *.
  rewrite Ht in *. simpl in *. exists m.
  split; [done |]. split; [done |]. split; [done |]. split; [eauto |].
  intros i j ci cj a Hoi Hoj Hpi Hpj.
  destruct (Hdone i _ _ Hpi Hoi) as (Hai & Hnone & _), (Hdone j _ _ Hpj Hoj) as (Haj & _ & _). cbn [op_id] in *.
  enough (ci = cj) as ->.
  { apply (NoDup_lookup (op_id <$> os) i j cj Hdistinct); rewrite list_lookup_fmap; [by rewrite Hoi | by rewrite Hoj]. }
  destruct (m !! ci) as [si|] eqn:Ei, (m !! cj) as [sj|] eqn:Ej; cbn in Hnone; try (unfold address in *; congruence).
  destruct (lease_host _ _ _ Hinv ci si Ei) as (ki & Hki & _ & ->).
  destruct (lease_host _ _ _ Hinv cj sj Ej) as (kj & Hkj & _ & ->).
  rewrite (address_host ipam base Hwf ki) in Hai by lia. rewrite (address_host ipam base Hwf kj) in Haj by lia.
  assert (ki = kj) as -> by (apply (host_inj base); [apply Hwf | congruence]).
  by apply (lease_inj _ _ _ Hinv _ _ (dotted (host base kj))).
Qed.
End properties.

(** ** A concrete interleaving *)

(** Every call succeeds, and a lock that somebody else has is waited for. *)
Definition lf_answer (i : nat) (w : locked_fs (W := gmap string string)) (c : os) :
    option (ans c * locked_fs (W := gmap string string)) :=
  let (r, v) := memfs c (lf_fs w) in
  match c return osans c -> option (osans c * locked_fs) with
  | Flock fd op => fun _ =>
      if exclusive op
      then match lf_owner w with
           | None => Some (Ok tt, {| lf_fs := v; lf_owner := Some (i, fd) |})
           | Some _ => None
           end
      else Some (Ok tt, {| lf_fs := v; lf_owner := unown (i, fd) (lf_owner w) |})
  | CloseFd fd => fun r => Some (r, {| lf_fs := v; lf_owner := unown (i, fd) (lf_owner w) |})
  | _ => fun r => Some (r, {| lf_fs := v; lf_owner := lf_owner w |})
  end r.

Lemma lf_answer_step i w c r w' : lf_answer i w c = Some (r, w') -> lf_step i w c r w'.
Proof.
  unfold lf_answer, lf_step. pose proof (memfs_step c (lf_fs w)) as Hs. destruct (memfs c (lf_fs w)) as [r0 v] eqn:E.
  destruct c; intros Ha; repeat case_match; simplify_eq/=; try done; auto.
Qed.

#[local] Existing Instance plain_ipam_json.

(** The second allocation opens the lock file while the first is in its critical section;
    a release of the lease of a third container comes last. *)
Definition demo_ops : list ipam_op := [OpAllocate "gojail-2"; OpAllocate "gojail-3"; OpRelease "gojail-1"].

Definition demo_turns : list nat :=
  repeat 0%nat 5 ++ repeat 1%nat 2 ++ repeat 0%nat 3 ++ [1%nat] ++ [2%nat; 0%nat; 2%nat] ++ repeat 1%nat 6 ++ repeat 2%nat 7.

Definition demo_start : list (io (result (option IP))) * locked_fs (W := gmap string string) :=
  (op_thread demo_ipam <$> demo_ops, {| lf_fs := demo_w1; lf_owner := None |}).

Lemma concurrent_leases_witness :
  exists c, rtc (tstep lf_step) demo_start c /\
    returned 0 c = Some (Ok (Some [10; 200; 0; 3])) /\ returned 1 c = Some (Ok (Some [10; 200; 0; 4])) /\
    exists m, table demo_ipam (lf_fs c.2) = Some m /\ m !! "gojail-1" = None /\
      address (m !! "gojail-2") = Some [10; 200; 0; 3] /\ address (m !! "gojail-3") = Some [10; 200; 0; 4].
Proof.
  assert ((fun c => (returned 0 c, returned 1 c, returned 2 c)) <$> Effects.schedule lf_answer demo_turns demo_start =
    Some (Some (Ok (Some [10; 200; 0; 3])), Some (Ok (Some [10; 200; 0; 4])), Some (Ok None))) as E
    by (vm_compute; reflexivity).
  destruct (Effects.schedule lf_answer demo_turns demo_start) as [[ps w]|] eqn:Es; [| done].
  apply (schedule_steps lf_step lf_answer lf_answer_step) in Es.
  injection E as E0 E1 E2. exists (ps, w). split; [exact Es |]. split; [exact E0 |]. split; [exact E1 |].
  apply returned_lookup in E0, E1, E2.
  assert (ipam_inv demo_ipam [10; 200; 0; 0] demo_w1) as (m0 & Ht & Hm & Hi).
  { apply (op_inv demo_ipam [10; 200; 0; 0] demo_wf (OpAllocate "gojail-1") demo_w0 (Ok [10; 200; 0; 2]) demo_w1);
      [reflexivity | apply inv_missing; reflexivity | exact demo_run1]. }
  destruct (concurrent_leases demo_ipam [10; 200; 0; 0] demo_ops m0 {| lf_fs := demo_w1; lf_owner := None |} ps w
    demo_wf) as (m & Htm & _ & _ & Hdone & _).
  { repeat constructor. }
  { apply (bool_decide_unpack _). vm_compute. exact I. }
  { exact Ht. } { exact Hm. } { exact Hi. } { exact Es. }
  exists m. split; [exact Htm |].
  destruct (Hdone 0%nat _ _ eq_refl E0) as [H0 _], (Hdone 1%nat _ _ eq_refl E1) as [H1 _].
  destruct (Hdone 2%nat _ _ eq_refl E2) as [H2 _]. repeat split; assumption.
Defined.
