(* ===== verification/GoSha256.v ===== *)
(** * crypto/sha256 and encoding/hex

    SHA-256 (FIPS 180-4) of a string, in hexadecimal: the names of the container
    devices are made from it. *)

From S2P Require Import Prelude GoStrings.

Definition rotr (x n : Z) : Z := Z.lor (Z.shiftr x n) (uint32 (Z.shiftl x (32 - n))).

(** The constants, from their definition in the standard: the first 32 bits of the
    fractional parts of the cube roots of the first 64 primes, and of the square roots
    of the first eight. *)
Definition is_prime (n : nat) : bool :=
  forallb (fun d => negb (Nat.eqb (n mod d) 0)) (seq 2 (n - 2)).

Definition primes (below : nat) : list Z := map Z.of_nat (filter is_prime (seq 2 (below - 2))).

(** The largest [r] of at most [bits] bits above [r] with [r ^ 3 <= n], bit by bit. *)
Fixpoint cube_root (bits : nat) (r n : Z) : Z :=
  match bits with
  | O => r
  | S bits =>
      let r' := r + Z.shiftl 1 (Z.of_nat bits) in
      cube_root bits (if r' * r' * r' <=? n then r' else r) n
  end.

Definition sha_k : list Z :=
  Eval vm_compute in map (fun p => uint32 (cube_root 36 0 (Z.shiftl p 96))) (primes 312).

Definition sha_init : list Z :=
  Eval vm_compute in map (fun p => uint32 (Z.sqrt (Z.shiftl p 64))) (primes 20).

(** The message, a one bit, zeros, and the length in bits as 64 bits, big endian. *)
Definition sha_pad (msg : list Z) : list Z :=
  let n := Z.of_nat (length msg) in
  let zeros := Z.to_nat ((55 - n) mod 64) in
  msg ++ [0x80] ++ replicate zeros 0 ++
  map (fun i => uint8 (Z.shiftr (8 * n) (8 * i))) [7; 6; 5; 4; 3; 2; 1; 0].

Fixpoint be_words (bs : list Z) : list Z :=
  match bs with
  | a :: b :: c :: d :: bs => (((a * 256 + b) * 256 + c) * 256 + d) :: be_words bs
  | _ => []
  end.

Definition at_ (l : list Z) (i : nat) : Z := default 0 (l !! i).

(** The message schedule, newest word first. *)
Fixpoint sha_schedule (n : nat) (w : list Z) : list Z :=
  match n with
  | O => w
  | S n =>
      let s0 := let x := at_ w 14 in Z.lxor (Z.lxor (rotr x 7) (rotr x 18)) (Z.shiftr x 3) in
      let s1 := let x := at_ w 1 in Z.lxor (Z.lxor (rotr x 17) (rotr x 19)) (Z.shiftr x 10) in
      sha_schedule n (uint32 (at_ w 15 + s0 + at_ w 6 + s1) :: w)
  end.

Definition sha_round (st : list Z) (kw : Z * Z) : list Z :=
  match st with
  | [a; b; c; d; e; f; g; h] =>
      let S1 := Z.lxor (Z.lxor (rotr e 6) (rotr e 11)) (rotr e 25) in
      let ch := Z.lxor (Z.land e f) (Z.land (Z.lxor e 0xffffffff) g) in
      let t1 := h + S1 + ch + kw.1 + kw.2 in
      let S0 := Z.lxor (Z.lxor (rotr a 2) (rotr a 13)) (rotr a 22) in
      let maj := Z.lxor (Z.lxor (Z.land a b) (Z.land a c)) (Z.land b c) in
      [uint32 (t1 + S0 + maj); a; b; c; uint32 (d + t1); e; f; g]
  | _ => st
  end.

Definition sha_block (st block : list Z) : list Z :=
  let w := rev (sha_schedule 48 (rev (be_words block))) in
  zip_with (fun x y => uint32 (x + y)) st (fold_left sha_round (zip sha_k w) st).

Fixpoint sha_blocks (fuel : nat) (st bs : list Z) : list Z :=
  match fuel, bs with
  | S fuel, _ :: _ => sha_blocks fuel (sha_block st (take 64 bs)) (drop 64 bs)
  | _, _ => st
  end.

(** [sha256.Sum256], as the eight words of the digest; every block takes 64 bytes, so
    the length bounds the number of blocks. *)
Definition Sum256 (s : string) : list Z :=
  let bs := sha_pad (map code (list_of s)) in
  sha_blocks (length bs) sha_init bs.

Definition hex_digit (d : Z) : ascii := chr (if d <? 10 then 48 + d else 87 + d).

(** [hex.EncodeToString] of the digest. *)
Definition EncodeToString (words : list Z) : string :=
  of_list (flat_map (fun w => map (fun i => hex_digit (Z.land (Z.shiftr w (4 * i)) 15))
                                  [7; 6; 5; 4; 3; 2; 1; 0]) words).

Example Sum256_abc : EncodeToString (Sum256 "abc") =
  "ba7816bf8f01cfea414140de5dae2223b00361a396177a9cb410ff61f20015ad".
Proof. vm_compute. reflexivity. Qed.

Example Sum256_two_blocks :
  EncodeToString (Sum256 "abcdbcdecdefdefgefghfghighijhijkijkljklmklmnlmnomnopnopq") =
  "248d6a61d20638b8e5c026930c3e6039a33ce45964ff2167f6ecedd419db06c1".
Proof. vm_compute. reflexivity. Qed.
