(* ===== verification/Dns.v ===== *)
(** * DNS resolution for containers (src/pkg/network/dns.go) *)

From S2P Require Import Prelude GoStrings GoStrconv GoPath GoNet Effects OS.
#[local] Open Scope go_scope.

Definition DefaultFallbackDNS : list string := ["1.1.1.1"; "8.8.8.8"].

(** The address a line of resolv.conf contributes. *)
Definition nameserver_of (text : string) : option string :=
  let line := TrimSpace text in
  if HasPrefix line "#" || HasPrefix line ";" then None
  else match Fields line with
       | "nameserver" :: f1 :: _ =>
           match ParseIP f1 with
           | Some ip => if negb (IsLoopback ip) then Some (IPString ip) else None
           | None => None
           end
       | _ => None
       end.

(** The scanner's error is not looked at: the lines before it count. *)
Definition parseHostResolvConf (path : string) : io (list string) :=
  let? scanned := sys (OpenScan path) onerr _e => mret [] in
  mret (omap nameserver_of (fst (scan (fst scanned) (snd scanned)))).

Definition valid_server (s : string) : option string := IPString <$> ParseIP (TrimSpace s).

Definition ResolveDNSList (custom : list string) : io (list string) :=
  let validCustom := omap valid_server custom in
  if (0 <? length validCustom)%nat then mret validCustom
  else mbind (fun hostDNS =>
                if (0 <? length hostDNS)%nat then mret hostDNS else mret DefaultFallbackDNS)
             (parseHostResolvConf "/etc/resolv.conf").

Definition resolv_text (servers : list string) : string :=
  String.concat "" (("# Generated by gojail" +:+ nl) ::
                    map (fun ns => "nameserver " +:+ ns +:+ nl) servers).

Definition InjectResolvConf (rootfs : string) (dnsServers : list string) : io (result unit) :=
  mbind (fun effective =>
    let etcDir := PathJoin [rootfs; "etc"] in
    let? _ := sys (MkdirAll etcDir mode_0755) onerr e =>
      mret (Err (WrapErr "failed to create /etc in rootfs" e)) in
    let resolvPath := PathJoin [etcDir; "resolv.conf"] in
    do_ sys (Remove resolvPath);;
    let? _ := sys (WriteFile resolvPath (resolv_text effective) mode_0644) onerr e =>
      mret (Err (WrapErr "failed to write resolv.conf" e)) in
    mret (Ok tt)) (ResolveDNSList dnsServers).

(** ** The servers *)

(** A printed IP address, as the code writes it. *)
Definition server_text (s : string) : Prop := exists t ip, ParseIP t = Some ip /\ s = IPString ip.

Definition routable_text (s : string) : Prop :=
  exists t ip, ParseIP t = Some ip /\ IsLoopback ip = false /\ s = IPString ip.

Lemma nameserver_of_routable text s : nameserver_of text = Some s -> routable_text s.
Proof.
  unfold nameserver_of. intros H. repeat case_match; simplify_eq.
  eexists _, _. split; [eassumption |]. split; [| done]. by destruct (IsLoopback _).
Qed.

Lemma wp_parseHostResolvConf path :
  wp no_mon (parseHostResolvConf path) tt (fun _ l => Forall routable_text l).
Proof.
  unfold parseHostResolvConf. wp_steps; [| constructor].
  apply Forall_forall. intros s (t & _ & H)%list_elem_of_omap. by eapply nameserver_of_routable.
Qed.

(** The effective resolvers: when a custom server is a valid address, exactly the
    valid custom ones in their order, printed canonically, whatever the host has;
    otherwise at least one server, all of them addresses that are not loopback, from the
    host's file or the two fallbacks. *)
Theorem ResolveDNSList_spec custom tr servers :
  ends (ResolveDNSList custom) tr servers ->
  servers <> [] /\ Forall server_text servers /\
  (omap valid_server custom <> [] -> servers = omap valid_server custom /\ tr = []) /\
  (omap valid_server custom = [] -> Forall routable_text servers).
Proof.
  intros He. unfold ResolveDNSList in He.
  assert (forall s, routable_text s -> server_text s) as Hrs by (intros s (t & ip & ? & _ & ?); by exists t, ip).
  destruct (omap valid_server custom) as [|v vs] eqn:Hv; cbn [length Nat.ltb Nat.leb] in He.
  - assert (Forall routable_text servers /\ servers <> []) as [Hf Hne].
    { revert He. apply (wp_ends_res _ tr servers (fun l => Forall routable_text l /\ l <> [])).
      apply wp_bind. eapply wp_mono; [| apply wp_parseHostResolvConf]. intros [] [|s l] Hl; simpl; unfold DefaultFallbackDNS.
      - split; [| done]. constructor; [by exists "1.1.1.1", (IPv4 1 1 1 1) |].
        constructor; [by exists "8.8.8.8", (IPv4 8 8 8 8) | constructor].
      - by split. }
    split; [done |]. split; [by eapply Forall_impl |]. by split.
  - apply ends_inv in He as [-> ->]. split; [done |]. split; [| by split].
    rewrite <- Hv. apply Forall_forall. intros s (t & _ & Hs)%list_elem_of_omap.
    unfold valid_server in Hs. destruct (ParseIP _) eqn:Hp; simplify_eq/=. eexists _, _. by split.
Qed.

Lemma ResolveDNSList_spec_witness :
  ["9.9.9.9"; "2001:db8::1"] <> [] /\ Forall server_text ["9.9.9.9"; "2001:db8::1"].
Proof.
  destruct (ResolveDNSList_spec [" 9.9.9.9 "; "local"; "2001:0db8:0::1"]
    (trace ok_os (ResolveDNSList [" 9.9.9.9 "; "local"; "2001:0db8:0::1"]) tt)
    ["9.9.9.9"; "2001:db8::1"]) as (H1 & H2 & _); [| by split].
  replace ["9.9.9.9"; "2001:db8::1"] with
    (res ok_os (ResolveDNSList [" 9.9.9.9 "; "local"; "2001:0db8:0::1"]) tt) by reflexivity.
  apply run_ends.
Defined.
