(* ===== verification/Network.v ===== *)
(** * Container networking (src/pkg/network/network.go)

    The manager is written against the operations of the address allocator
    ([netcall]); [link_ipam] replaces them by the programs of [Ipam]. *)

From S2P Require Import Prelude GoStrings GoStrconv GoPath GoSha256 SandboxConfig.
From S2P Require Import GoNet Effects OS FS Ipam Dns.
#[local] Open Scope go_scope.

Definition DefaultBridgeName : string := "gojail0".
Definition DefaultBridgeCIDR : string := "10.200.0.1/24".
Definition DefaultSubnetCIDR : string := "10.200.0.0/24".

(** ** The calls of the manager *)

Inductive netcall :=
| NOs (c : oscall)
| NAllocate (cid : string)
| NRelease (cid : string)
| NGetIP (cid : string).

Definition netans (c : netcall) : Type :=
  match c with
  | NOs c => osans c
  | NAllocate _ => result IP
  | NRelease _ => result unit
  | NGetIP _ => (option IP * bool)%type
  end.

Definition net : sig := Sig netcall netans.

Abbreviation nsys c := (@do_call net (NOs c)).
Abbreviation nio A := (prog net A).

(** A program of system calls run by the manager. *)
Definition lift {A} (p : io A) : nio A := translate (T := net) (fun c : os => do_call (NOs (c : oscall) : net)) p.

Record Manager := {
  bridgeName : string;
  bridgeCIDR : string;
  ipam : IPAM;
}.

(** The error of [NewIPAM] is dropped: for the constant subnet there is none. *)
Definition NewManager : Manager :=
  {| bridgeName := DefaultBridgeName;
     bridgeCIDR := DefaultBridgeCIDR;
     ipam := match NewIPAM DefaultSubnetCIDR with
             | Ok ipam => ipam
             | Err _ => {| stateFile := ""; lockFile := ""; gateway := [];
                           subnet := {| net_IP := []; net_Mask := [] |} |}
             end |}.

(** The names of the two ends of a container's veth pair. *)
Definition shortID (containerID : string) : string :=
  take_str 7 (EncodeToString (Sum256 containerID)).
Definition vethHostName (containerID : string) : string := "veth" +:+ shortID containerID.
Definition vethPeerName (containerID : string) : string := "ceth" +:+ shortID containerID.

Definition ignore {A} (p : nio A) : nio unit := do_ p;; mret tt.

Fixpoint seq_ (ps : list (nio unit)) : nio unit :=
  match ps with [] => mret tt | p :: ps => do_ p;; seq_ ps end.

Definition iptables (args : list string) : nio unit := ignore (nsys (RunCommand ("iptables" :: args))).

Definition write_proc (path data : string) : nio unit := ignore (nsys (WriteFile path data mode_0644)).

#[export] Instance netcall_eq_dec : EqDecision netcall.
Proof. solve_decision. Defined.

Section manager.
(** [netlink.ParseAddr], of a third-party package: the parsed address, as it is handed to
    [AddrAdd]. *)
Variable netlink_ParseAddr : string -> result string.
Variable m : Manager.

Definition masquerade_rule : list string :=
  ["POSTROUTING"; "-s"; DefaultSubnetCIDR; "!"; "-o"; bridgeName m; "-j"; "MASQUERADE"].

Definition EnsureBridge : nio (result link) :=
  mbind (fun found =>
    match found with
    | Ok l => if link_is_bridge l then mret (Ok l)
              else mret (Err (NewErr ("interface " +:+ bridgeName m +:+ " exists but is not a bridge")))
    | Err _ =>
        let? index := nsys (LinkAddBridge (bridgeName m)) onerr e =>
          mret (Err (WrapErr ("failed to create bridge " +:+ bridgeName m) e)) in
        match netlink_ParseAddr (bridgeCIDR m) with
        | Err e => mret (Err (WrapErr ("failed to parse bridge CIDR " +:+ bridgeCIDR m) e))
        | Ok addr =>
            let? _ := nsys (AddrAdd (bridgeName m) addr) onerr e =>
              mret (Err (WrapErr ("failed to assign IP to bridge " +:+ bridgeName m) e)) in
            let? _ := nsys (LinkSetUp (bridgeName m)) onerr e =>
              mret (Err (WrapErr ("failed to bring bridge " +:+ bridgeName m +:+ " UP") e)) in
            do_ seq_
              [write_proc "/proc/sys/net/ipv4/ip_forward" ("1" +:+ nl);
               write_proc "/proc/sys/net/ipv4/conf/all/route_localnet" ("1" +:+ nl);
               write_proc "/proc/sys/net/ipv4/conf/all/rp_filter" ("0" +:+ nl);
               write_proc "/proc/sys/net/ipv4/conf/lo/route_localnet" ("1" +:+ nl);
               write_proc "/proc/sys/net/ipv4/conf/lo/rp_filter" ("0" +:+ nl);
               write_proc ("/proc/sys/net/ipv4/conf/" +:+ bridgeName m +:+ "/route_localnet") ("1" +:+ nl);
               write_proc ("/proc/sys/net/ipv4/conf/" +:+ bridgeName m +:+ "/rp_filter") ("0" +:+ nl);
               iptables (["-t"; "nat"; "-C"] ++ masquerade_rule);
               iptables (["-t"; "nat"; "-A"] ++ masquerade_rule);
               iptables ["-C"; "FORWARD"; "-o"; bridgeName m; "-j"; "ACCEPT"];
               iptables ["-A"; "FORWARD"; "-o"; bridgeName m; "-j"; "ACCEPT"];
               iptables ["-C"; "FORWARD"; "-i"; bridgeName m; "-j"; "ACCEPT"];
               iptables ["-A"; "FORWARD"; "-i"; bridgeName m; "-j"; "ACCEPT"]];;
            mret (Ok (Link index true))
        end
    end) (nsys (LinkByName (bridgeName m))).

(** ** Port forwarding *)

(** The protocol of a mapping: lower case, tcp when empty. *)
Definition proto_of (mapping : PortMapping) : string :=
  let proto := ToLower (pm_Protocol mapping) in
  if bool_decide (proto = "") then "tcp" else proto.

(** The four iptables commands of a mapping, with the operation -A or -D. *)
Definition prerouting_cmd (op containerIP : string) (mapping : PortMapping) : list string :=
  ["iptables"; "-t"; "nat"; op; "PREROUTING"; "-p"; proto_of mapping; "--dport";
   Itoa (pm_HostPort mapping); "-j"; "DNAT"; "--to-destination";
   containerIP +:+ ":" +:+ Itoa (pm_ContainerPort mapping)].

Definition output_cmd (op dst containerIP : string) (mapping : PortMapping) : list string :=
  ["iptables"; "-t"; "nat"; op; "OUTPUT"; "-p"; proto_of mapping; "-d"; dst; "--dport";
   Itoa (pm_HostPort mapping); "-j"; "DNAT"; "--to-destination";
   containerIP +:+ ":" +:+ Itoa (pm_ContainerPort mapping)].

Definition postrouting_cmd (op containerIP : string) (mapping : PortMapping) : list string :=
  ["iptables"; "-t"; "nat"; op; "POSTROUTING"; "-p"; proto_of mapping; "-d"; containerIP; "--dport";
   Itoa (pm_ContainerPort mapping); "-j"; "MASQUERADE"].

Definition apply_mapping (containerIP : string) (mapping : PortMapping) : nio (result unit) :=
  let proto := proto_of mapping in
  if negb (bool_decide (proto = "tcp")) && negb (bool_decide (proto = "udp")) then
    mret (Err (NewErr ("unsupported protocol " +:+ Quote proto +:+ ", must be tcp or udp")))
  else
    mbind (fun oe : string * option error =>
      match oe.2 with
      | Some e => mret (Err (WrapErrParen ("failed to add PREROUTING DNAT rule: " +:+ oe.1) e))
      | None =>
          do_ nsys (RunCommand (output_cmd "-A" "127.0.0.1" containerIP mapping));;
          do_ nsys (RunCommand (output_cmd "-A" "10.200.0.1" containerIP mapping));;
          do_ nsys (RunCommand (postrouting_cmd "-A" containerIP mapping));;
          mret (Ok tt)
      end) (nsys (RunCommand (prerouting_cmd "-A" containerIP mapping))).

Definition applyPortForwarding (containerIP : string) (mappings : list PortMapping) :
    nio (result unit) :=
  forErr (apply_mapping containerIP) mappings.

Definition removePortForwarding (containerIP : string) (mappings : list PortMapping) : nio unit :=
  foldM (fun _ mapping =>
    do_ nsys (RunCommand (prerouting_cmd "-D" containerIP mapping));;
    do_ nsys (RunCommand (output_cmd "-D" "127.0.0.1" containerIP mapping));;
    do_ nsys (RunCommand (output_cmd "-D" "10.200.0.1" containerIP mapping));;
    do_ nsys (RunCommand (postrouting_cmd "-D" containerIP mapping));;
    mret tt) tt mappings.

(** ** Inside the container's network namespace *)

Definition configureInNetns (pid : Z) (peerName containerCIDR gatewayIP : string) : nio (result unit) :=
  let? hostNs := nsys NetnsGet onerr e => mret (Err (WrapErr "failed to get host netns" e)) in
  defer (do_ nsys (NetnsSet hostNs);; do_ nsys (NetnsClose hostNs);; mret tt)
    (let? childNs := nsys (NetnsGetFromPid pid) onerr e =>
       mret (Err (WrapErr ("failed to get child netns from pid " +:+ Itoa pid) e)) in
     defer (do_ nsys (NetnsClose childNs);; mret tt)
       (let? _ := nsys (NetnsSet childNs) onerr e =>
          mret (Err (WrapErr "failed to switch to child netns" e)) in
        do_ nsys (WriteFile "/proc/sys/net/ipv4/ping_group_range" ("0 2147483647" +:+ nl) mode_0644);;
        do_ mbind (fun lo => match lo with
                             | Ok _ => ignore (nsys (LinkSetUp "lo"))
                             | Err _ => mret tt
                             end) (nsys (LinkByName "lo"));;
        let? _ := nsys (LinkByName peerName) onerr e =>
          mret (Err (WrapErr ("failed to find " +:+ peerName +:+ " inside child netns") e)) in
        let? _ := nsys (LinkSetName peerName "eth0") onerr e =>
          mret (Err (WrapErr ("failed to rename " +:+ peerName +:+ " to eth0") e)) in
        let? eth0 := nsys (LinkByName "eth0") onerr e =>
          mret (Err (WrapErr "failed to find eth0" e)) in
        match netlink_ParseAddr containerCIDR with
        | Err e => mret (Err (WrapErr ("invalid container CIDR " +:+ containerCIDR) e))
        | Ok addr =>
            let? _ := nsys (AddrAdd "eth0" addr) onerr e =>
              mret (Err (WrapErr ("failed to add address " +:+ containerCIDR +:+ " to eth0") e)) in
            let? _ := nsys (LinkSetUp "eth0") onerr e =>
              mret (Err (WrapErr "failed to set eth0 UP" e)) in
            match ParseIP gatewayIP with
            | None => mret (Err (NewErr ("invalid gateway IP: " +:+ gatewayIP)))
            | Some gw =>
                let? _ := nsys (RouteAddDefault (link_index eth0) (IPString gw)) onerr e =>
                  mret (Err (WrapErr ("failed to add default route to " +:+ gatewayIP) e)) in
                mret (Ok tt)
            end
        end)).

(** ** Setting up and tearing down *)

Definition SetupContainerNetwork (containerID : string) (pid : Z) (rootfs : string)
    (portMappings : list PortMapping) (dnsServers : list string) : nio (result unit) :=
  let? br := EnsureBridge onerr e => mret (Err (WrapErr "failed to ensure bridge" e)) in
  let? containerIP := @do_call net (NAllocate containerID) onerr e =>
    mret (Err (WrapErr "failed to lease container IP" e)) in
  let vethHost := vethHostName containerID in
  let vethPeer := vethPeerName containerID in
  do_ mbind (fun old => match old with
                        | Ok _ => ignore (nsys (LinkDel vethHost))
                        | Err _ => mret tt
                        end) (nsys (LinkByName vethHost));;
  let release := ignore (@do_call net (NRelease containerID)) in
  let undo := do_ nsys (LinkDel vethHost);; release in
  let? _ := nsys (LinkAddVeth vethHost vethPeer (link_index br)) onerr e =>
    (do_ release;;
     mret (Err (WrapErr ("failed to create veth pair (" +:+ vethHost +:+ " <-> " +:+ vethPeer +:+ ")") e))) in
  let? _ := nsys (LinkSetUp vethHost) onerr e =>
    (do_ undo;; mret (Err (WrapErr ("failed to bring host veth " +:+ vethHost +:+ " UP") e))) in
  let? _ := nsys (LinkByName vethPeer) onerr e =>
    (do_ undo;; mret (Err (WrapErr ("failed to locate peer veth " +:+ vethPeer) e))) in
  let? _ := nsys (LinkSetNsPid vethPeer pid) onerr e =>
    (do_ undo;;
     mret (Err (WrapErr ("failed to move peer veth into pid " +:+ Itoa pid +:+ " netns") e))) in
  let rawIP := IPString containerIP in
  let containerCIDR := rawIP +:+ "/24" in
  let? _ := configureInNetns pid vethPeer containerCIDR (IPString (Gateway (ipam m))) onerr e =>
    (do_ undo;;
     mret (Err (WrapErr "failed to configure network inside container netns" e))) in
  let? _ := (if (0 <? length portMappings)%nat then applyPortForwarding rawIP portMappings
             else mret (Ok tt)) onerr e =>
    (do_ undo;; mret (Err (WrapErr "failed to apply port forwarding rules" e))) in
  do_ (if negb (bool_decide (rootfs = "")) then ignore (lift (InjectResolvConf rootfs dnsServers))
       else mret tt);;
  mret (Ok tt).

(** A nil address prints as "<nil>". *)
Definition IPString_opt (ip : option IP) : string :=
  match ip with Some ip => IPString ip | None => "<nil>" end.

Definition NetCleanup (containerID : string) (portMappings : list PortMapping) : nio unit :=
  do_ mbind (fun got : option IP * bool =>
        if got.2 then
          do_ (if (0 <? length portMappings)%nat
               then removePortForwarding (IPString_opt got.1) portMappings else mret tt);;
          ignore (@do_call net (NRelease containerID))
        else mret tt) (@do_call net (NGetIP containerID));;
  mbind (fun l => match l with
                  | Ok _ => ignore (nsys (LinkDel (vethHostName containerID)))
                  | Err _ => mret tt
                  end) (nsys (LinkByName (vethHostName containerID))).

(** ** Linking with the allocator *)

Definition link_ipam `{IpamJSON} (c : netcall) : io (netans c) :=
  match c with
  | NOs c => do_call (c : os)
  | NAllocate cid => AllocateIP (ipam m) cid
  | NRelease cid => ReleaseIP (ipam m) cid
  | NGetIP cid => GetIP (ipam m) cid
  end.
End manager.

(** ** A container's resources *)

(** Whether the container has the lease and the veth pair that were made for it, by the
    answers of the allocator and of netlink: a release or a deletion that is refused gives
    nothing back, and is remembered. *)
Record holdings := { has_lease : bool; lease_refused : bool; has_veth : bool; veth_refused : bool }.

Section holdings.
Variable cid : string.

Definition with_lease (has refused : bool) (s : holdings) : holdings :=
  {| has_lease := has; lease_refused := refused; has_veth := has_veth s; veth_refused := veth_refused s |}.
Definition with_veth (has refused : bool) (s : holdings) : holdings :=
  {| has_lease := has_lease s; lease_refused := lease_refused s; has_veth := has; veth_refused := refused |}.

Definition net_mon (s : holdings) (c : net) (r : ans c) : holdings :=
  match c return netans c -> holdings with
  | NAllocate c' => fun r =>
      if is_ok r && bool_decide (c' = cid) then with_lease true false s else s
  | NRelease c' => fun r =>
      if bool_decide (c' = cid) then
        if is_ok r then with_lease false false s else with_lease (has_lease s) (has_lease s) s
      else s
  | NOs (LinkAddVeth h _ _) => fun r =>
      if is_ok r && bool_decide (h = vethHostName cid) then with_veth true false s else s
  | NOs (LinkDel h) => fun r =>
      if bool_decide (h = vethHostName cid) then
        if is_ok r then with_veth false false s else with_veth (has_veth s) (has_veth s) s
      else s
  | _ => fun _ => s
  end r.

End holdings.

Lemma neutral_seq {G} (mon : G -> forall c : net, ans c -> G) ps :
  Forall (neutral mon) ps -> neutral mon (seq_ ps).
Proof. induction 1 as [|p ps Hp Hps IH]; [done |]. simpl. by apply neutral_bind. Qed.

Section neutral_parts.
Variable cid : string.

Lemma neutral_EnsureBridge parse m : neutral (net_mon cid) (EnsureBridge parse m).
Proof.
  unfold EnsureBridge. neutral_steps. apply neutral_seq. repeat constructor;
    unfold iptables, write_proc, ignore; neutral_steps.
Qed.

Lemma neutral_configureInNetns parse pid peer cidr gw :
  neutral (net_mon cid) (configureInNetns parse pid peer cidr gw).
Proof. unfold configureInNetns, ignore. neutral_steps. Qed.

Lemma neutral_applyPortForwarding ip ms : neutral (net_mon cid) (applyPortForwarding ip ms).
Proof. unfold applyPortForwarding, apply_mapping. neutral_steps. Qed.

(** A lifted program is neutral when its system calls are. *)
Lemma wp_lift {A} (p : io A) (s : holdings) Q :
  wp (fun s (c : os) r => net_mon cid s (NOs c : net) r) p s Q -> wp (net_mon cid) (lift p) s Q.
Proof.
  unfold lift. revert s. induction p as [a | c k IH]; intros s Hp; simpl in *; [done |].
  intros r. by apply IH.
Qed.

Lemma neutral_InjectResolvConf rootfs dns : neutral (net_mon cid) (lift (InjectResolvConf rootfs dns)).
Proof.
  intros s. apply wp_lift. unfold InjectResolvConf, ResolveDNSList, parseHostResolvConf.
  wp_steps; reflexivity.
Qed.
End neutral_parts.

Definition no_holdings : holdings :=
  {| has_lease := false; lease_refused := false; has_veth := false; veth_refused := false |}.

(** Nothing is left but what could not be given back. *)
Definition given_back (s : holdings) : Prop :=
  (has_lease s = true -> lease_refused s = true) /\ (has_veth s = true -> veth_refused s = true).

(** A neutral part, then what follows it. *)
Ltac wp_neutral H := wp_step; eapply wp_mono; [| apply H]; intros ? ? ->; cbv beta.

Section setup.
Variables (netlink_ParseAddr : string -> result string) (m : Manager) (cid : string).

Definition holding_both : holdings :=
  {| has_lease := true; lease_refused := false; has_veth := true; veth_refused := false |}.

Definition lease_only : holdings :=
  {| has_lease := true; lease_refused := false; has_veth := false; veth_refused := false |}.

Definition setup_result (s : holdings) (r : result unit) : Prop :=
  match r with Ok _ => s = holding_both | Err _ => given_back s end.

Ltac norm := cbn [net_mon no_holdings lease_only holding_both with_lease with_veth has_lease lease_refused
    has_veth veth_refused is_ok andb orb negb];
  rewrite ?(bool_decide_eq_true_2 (cid = cid)),
    ?(bool_decide_eq_true_2 (vethHostName cid = vethHostName cid)) by done;
  cbn [andb orb negb].

(** The undo after a failure. *)
Lemma wp_undo (e : error) s :
  wp (net_mon cid)
    (do_ (do_ nsys (LinkDel (vethHostName cid));; ignore (@do_call net (NRelease cid)));; mret (Err e))
    s setup_result.
Proof. unfold ignore, setup_result, given_back. wp_steps; norm; by split; simpl. Qed.

(** An old device of the same name is deleted first. *)
Lemma wp_del_old :
  wp (net_mon cid) (mbind (fun old : result link => match old with
                        | Ok _ => ignore (nsys (LinkDel (vethHostName cid)))
                        | Err _ => mret tt
                        end) (nsys (LinkByName (vethHostName cid)))) lease_only (fun s _ => s = lease_only).
Proof. unfold ignore. wp_steps; by norm. Qed.

(** C18: All or nothing: whatever fails while a container's network is set up, an error
    leaves the container without the veth pair and without the lease that were made for
    it, except where the system or the allocator refused the deletion or the release
    itself (which the code does not look at); and success leaves it with both. *)
Theorem SetupContainerNetwork_atomic pid rootfs ms dns tr r :
  ends (SetupContainerNetwork netlink_ParseAddr m cid pid rootfs ms dns) tr r ->
  match r with
  | Ok _ => mon_trace (net_mon cid) no_holdings tr = holding_both
  | Err _ => given_back (mon_trace (net_mon cid) no_holdings tr)
  end.
Proof.
  apply (wp_ends (net_mon cid) _ _ setup_result).
  unfold SetupContainerNetwork.
  wp_neutral (neutral_EnsureBridge cid netlink_ParseAddr m). case_match; [| by wp_step; split].
  wp_step. wp_step; [| by wp_step; split]. norm.
  wp_step. eapply wp_mono; [| apply wp_del_old]. intros ? [] ->. cbv beta zeta.
  wp_step. wp_step; [| unfold ignore; wp_steps; norm; by split]. norm.
  wp_step. wp_step; [| apply wp_undo].
  wp_step. wp_step; [| apply wp_undo].
  wp_step. wp_step; [| apply wp_undo].
  wp_neutral (neutral_configureInNetns cid). case_match; [| apply wp_undo].
  wp_step. eapply wp_mono with (Q := fun s _ => s = holding_both).
  2: { case_match; [apply neutral_applyPortForwarding | by wp_step]. }
  intros ? ? ->. cbv beta. case_match; [| apply wp_undo].
  wp_step. eapply wp_mono with (Q := fun s _ => s = holding_both).
  2: { case_match; [| by wp_step]. unfold ignore. by wp_neutral neutral_InjectResolvConf. }
  intros ? ? ->. by wp_step.
Qed.
End setup.

(** ** The thread's network namespace *)

(** The open namespace handles, the thread's own namespace once it is known, the
    namespace it was switched to last, and whether a switch back failed. *)
Record ns_state := { ns_open : list Z; ns_host : option Z; ns_cur : option Z; ns_stuck : bool }.

Definition ns_mon (s : ns_state) (c : net) (r : ans c) : ns_state :=
  match c return netans c -> ns_state with
  | NOs NetnsGet => fun r => match r with
      | Ok fd => {| ns_open := fd :: ns_open s; ns_host := Some fd; ns_cur := ns_cur s; ns_stuck := ns_stuck s |}
      | Err _ => s end
  | NOs (NetnsGetFromPid _) => fun r => match r with
      | Ok fd => {| ns_open := fd :: ns_open s; ns_host := ns_host s; ns_cur := ns_cur s; ns_stuck := ns_stuck s |}
      | Err _ => s end
  | NOs (NetnsSet fd) => fun r => match r with
      | Ok _ => {| ns_open := ns_open s; ns_host := ns_host s; ns_cur := Some fd; ns_stuck := false |}
      | Err _ => {| ns_open := ns_open s; ns_host := ns_host s; ns_cur := ns_cur s;
                    ns_stuck := bool_decide (ns_host s = Some fd) |} end
  | NOs (NetnsClose fd) => fun _ =>
      {| ns_open := filter (fun x => x <> fd) (ns_open s); ns_host := ns_host s; ns_cur := ns_cur s;
         ns_stuck := ns_stuck s |}
  | _ => fun _ => s
  end r.

Definition ns_start : ns_state := {| ns_open := []; ns_host := None; ns_cur := None; ns_stuck := false |}.

Definition ns_restored (s : ns_state) : Prop :=
  ns_open s = [] /\
  (ns_stuck s = false -> ns_host s = None /\ ns_cur s = None \/ ns_cur s = ns_host s).

(** The deferred switch back. *)
Lemma ns_restore_host fd s :
  ns_host s = Some fd -> (forall x, x ∈ ns_open s -> x = fd) ->
  wp ns_mon (do_ nsys (NetnsSet fd);; do_ nsys (NetnsClose fd);; mret tt) s
    (fun s' _ => ns_restored s').
Proof.
  intros Hh Ho.
  assert (filter (fun x => x <> fd) (ns_open s) = []) as Hf.
  { destruct (filter _ (ns_open s)) as [|x l] eqn:E; [done |].
    assert (x ∈ filter (fun x => x <> fd) (ns_open s)) as [Hne Hin]%list_elem_of_filter
      by (rewrite E; by left). by apply Ho in Hin. }
  wp_steps; (split; [done |]); simpl; rewrite Hh; [by right | by right | |];
    by rewrite bool_decide_eq_true_2.
Qed.

(** C19: The thread that configures a container's namespace closes every namespace handle
    it opened and returns to its own namespace, on every path and whatever fails, except
    when the system refuses the switch back itself (an error the code does not look
    at). *)
Theorem configureInNetns_restores parse pid peer cidr gw tr r :
  ends (configureInNetns parse pid peer cidr gw) tr r ->
  ns_restored (mon_trace ns_mon ns_start tr).
Proof.
  apply (wp_ends ns_mon _ _ (fun s _ => ns_restored s)). unfold configureInNetns.
  wp_step. wp_step; [| wp_step; split; [done | by left]].
  wp_step. wp_step. wp_step; [| wp_step; apply ns_restore_host; set_solver].
  wp_step. eapply wp_mono with (Q := fun s _ => ns_host s = Some x /\ ns_open s = [x0; x]).
  - intros s a [Hh Ho]. wp_step. wp_step; wp_step; (apply ns_restore_host; [done |]);
      cbn [ns_mon ns_open]; rewrite Ho; intros y [? Hy]%list_elem_of_filter; set_solver.
  - wp_step. wp_step; [| by wp_step].
    eapply wp_mono; [| unfold ignore; match goal with |- wp _ ?p ?s _ =>
      assert (neutral ns_mon p) as Hn by neutral_steps; apply (Hn s) end].
    by intros s a ->.
Qed.

(** ** Port forwarding is undone command by command *)

Definition mapping_cmds (op ip : string) (mapping : PortMapping) : list (list string) :=
  [prerouting_cmd op ip mapping; output_cmd op "127.0.0.1" ip mapping;
   output_cmd op "10.200.0.1" ip mapping; postrouting_cmd op ip mapping].

Definition cmd_call (argv : list string) : net := NOs (RunCommand argv).

(** The same command with -D for -A: the operation is the fourth word. *)
Definition undo_call (c : net) : net :=
  match c with
  | NOs (RunCommand argv) => NOs (RunCommand (<[3%nat := "-D"]> argv))
  | c => c
  end.

Lemma calls_app {S : sig} (tr1 tr2 : list (event S)) : calls (tr1 ++ tr2) = calls tr1 ++ calls tr2.
Proof. apply map_app. Qed.

Lemma apply_mapping_calls ip mapping tr r :
  ends (apply_mapping ip mapping) tr r -> r = Ok tt ->
  calls tr = map cmd_call (mapping_cmds "-A" ip mapping) /\
  (proto_of mapping = "tcp" \/ proto_of mapping = "udp").
Proof.
  apply (wp_ends_log _ tr r (fun tr r => r = Ok tt -> _ /\ _)).
  unfold apply_mapping. wp_steps; intros [=]; (split; [reflexivity |]);
    apply andb_false_iff in E as [E%negb_false_iff%bool_decide_eq_true | E%negb_false_iff%bool_decide_eq_true]; auto.
Qed.

Lemma applyPortForwarding_calls ip ms tr :
  ends (applyPortForwarding ip ms) tr (Ok tt) ->
  calls tr = map cmd_call (concat (map (mapping_cmds "-A" ip) ms)) /\
  Forall (fun mapping => proto_of mapping = "tcp" \/ proto_of mapping = "udp") ms.
Proof.
  unfold applyPortForwarding. revert tr. induction ms as [|mp ms IH]; intros tr He; cbn [forErr] in He.
  - by apply ends_inv in He as [_ ->].
  - apply ends_bind_inv in He as (tr1 & [[]|e] & tr2 & H1 & H2 & ->);
      [| by apply ends_inv in H2 as [? _]].
    apply apply_mapping_calls in H1 as [E1 Hp]; [| done]. apply IH in H2 as [E2 Hps].
    rewrite calls_app, E1, E2. split; [by rewrite <- map_app | by constructor].
Qed.

Lemma removePortForwarding_calls ip ms tr u :
  ends (removePortForwarding ip ms) tr u ->
  calls tr = map cmd_call (concat (map (mapping_cmds "-D" ip) ms)).
Proof.
  unfold removePortForwarding. revert tr. induction ms as [|mp ms IH]; intros tr He; cbn [foldM] in He.
  - by apply ends_inv in He as [_ ->].
  - apply ends_bind_inv in He as (tr1 & [] & tr2 & H1 & H2 & ->). apply IH in H2 as E2.
    rewrite calls_app, E2. cbn [map concat]. rewrite map_app. f_equal. revert H1.
    apply (wp_ends_log _ tr1 tt (fun tr _ => calls tr = _)). by wp_steps.
Qed.

(** Tear-down undoes set-up: when the port forwarding of a container was applied
    without an error, removing it issues, in the same order, exactly the commands that
    were issued with -D instead of -A, whatever the answers of iptables; and applying
    succeeds only for the protocols tcp and udp. *)
Theorem removePortForwarding_undoes ip ms trA trR u :
  ends (applyPortForwarding ip ms) trA (Ok tt) ->
  ends (removePortForwarding ip ms) trR u ->
  calls trR = map undo_call (calls trA) /\
  Forall (fun mapping => proto_of mapping = "tcp" \/ proto_of mapping = "udp") ms.
Proof.
  intros [-> Hp]%applyPortForwarding_calls ->%removePortForwarding_calls. split; [| done].
  rewrite map_map. clear Hp. induction ms as [|mp ms IH]; [done |].
  cbn [map concat]. rewrite !map_app, IH. done.
Qed.

(** ** Concrete runs *)

Definition ok_net : handler net unit := fun c w =>
  (match c return netans c with
   | NOs c => fst (ok_os c tt)
   | NAllocate _ => Ok [10; 200; 0; 2]
   | NRelease _ => Ok tt
   | NGetIP _ => (Some [10; 200; 0; 2], true)
   end, w).

Definition web : PortMapping := {| pm_HostPort := 8080; pm_ContainerPort := 80; pm_Protocol := "" |}.
Definition bad_proto : PortMapping := {| pm_HostPort := 1; pm_ContainerPort := 1; pm_Protocol := "sctp" |}.

(** A system that refuses to move the peer and then to delete the pair. *)
Definition refusing_net : handler net unit := fun c w =>
  match c return netans c * unit with
  | NOs (LinkSetNsPid _ _) => (Err (SysErr EACCES "netns"), w)
  | NOs (LinkDel _) => (Err (SysErr EACCES "link"), w)
  | c => ok_net c w
  end.

Abbreviation demo_setup := (SetupContainerNetwork (fun s => Ok s) NewManager "gojail-1" 42 "/r" [web] []).

Lemma SetupContainerNetwork_atomic_witness :
  mon_trace (net_mon "gojail-1") no_holdings (trace ok_net demo_setup tt) = holding_both /\
  given_back (mon_trace (net_mon "gojail-1") no_holdings (trace refusing_net demo_setup tt)) /\
  mon_trace (net_mon "gojail-1") no_holdings (trace refusing_net demo_setup tt) =
    {| has_lease := false; lease_refused := false; has_veth := true; veth_refused := true |}.
Proof.
  split; [| split].
  - apply (SetupContainerNetwork_atomic (fun s => Ok s) NewManager "gojail-1" 42 "/r" [web] []
      (trace ok_net demo_setup tt) (res ok_net demo_setup tt)). apply run_ends.
  - pose proof (SetupContainerNetwork_atomic (fun s => Ok s) NewManager "gojail-1" 42 "/r" [web] []
      (trace refusing_net demo_setup tt) (res refusing_net demo_setup tt) (run_ends _ _ _)) as Ha.
    exact Ha.
  - vm_compute. reflexivity.
Defined.

Lemma configureInNetns_restores_witness :
  ns_restored (mon_trace ns_mon ns_start
    (trace ok_net (configureInNetns (fun s => Ok s) 42 "ceth0" "10.200.0.2/24" "10.200.0.1") tt)).
Proof. eapply configureInNetns_restores. apply run_ends. Defined.

Lemma removePortForwarding_undoes_witness :
  calls (trace ok_net (removePortForwarding "10.200.0.2" [web]) tt) =
  map undo_call (calls (trace ok_net (applyPortForwarding "10.200.0.2" [web]) tt)).
Proof.
  apply (removePortForwarding_undoes "10.200.0.2" [web] _ _
    (res ok_net (removePortForwarding "10.200.0.2" [web]) tt)); apply run_ends.
Defined.

(** When a later mapping is refused, the rules of the earlier ones stay: the lease is
    given back while a rule still forwards to its address. *)
Definition is_cmd (op : string) (c : net) : bool :=
  match c with NOs (RunCommand argv) => bool_decide (argv !! 3%nat = Some op) | _ => false end.

Example SetupContainerNetwork_leaves_rules :
  let p := SetupContainerNetwork (fun s => Ok s) NewManager "gojail-1" 42 "/r" [web; bad_proto] [] in
  let cs := calls (trace ok_net p tt) in
  is_ok (res ok_net p tt) = false /\
  existsb (fun c => bool_decide (c = cmd_call (prerouting_cmd "-A" "10.200.0.2" web))) cs = true /\
  existsb (is_cmd "-D") cs = false.
Proof. vm_compute. done. Qed.
