(* ===== verification/Overlay.v ===== *)
(** * Overlay layers (src/pkg/sandbox/overlay_linux.go)

    The ephemeral file system of a sandbox: a tmpfs with a quota under
    /run/gojail/layers/<id>, and an overlay of the host's root merged on it. *)

From S2P Require Import Prelude GoStrings GoStrconv GoPath Effects OS.
#[local] Open Scope go_scope.

Record OverlayManager := {
  om_id : string;
  om_baseDir : string;
  om_upperDir : string;
  om_workDir : string;
  om_mergedDir : string;
  om_storageMB : Z;
}.

Definition layersRoot : string := "/run/gojail/layers".

(** The directories of a layer. *)
Definition layer (id : string) (storageMB : Z) : OverlayManager :=
  let baseDir := PathJoin [layersRoot; id] in
  {| om_id := id; om_baseDir := baseDir; om_upperDir := PathJoin [baseDir; "upper"];
     om_workDir := PathJoin [baseDir; "work"]; om_mergedDir := PathJoin [baseDir; "merged"];
     om_storageMB := storageMB |}.

Definition NewOverlayManager (id : string) (storageLimitMB : Z) : io (result OverlayManager) :=
  let storageLimitMB := if storageLimitMB <=? 0 then 64 else storageLimitMB in
  let om := layer id storageLimitMB in
  let baseDir := om_baseDir om in
  do_ sys (Unmount (om_mergedDir om) MNT_DETACH);;
  do_ sys (Unmount baseDir MNT_DETACH);;
  do_ sys (RemoveAll baseDir);;
  let? _ := sys (MkdirAll baseDir mode_0755) onerr e =>
    mret (Err (WrapErr ("failed to create overlay root " +:+ baseDir) e)) in
  let tmpfsOpts := "size=" +:+ Itoa storageLimitMB +:+ "m" in
  let? _ := sys (Mount "tmpfs" baseDir "tmpfs" 0 tmpfsOpts) onerr e =>
    (do_ sys (RemoveAll baseDir);;
     mret (Err (WrapErr "failed to mount tmpfs for overlay storage limit" e))) in
  let undo := do_ sys (Unmount baseDir MNT_DETACH);; do_ sys (RemoveAll baseDir);; mret tt in
  let? _ := forErr (fun dir =>
      let? _ := sys (MkdirAll dir mode_0755) onerr e =>
        (do_ undo;; mret (Err (WrapErr ("failed to create overlay directory " +:+ dir) e))) in
      mret (Ok tt)) [om_upperDir om; om_workDir om; om_mergedDir om] onerr e => mret (Err e) in
  let upperTmp := PathJoin [om_upperDir om; "tmp"] in
  let? _ := sys (MkdirAll upperTmp (Z.lor mode_0777 ModeSticky)) onerr e =>
    (do_ undo;; mret (Err (WrapErr "failed to create upper /tmp" e))) in
  do_ sys (Chmod upperTmp (Z.lor mode_0777 ModeSticky));;
  mret (Ok om).

Definition OverlayMount (om : OverlayManager) : io (result string) :=
  let opts := "lowerdir=/,upperdir=" +:+ om_upperDir om +:+ ",workdir=" +:+ om_workDir om in
  let? _ := sys (Mount "overlay" (om_mergedDir om) "overlay" 0 opts) onerr e =>
    mret (Err (WrapErr "failed to mount overlayfs" e)) in
  mret (Ok (om_mergedDir om)).

Definition MergedDir (om : OverlayManager) : string := om_mergedDir om.

(** An unmount that fails because nothing is mounted there is no error. *)
Definition unmount_error (what dir : string) (r : result unit) : list error :=
  match r with
  | Err e => if negb (IsNotExist e) && negb (IsEINVAL e)
             then [WrapErr ("failed to unmount overlay " +:+ what +:+ " " +:+ dir) e] else []
  | Ok _ => []
  end.

Definition remove_error (dir : string) (r : result unit) : list error :=
  match r with
  | Err e => if negb (IsNotExist e) then [WrapErr ("failed to remove layer base " +:+ dir) e] else []
  | Ok _ => []
  end.

Definition OverlayCleanup (om : OverlayManager) : io (result unit) :=
  r1 ← sys (Unmount (om_mergedDir om) MNT_DETACH);
  r2 ← sys (Unmount (om_baseDir om) MNT_DETACH);
  r3 ← sys (RemoveAll (om_baseDir om));
  let collectedErrors := unmount_error "merged dir" (om_mergedDir om) r1 ++
                         unmount_error "tmpfs base" (om_baseDir om) r2 ++
                         remove_error (om_baseDir om) r3 in
  match collectedErrors with
  | e :: _ => mret (Err e)
  | [] => mret (Ok tt)
  end.
