(* ===== verification/Resources.v ===== *)
(** * What a program holds of the system's resources

    Two views of the mount points, directories, descriptors and processes that the calls of
    a program have made.  [resources] is the program's: what was obtained and no call was
    made to give back yet, and the files written.  [machine] is the system's: what is
    there, by the answers of the calls, with what it refused to give back.  [tracks] says
    that they differ only in what was refused, and every call keeps it so
    ([tracks_step]): what is proved of the program's view is used to say what is there.
    Then how the parts of the sandbox package (overlay, cgroup) change the first. *)

From S2P Require Import Prelude GoStrings GoStrconv GoPath Effects OS Cgroup Overlay.
#[local] Open Scope go_scope.

Record resources := {
  rs_mounts : list string;
  rs_dirs : list string;
  rs_fds : list Z;
  rs_procs : list Z;
  rs_writes : list (string * string);
}.

#[export] Instance resources_eq_dec : EqDecision resources.
Proof. solve_decision. Defined.

Definition no_resources : resources :=
  {| rs_mounts := []; rs_dirs := []; rs_fds := []; rs_procs := []; rs_writes := [] |}.

Definition with_mounts f s := {| rs_mounts := f (rs_mounts s); rs_dirs := rs_dirs s;
  rs_fds := rs_fds s; rs_procs := rs_procs s; rs_writes := rs_writes s |}.
Definition with_dirs f s := {| rs_mounts := rs_mounts s; rs_dirs := f (rs_dirs s);
  rs_fds := rs_fds s; rs_procs := rs_procs s; rs_writes := rs_writes s |}.
Definition with_fds f s := {| rs_mounts := rs_mounts s; rs_dirs := rs_dirs s;
  rs_fds := f (rs_fds s); rs_procs := rs_procs s; rs_writes := rs_writes s |}.
Definition with_procs f s := {| rs_mounts := rs_mounts s; rs_dirs := rs_dirs s;
  rs_fds := rs_fds s; rs_procs := f (rs_procs s); rs_writes := rs_writes s |}.
Definition with_writes f s := {| rs_mounts := rs_mounts s; rs_dirs := rs_dirs s;
  rs_fds := rs_fds s; rs_procs := rs_procs s; rs_writes := f (rs_writes s) |}.

(** [x] taken out of a list. *)
Definition without {A} `{EqDecision A} (x : A) (l : list A) : list A := filter (fun y => y <> x) l.

(** A directory tree taken out. *)
Definition without_tree (root : string) (l : list string) : list string :=
  filter (fun y => inside root y = false) l.

(** The program's view: a resource is given back when the call is made, since the code
    ignores what the system answers; [machine] below has what is there. *)
Definition res_mon (s : resources) (c : os) (r : ans c) : resources :=
  match c return osans c -> resources with
  | Mount _ target _ _ _ => fun r => if is_ok r then with_mounts (cons target) s else s
  | Unmount target _ => fun _ => with_mounts (without target) s
  | MkdirAll p _ => fun r => if is_ok r then with_dirs (cons p) s else s
  | Remove p => fun _ => with_dirs (without p) s
  | RemoveAll p => fun _ => with_dirs (without_tree p) s
  | StdinPipe | StdoutPipe | StderrPipe => fun r =>
      match r with Ok fd => with_fds (cons fd) s | Err _ => s end
  | CloseFd fd => fun _ => with_fds (without fd) s
  | StartCmd _ _ _ => fun r => match r with Ok pid => with_procs (cons pid) s | Err _ => s end
  | PtyStart _ _ => fun r =>
      match r with Ok (pid, fd) => with_procs (cons pid) (with_fds (cons fd) s) | Err _ => s end
  | KillProcess pid => fun _ => with_procs (without pid) s
  | WaitProcess pid => fun _ => with_procs (without pid) s
  | WaitOrDone _ pid => fun a => match a with ProcDone _ => with_procs (without pid) s | CtxDone _ => s end
  | WriteFile p d _ => fun r => if is_ok r then with_writes (cons (p, d)) s else s
  | _ => fun _ => s
  end r.

(** ** What is there

    Mount points and directories by their paths (a path that is mounted twice counts
    once), the descriptors the program was handed, the number of the child's ends of
    pipes that [exec.Cmd] keeps until the child is started, the running processes, and
    the ended ones that nobody has waited for.  A call that gives something back has an
    effect if it succeeds, but for [close], which always lets the descriptor go; the
    [mc_stuck] lists have what is there although a call to give it back was made since it
    was made, and refused. *)
Record machine := {
  mc_mounts : list string;
  mc_dirs : list string;
  mc_fds : list Z;
  mc_child_ends : nat;
  mc_procs : list Z;
  mc_zombies : list Z;
  mc_stuck_mounts : list string;
  mc_stuck_dirs : list string;
  mc_stuck_procs : list Z;
}.

Definition new_machine : machine :=
  {| mc_mounts := []; mc_dirs := []; mc_fds := []; mc_child_ends := 0; mc_procs := []; mc_zombies := [];
     mc_stuck_mounts := []; mc_stuck_dirs := []; mc_stuck_procs := [] |}.

Definition set_mounts ms stuck k := {| mc_mounts := ms; mc_dirs := mc_dirs k; mc_fds := mc_fds k;
  mc_child_ends := mc_child_ends k; mc_procs := mc_procs k; mc_zombies := mc_zombies k;
  mc_stuck_mounts := stuck; mc_stuck_dirs := mc_stuck_dirs k; mc_stuck_procs := mc_stuck_procs k |}.
Definition set_dirs ds stuck k := {| mc_mounts := mc_mounts k; mc_dirs := ds; mc_fds := mc_fds k;
  mc_child_ends := mc_child_ends k; mc_procs := mc_procs k; mc_zombies := mc_zombies k;
  mc_stuck_mounts := mc_stuck_mounts k; mc_stuck_dirs := stuck; mc_stuck_procs := mc_stuck_procs k |}.
Definition set_fds fs ends k := {| mc_mounts := mc_mounts k; mc_dirs := mc_dirs k; mc_fds := fs;
  mc_child_ends := ends; mc_procs := mc_procs k; mc_zombies := mc_zombies k;
  mc_stuck_mounts := mc_stuck_mounts k; mc_stuck_dirs := mc_stuck_dirs k; mc_stuck_procs := mc_stuck_procs k |}.
Definition set_procs ps zs stuck k := {| mc_mounts := mc_mounts k; mc_dirs := mc_dirs k; mc_fds := mc_fds k;
  mc_child_ends := mc_child_ends k; mc_procs := ps; mc_zombies := zs;
  mc_stuck_mounts := mc_stuck_mounts k; mc_stuck_dirs := mc_stuck_dirs k; mc_stuck_procs := stuck |}.

(** The elements of a list that are one of those that could not be given back. *)
Definition refused {A} `{EqDecision A} (xs there stuck : list A) : list A :=
  filter (fun x => x ∈ there) xs ++ stuck.

Definition started_proc (pid : Z) (k : machine) : machine :=
  set_procs (pid :: mc_procs k) (mc_zombies k) (without pid (mc_stuck_procs k)) k.
Definition reaped (pid : Z) (k : machine) : machine :=
  set_procs (without pid (mc_procs k)) (without pid (mc_zombies k)) (mc_stuck_procs k) k.

Definition sys_mon (k : machine) (c : os) (r : ans c) : machine :=
  match c return osans c -> machine with
  | Mount _ t _ _ _ => fun r =>
      if is_ok r then set_mounts (t :: mc_mounts k) (without t (mc_stuck_mounts k)) k else k
  | Unmount t _ => fun r =>
      if is_ok r then set_mounts (without t (mc_mounts k)) (without t (mc_stuck_mounts k)) k
      else set_mounts (mc_mounts k) (refused [t] (mc_mounts k) (mc_stuck_mounts k)) k
  | MkdirAll p _ => fun r =>
      if is_ok r then set_dirs (p :: mc_dirs k) (without p (mc_stuck_dirs k)) k else k
  | Remove p => fun r =>
      if is_ok r then set_dirs (without p (mc_dirs k)) (without p (mc_stuck_dirs k)) k
      else set_dirs (mc_dirs k) (refused [p] (mc_dirs k) (mc_stuck_dirs k)) k
  | RemoveAll p => fun r =>
      if is_ok r then set_dirs (without_tree p (mc_dirs k)) (without_tree p (mc_stuck_dirs k)) k
      else set_dirs (mc_dirs k) (filter (fun d => inside p d = true) (mc_dirs k) ++ mc_stuck_dirs k) k
  | StdinPipe | StdoutPipe | StderrPipe => fun r =>
      match r with Ok fd => set_fds (fd :: mc_fds k) (S (mc_child_ends k)) k | Err _ => k end
  | CloseFd fd => fun _ => set_fds (without fd (mc_fds k)) (mc_child_ends k) k
  | StartCmd _ _ _ => fun r =>
      let k := set_fds (mc_fds k) 0 k in
      match r with Ok pid => started_proc pid k | Err _ => k end
  | PtyStart _ _ => fun r =>
      match r with
      | Ok (pid, fd) => started_proc pid (set_fds (fd :: mc_fds k) (mc_child_ends k) k)
      | Err _ => k
      end
  | KillProcess pid => fun r =>
      if is_ok r then set_procs (without pid (mc_procs k)) (filter (fun p => p = pid) (mc_procs k) ++ mc_zombies k)
                        (without pid (mc_stuck_procs k)) k
      else set_procs (mc_procs k) (mc_zombies k) (refused [pid] (mc_procs k) (mc_stuck_procs k)) k
  | WaitProcess pid => fun _ => reaped pid k
  | WaitOrDone _ pid => fun a => match a with ProcDone _ => reaped pid k | CtxDone _ => k end
  | _ => fun _ => k
  end r.

(** What is there is what the program has, and what the system refused to give back. *)
Record tracks (s : resources) (k : machine) : Prop := {
  tr_mounts m : m ∈ mc_mounts k -> m ∈ rs_mounts s \/ m ∈ mc_stuck_mounts k;
  tr_dirs d : d ∈ mc_dirs k -> d ∈ rs_dirs s \/ d ∈ mc_stuck_dirs k;
  tr_procs p : p ∈ mc_procs k -> p ∈ rs_procs s \/ p ∈ mc_stuck_procs k;
  tr_fds : mc_fds k = rs_fds s;
  tr_has_mounts m : m ∈ rs_mounts s -> m ∈ mc_mounts k;
  tr_has_dirs d : d ∈ rs_dirs s -> d ∈ mc_dirs k;
  tr_has_procs p : p ∈ rs_procs s -> p ∈ mc_procs k;
}.

Lemma tracks_new : tracks no_resources new_machine.
Proof. split; try done; intros x Hx; by apply elem_of_nil in Hx. Qed.

Lemma elem_of_without {A} `{EqDecision A} (x y : A) l : y ∈ without x l <-> y <> x /\ y ∈ l.
Proof. unfold without. by rewrite list_elem_of_filter. Qed.

Lemma elem_of_without_tree root d l : d ∈ without_tree root l <-> inside root d = false /\ d ∈ l.
Proof. unfold without_tree. by rewrite list_elem_of_filter. Qed.

Lemma elem_of_refused {A} `{EqDecision A} (x y : A) there stuck :
  y ∈ refused [x] there stuck <-> (y = x /\ y ∈ there) \/ y ∈ stuck.
Proof. unfold refused. rewrite elem_of_app, list_elem_of_filter, list_elem_of_singleton. tauto. Qed.

Create Rewrite HintDb tracks.
#[export] Hint Rewrite @elem_of_without elem_of_without_tree @elem_of_refused @elem_of_cons
  @elem_of_app @list_elem_of_filter : tracks.

Lemma tracks_step s k (c : os) (r : ans c) : tracks s k -> tracks (res_mon s c r) (sys_mon k c r).
Proof.
  intros [Hm Hd Hp Hf Hm' Hd' Hp'].
  destruct c; try exact (Build_tracks _ _ Hm Hd Hp Hf Hm' Hd' Hp'); cbn in r; cbn [res_mon sys_mon];
    repeat case_match; simplify_eq/=; try exact (Build_tracks _ _ Hm Hd Hp Hf Hm' Hd' Hp').
  all: split; simpl; try congruence; intros x; try exact (Hm x); try exact (Hd x); try exact (Hp x);
    try exact (Hm' x); try exact (Hd' x); try exact (Hp' x).
  all: autorewrite with tracks; try specialize (Hm x); try specialize (Hd x); try specialize (Hp x);
    try specialize (Hm' x); try specialize (Hd' x); try specialize (Hp' x).
  all: repeat match goal with
    | |- context [?x = ?y] =>
        is_var x; is_var y; assert_fails (assert (x <> y) by assumption); destruct (decide (x = y)); [subst x |]
    | |- context [inside ?p ?x] => destruct (inside p x)
    end; intuition congruence.
Qed.

Lemma tracks_trace s k tr : tracks s k -> tracks (mon_trace res_mon s tr) (mon_trace sys_mon k tr).
Proof.
  revert s k. induction tr as [|[c r] tr IH]; intros s k Ht; [done |]. by apply IH, tracks_step.
Qed.

(** The machine after a program that started on a new one. *)
Definition machine_after (tr : list (event os)) : machine := mon_trace sys_mon new_machine tr.

Lemma tracks_after tr : tracks (mon_trace res_mon no_resources tr) (machine_after tr).
Proof. apply tracks_trace, tracks_new. Qed.

(** Stepping with the ghost state computed, as a record. *)
Ltac res_state :=
  lazymatch goal with
  | |- wp res_mon ?p ?s ?Q =>
      let s' := eval cbv beta iota delta [with_mounts with_dirs with_fds with_procs with_writes
        rs_mounts rs_dirs rs_fds rs_procs rs_writes is_ok] in s in
      change (wp res_mon p s' Q)
  | _ => idtac
  end.
Ltac res_step := wp_step_with ltac:(fun _ => cbn [res_mon is_ok]; res_state).

(** ** The overlay's part *)

Definition overlay_gone (om : OverlayManager) (s : resources) : resources :=
  with_dirs (without_tree (om_baseDir om))
    (with_mounts (without (om_baseDir om)) (with_mounts (without (om_mergedDir om)) s)).

Lemma wp_OverlayCleanup om s :
  wp res_mon (OverlayCleanup om) s (fun s' _ => s' = overlay_gone om s).
Proof. unfold OverlayCleanup. wp_steps; reflexivity. Qed.

(** The identifiers the program makes are plain path components. *)
Lemma layer_paths id mb : plain id ->
  om_baseDir (layer id mb) = "/run/gojail/layers/" +:+ id /\
  om_upperDir (layer id mb) = "/run/gojail/layers/" +:+ id +:+ "/upper" /\
  om_workDir (layer id mb) = "/run/gojail/layers/" +:+ id +:+ "/work" /\
  om_mergedDir (layer id mb) = "/run/gojail/layers/" +:+ id +:+ "/merged".
Proof.
  intros Hid. cbn [layer om_baseDir om_upperDir om_workDir om_mergedDir].
  assert (forall c, plain c -> c <> "" -> PathJoin [layersRoot; c] = "/run/gojail/layers/" +:+ c) as Hb.
  { intros c Hc _. apply (PathJoin_plain ["run"; "gojail"; "layers"] c); [| done | done].
    repeat (constructor; [done |]). constructor. }
  rewrite Hb by (done || apply Hid). split; [done |].
  assert (forall c, plain c -> PathJoin ["/run/gojail/layers/" +:+ id; c] =
            "/run/gojail/layers/" +:+ id +:+ "/" +:+ c) as Hc.
  { intros c Hc. pose proof (PathJoin_plain ["run"; "gojail"; "layers"; id] c) as E.
    change ("/" +:+ Join ["run"; "gojail"; "layers"; id] "/") with ("/run/gojail/layers/" +:+ id) in E.
    rewrite E; [by rewrite app_str_assoc | | done | done].
    repeat (constructor; [done |]). constructor. }
  split; [by apply (Hc "upper") |]. split; [by apply (Hc "work") | by apply (Hc "merged")].
Qed.

Lemma without_cons {A} `{EqDecision A} (x : A) l : without x (x :: l) = without x l.
Proof. unfold without. by rewrite filter_cons_False by auto. Qed.

Lemma without_idemp {A} `{EqDecision A} (x : A) l : without x (without x l) = without x l.
Proof. unfold without. rewrite list_filter_filter. apply list_filter_iff. tauto. Qed.

Lemma without_cons_ne {A} `{EqDecision A} (x y : A) l : y <> x -> without x (y :: l) = y :: without x l.
Proof. intros H. unfold without. by rewrite filter_cons_True. Qed.

Lemma without_comm {A} `{EqDecision A} (x y : A) l : without x (without y l) = without y (without x l).
Proof. unfold without. rewrite !list_filter_filter. apply list_filter_iff. tauto. Qed.

Lemma without_tree_cons root d l : inside root d = true -> without_tree root (d :: l) = without_tree root l.
Proof. intros H. unfold without_tree. rewrite filter_cons_False; [done | congruence]. Qed.

Lemma without_tree_cons_out root d l :
  inside root d = false -> without_tree root (d :: l) = d :: without_tree root l.
Proof. intros H. unfold without_tree. by rewrite filter_cons_True. Qed.

Lemma without_tree_idemp root l : without_tree root (without_tree root l) = without_tree root l.
Proof. unfold without_tree. rewrite list_filter_filter. apply list_filter_iff. tauto. Qed.

#[export] Hint Rewrite @without_cons @without_idemp without_tree_idemp : gojail.
#[export] Hint Rewrite without_tree_cons using (assumption || apply inside_refl) : gojail.

(** Both sides as records, in normal form. *)
Ltac res_norm :=
  cbv beta iota delta [overlay_gone with_mounts with_dirs with_fds with_procs with_writes
    rs_mounts rs_dirs rs_fds rs_procs rs_writes app]; autorewrite with gojail.

(** What a layer adds. *)
Definition layer_made (om : OverlayManager) (s : resources) : resources :=
  with_dirs (fun l => PathJoin [om_upperDir om; "tmp"] :: om_mergedDir om :: om_workDir om ::
                      om_upperDir om :: om_baseDir om :: l)
    (with_mounts (cons (om_baseDir om)) s).

Lemma layer_tmp id mb : plain id ->
  PathJoin [om_upperDir (layer id mb); "tmp"] = "/run/gojail/layers/" +:+ id +:+ "/upper/tmp".
Proof.
  intros Hid. destruct (layer_paths id mb Hid) as (_ & -> & _).
  assert (("/run/gojail/layers/" +:+ id +:+ "/upper") =
          "/" +:+ Join ["run"; "gojail"; "layers"; id; "upper"] "/") as -> by done.
  rewrite PathJoin_plain; [| | done | done].
  - change ("/" +:+ Join ["run"; "gojail"; "layers"; id; "upper"] "/") with
      ("/run/gojail/layers/" +:+ id +:+ "/upper"). rewrite !app_str_assoc. done.
  - repeat (constructor; [done |]). constructor.
Qed.

(** Everything of a layer lies below its base. *)
Lemma layer_inside id mb : plain id ->
  let om := layer id mb in
  inside (om_baseDir om) (om_upperDir om) = true /\ inside (om_baseDir om) (om_workDir om) = true /\
  inside (om_baseDir om) (om_mergedDir om) = true /\
  inside (om_baseDir om) (PathJoin [om_upperDir om; "tmp"]) = true.
Proof.
  intros Hid om. unfold om. rewrite layer_tmp by done.
  destruct (layer_paths id mb Hid) as (-> & -> & -> & ->).
  assert (forall x, "/run/gojail/layers/" +:+ id +:+ "/" +:+ x =
            ("/run/gojail/layers/" +:+ id) +:+ "/" +:+ x) as E by (intros x; by rewrite app_str_assoc).
  change (id +:+ "/upper/tmp") with (id +:+ "/" +:+ "upper/tmp").
  change (id +:+ "/upper") with (id +:+ "/" +:+ "upper").
  change (id +:+ "/work") with (id +:+ "/" +:+ "work").
  change (id +:+ "/merged") with (id +:+ "/" +:+ "merged").
  rewrite !E, !inside_app. done.
Qed.

Lemma layer_base id mb mb' : om_baseDir (layer id mb) = om_baseDir (layer id mb').
Proof. done. Qed.

(** A new layer stands on cleaned ground; a failed one leaves nothing of itself. *)
Lemma wp_NewOverlayManager id mb s : plain id ->
  wp res_mon (NewOverlayManager id mb) s (fun s' r =>
    match r with
    | Ok om => om = layer id (if mb <=? 0 then 64 else mb) /\ s' = layer_made om (overlay_gone om s)
    | Err _ => s' = overlay_gone (layer id mb) s
    end).
Proof.
  intros Hid. destruct s as [ms ds fs ps ws]. unfold NewOverlayManager. set (mb' := if mb <=? 0 then 64 else mb).
  destruct (layer_inside id mb' Hid) as (Hu & Hw & Hm & Ht).
  change (overlay_gone (layer id mb)) with (overlay_gone (layer id mb')).
  set (om := layer id mb') in *. cbv zeta. unfold layer_made.
  clearbody om. cbn [forErr].
  repeat res_step; res_norm; first [reflexivity | by split].
Qed.

Lemma wp_OverlayMount om s :
  wp res_mon (OverlayMount om) s (fun s' r =>
    match r with
    | Ok root => root = om_mergedDir om /\ s' = with_mounts (cons (om_mergedDir om)) s
    | Err _ => s' = s
    end).
Proof. unfold OverlayMount. repeat res_step; by repeat split. Qed.

(** ** The cgroup's part *)

(** Only more files are written. *)
Definition wrote (ws : list (string * string)) (s : resources) : resources := with_writes (app ws) s.

Lemma wrote_nil s : wrote [] s = s.
Proof. by destruct s. Qed.

Lemma wrote_wrote ws1 ws2 s : wrote ws1 (wrote ws2 s) = wrote (ws1 ++ ws2) s.
Proof. unfold wrote, with_writes. simpl. by rewrite app_assoc. Qed.

Definition cg_gone (cg : CgroupController) (s : resources) : resources :=
  with_dirs (without (cg_cgroupPath cg)) s.

Lemma kill_pid_neutral p : neutral res_mon (kill_pid p).
Proof. unfold kill_pid. neutral_steps. Qed.

Lemma wp_CgroupCleanup cg s :
  wp res_mon (CgroupCleanup cg) s (fun s' _ => s' = cg_gone cg s).
Proof.
  unfold CgroupCleanup. wp_step. eapply wp_mono with (Q := fun s' _ => s' = s).
  - intros s' u ->. repeat res_step. done.
  - wp_frame. neutral_steps. apply kill_pid_neutral.
Qed.

Lemma wp_enable s :
  wp res_mon (mbind (fun r => match r with
      | Ok data => enable_controllers (PathJoin [defaultCgroupRoot; "cgroup.subtree_control"]) (Fields data)
      | Err _ => mret tt
      end) (sys (ReadFile (PathJoin [defaultCgroupRoot; "cgroup.controllers"])))) s
    (fun s' _ => exists ws, s' = wrote ws s).
Proof.
  res_step. res_step; [| res_step; exists []; by rewrite wrote_nil].
  unfold enable_controllers.
  apply (wp_foldM _ _ _ _ _ (fun _ s' _ => exists ws, s' = wrote ws s)).
  - exists []. by rewrite wrote_nil.
  - intros f fs s' [] [ws ->]. repeat res_step; [| by exists ws].
    eexists (_ :: ws). reflexivity.
  - by intros s' u Hs.
Qed.

Lemma wp_NewCgroupController id s :
  wp res_mon (NewCgroupController id) s (fun s' r =>
    match r with
    | Ok cg => cg_id cg = id /\ cg_cgroupPath cg = PathJoin [defaultCgroupRoot; id] /\
        exists ws, s' = wrote ws (with_dirs (fun l => cg_cgroupPath cg :: defaultCgroupRoot :: l) s)
    | Err _ => exists ws ds, (ds = [] \/ ds = [defaultCgroupRoot]) /\
        s' = wrote ws (with_dirs (app ds) s)
    end).
Proof.
  unfold NewCgroupController.
  res_step. res_step; [| res_step; exists [], []; split; [by left | by rewrite wrote_nil; destruct s]].
  cbv zeta. res_step. eapply wp_mono; [| apply (wp_enable (with_dirs (cons defaultCgroupRoot) s))].
  intros s' u (ws & ->). cbv beta.
  res_step. res_step; [| res_step; exists ws, [defaultCgroupRoot]; by split; [right |]].
  repeat res_step. split; [done |]. split; [done |]. by exists ws.
Qed.

Lemma wp_ApplyLimits cg mem pids s : 0 < mem -> 0 < pids ->
  wp res_mon (ApplyLimits cg mem pids) s (fun s' r => exists ws, s' = wrote ws s /\
    (r = Ok tt -> ws = [(cg_file cg "pids.max", Itoa pids); (cg_file cg "memory.max", Itoa mem)])).
Proof.
  intros Hm Hp. unfold ApplyLimits.
  rewrite (proj2 (Z.ltb_lt 0 mem)), (proj2 (Z.ltb_lt 0 pids)) by done.
  repeat res_step; [by exists [(cg_file cg "pids.max", Itoa pids); (cg_file cg "memory.max", Itoa mem)] | |].
  - by exists [(cg_file cg "memory.max", Itoa mem)].
  - exists []. by rewrite wrote_nil.
Qed.

Lemma wp_AttachPID cg pid s :
  wp res_mon (AttachPID cg pid) s (fun s' r =>
    s' = wrote (if is_ok r then [(cg_file cg "cgroup.procs", Itoa pid)] else []) s).
Proof. unfold AttachPID. repeat res_step; [done | by rewrite wrote_nil]. Qed.

Lemma wp_Freeze cg s :
  wp res_mon (Freeze cg) s (fun s' r =>
    s' = wrote (if is_ok r then [(cg_file cg "cgroup.freeze", "1")] else []) s).
Proof. unfold Freeze. repeat res_step; [done | by rewrite wrote_nil]. Qed.

Lemma wp_Thaw cg s :
  wp res_mon (Thaw cg) s (fun s' r =>
    s' = wrote (if is_ok r then [(cg_file cg "cgroup.freeze", "0")] else []) s).
Proof. unfold Thaw. repeat res_step; [done | by rewrite wrote_nil]. Qed.
