(* ===== verification/Pool.v ===== *)
(** * Warm workers and the pool (src/pkg/sandbox/pool.go)

    A worker is a jailed child process that waits for a script, with its pipes (or its
    pseudo-terminal), its cgroup and its overlay.  The pool keeps idle workers in a
    buffered channel; its concurrency is a step relation. *)

From S2P Require Import Prelude GoStrings GoStrconv GoPath Effects OS.
From S2P Require Import SandboxConfig Cgroup Overlay Resources.
#[local] Open Scope go_scope.

(** ** Workers *)

(** [w_cmd] is the pid of the started command; [spawnWorker], which makes every worker,
    sets it, the cgroup and the overlay.  An absent pipe or pty is a nil interface. *)
Record Worker := {
  w_ID : string;
  w_StorageMB : Z;
  w_rootPath : string;
  w_cmd : Z;
  w_stdin : option Z;
  w_stdoutR : option Z;
  w_stderrR : option Z;
  w_cgroup : CgroupController;
  w_overlay : OverlayManager;
  w_ptyMaster : option Z;
}.

Definition PID (w : Worker) : Z := w_cmd w.
Definition RootPath (w : Worker) : string := w_rootPath w.

Definition close_opt (fd : option Z) : io unit :=
  match fd with Some fd => do_ sys (CloseFd fd);; mret tt | None => mret tt end.

Definition Destroy (w : Worker) : io unit :=
  do_ Thaw (w_cgroup w);;
  do_ close_opt (w_stdin w);;
  do_ close_opt (w_stdoutR w);;
  do_ close_opt (w_stderrR w);;
  do_ close_opt (w_ptyMaster w);;
  do_ sys (KillProcess (w_cmd w));;
  do_ sys (WaitProcess (w_cmd w));;
  do_ CgroupCleanup (w_cgroup w);;
  do_ OverlayCleanup (w_overlay w);;
  mret tt.

(** ** Spawning *)

Definition workerEnv : list string :=
  ["PATH=/usr/local/sbin:/usr/local/bin:/usr/sbin:/usr/bin:/sbin:/bin"; "HOME=/tmp";
   "TERM=xterm-256color"].

Definition target_of (initialCmd : list string) : string * list string :=
  match initialCmd with
  | [] => ("/bin/sh", ["-s"])
  | c :: args => (c, args)
  end.

Definition worker_config (workerID : string) (storageMB : Z) (targetRoot : string)
    (mounts : list MountSpec) (isTTY : bool) (initialCmd : list string) : Config :=
  {| cfg_ID := workerID; cfg_MemoryLimitBytes := 0; cfg_MaxProcesses := 0;
     cfg_StorageLimitMB := storageMB; cfg_Timeout := 0;
     cfg_Command := (target_of initialCmd).1; cfg_Args := (target_of initialCmd).2;
     cfg_Env := workerEnv; cfg_RootPath := targetRoot; cfg_Rootfs := ""; cfg_Mounts := mounts;
     cfg_TTY := isTTY; cfg_SeccompProfile := ""; cfg_NetworkMode := ""; cfg_PortMappings := [];
     cfg_DNSServers := [] |}.

Definition worker_cloneflags : Z :=
  Z.lor (Z.lor (Z.lor (Z.lor CLONE_NEWNS CLONE_NEWPID) CLONE_NEWUTS) CLONE_NEWIPC) CLONE_NEWNET.

Definition worker_id (now : Z) : string := "warm-" +:+ Itoa now.

Section spawn.
(** [json.Marshal] of a configuration. *)
Variable MarshalConfig : Config -> result string.

(** Giving back what a failed spawn holds, in the order of the source. *)
Definition drop_cg_ov (cg : CgroupController) (overlay : OverlayManager) : io unit :=
  do_ CgroupCleanup cg;; do_ OverlayCleanup overlay;; mret tt.

Definition spawnWorker (storageMB : Z) (mounts : list MountSpec) (isTTY : bool)
    (initialCmd : list string) : io (result Worker) :=
  now ← sys Now;
  let workerID := worker_id now in
  let? overlay := NewOverlayManager workerID storageMB onerr e =>
    mret (Err (WrapErr "overlay init error" e)) in
  let? targetRoot := OverlayMount overlay onerr e =>
    (do_ OverlayCleanup overlay;; mret (Err (WrapErr "overlay mount error" e))) in
  let? cg := NewCgroupController workerID onerr e =>
    (do_ OverlayCleanup overlay;; mret (Err (WrapErr "cgroup init error" e))) in
  let? _ := ApplyLimits cg (128 * 1024 * 1024) 64 onerr e =>
    (do_ drop_cg_ov cg overlay;; mret (Err (WrapErr "failed to apply cgroup limits" e))) in
  let? selfBin := sys Executable onerr e =>
    (do_ drop_cg_ov cg overlay;; mret (Err (WrapErr "failed to resolve binary path" e))) in
  match MarshalConfig (worker_config workerID storageMB targetRoot mounts isTTY initialCmd) with
  | Err e => do_ drop_cg_ov cg overlay;; mret (Err (WrapErr "failed to marshal worker config" e))
  | Ok cfgBytes =>
      let argv := [selfBin; "__init_child__"; cfgBytes] in
      if isTTY then
        let? started := sys (PtyStart argv worker_cloneflags) onerr e =>
          (do_ drop_cg_ov cg overlay;; mret (Err (WrapErr "failed to allocate pty" e))) in
        let '(pid, ptmx) := started in
        let? _ := AttachPID cg pid onerr e =>
          (do_ sys (KillProcess pid);; do_ sys (CloseFd ptmx);; do_ drop_cg_ov cg overlay;;
           mret (Err (WrapErr "failed to attach pty process to cgroup" e))) in
        mret (Ok {| w_ID := workerID; w_StorageMB := storageMB; w_rootPath := targetRoot;
                    w_cmd := pid; w_stdin := None; w_stdoutR := None; w_stderrR := None;
                    w_cgroup := cg; w_overlay := overlay; w_ptyMaster := Some ptmx |})
      else
        let? stdinPipe := sys StdinPipe onerr e =>
          (do_ drop_cg_ov cg overlay;; mret (Err (WrapErr "failed to open stdin pipe" e))) in
        let? stdoutPipe := sys StdoutPipe onerr e =>
          (do_ sys (CloseFd stdinPipe);; do_ drop_cg_ov cg overlay;;
           mret (Err (WrapErr "failed to open stdout pipe" e))) in
        let? stderrPipe := sys StderrPipe onerr e =>
          (do_ sys (CloseFd stdinPipe);; do_ sys (CloseFd stdoutPipe);; do_ drop_cg_ov cg overlay;;
           mret (Err (WrapErr "failed to open stderr pipe" e))) in
        let close3 := do_ sys (CloseFd stdinPipe);; do_ sys (CloseFd stdoutPipe);;
                      do_ sys (CloseFd stderrPipe);; mret tt in
        let? pid := sys (StartCmd argv worker_cloneflags []) onerr e =>
          (do_ close3;; do_ drop_cg_ov cg overlay;;
           mret (Err (WrapErr "failed to start warm worker" e))) in
        let? _ := AttachPID cg pid onerr e =>
          (do_ sys (KillProcess pid);; do_ close3;; do_ drop_cg_ov cg overlay;;
           mret (Err (WrapErr "failed to attach warm worker to cgroup" e))) in
        let? _ := Freeze cg onerr e =>
          (do_ sys (KillProcess pid);; do_ close3;; do_ drop_cg_ov cg overlay;;
           mret (Err (WrapErr "failed to freeze warm worker" e))) in
        mret (Ok {| w_ID := workerID; w_StorageMB := storageMB; w_rootPath := targetRoot;
                    w_cmd := pid; w_stdin := Some stdinPipe; w_stdoutR := Some stdoutPipe;
                    w_stderrR := Some stderrPipe; w_cgroup := cg; w_overlay := overlay;
                    w_ptyMaster := None |})
  end.
End spawn.

(** ** Running a worker *)

Definition Resize (w : Worker) (rows cols : Z) : io (result unit) :=
  match w_ptyMaster w with
  | None => mret (Err (NewErr "cannot resize non-pty worker"))
  | Some fd => sys (PtySetsize fd rows cols)
  end.

Definition WriteInput (w : Worker) (data : string) : io (result unit) :=
  match w_ptyMaster w with
  | None => mret (Err (NewErr "cannot write input to non-pty worker"))
  | Some fd => sys (WriteString fd data)
  end.

(** What the reading goroutines hand to the callbacks: every read of at least one byte,
    until the first error of its descriptor. *)
Fixpoint pump (live : list Z) (reads : list (Z * string * bool)) : list (Z * string) :=
  match reads with
  | [] => []
  | (fd, chunk, err) :: reads =>
      if bool_decide (fd ∈ live) then
        (if (0 <? String.length chunk)%nat then [(fd, chunk)] else []) ++
        pump (if (err : bool) then without fd live else live) reads
      else pump live reads
  end.

Definition cleanup_worker (w : Worker) : io unit :=
  do_ CgroupCleanup (w_cgroup w);; do_ OverlayCleanup (w_overlay w);; mret tt.

(** [errors.As(waitErr, &exitErr)], [exitErr.ExitCode()] *)
Definition as_exit (e : error) : option Z :=
  match unwrap e with ExitError n _ => Some n | _ => None end.

Definition exec_result (exitCode duration : Z) (timedOut : bool) (m : ResourceMetrics) : Result :=
  {| res_ExitCode := exitCode; res_Stdout := ""; res_Stderr := ""; res_Duration := duration;
     res_TimedOut := timedOut; res_Metrics := m |}.

(** The wait: the error and whether the context ended first; the process is killed then. *)
Definition wait_or_kill (ctx pid : Z) : io (option error * bool) :=
  a ← sys (WaitOrDone ctx pid);
  match a with
  | CtxDone e => do_ sys (KillProcess pid);; mret (Some e, true)
  | ProcDone e => mret (e, false)
  end.

(** The output handed to [OnOutput], in order, and the result. *)
Definition ExecutePTY (w : Worker) (ctx : Z) : io (result Result * list (Z * string)) :=
  defer (do_ close_opt (w_ptyMaster w);; do_ cleanup_worker w;; mret tt)
    (start ← sys Now;
     we ← wait_or_kill ctx (w_cmd w);
     do_ close_opt (w_ptyMaster w);;
     let fds := match w_ptyMaster w with Some fd => [fd] | None => [] end in
     reads ← sys (PumpReads fds);
     now ← sys Now;
     let duration := time_Sub now start in
     metrics ← ReadMetrics (w_cgroup w);
     let exitCode :=
       match fst we with
       | None => 0
       | Some e => match as_exit e with
                   | Some n => n
                   | None => if (snd we : bool) then 124 else 0
                   end
       end in
     mret (Ok (exec_result exitCode duration (snd we) metrics), pump fds reads)).

Definition ExecuteStream (w : Worker) (ctx : Z) (script : string) :
    io (result Result * list (Z * string)) :=
  defer (cleanup_worker w)
    (start ← sys Now;
     r ← Thaw (w_cgroup w);
     match r with
     | Err e => do_ sys (KillProcess (w_cmd w));;
                mret (Err (WrapErr "failed to thaw worker cgroup" e), [])
     | Ok _ =>
         r ← sys (WriteString (default (-1) (w_stdin w)) (script +:+ String newline ("exit" +:+ String newline "")));
         match r with
         | Err e => do_ sys (KillProcess (w_cmd w));;
                    mret (Err (WrapErr "failed to write payload to warm worker" e), [])
         | Ok _ =>
             do_ close_opt (w_stdin w);;
             let fds := [default (-1) (w_stdoutR w); default (-1) (w_stderrR w)] in
             we ← wait_or_kill ctx (w_cmd w);
             reads ← sys (PumpReads fds);
             now ← sys Now;
             let duration := time_Sub now start in
             metrics ← ReadMetrics (w_cgroup w);
             let ok := fun exitCode =>
               (Ok (exec_result exitCode duration (snd we) metrics), pump fds reads) in
             match fst we with
             | None => mret (ok 0)
             | Some e =>
                 match as_exit e with
                 | Some n => mret (ok n)
                 | None => if (snd we : bool) then mret (ok 124)
                           else mret (Err (WrapErr "worker execution error" e), pump fds reads)
                 end
             end
         end
     end).

(** ** A spawn holds exactly what its worker holds *)

Lemma worker_id_plain now : plain (worker_id now).
Proof.
  unfold plain, worker_id. split; [done |]. split; [done |]. split; [done |].
  rewrite no_char_app. simpl. by apply Itoa_no_char.
Qed.

(** What remains after an error: nothing but the directory shared by all cgroups. *)
Definition nothing_left (s : resources) : Prop :=
  rs_mounts s = [] /\ rs_fds s = [] /\ rs_procs s = [] /\
  Forall (fun d => d = defaultCgroupRoot) (rs_dirs s).

(** The pipes or the pseudo-terminal of a worker. *)
Definition worker_fds (w : Worker) : list Z :=
  omap id [w_stderrR w; w_stdoutR w; w_stdin w; w_ptyMaster w].

(** What the worker of a successful spawn holds, and that its cgroup was limited before
    the process was attached to it and, without a pseudo-terminal, frozen. *)
Definition worker_ready (isTTY : bool) (w : Worker) (s : resources) : Prop :=
  rs_mounts s = [om_mergedDir (w_overlay w); om_baseDir (w_overlay w)] /\
  rs_procs s = [w_cmd w] /\ rs_fds s = worker_fds w /\
  w_rootPath w = om_mergedDir (w_overlay w) /\
  exists ws, rs_writes s =
    (if isTTY then [] else [(cg_file (w_cgroup w) "cgroup.freeze", "1")]) ++
    [(cg_file (w_cgroup w) "cgroup.procs", Itoa (w_cmd w));
     (cg_file (w_cgroup w) "pids.max", "64");
     (cg_file (w_cgroup w) "memory.max", "134217728")] ++ ws.

(** The same, of the machine: nothing is there but what the system refused to give back. *)
Definition nothing_there (k : machine) : Prop :=
  (forall m, m ∈ mc_mounts k -> m ∈ mc_stuck_mounts k) /\
  (forall d, d ∈ mc_dirs k -> d = defaultCgroupRoot \/ d ∈ mc_stuck_dirs k) /\
  (forall p, p ∈ mc_procs k -> p ∈ mc_stuck_procs k) /\
  mc_fds k = [].

Lemma nothing_left_there s k : tracks s k -> nothing_left s -> nothing_there k.
Proof.
  intros Ht (Hm & Hf & Hp & Hd). rewrite Forall_forall in Hd. split; [| split; [| split]].
  - intros m [Hin | ?]%(tr_mounts _ _ Ht); [| done]. rewrite Hm in Hin. by apply elem_of_nil in Hin.
  - intros d [Hin%Hd | ?]%(tr_dirs _ _ Ht); auto.
  - intros p [Hin | ?]%(tr_procs _ _ Ht); [| done]. rewrite Hp in Hin. by apply elem_of_nil in Hin.
  - by rewrite (tr_fds _ _ Ht).
Qed.

(** A worker's mounts, process and descriptors are there. *)
Definition worker_there (w : Worker) (k : machine) : Prop :=
  let mounts := [om_mergedDir (w_overlay w); om_baseDir (w_overlay w)] in
  (forall m, m ∈ mounts -> m ∈ mc_mounts k) /\
  (forall m, m ∈ mc_mounts k -> m ∈ mounts \/ m ∈ mc_stuck_mounts k) /\
  w_cmd w ∈ mc_procs k /\ (forall p, p ∈ mc_procs k -> p = w_cmd w \/ p ∈ mc_stuck_procs k) /\
  mc_fds k = worker_fds w.

Lemma worker_held_there w s k : tracks s k ->
  rs_mounts s = [om_mergedDir (w_overlay w); om_baseDir (w_overlay w)] /\ rs_procs s = [w_cmd w] /\
  rs_fds s = worker_fds w -> worker_there w k.
Proof.
  intros Ht (Hm & Hp & Hf). unfold worker_there. rewrite <- Hm. split; [apply Ht |]. split; [apply Ht |].
  split; [apply (tr_has_procs _ _ Ht); rewrite Hp; by left |]. split; [| by rewrite (tr_fds _ _ Ht)].
  intros p Hin%(tr_procs _ _ Ht). rewrite Hp, list_elem_of_singleton in Hin. done.
Qed.

Section leak.
Variable id : string.
Variable mb : Z.
Hypothesis Hid : plain id.

Lemma layer_dirs d : d ∈ rs_dirs (layer_made (layer id mb) no_resources) ->
  inside (om_baseDir (layer id mb)) d = true.
Proof using Hid.
  destruct (layer_inside id mb Hid) as (Hu & Hw & Hmg & Ht).
  unfold layer_made, no_resources. cbn [rs_dirs with_dirs with_mounts].
  rewrite !elem_of_cons, elem_of_nil.
  intros [-> | [-> | [-> | [-> | [-> | []]]]]]; try done. apply inside_refl.
Qed.

Lemma without_both {A} `{EqDecision A} (a b : A) l :
  (forall x, x ∈ l -> x = b \/ x = a) -> without a (without b l) = [].
Proof using.
  clear. intros H. destruct (without a (without b l)) as [|x l'] eqn:E; [done |].
  assert (x ∈ without a (without b l)) as Hx by (rewrite E; by left).
  unfold without in Hx. apply list_elem_of_filter in Hx as [Ha [Hb Hx]%list_elem_of_filter].
  by destruct (H x Hx).
Qed.

(** What there is between the making of the layer and the end: its mounts, and
    directories that are the layer's, the cgroup's ([gone]) or shared. *)
Definition in_spawn (gone : string) (s : resources) : Prop :=
  (forall x, x ∈ rs_mounts s -> x = om_mergedDir (layer id mb) \/ x = om_baseDir (layer id mb)) /\
  (forall d, d ∈ rs_dirs s ->
     d = defaultCgroupRoot \/ d = gone \/ inside (om_baseDir (layer id mb)) d = true).

Lemma overlay_gone_left s :
  in_spawn defaultCgroupRoot s -> rs_fds s = [] -> rs_procs s = [] ->
  nothing_left (overlay_gone (layer id mb) s).
Proof using.
  intros [Hm Hds] Hf Hp. unfold nothing_left, overlay_gone.
  cbn [rs_mounts rs_fds rs_procs rs_dirs with_dirs with_mounts].
  split; [by apply without_both | split; [done | split; [done |]]].
  apply Forall_forall. unfold without_tree. intros d [Hd Hin]%list_elem_of_filter.
  destruct (Hds d Hin) as [-> | [-> | Hi]]; congruence.
Qed.

(** After an error before there is a cgroup. *)
Lemma wp_drop_overlay {A} s (e : error) :
  in_spawn defaultCgroupRoot s -> rs_fds s = [] -> rs_procs s = [] ->
  wp res_mon (do_ OverlayCleanup (layer id mb);; mret (Err e)) s
    (fun s' (r : result A) => is_ok r = false /\ nothing_left s').
Proof using.
  intros Hi Hf Hp. res_step. eapply wp_mono; [| apply wp_OverlayCleanup].
  intros s2 a ->. cbv beta. res_step. split; [done | by apply overlay_gone_left].
Qed.

(** After an error, once the processes are killed and the pipes closed. *)
Lemma wp_drop {A} cg s (e : error) :
  in_spawn (cg_cgroupPath cg) s -> rs_fds s = [] -> rs_procs s = [] ->
  wp res_mon (do_ drop_cg_ov cg (layer id mb);; mret (Err e)) s
    (fun s' (r : result A) => is_ok r = false /\ nothing_left s').
Proof using.
  intros [Hm Hds] Hf Hp. unfold drop_cg_ov. res_step. res_step.
  eapply wp_mono; [| apply wp_CgroupCleanup]. intros s' a ->. cbv beta.
  res_step. eapply wp_mono; [| apply wp_OverlayCleanup]. intros s' a' ->. cbv beta.
  res_step. res_step. split; [done |].
  apply overlay_gone_left; [split | done | done]; unfold cg_gone, without; simpl.
  - done.
  - intros d [Hne Hin]%list_elem_of_filter. destruct (Hds d Hin) as [| [|]]; auto.
Qed.
End leak.

Lemma wp_err {A} (Q : resources -> result A -> Prop) p s :
  (forall s' r, is_ok r = false /\ nothing_left s' -> Q s' r) ->
  wp res_mon p s (fun s' r => is_ok r = false /\ nothing_left s') -> wp res_mon p s Q.
Proof. intros HQ. by apply wp_mono. Qed.

(** Nothing remains of a list whose elements were all taken out. *)
Lemma nil_elem {A} (l : list A) : (forall x, x ∉ l) -> l = [].
Proof. destruct l as [|x l]; [done |]. intros H. by destruct (H x (list_elem_of_here x l)). Qed.

Ltac taken_out := apply nil_elem; intros ?x Hx; unfold without in Hx;
  rewrite ?list_elem_of_filter, ?elem_of_cons, ?elem_of_nil in Hx; naive_solver.

(** The state after the layer is mounted and the cgroup made. *)
Definition spawned (om : OverlayManager) (cg : CgroupController) (F P : list Z)
    (ws : list (string * string)) : resources :=
  {| rs_mounts := [om_mergedDir om; om_baseDir om];
     rs_dirs := cg_cgroupPath cg :: defaultCgroupRoot :: rs_dirs (layer_made om no_resources);
     rs_fds := F; rs_procs := P; rs_writes := ws |}.

Lemma spawned_in_spawn id mb cg F P ws : plain id ->
  in_spawn id mb (cg_cgroupPath cg) (spawned (layer id mb) cg F P ws).
Proof.
  intros Hid. split; unfold spawned; cbn [rs_mounts rs_dirs].
  - intros x. rewrite !elem_of_cons, elem_of_nil. tauto.
  - intros d [-> | [-> | Hd]%elem_of_cons]%elem_of_cons; auto. right. right. by apply layer_dirs.
Qed.

Lemma wrote_spawned om cg F P ws ws' : wrote ws' (spawned om cg F P ws) = spawned om cg F P (ws' ++ ws).
Proof. done. Qed.

(** The calls of a spawn on such a state. *)
Section spawned_calls.
Context (om : OverlayManager) (cg : CgroupController) (F P : list Z) (ws : list (string * string)).

Lemma spawned_stdin fd :
  res_mon (spawned om cg F P ws) (StdinPipe : os) (Ok fd) = spawned om cg (fd :: F) P ws.
Proof. done. Qed.
Lemma spawned_stdout fd :
  res_mon (spawned om cg F P ws) (StdoutPipe : os) (Ok fd) = spawned om cg (fd :: F) P ws.
Proof. done. Qed.
Lemma spawned_stderr fd :
  res_mon (spawned om cg F P ws) (StderrPipe : os) (Ok fd) = spawned om cg (fd :: F) P ws.
Proof. done. Qed.
Lemma spawned_pipe_err e :
  res_mon (spawned om cg F P ws) (StdinPipe : os) (Err e) = spawned om cg F P ws /\
  res_mon (spawned om cg F P ws) (StdoutPipe : os) (Err e) = spawned om cg F P ws /\
  res_mon (spawned om cg F P ws) (StderrPipe : os) (Err e) = spawned om cg F P ws.
Proof. done. Qed.
Lemma spawned_start argv fl ex r :
  res_mon (spawned om cg F P ws) (StartCmd argv fl ex : os) r =
  match r with Ok pid => spawned om cg F (pid :: P) ws | Err _ => spawned om cg F P ws end.
Proof. by destruct r. Qed.
Lemma spawned_pty argv fl (r : result (Z * Z)) :
  res_mon (spawned om cg F P ws) (PtyStart argv fl : os) r =
  match r with Ok (pid, fd) => spawned om cg (fd :: F) (pid :: P) ws | Err _ => spawned om cg F P ws end.
Proof. by destruct r as [[]|]. Qed.
Lemma spawned_close fd r :
  res_mon (spawned om cg F P ws) (CloseFd fd : os) r = spawned om cg (without fd F) P ws.
Proof. done. Qed.
Lemma spawned_kill pid r :
  res_mon (spawned om cg F P ws) (KillProcess pid : os) r = spawned om cg F (without pid P) ws.
Proof. done. Qed.
Lemma spawned_exe r : res_mon (spawned om cg F P ws) (Executable : os) r = spawned om cg F P ws.
Proof. done. Qed.
End spawned_calls.

(** A failure once the cgroup is there. *)
Lemma wp_fail {A} id mb cg F P ws e (Q : resources -> result A -> Prop) :
  plain id -> F = [] -> P = [] ->
  (forall s' r, is_ok r = false /\ nothing_left s' -> Q s' r) ->
  wp res_mon (do_ drop_cg_ov cg (layer id mb);; mret (Err e)) (spawned (layer id mb) cg F P ws) Q.
Proof.
  intros Hid -> -> HQ. eapply wp_err; [exact HQ |]. apply wp_drop; [by apply spawned_in_spawn | done | done].
Qed.

Section theorem.
Variable MarshalConfig : Config -> result string.

(** What the worker of a successful spawn holds, in full. *)
Definition spawn_result (isTTY : bool) (s : resources) (r : result Worker) : Prop :=
  match r with
  | Ok w => exists id mb ws, plain id /\ w_overlay w = layer id mb /\
      cg_cgroupPath (w_cgroup w) = PathJoin [defaultCgroupRoot; id] /\
      w_rootPath w = om_mergedDir (w_overlay w) /\
      s = spawned (w_overlay w) (w_cgroup w) (worker_fds w) [w_cmd w]
            ((if isTTY then [] else [(cg_file (w_cgroup w) "cgroup.freeze", "1")]) ++
             [(cg_file (w_cgroup w) "cgroup.procs", Itoa (w_cmd w));
              (cg_file (w_cgroup w) "pids.max", "64");
              (cg_file (w_cgroup w) "memory.max", "134217728")] ++ ws)
  | Err _ => nothing_left s
  end.

Lemma spawn_post_err isTTY s r : is_ok r = false /\ nothing_left s -> spawn_result isTTY s r.
Proof using. by destruct r as [|]; intros [? ?]. Qed.

Ltac sp_simp := rewrite ?spawned_stdin, ?spawned_stdout, ?spawned_stderr, ?spawned_start,
  ?spawned_pty, ?spawned_close, ?spawned_kill, ?spawned_exe;
  rewrite ?(fun om cg F P ws e => proj1 (spawned_pipe_err om cg F P ws e)),
    ?(fun om cg F P ws e => proj1 (proj2 (spawned_pipe_err om cg F P ws e))),
    ?(fun om cg F P ws e => proj2 (proj2 (spawned_pipe_err om cg F P ws e))); cbv iota.
Ltac sp_step := wp_step_with ltac:(fun _ => sp_simp).
Ltac sp_fail := apply wp_fail; first [done | by apply spawn_post_err | taken_out].

(** Up to the release of the cgroup and the layer. *)
Ltac sp_step0 :=
  lazymatch goal with
  | |- wp _ (do_ drop_cg_ov _ _;; _) _ _ => fail
  | _ => sp_step
  end.

Lemma wp_spawnWorker mb mounts isTTY cmd :
  wp res_mon (spawnWorker MarshalConfig mb mounts isTTY cmd) no_resources (spawn_result isTTY).
Proof.
  unfold spawnWorker.
  res_step. res_step. pose proof (worker_id_plain r) as Hid. set (id := worker_id r) in *. clearbody id.
  res_step. eapply wp_mono; [| by apply wp_NewOverlayManager].
  intros s' [om | e]; [intros [-> ->] | intros ->; by res_step].
  change (overlay_gone _ no_resources) with no_resources. set (mb' := if mb <=? 0 then 64 else mb).
  res_step. eapply wp_mono; [| apply wp_OverlayMount].
  intros s' [root | e]; [intros [-> ->] | intros ->; eapply wp_err; [by apply spawn_post_err |]].
  2: { apply wp_drop_overlay; [| done | done]. split; [set_solver |]. intros d Hd. right. right. by apply layer_dirs. }
  res_step. eapply wp_mono; [| apply wp_NewCgroupController].
  intros s' [cg | e]; [| intros (ws & ds & Hds & ->); eapply wp_err; [by apply spawn_post_err |]].
  2: { apply wp_drop_overlay; [| done | done]. split; [set_solver |]. cbn [wrote with_writes with_dirs with_mounts rs_dirs].
       intros d [Hd | Hd]%elem_of_app; [| right; right; by apply layer_dirs].
       left. destruct Hds as [-> | ->]; set_solver. }
  intros (_ & Hcg & ws & ->).
  change (wrote ws _) with (spawned (layer id mb') cg [] [] (ws ++ [])). rewrite app_nil_r.
  res_step. eapply wp_mono; [| by apply wp_ApplyLimits].
  intros s' [[] | e] (ws1 & -> & Hws1); rewrite wrote_spawned;
    [| apply wp_fail; auto using spawn_post_err].
  rewrite Hws1 by done. clear Hws1.
  res_step. sp_step; [| sp_fail]. sp_step; [| sp_fail]. destruct isTTY.
  - res_step. sp_step; [destruct x0 as [pid ptmx] | sp_fail].
    res_step. eapply wp_mono; [| apply wp_AttachPID].
    intros s' [[] | e'] ->; cbn [is_ok]; rewrite wrote_spawned.
    + sp_step. exists id, mb', ws. by repeat (split; [done |]).
    + repeat sp_step0. sp_fail.
  - res_step. sp_step; [| sp_fail]. res_step. sp_step; [| repeat sp_step0; sp_fail].
    res_step. sp_step; [| repeat sp_step0; sp_fail].
    res_step. sp_step; [| repeat sp_step0; sp_fail].
    res_step. eapply wp_mono; [| apply wp_AttachPID].
    intros s' [[] | e'] ->; cbn [is_ok]; rewrite wrote_spawned; [| repeat sp_step0; sp_fail].
    res_step. eapply wp_mono; [| apply wp_Freeze].
    intros s' [[] | e'] ->; cbn [is_ok]; rewrite wrote_spawned; [| repeat sp_step0; sp_fail].
    sp_step. exists id, mb', ws. by repeat (split; [done |]).
Qed.

(** C7: No leak: whatever fails while a worker is spawned, after an error every mount and
    every directory that is still there (but the directory all cgroups share) is one whose
    removal the system refused, every process still running one that it refused to kill,
    and every descriptor that the spawn was handed is closed (a killed process stays as a
    zombie, [spawnWorker_zombie], and the child's ends of pipes are [exec.Cmd]'s,
    [spawnWorker_child_end]).  A worker that is returned has its two mounts, its process
    and exactly its pipes or pseudo-terminal, and nothing else is there but what the
    system refused to give back; its cgroup was limited to 128 MiB and 64 processes before
    the process was attached to it, and a worker for the pool is frozen. *)
Theorem spawnWorker_no_leak mb mounts isTTY cmd tr r :
  ends (spawnWorker MarshalConfig mb mounts isTTY cmd) tr r ->
  match r with
  | Ok w => worker_ready isTTY w (mon_trace res_mon no_resources tr) /\ worker_there w (machine_after tr)
  | Err _ => nothing_there (machine_after tr)
  end.
Proof.
  intros He. pose proof (tracks_after tr) as Ht. revert He Ht. generalize (machine_after tr) as k. intros k He.
  revert He. apply (wp_ends res_mon _ _ (fun s r => tracks s k ->
    match r with Ok w => worker_ready isTTY w s /\ worker_there w k | Err _ => nothing_there k end)).
  eapply wp_mono; [| apply wp_spawnWorker].
  intros s [w|e]; [| intros Hs Ht; by apply (nothing_left_there s)].
  intros (id & mb' & ws & _ & _ & _ & Hroot & ->) Ht. split.
  - repeat (split; [done |]). by exists ws.
  - by apply (worker_held_there w _ _ Ht).
Qed.
End theorem.

(** ** The outcome of an execution *)

(** What the [select] of an execution saw, if it was reached, the clock's readings, and
    the processes that were killed. *)
Record execution := {
  ex_answer : option select_answer;
  ex_times : list Z;
  ex_killed : list Z;
}.

Definition no_execution : execution := {| ex_answer := None; ex_times := []; ex_killed := [] |}.

Definition exec_mon (s : execution) (c : os) (r : ans c) : execution :=
  match c return osans c -> execution with
  | WaitOrDone _ _ => fun a => {| ex_answer := Some a; ex_times := ex_times s; ex_killed := ex_killed s |}
  | Now => fun t => {| ex_answer := ex_answer s; ex_times := ex_times s ++ [t]; ex_killed := ex_killed s |}
  | KillProcess pid => fun _ =>
      {| ex_answer := ex_answer s; ex_times := ex_times s; ex_killed := pid :: ex_killed s |}
  | _ => fun _ => s
  end r.

(** The error is, or wraps, an exit status. *)
Definition exit_status (e : error) (n : Z) : Prop := exists text, unwrap e = ExitError n text.

(** A result with this exit code and time-out, and the time between the two readings. *)
Definition run_result (x : execution) (code : Z) (timedOut : bool) (r : result Result) : Prop :=
  exists res t0 t1, r = Ok res /\ res_ExitCode res = code /\ res_TimedOut res = timedOut /\
    ex_times x = [t0; t1] /\ res_Duration res = time_Sub t1 t0.

(** What is reported of the process [pid]; [swallow] says what happens to a wait error
    that is no exit status. *)
Definition reported (swallow : bool) (pid : Z) (x : execution) (r : result Result) : Prop :=
  match ex_answer x with
  | None => is_ok r = false
  | Some (ProcDone None) => run_result x 0 false r
  | Some (ProcDone (Some e)) =>
      (forall n, exit_status e n -> run_result x n false r) /\
      ((forall n, ~ exit_status e n) ->
         if swallow then run_result x 0 false r else r = Err (WrapErr "worker execution error" e))
  | Some (CtxDone e) => pid ∈ ex_killed x /\
      (forall n, exit_status e n -> run_result x n true r) /\
      ((forall n, ~ exit_status e n) -> run_result x 124 true r)
  end.

Lemma as_exit_status e :
  match as_exit e with Some n => forall m, exit_status e m -> m = n | None => forall m, ~ exit_status e m end /\
  (forall n, as_exit e = Some n -> exit_status e n).
Proof.
  unfold as_exit, exit_status. destruct (unwrap e); (split; [| naive_solver]); try (by intros m [t [=]]).
Qed.

Lemma neutral_exec_cleanup w : neutral exec_mon (cleanup_worker w).
Proof.
  unfold cleanup_worker, CgroupCleanup, OverlayCleanup. neutral_steps. unfold kill_pid. neutral_steps.
Qed.

Lemma neutral_exec_metrics cg : neutral exec_mon (ReadMetrics cg).
Proof. unfold ReadMetrics, read_stat, read_cpu_stat. neutral_steps. Qed.

Lemma neutral_exec_close fd : neutral exec_mon (close_opt fd).
Proof. unfold close_opt. neutral_steps. Qed.

Ltac ex_step := wp_step_with ltac:(fun _ => cbn [exec_mon no_execution ex_answer ex_times ex_killed app]).

(** The wait of the process [pid], after the clock was read once. *)
Definition waited (t0 pid : Z) (a : select_answer) : execution :=
  {| ex_answer := Some a; ex_times := [t0]; ex_killed := match a with CtxDone _ => [pid] | ProcDone _ => [] end |}.

Lemma wp_wait ctx pid t0 :
  wp exec_mon (wait_or_kill ctx pid) {| ex_answer := None; ex_times := [t0]; ex_killed := [] |} (fun s we =>
    exists a, s = waited t0 pid a /\ we = match a with CtxDone e => (Some e, true) | ProcDone e => (e, false) end).
Proof. unfold wait_or_kill. repeat ex_step; [by exists (CtxDone e) | by exists (ProcDone e)]. Qed.

(** The end of an execution, by the answer of the select. *)
Lemma reported_by t0 t1 pid (a : select_answer) (swallow : bool) (r : result Result) m :
  r = match (match a with CtxDone e => Some e | ProcDone e => e end) with
      | None => Ok (exec_result 0 (time_Sub t1 t0) false m)
      | Some e =>
          match as_exit e with
          | Some n => Ok (exec_result n (time_Sub t1 t0) (match a with CtxDone _ => true | _ => false end) m)
          | None => match a with
                    | CtxDone _ => Ok (exec_result 124 (time_Sub t1 t0) true m)
                    | ProcDone _ => if swallow then Ok (exec_result 0 (time_Sub t1 t0) false m)
                                    else Err (WrapErr "worker execution error" e)
                    end
          end
      end ->
  reported swallow pid (exec_mon (waited t0 pid a) (Now : os) t1) r.
Proof.
  assert (forall code timedOut x, ex_times x = [t0; t1] ->
    run_result x code timedOut (Ok (exec_result code (time_Sub t1 t0) timedOut m))) as Hres.
  { intros code timedOut x Hx. by eexists _, t0, t1. }
  unfold reported. cbn [exec_mon waited ex_answer ex_killed]. destruct a as [e | [e|]].
  - destruct (as_exit_status e) as [Hs Hn]. intros ->. split; [by left |].
    destruct (as_exit e) as [n|]; (split; [intros k Hk | intros Hno]).
    + rewrite (Hs _ Hk). by apply Hres.
    + exfalso. by apply (Hno n), Hn.
    + by apply Hs in Hk.
    + by apply Hres.
  - destruct (as_exit_status e) as [Hs Hn]. intros ->.
    destruct (as_exit e) as [n|]; (split; [intros k Hk | intros Hno]).
    + rewrite (Hs _ Hk). by apply Hres.
    + exfalso. by apply (Hno n), Hn.
    + by apply Hs in Hk.
    + destruct swallow; [by apply Hres | done].
  - intros ->. by apply Hres.
Qed.

(** C21: The outcome of a batch run: a process that ends by itself is reported with its
    exit status (0 for none) and not timed out; a context that ends first kills the
    process and is reported as timed out, with exit code 124 (or the status the error
    carries, if it carries one); a wait that fails otherwise is an error; the duration is
    the time from the first to the second reading of the clock; and before the wait is
    reached the only outcome is an error without output. *)
Theorem ExecuteStream_outcome w ctx script tr r out :
  ends (ExecuteStream w ctx script) tr (r, out) ->
  reported false (w_cmd w) (mon_trace exec_mon no_execution tr) r /\
  (ex_answer (mon_trace exec_mon no_execution tr) = None -> out = []).
Proof.
  set (Post := fun (s : execution) (x : result Result * list (Z * string)) =>
    reported false (w_cmd w) s x.1 /\ (ex_answer s = None -> x.2 = [])).
  apply (wp_ends exec_mon _ no_execution Post). unfold ExecuteStream. ex_step.
  eapply wp_mono with (Q := Post).
  { intros s x Hx. eapply wp_mono; [| apply neutral_exec_cleanup]. by intros s' [] ->. }
  ex_step. ex_step. rename r0 into t0. ex_step. unfold Thaw. ex_step; [| by repeat ex_step].
  ex_step. ex_step; [| by repeat ex_step]. ex_step.
  eapply wp_mono; [| apply neutral_exec_close]. intros s u ->. cbv beta.
  ex_step. eapply wp_mono; [| apply wp_wait]. intros s we (a & -> & ->).
  ex_step. ex_step. ex_step. ex_step. rename r1 into t1.
  ex_step. eapply wp_mono; [| apply neutral_exec_metrics]. intros s m ->. cbv beta.
  assert (forall y : result Result * list (Z * string),
    reported false (w_cmd w) (exec_mon (waited t0 (w_cmd w) a) (Now : os) t1) y.1 ->
    Post (exec_mon (waited t0 (w_cmd w) a) (Now : os) t1) y) as Hpost by (intros y Hy; by split).
  destruct a as [e | [e|]]; cbn [fst snd]; [destruct (as_exit e) eqn:E.. |];
    wp_step; apply Hpost, (reported_by _ _ _ _ _ _ m); rewrite ?E; done.
Qed.

(** The outcome of an interactive run: as for a batch run, except that a wait error
    that is no exit status is reported as exit code 0. *)
Theorem ExecutePTY_outcome w ctx tr r out :
  ends (ExecutePTY w ctx) tr (r, out) ->
  reported true (w_cmd w) (mon_trace exec_mon no_execution tr) r /\
  ex_answer (mon_trace exec_mon no_execution tr) <> None.
Proof.
  set (Post := fun (s : execution) (x : result Result * list (Z * string)) =>
    reported true (w_cmd w) s x.1 /\ ex_answer s <> None).
  apply (wp_ends exec_mon _ no_execution Post). unfold ExecutePTY. ex_step.
  eapply wp_mono with (Q := Post).
  { intros s x Hx. ex_step. eapply wp_mono; [| apply neutral_exec_close]. intros s' [] ->. cbv beta.
    ex_step. eapply wp_mono; [| apply neutral_exec_cleanup]. intros s' [] ->. by ex_step. }
  ex_step. ex_step. rename r0 into t0. ex_step. eapply wp_mono; [| apply wp_wait]. intros s we (a & -> & ->).
  ex_step. eapply wp_mono; [| apply neutral_exec_close]. intros s u ->. cbv beta.
  ex_step. ex_step. ex_step. ex_step. rename r1 into t1.
  ex_step. eapply wp_mono; [| apply neutral_exec_metrics]. intros s m ->. cbv beta.
  wp_step. split; [| done]. apply (reported_by _ _ _ _ _ _ m). destruct a as [e | [e|]]; simpl; [| | done].
  - by destruct (as_exit e).
  - by destruct (as_exit e).
Qed.

(** ** An execution gives its worker back *)

(** Nothing of the worker remains: its mounts, its process, its cgroup, its layer. *)
Definition worker_gone (w : Worker) (s : resources) : Prop :=
  (om_mergedDir (w_overlay w) ∉ rs_mounts s) /\ (om_baseDir (w_overlay w) ∉ rs_mounts s) /\
  (w_cmd w ∉ rs_procs s) /\ (cg_cgroupPath (w_cgroup w) ∉ rs_dirs s) /\
  Forall (fun d => inside (om_baseDir (w_overlay w)) d = false) (rs_dirs s).

Lemma not_in_without {A} `{EqDecision A} (x : A) l : x ∉ without x l.
Proof. unfold without. by intros [? _]%list_elem_of_filter. Qed.

Lemma not_in_without_mono {A} `{EqDecision A} (x y : A) l : y ∉ l -> y ∉ without x l.
Proof. unfold without. by intros H [_ ?]%list_elem_of_filter. Qed.

(** Only descriptors and files written differ; and, besides, the worker's process is gone. *)
Definition same_held (s s1 : resources) : Prop :=
  rs_mounts s1 = rs_mounts s /\ rs_dirs s1 = rs_dirs s /\ rs_procs s1 = rs_procs s.

Definition stopped (w : Worker) (s s1 : resources) : Prop :=
  rs_mounts s1 = rs_mounts s /\ rs_dirs s1 = rs_dirs s /\ rs_procs s1 = without (w_cmd w) (rs_procs s).

(** What giving a worker back does. *)
Definition released (w : Worker) (s s1 : resources) : Prop :=
  rs_mounts s1 = without (om_baseDir (w_overlay w)) (without (om_mergedDir (w_overlay w)) (rs_mounts s)) /\
  rs_dirs s1 = without_tree (om_baseDir (w_overlay w)) (without (cg_cgroupPath (w_cgroup w)) (rs_dirs s)) /\
  rs_procs s1 = without (w_cmd w) (rs_procs s).

Lemma released_gone w s s1 : released w s s1 -> worker_gone w s1.
Proof.
  intros (Hm & Hd & Hp). unfold worker_gone. rewrite Hm, Hd, Hp.
  split; [by apply not_in_without_mono, not_in_without |].
  split; [by apply not_in_without |]. split; [by apply not_in_without |]. split.
  - unfold without_tree. intros [_ Hin]%list_elem_of_filter. by apply (not_in_without _ _ Hin).
  - apply Forall_forall. unfold without_tree. by intros d [? _]%list_elem_of_filter.
Qed.

Lemma wp_drop_worker w s s1 : stopped w s s1 ->
  wp res_mon (do_ CgroupCleanup (w_cgroup w);; do_ OverlayCleanup (w_overlay w);; mret tt) s1
    (fun s2 _ => released w s s2).
Proof.
  intros (Hm & Hd & Hp). res_step. eapply wp_mono; [| apply wp_CgroupCleanup].
  intros s2 a ->. cbv beta. res_step. eapply wp_mono; [| apply wp_OverlayCleanup].
  intros s2 a' ->. cbv beta. wp_step. unfold released, overlay_gone, cg_gone. simpl.
  by rewrite Hm, Hd, Hp.
Qed.

Lemma wp_kill_stopped w s s1 Q :
  same_held s s1 \/ stopped w s s1 ->
  (forall s2, stopped w s s2 -> Q s2 (Ok tt) /\ forall e, Q s2 (Err e)) ->
  wp res_mon (sys (KillProcess (w_cmd w))) s1 Q.
Proof.
  intros H HQ r. assert (stopped w s (res_mon s1 (KillProcess (w_cmd w) : os) r)) as Hs.
  { destruct H as [(Hm & Hd & Hp) | (Hm & Hd & Hp)]; (split; [done | split; [done |]]); simpl; rewrite Hp; [done |].
    apply without_idemp. }
  destruct (HQ _ Hs) as [H1 H2]. destruct r as [[]|e]; [exact H1 | apply H2].
Qed.

Lemma wp_wait_stopped w ctx s s1 : same_held s s1 ->
  wp res_mon (wait_or_kill ctx (w_cmd w)) s1 (fun s2 _ => stopped w s s2).
Proof.
  intros (Hm & Hd & Hp). unfold wait_or_kill. wp_step. intros a. destruct a as [e|e]; simpl.
  - intros r. unfold stopped. simpl. by rewrite Hm, Hd, Hp.
  - unfold stopped. simpl. by rewrite Hm, Hd, Hp.
Qed.

Lemma neutral_res_metrics cg : neutral res_mon (ReadMetrics cg).
Proof. unfold ReadMetrics, read_stat, read_cpu_stat. neutral_steps. Qed.

Lemma wp_close_stopped w fd s s1 : stopped w s s1 ->
  wp res_mon (close_opt fd) s1 (fun s2 _ => stopped w s s2).
Proof. intros H. unfold close_opt. destruct fd as [fd|]; [by intros r | done]. Qed.

Lemma wp_close_held fd s s1 : same_held s s1 ->
  wp res_mon (close_opt fd) s1 (fun s2 _ => same_held s s2).
Proof. intros H. unfold close_opt. destruct fd as [fd|]; [by intros r | done]. Qed.

Lemma wp_Thaw_held cg s : wp res_mon (Thaw cg) s (fun s1 _ => same_held s s1).
Proof. eapply wp_mono; [| apply wp_Thaw]. by intros s1 a ->. Qed.

Lemma wp_ExecuteStream w ctx script s :
  wp res_mon (ExecuteStream w ctx script) s (fun s' _ => released w s s').
Proof.
  unfold ExecuteStream. res_step. eapply wp_mono with (Q := fun s1 _ => stopped w s s1).
  { intros s1 a Hp. unfold cleanup_worker. by apply wp_drop_worker. }
  res_step. res_step. res_step. eapply wp_mono; [| apply wp_Thaw_held].
  intros s1 [[] | e] H1; cbv beta iota.
  2: { wp_step. apply (wp_kill_stopped w s); [by left |]. intros s2 H2. by split. }
  res_step. res_step.
  2: { wp_step. apply (wp_kill_stopped w s); [by left |]. intros s2 H2. by split. }
  res_step. eapply wp_mono; [| apply (wp_close_held _ s); exact H1].
  intros s2 [] H2. cbv beta. res_step. eapply wp_mono; [| by apply wp_wait_stopped]. intros s3 we Hp. cbv beta.
  res_step. res_step. res_step. res_step.
  res_step. eapply wp_mono; [| apply neutral_res_metrics]. intros s4 m ->. cbv beta.
  by repeat res_step.
Qed.

Lemma wp_ExecutePTY w ctx s :
  wp res_mon (ExecutePTY w ctx) s (fun s' _ => released w s s').
Proof.
  unfold ExecutePTY. res_step. eapply wp_mono with (Q := fun s1 _ => stopped w s s1).
  { intros s1 a Hp. res_step. eapply wp_mono; [| apply (wp_close_stopped w _ s); exact Hp]. intros s2 [] Hp2. cbv beta.
    res_step. eapply wp_mono; [| unfold cleanup_worker; apply wp_drop_worker; exact Hp2]. intros s3 [] Hg. by res_step. }
  res_step. res_step. res_step. eapply wp_mono; [| by apply wp_wait_stopped]. intros s3 we Hp. cbv beta.
  res_step. eapply wp_mono; [| apply (wp_close_stopped w _ s); exact Hp]. intros s4 [] Hp2. cbv beta.
  res_step. res_step. res_step. res_step.
  res_step. eapply wp_mono; [| apply neutral_res_metrics]. intros s5 m ->. cbv beta.
  by repeat res_step.
Qed.

Lemma wp_Destroy w s : wp res_mon (Destroy w) s (fun s' _ => released w s s').
Proof.
  unfold Destroy. res_step. eapply wp_mono; [| apply wp_Thaw_held]. intros s1 a H1. cbv beta.
  do 4 (res_step; eapply wp_mono; [| apply (wp_close_held _ s); eassumption]; clear dependent s1; intros s1 [] H1; cbv beta).
  res_step. apply (wp_kill_stopped w s); [by left |]. clear dependent s1. intros s1 H1.
  enough (wp res_mon (do_ sys (WaitProcess (w_cmd w));; do_ CgroupCleanup (w_cgroup w);;
    do_ OverlayCleanup (w_overlay w);; mret tt) s1 (fun s' _ => released w s s')) as H by by split.
  res_step. intros r. change (wp res_mon (do_ CgroupCleanup (w_cgroup w);; do_ OverlayCleanup (w_overlay w);; mret tt)
    (res_mon s1 (WaitProcess (w_cmd w) : os) r) (fun s' _ => released w s s')).
  apply wp_drop_worker. destruct H1 as (Hm & Hd & Hp). split; [done | split; [done |]]. simpl.
  rewrite Hp. apply without_idemp.
Qed.

(** Whatever fails, an execution ends with its process waited for or killed, and with the
    calls made that remove its cgroup and unmount and delete its layer: on every path of a
    batch run and of an interactive one. *)
Theorem Execute_releases w ctx script s :
  (forall tr x, ends (ExecuteStream w ctx script) tr x -> worker_gone w (mon_trace res_mon s tr)) /\
  (forall tr x, ends (ExecutePTY w ctx) tr x -> worker_gone w (mon_trace res_mon s tr)).
Proof.
  split; intros tr x; apply (wp_ends res_mon _ s (fun s' _ => worker_gone w s'));
    (eapply wp_mono; [intros s' a; apply (released_gone w s) |]);
    [apply wp_ExecuteStream | apply wp_ExecutePTY].
Qed.

(** ** The pool *)

(** Who holds the pool's mutex. *)
Inductive mutex := Free | Replenishing | Closing.

(** The channel's buffer, oldest first; [p_pending] counts the [replenish] goroutines that
    have not taken the mutex yet.  [p_out], [p_destroyed] and [p_spawned] record the
    history: the workers handed out, destroyed by [Close], and ever put in the pool. *)
Record Pool := {
  p_capacity : Z;
  p_workers : list Worker;
  p_closed : bool;
  p_storageLimitMB : Z;
  p_mu : mutex;
  p_pending : nat;
  p_out : list Worker;
  p_destroyed : list Worker;
  p_spawned : list Worker;
}.

Definition close_worker (w : Worker) : io unit :=
  do_ Thaw (w_cgroup w);;
  do_ sys (KillProcess (w_cmd w));;
  do_ CgroupCleanup (w_cgroup w);;
  do_ OverlayCleanup (w_overlay w);;
  mret tt.

(** [Close] of a pool no goroutine of which is under way: once, and every idle worker. *)
Definition Close (p : Pool) : io Pool :=
  if p_closed p then mret p
  else
    do_ foldM (fun _ w => close_worker w) tt (p_workers p);;
    mret {| p_capacity := p_capacity p; p_workers := []; p_closed := true;
            p_storageLimitMB := p_storageLimitMB p; p_mu := p_mu p; p_pending := p_pending p;
            p_out := p_out p; p_destroyed := p_destroyed p ++ p_workers p; p_spawned := p_spawned p |}.

Section pool.
Variable MarshalConfig : Config -> result string.

(** [for i := 0; i < n; i++ { spawn; p.workers <- w }]; the error of a failed spawn with
    the workers made before it. *)
Fixpoint prefill (n : nat) (mb : Z) (ws : list Worker) : io (option error * list Worker) :=
  match n with
  | O => mret (None, ws)
  | S n =>
      r ← spawnWorker MarshalConfig mb [] false [];
      match r with
      | Err e => mret (Some e, ws)
      | Ok w => prefill n mb (ws ++ [w])
      end
  end.

Definition NewPoolWithStorage (capacity storageLimitMB : Z) : io (result Pool) :=
  let capacity := if capacity <=? 0 then 2 else capacity in
  let storageLimitMB := if storageLimitMB <=? 0 then 64 else storageLimitMB in
  filled ← prefill (Z.to_nat capacity) storageLimitMB [];
  match fst filled with
  | Some e =>
      do_ foldM (fun _ w => close_worker w) tt (snd filled);;
      mret (Err (WrapErr "failed to prefill warm pool" e))
  | None =>
      mret (Ok {| p_capacity := capacity; p_workers := snd filled; p_closed := false;
                  p_storageLimitMB := storageLimitMB; p_mu := Free; p_pending := 0;
                  p_out := []; p_destroyed := []; p_spawned := snd filled |})
  end.

Definition NewPool (capacity : Z) : io (result Pool) := NewPoolWithStorage capacity 64.

(** The [select] on the channel: a worker, the nil of a closed channel, or the default
    case. *)
Inductive taken := TakenWorker (w : Worker) | TakenNil | NoneIdle.

Definition take_worker (p : Pool) : taken * Pool :=
  let with_ ws out pending :=
    {| p_capacity := p_capacity p; p_workers := ws; p_closed := p_closed p;
       p_storageLimitMB := p_storageLimitMB p; p_mu := p_mu p; p_pending := pending;
       p_out := out; p_destroyed := p_destroyed p; p_spawned := p_spawned p |} in
  match p_workers p with
  | w :: ws => (TakenWorker w, with_ ws (p_out p ++ [w]) (S (p_pending p)))
  | [] => if p_closed p then (TakenNil, with_ [] (p_out p) (S (p_pending p)))
          else (NoneIdle, p)
  end.

Definition warm_fits (p : Pool) (requestedMB : Z) (mounts : list MountSpec)
    (isTTY requiresNetwork : bool) : bool :=
  negb isTTY && negb requiresNetwork && (length mounts =? 0)%nat &&
  (requestedMB =? p_storageLimitMB p).

(** A nil worker is [None]. *)
Definition AcquireCustom (p : Pool) (requestedMB : Z) (mounts : list MountSpec) (isTTY : bool)
    (cmd : list string) (requiresNetwork : bool) : io (result (option Worker) * Pool) :=
  let requestedMB := if requestedMB <=? 0 then p_storageLimitMB p else requestedMB in
  let spawn mounts isTTY cmd :=
    r ← spawnWorker MarshalConfig requestedMB mounts isTTY cmd;
    mret (match r with Ok w => Ok (Some w) | Err e => Err e end, p) in
  if warm_fits p requestedMB mounts isTTY requiresNetwork then
    match take_worker p with
    | (TakenWorker w, p') => mret (Ok (Some w), p')
    | (TakenNil, p') => mret (Ok None, p')
    | (NoneIdle, _) => spawn [] false []
    end
  else spawn mounts isTTY cmd.

Definition Acquire (p : Pool) : io (result (option Worker) * Pool) :=
  AcquireCustom p (p_storageLimitMB p) [] false [] false.

Definition AcquireWithStorage (p : Pool) (requestedMB : Z) : io (result (option Worker) * Pool) :=
  AcquireCustom p requestedMB [] false [] false.
End pool.

(** ** The pool's goroutines *)

(** The atomic actions: a receive from the channel; [replenish] taking the mutex and,
    if the pool is open, ending with a spawned worker or with none; [Close] taking the
    mutex, receiving one worker, and ending. *)
Inductive paction :=
| ATake
| AReplenish
| ASpawned (r : option Worker)
| AClose
| ADrain
| ACloseEnd.

(** A send on a full channel blocks (with the mutex held); on a closed one it panics. *)
Inductive presult := Disabled | Blocked | Panic | Next (p : Pool).

Definition set_mu (p : Pool) (mu : mutex) (pending : nat) (closed : bool) : Pool :=
  {| p_capacity := p_capacity p; p_workers := p_workers p; p_closed := closed;
     p_storageLimitMB := p_storageLimitMB p; p_mu := mu; p_pending := pending;
     p_out := p_out p; p_destroyed := p_destroyed p; p_spawned := p_spawned p |}.

Definition pool_step (p : Pool) (a : paction) : presult :=
  match a, p_mu p with
  | ATake, _ => Next (snd (take_worker p))
  | AReplenish, Free =>
      match p_pending p with
      | O => Disabled
      | S n => if p_closed p then Next (set_mu p Free n true)
               else Next (set_mu p Replenishing n false)
      end
  | ASpawned None, Replenishing => Next (set_mu p Free (p_pending p) (p_closed p))
  | ASpawned (Some w), Replenishing =>
      if p_closed p then Panic
      else if p_capacity p <=? Z.of_nat (length (p_workers p)) then Blocked
      else Next {| p_capacity := p_capacity p; p_workers := p_workers p ++ [w];
                   p_closed := p_closed p; p_storageLimitMB := p_storageLimitMB p; p_mu := Free;
                   p_pending := p_pending p; p_out := p_out p; p_destroyed := p_destroyed p;
                   p_spawned := p_spawned p ++ [w] |}
  | AClose, Free =>
      if p_closed p then Next p else Next (set_mu p Closing (p_pending p) true)
  | ADrain, Closing =>
      match p_workers p with
      | w :: ws => Next {| p_capacity := p_capacity p; p_workers := ws; p_closed := p_closed p;
                           p_storageLimitMB := p_storageLimitMB p; p_mu := Closing;
                           p_pending := p_pending p; p_out := p_out p;
                           p_destroyed := p_destroyed p ++ [w]; p_spawned := p_spawned p |}
      | [] => Disabled
      end
  | ACloseEnd, Closing =>
      match p_workers p with [] => Next (set_mu p Free (p_pending p) (p_closed p)) | _ => Disabled end
  | _, _ => Disabled
  end.

Inductive pool_reach (p0 : Pool) : Pool -> Prop :=
| reach_start : pool_reach p0 p0
| reach_step p a p' : pool_reach p0 p -> pool_step p a = Next p' -> pool_reach p0 p'.

(** A pool as [NewPoolWithStorage] returns it. *)
Record pool_new (p : Pool) : Prop := {
  new_full : Z.of_nat (length (p_workers p)) = p_capacity p;
  new_open : p_closed p = false;
  new_mu : p_mu p = Free;
  new_pending : p_pending p = 0%nat;
  new_out : p_out p = [] /\ p_destroyed p = [];
  new_spawned : p_spawned p = p_workers p;
}.

(** Room for every worker under way; the mutex orders replenishing and closing; every
    worker is in one place. *)
Record pool_inv (p : Pool) : Prop := {
  inv_room : p_closed p = false ->
    Z.of_nat (length (p_workers p) + p_pending p) +
    (match p_mu p with Replenishing => 1 | _ => 0 end) <= p_capacity p;
  inv_replenish : p_mu p = Replenishing -> p_closed p = false;
  inv_closing : p_mu p = Closing -> p_closed p = true;
  inv_places : p_spawned p ≡ₚ p_workers p ++ p_out p ++ p_destroyed p;
}.

Lemma pool_new_inv p : pool_new p -> pool_inv p.
Proof.
  intros [Hf Ho Hm Hp [Hout Hd] Hs]. split.
  - rewrite Hm, Hp. lia.
  - by rewrite Hm.
  - by rewrite Hm.
  - by rewrite Hs, Hout, Hd, !app_nil_r.
Qed.

Lemma pool_step_inv p a p' : pool_inv p -> pool_step p a = Next p' -> pool_inv p'.
Proof.
  destruct p as [cap ws closed mb mu pend out des sp].
  intros [Hroom Hrep Hcl Hpl] Hs. simpl in *.
  destruct a as [| | [w|] | | |]; unfold pool_step, take_worker, set_mu in Hs; simpl in Hs;
    destruct mu; repeat case_match; simplify_eq/=; split; simpl; try done; intros; bool_hyps;
    try congruence;
    try (specialize (Hroom ltac:(congruence)); rewrite ?length_app in *; simpl in *; lia);
    try (rewrite Hpl; rewrite ?app_nil_r; solve_Permutation); eauto.
Qed.

Lemma pool_reach_inv p0 p : pool_new p0 -> pool_reach p0 p -> pool_inv p.
Proof.
  intros Hn Hr. induction Hr as [| p a p' Hr IH Hs]; [by apply pool_new_inv |].
  by eapply pool_step_inv.
Qed.

(** C8: The pool's goroutines never deadlock on the full channel, never send on the
    closed one, and never share a worker: from a pool that [NewPoolWithStorage] returned,
    after any interleaving of acquisitions, replenishing and closing, no action blocks or
    panics, and the workers ever put in the pool are exactly those idle, those handed
    out and those destroyed. *)
Theorem pool_safe p0 p a (Hnew : pool_new p0) (Hr : pool_reach p0 p) :
  pool_step p a <> Panic /\ pool_step p a <> Blocked /\
  p_spawned p ≡ₚ p_workers p ++ p_out p ++ p_destroyed p /\
  (NoDup (p_spawned p) -> NoDup (p_out p ++ p_destroyed p)).
Proof.
  pose proof (pool_reach_inv p0 p Hnew Hr) as [Hroom Hrep Hcl Hpl].
  split; [| split; [| split; [done |]]].
  - unfold pool_step. destruct a as [| | [w|] | | |], (p_mu p) eqn:Hmu; repeat case_match; try done.
    specialize (Hrep eq_refl). congruence.
  - unfold pool_step. destruct a as [| | [w|] | | |], (p_mu p) eqn:Hmu; repeat case_match; try done.
    bool_hyps. specialize (Hroom ltac:(done)). lia.
  - rewrite Hpl. intros H. by apply NoDup_app in H as (_ & _ & ?).
Qed.

(** ** How full the pool is *)

(** Reachable after [n] failed attempts to spawn a replacement. *)
Inductive pool_run (p0 : Pool) : nat -> Pool -> Prop :=
| run_start : pool_run p0 O p0
| run_step n p a p' :
    pool_run p0 n p -> pool_step p a = Next p' ->
    pool_run p0 (match a with ASpawned None => S n | _ => n end) p'.

(** Replacements that are being made or wait for the mutex. *)
Definition under_way (p : Pool) : nat :=
  p_pending p + match p_mu p with Replenishing => 1 | _ => 0 end.

(** The pool's own goroutines run and spawning gives [w]. *)
Definition refill (w : Worker) (p p' : Pool) : Prop :=
  pool_step p AReplenish = Next p' \/ pool_step p (ASpawned (Some w)) = Next p'.

Lemma pool_run_inv p0 n p : pool_new p0 -> pool_run p0 n p -> pool_inv p.
Proof.
  intros Hn Hr. induction Hr as [| n p a p' Hr IH Hs]; [by apply pool_new_inv |].
  by eapply pool_step_inv.
Qed.

Lemma pool_run_level p0 n p :
  pool_new p0 -> pool_run p0 n p -> p_closed p = false ->
  Z.of_nat (length (p_workers p) + under_way p + n) = p_capacity p.
Proof.
  intros Hn Hr. unfold under_way. induction Hr as [| n p a p' Hr IH Hs].
  { destruct Hn as [Hf Ho Hm Hp _ _]. intros _. rewrite Hm, Hp. lia. }
  pose proof (inv_closing p (pool_run_inv p0 n p Hn Hr)) as Hcl.
  destruct p as [cap ws closed mb mu pend out des sp]. simpl in *.
  destruct a as [| | [w|] | | |]; unfold pool_step, take_worker, set_mu in Hs; simpl in Hs;
    destruct mu; try specialize (Hcl eq_refl); repeat case_match; simplify_eq/=; intros; try congruence;
    try (specialize (IH ltac:(congruence))); rewrite ?length_app in *; simpl in *; lia.
Qed.

Lemma refill_steps w m p :
  (2 * p_pending p + (match p_mu p with Replenishing => 1 | _ => 0 end) <= m)%nat ->
  pool_inv p -> p_closed p = false ->
  exists p', rtc (refill w) p p' /\ under_way p' = O /\ p_closed p' = false /\ p_capacity p' = p_capacity p /\
    (length (p_workers p') = length (p_workers p) + under_way p)%nat.
Proof.
  revert p. induction m as [|m IH]; intros p Hm Hi Ho.
  { exists p. unfold under_way. destruct (p_mu p); repeat split; first [lia | done | apply rtc_refl]. }
  destruct (p_mu p) eqn:Hmu.
  - destruct (p_pending p) as [|k] eqn:Hp.
    + exists p. unfold under_way. rewrite Hmu, Hp. repeat split; first [apply rtc_refl | done | lia].
    + assert (pool_step p AReplenish = Next (set_mu p Replenishing k false)) as Hs
        by (unfold pool_step; by rewrite Hmu, Hp, Ho).
      destruct (IH (set_mu p Replenishing k false)) as (p' & H1 & H2 & H3 & H4 & H5);
        [simpl; lia | by eapply pool_step_inv | done |].
      exists p'. split; [eapply rtc_l; [by left | done] |]. repeat (split; [done |]).
      rewrite H5. unfold under_way. rewrite Hmu, Hp. simpl. lia.
  - pose proof (inv_room p Hi Ho) as Hroom. rewrite Hmu in Hroom.
    destruct (pool_step p (ASpawned (Some w))) as [| | | p1] eqn:Hs;
      try (exfalso; revert Hs; unfold pool_step; rewrite Hmu, Ho;
           case_match; bool_hyps; first [done | lia]).
    assert (p_pending p1 = p_pending p /\ p_mu p1 = Free /\ p_closed p1 = false /\
            p_capacity p1 = p_capacity p /\ length (p_workers p1) = S (length (p_workers p))) as (E1 & E2 & E3 & E4 & E5).
    { revert Hs. unfold pool_step. rewrite Hmu, Ho. case_match; intros [= <-].
      simpl. rewrite length_app. simpl. repeat split; lia. }
    destruct (IH p1) as (p' & H1 & H2 & H3 & H4 & H5);
      [rewrite E1, E2; lia | by eapply pool_step_inv | done |].
    exists p'. split; [eapply rtc_l; [by right | done] |]. split; [done |]. split; [done |]. split; [congruence |].
    rewrite H5, E5. unfold under_way. rewrite Hmu, E1, E2. lia.
  - pose proof (inv_closing p Hi Hmu). congruence.
Qed.

(** C10: How full an open pool is, in every reachable state: the idle workers, the
    replacements under way and the replacements that could not be spawned make up the
    capacity, so nothing is lost but by a failed spawn, and a failed spawn is never made
    up for.  And the pool's goroutines can always finish: as long as spawning succeeds,
    nothing stops them before the pool is full again up to the failed ones. *)
Theorem pool_level p0 n p w (Hnew : pool_new p0) (Hr : pool_run p0 n p) (Ho : p_closed p = false) :
  Z.of_nat (length (p_workers p) + under_way p + n) = p_capacity p /\
  exists p', rtc (refill w) p p' /\ under_way p' = O /\
    Z.of_nat (length (p_workers p') + n) = p_capacity p.
Proof.
  pose proof (pool_run_level p0 n p Hnew Hr Ho) as Hl. split; [done |].
  destruct (refill_steps w _ p (le_n _) (pool_run_inv p0 n p Hnew Hr) Ho) as (p' & H1 & H2 & _ & _ & H5).
  exists p'. split; [done |]. split; [done |]. lia.
Qed.

Section pool_theorems.
Variable MarshalConfig : Config -> result string.

Lemma prefill_length n mb ws :
  wp no_mon (prefill MarshalConfig n mb ws) tt (fun _ x => fst x = None ->
    length (snd x) = (n + length ws)%nat).
Proof.
  revert ws. induction n as [|n IH]; intros ws; cbn [prefill]; [by wp_step |].
  wp_step. eapply wp_mono with (Q := fun _ _ => True).
  - intros [] [w|e] _; [| by wp_step]. eapply wp_mono; [| apply IH].
    intros [] x Hx HN. rewrite Hx, length_app by done. simpl. lia.
  - generalize (spawnWorker MarshalConfig mb [] false []). clear. intros q.
    induction q; simpl; eauto.
Qed.

(** A pool that is returned is full: it holds as many idle workers as its capacity
    (2 when a capacity below 1 is asked for), it is open, and no goroutine of it is
    running. *)
Theorem NewPoolWithStorage_full capacity mb tr p :
  ends (NewPoolWithStorage MarshalConfig capacity mb) tr (Ok p) ->
  pool_new p /\ p_capacity p = (if capacity <=? 0 then 2 else capacity) /\
  p_storageLimitMB p = (if mb <=? 0 then 64 else mb).
Proof.
  intros He.
  assert (forall r, ends (NewPoolWithStorage MarshalConfig capacity mb) tr r -> r = Ok p ->
    pool_new p /\ p_capacity p = (if capacity <=? 0 then 2 else capacity) /\
    p_storageLimitMB p = (if mb <=? 0 then 64 else mb)) as H; [| by apply (H (Ok p))].
  clear He. intros r. apply (wp_ends_res _ tr r (fun r => r = Ok p -> _ /\ _ /\ _)). unfold NewPoolWithStorage. cbv zeta.
  set (cap := if capacity <=? 0 then 2 else capacity). set (mb' := if mb <=? 0 then 64 else mb).
  assert (0 < cap) as Hcap by (unfold cap; case_match; bool_hyps; lia).
  wp_step. eapply wp_mono; [| apply prefill_length]. intros [] [[e|] ws] Hlen; simpl in *.
  - wp_step. eapply wp_mono with (Q := fun _ _ => True); [by intros; wp_step |].
    generalize (foldM (fun (_ : unit) w => close_worker w) tt ws). clear. intros q.
    induction q; simpl; eauto.
  - intros [= <-]. split; [| by split]. specialize (Hlen eq_refl).
    split; simpl; try done. rewrite Hlen. lia.
Qed.

(** Which worker an acquisition returns: an idle worker is handed out only to a
    request without pseudo-terminal, network and mounts and with the pool's own storage
    limit, and it is the oldest one; every other request gets a worker spawned for it,
    with its storage, mounts and command, and leaves the pool as it is; and a nil worker
    without an error is returned only after the pool was closed. *)
Theorem AcquireCustom_spec p mb mounts isTTY cmd net tr r p' :
  let mb' := if mb <=? 0 then p_storageLimitMB p else mb in
  ends (AcquireCustom MarshalConfig p mb mounts isTTY cmd net) tr (r, p') ->
  (exists w rest, p_workers p = w :: rest /\ r = Ok (Some w) /\ tr = [] /\
     isTTY = false /\ net = false /\ mounts = [] /\ mb' = p_storageLimitMB p /\
     p_workers p' = rest /\ p_out p' = p_out p ++ [w]) \/
  (r = Ok None /\ p_closed p = true /\ p_workers p = []) \/
  (p' = p /\ exists r0, (ends (spawnWorker MarshalConfig mb' mounts isTTY cmd) tr r0 \/
                         ends (spawnWorker MarshalConfig mb' [] false []) tr r0 /\
                         isTTY = false /\ mounts = []) /\
                        r = match r0 with Ok w => Ok (Some w) | Err e => Err e end).
Proof.
  intros mb' He. unfold AcquireCustom in He. fold mb' in He.
  assert (forall ms tty c, ends (r ← spawnWorker MarshalConfig mb' ms tty c;
            mret (match r with Ok w => Ok (Some w) | Err e => Err e end, p)) tr (r, p') ->
          p' = p /\ exists r0, ends (spawnWorker MarshalConfig mb' ms tty c) tr r0 /\
            r = match r0 with Ok w => Ok (Some w) | Err e => Err e end) as Hsp.
  { intros ms tty c (tr1 & r0 & tr2 & H1 & H2 & ->)%ends_bind_inv.
    apply ends_inv in H2 as [[= -> ->] ->]. rewrite app_nil_r. eauto. }
  destruct (warm_fits _ _ _ _ _) eqn:Hfit.
  - unfold warm_fits in Hfit. bool_hyps.
    match goal with H : (length mounts =? 0)%nat = true |- _ => apply Nat.eqb_eq, nil_length_inv in H end.
    subst mounts.
    unfold take_worker in He. destruct (p_workers p) as [|w rest] eqn:Hw.
    + destruct (p_closed p) eqn:Hc.
      * apply ends_inv in He as [[= -> ->] ->]. right; left. done.
      * apply Hsp in He as (-> & r0 & H3 & ->). right; right. split; [done |]. eauto 10.
    + apply ends_inv in He as [[= -> ->] ->]. left. exists w, rest. done.
  - apply Hsp in He as (-> & r0 & H3 & ->). right; right. split; [done |]. eauto 10.
Qed.
End pool_theorems.

(** ** Concrete runs *)

Definition demo_config (c : Config) : result string := Ok (cfg_ID c).

Definition demo_spawn : io (result Worker) := spawnWorker demo_config 64 [] false [].

(** A system in which the worker cannot be attached to its cgroup, and on which the layer's
    inner mount cannot be unmounted. *)
Definition stubborn_os : handler os unit := fun c w =>
  match c return osans c * unit with
  | WriteFile p _ _ =>
      (if bool_decide (p = "/sys/fs/cgroup/gojail/warm-0/cgroup.procs") then Err (SysErr EIO "write") else Ok tt, w)
  | Unmount t _ =>
      (if bool_decide (t = "/run/gojail/layers/warm-0/merged") then Err (SysErr EACCES "umount") else Ok tt, w)
  | c => ok_os c w
  end.

Lemma spawnWorker_no_leak_witness :
  is_ok (res stubborn_os demo_spawn tt) = false /\ nothing_there (machine_after (trace stubborn_os demo_spawn tt)) /\
  length (mc_stuck_mounts (machine_after (trace stubborn_os demo_spawn tt))) = 1%nat.
Proof.
  split; [vm_compute; reflexivity |]. split; [| vm_compute; reflexivity].
  pose proof (spawnWorker_no_leak demo_config 64 [] false [] _ _ (run_ends stubborn_os demo_spawn tt)) as Hp.
  destruct (res stubborn_os demo_spawn tt) eqn:E; [vm_compute in E; discriminate | exact Hp].
Defined.

Definition demo_cg : CgroupController :=
  {| cg_id := "warm-0"; cg_cgroupPath := "/sys/fs/cgroup/gojail/warm-0"; cg_prevCPUUS := 0; cg_prevTime := 0 |}.

Definition demo_worker : Worker :=
  {| w_ID := "warm-0"; w_StorageMB := 64; w_rootPath := "/run/gojail/layers/warm-0/merged"; w_cmd := 100;
     w_stdin := Some 3; w_stdoutR := Some 4; w_stderrR := Some 5; w_cgroup := demo_cg;
     w_overlay := layer "warm-0" 64; w_ptyMaster := Some 6 |}.

(** A system in which the context ends before the process. *)
Definition late_os : handler os unit := fun c w =>
  match c return osans c * unit with
  | WaitOrDone _ _ => (CtxDone DeadlineExceeded, w)
  | c => ok_os c w
  end.

(** One in which the process ends with an exit status. *)
Definition failing_os : handler os unit := fun c w =>
  match c return osans c * unit with
  | WaitOrDone _ _ => (ProcDone (Some (ExitError 3 "exit status 3")), w)
  | c => ok_os c w
  end.

Abbreviation demo_exec := (ExecuteStream demo_worker 1 "true").

Lemma ExecuteStream_outcome_witness :
  (exists x, (res late_os demo_exec tt).1 = Ok x /\ res_ExitCode x = 124 /\ res_TimedOut x = true) /\
  (exists x, (res failing_os demo_exec tt).1 = Ok x /\ res_ExitCode x = 3 /\ res_TimedOut x = false).
Proof.
  split.
  - destruct (ExecuteStream_outcome demo_worker 1 "true" (trace late_os demo_exec tt)
      (res late_os demo_exec tt).1 (res late_os demo_exec tt).2) as [Hr _].
    { rewrite <- surjective_pairing. apply run_ends. }
    destruct Hr as (_ & _ & Hr). destruct Hr as (r & t0 & t1 & Hr & Hc & Ht & _); [by intros n [t [=]] |].
    by exists r.
  - destruct (ExecuteStream_outcome demo_worker 1 "true" (trace failing_os demo_exec tt)
      (res failing_os demo_exec tt).1 (res failing_os demo_exec tt).2) as [Hr _].
    { rewrite <- surjective_pairing. apply run_ends. }
    destruct Hr as (Hr & _). destruct (Hr 3) as (r & t0 & t1 & Er & Hc & Ht & _); [by eexists |].
    by exists r.
Defined.

Lemma ExecutePTY_outcome_witness :
  reported true 100 (mon_trace exec_mon no_execution (trace late_os (ExecutePTY demo_worker 1) tt))
    (res late_os (ExecutePTY demo_worker 1) tt).1.
Proof.
  apply (ExecutePTY_outcome demo_worker 1 _ _ (snd (res late_os (ExecutePTY demo_worker 1) tt))).
  rewrite <- surjective_pairing. apply run_ends.
Defined.

Lemma Execute_releases_witness :
  worker_gone demo_worker (mon_trace res_mon no_resources (trace late_os (ExecuteStream demo_worker 1 "true") tt)).
Proof.
  destruct (Execute_releases demo_worker 1 "true" no_resources) as [H _].
  apply (H _ (res late_os (ExecuteStream demo_worker 1 "true") tt)). apply run_ends.
Defined.

(** The pool of capacity 2 that [NewPool] makes, and its next states. *)
Definition demo_pool : Pool :=
  {| p_capacity := 2; p_workers := [demo_worker; demo_worker]; p_closed := false;
     p_storageLimitMB := 64; p_mu := Free; p_pending := 0; p_out := []; p_destroyed := [];
     p_spawned := [demo_worker; demo_worker] |}.

Definition demo_pool1 : Pool := snd (take_worker demo_pool).

Lemma pool_safe_witness :
  pool_step demo_pool1 (ASpawned (Some demo_worker)) <> Panic /\
  pool_step demo_pool1 (ASpawned (Some demo_worker)) <> Blocked /\
  p_spawned demo_pool1 ≡ₚ p_workers demo_pool1 ++ p_out demo_pool1 ++ p_destroyed demo_pool1.
Proof.
  destruct (pool_safe demo_pool demo_pool1 (ASpawned (Some demo_worker))) as (H1 & H2 & H3 & _).
  - by split.
  - apply (reach_step _ demo_pool ATake); [constructor | reflexivity].
  - done.
Defined.

Lemma pool_level_witness :
  Z.of_nat (length (p_workers demo_pool1) + under_way demo_pool1 + 0) = 2 /\
  exists p', rtc (refill demo_worker) demo_pool1 p' /\ under_way p' = O /\
    Z.of_nat (length (p_workers p') + 0) = 2.
Proof.
  apply (pool_level demo_pool 0 demo_pool1 demo_worker); [by split | | reflexivity].
  apply (run_step _ 0 demo_pool ATake); [constructor | reflexivity].
Defined.

Lemma NewPoolWithStorage_full_witness :
  exists p, res ok_os (NewPoolWithStorage demo_config 0 0) tt = Ok p /\ p_capacity p = 2 /\ p_storageLimitMB p = 64.
Proof.
  destruct (res ok_os (NewPoolWithStorage demo_config 0 0) tt) as [p|e] eqn:E.
  - exists p. split; [done |].
    apply (NewPoolWithStorage_full demo_config 0 0 (trace ok_os (NewPoolWithStorage demo_config 0 0) tt) p).
    rewrite <- E. apply run_ends.
  - exfalso. revert E. vm_compute. discriminate.
Defined.

Lemma AcquireCustom_spec_witness :
  exists w rest, p_workers demo_pool = w :: rest /\
    fst (res ok_os (Acquire demo_config demo_pool) tt) = Ok (Some w).
Proof.
  destruct (AcquireCustom_spec demo_config demo_pool 64 [] false [] false
    (trace ok_os (Acquire demo_config demo_pool) tt)
    (fst (res ok_os (Acquire demo_config demo_pool) tt))
    (snd (res ok_os (Acquire demo_config demo_pool) tt)))
    as [(w & rest & H1 & H2 & _) | [(H & _) | (H & _)]].
  - rewrite <- surjective_pairing. apply run_ends.
  - by exists w, rest.
  - vm_compute in H. discriminate.
  - vm_compute in H. discriminate.
Defined.

(** After [Close] an acquisition returns a nil worker and no error. *)
Definition closed_pool : Pool := set_mu {| p_capacity := 2; p_workers := []; p_closed := false;
  p_storageLimitMB := 64; p_mu := Free; p_pending := 0; p_out := []; p_destroyed := []; p_spawned := [] |}
  Free 0 true.

Example Acquire_nil_after_Close : fst (res ok_os (Acquire demo_config closed_pool) tt) = Ok None.
Proof. reflexivity. Qed.

(** A worker that cannot be attached to its cgroup is killed but never waited for. *)
Example spawnWorker_zombie :
  let k := machine_after (trace stubborn_os demo_spawn tt) in mc_procs k = [] /\ mc_zombies k = [100].
Proof. vm_compute. done. Qed.

(** When a pipe cannot be made, the child's ends of those made before stay open, until their
    files are collected: only a start of the command closes them. *)
Definition no_stderr_os : handler os unit := fun c w =>
  match c return osans c * unit with
  | StderrPipe => (Err (SysErr EIO "pipe"), w)
  | c => ok_os c w
  end.

Example spawnWorker_child_end :
  is_ok (res no_stderr_os demo_spawn tt) = false /\
  mc_child_ends (machine_after (trace no_stderr_os demo_spawn tt)) = 2%nat.
Proof. vm_compute. done. Qed.
