(* ===== verification/DaemonConfig.v ===== *)
(** * Daemon configuration (src/pkg/config/config.go) *)

From S2P Require Import Prelude GoStrings GoPath Effects OS.
#[local] Open Scope go_scope.

Record ServerConfig := { SocketPath : string; SocketMode : Z }.
Record PoolConfig := { WarmWorkers : Z }.
Record DefaultsConfig := { MemoryLimitMB : Z; MaxProcesses : Z; TimeoutSec : Z; StorageLimitMB : Z }.
Record StorageConfig := { CgroupRoot : string; LayersDir : string }.
Record DaemonConfig := {
  dc_Server : ServerConfig;
  dc_Pool : PoolConfig;
  dc_Defaults : DefaultsConfig;
  dc_Storage : StorageConfig;
}.

Definition DefaultConfig : DaemonConfig := {|
  dc_Server := {| SocketPath := "/var/run/gojail.sock"; SocketMode := mode_0666 |};
  dc_Pool := {| WarmWorkers := 2 |};
  dc_Defaults := {| MemoryLimitMB := 128; MaxProcesses := 64; TimeoutSec := 10; StorageLimitMB := 64 |};
  dc_Storage := {| CgroupRoot := "/sys/fs/cgroup/gojail"; LayersDir := "/run/gojail/layers" |} |}.

(** The first candidate that exists. *)
Fixpoint find_config (candidates : list string) : io string :=
  match candidates with
  | [] => mret ""
  | cand :: rest =>
      r ← sys (Stat cand);
      match r with Ok _ => mret cand | Err _ => find_config rest end
  end.

Definition config_candidates : list string := ["/etc/gojail/config.yaml"; "config.yaml"].

(** A directory that cannot be made is an error for root only. *)
Definition ensure_dir (dir what : string) : io (result unit) :=
  r ← sys (MkdirAll dir mode_0755);
  match r with
  | Ok _ => mret (Ok tt)
  | Err e =>
      uid ← sys Geteuid;
      if uid =? 0 then mret (Err (WrapErr ("failed to ensure " +:+ what) e)) else mret (Ok tt)
  end.

Section load.
(** [yaml.Unmarshal], of a third-party package, into a configuration. *)
Variable yaml_Unmarshal : string -> DaemonConfig -> result DaemonConfig.

Definition LoadConfig (path : string) : io (result DaemonConfig) :=
  let cfg := DefaultConfig in
  targetPath ← (if bool_decide (path = "") then find_config config_candidates else mret path);
  if bool_decide (targetPath = "") then mret (Ok cfg)
  else
    let? data := sys (ReadFile targetPath) onerr e =>
      (if IsNotExist e && bool_decide (path = "") then mret (Ok cfg)
       else mret (Err (WrapErr ("failed to read config file " +:+ targetPath) e))) in
    match yaml_Unmarshal data cfg with
    | Err e => mret (Err (WrapErr ("failed to parse yaml config at " +:+ targetPath) e))
    | Ok cfg =>
        let? _ := ensure_dir (Dir (SocketPath (dc_Server cfg))) "socket directory" onerr e => mret (Err e) in
        let? _ := ensure_dir (LayersDir (dc_Storage cfg)) "layers directory" onerr e => mret (Err e) in
        mret (Ok cfg)
    end.

(** The file a run of [LoadConfig] read, with what the read answered. *)
Definition read_mon (s : option (string * result string)) (c : os) (r : ans c) :
    option (string * result string) :=
  match c return osans c -> option (string * result string) with
  | ReadFile p => fun r => Some (p, r)
  | _ => fun _ => s
  end r.

Lemma wp_find_config cands Q s :
  (forall t, t = "" \/ t ∈ cands -> Q s t) -> wp read_mon (find_config cands) s Q.
Proof.
  revert Q. induction cands as [|c cands IH]; intros Q HQ; cbn [find_config].
  - wp_step. apply HQ. by left.
  - wp_step. wp_step; [wp_step; apply HQ; right; by left |].
    apply IH. intros t [-> | Ht]; apply HQ; [by left | right; by right].
Qed.

Lemma neutral_ensure_dir dir what : neutral read_mon (ensure_dir dir what).
Proof. unfold ensure_dir. neutral_steps. Qed.

(** Where a configuration comes from: with an explicit path it is that file and no
    other, and an unreadable or malformed file is an error; without a path it is the
    first of the two standard files, and only when there is none (or it vanished) the
    built-in defaults; what a file does not set keeps its default. *)
Theorem LoadConfig_source path tr r :
  ends (LoadConfig path) tr r ->
  match mon_trace read_mon None tr with
  | None => path = "" /\ r = Ok DefaultConfig
  | Some (p, Ok data) =>
      (path <> "" -> p = path) /\ (path = "" -> p ∈ config_candidates) /\
      (forall cfg, r = Ok cfg -> yaml_Unmarshal data DefaultConfig = Ok cfg) /\
      (is_ok (yaml_Unmarshal data DefaultConfig) = false -> is_ok r = false)
  | Some (p, Err e) =>
      (path <> "" -> p = path /\ is_ok r = false) /\
      (path = "" -> p ∈ config_candidates /\
                    if IsNotExist e then r = Ok DefaultConfig else is_ok r = false)
  end.
Proof.
  apply (wp_ends read_mon _ None (fun s r => match s with
    | None => path = "" /\ r = Ok DefaultConfig
    | Some (p, Ok data) => (path <> "" -> p = path) /\ (path = "" -> p ∈ config_candidates) /\
        (forall cfg, r = Ok cfg -> yaml_Unmarshal data DefaultConfig = Ok cfg) /\
        (is_ok (yaml_Unmarshal data DefaultConfig) = false -> is_ok r = false)
    | Some (p, Err e) => (path <> "" -> p = path /\ is_ok r = false) /\
        (path = "" -> p ∈ config_candidates /\
                      if IsNotExist e then r = Ok DefaultConfig else is_ok r = false) end)).
  unfold LoadConfig. cbv zeta. wp_step.
  apply (wp_mono _ _ _ (fun s t => s = None /\ (path <> "" -> t = path) /\
    (path = "" -> t = "" \/ t ∈ config_candidates))).
  2: { case_bool_decide; [apply wp_find_config | wp_step]; naive_solver. }
  intros s t (-> & H1 & H2). case_bool_decide as Ht.
  { wp_step. split; [| done]. destruct (decide (path = "")); [done |]. naive_solver. }
  wp_step. wp_step; cbn [read_mon].
  - destruct (yaml_Unmarshal x DefaultConfig) as [cfg|e] eqn:Hy; [| wp_step; rewrite ?Hy; naive_solver].
    wp_step. eapply wp_mono; [| apply neutral_ensure_dir]. intros s [[]|e] ->; cbv beta iota; [| wp_step; rewrite ?Hy; naive_solver].
    wp_step. eapply wp_mono; [| apply neutral_ensure_dir]. intros s [[]|e] ->; cbv beta iota; wp_step; rewrite ?Hy; naive_solver.
  - destruct (IsNotExist e) eqn:He; cbn [andb]; [case_bool_decide |]; wp_step;
      rewrite ?He; naive_solver.
Qed.
End load.

Lemma LoadConfig_source_witness :
  "/etc/gojail/config.yaml" ∈ config_candidates /\
  (forall cfg, res ok_os (LoadConfig (fun _ c => Ok c) "") tt = Ok cfg -> @Ok DaemonConfig DefaultConfig = Ok cfg).
Proof.
  pose proof (LoadConfig_source (fun _ c => Ok c) "" (trace ok_os (LoadConfig (fun _ c => Ok c) "") tt)
    (res ok_os (LoadConfig (fun _ c => Ok c) "") tt)) as H.
  destruct H as (_ & H1 & H2 & _); [apply run_ends |]. split; [by apply H1 | exact H2].
Defined.
