(* ===== verification/Recovery.v ===== *)
(** * Crash recovery (src/pkg/server/recovery.go)

    The daemon's instance lock and the sweeps of what an earlier daemon left: mounts
    below the layers directory, cgroups of workers, the layers tree.  Messages to
    standard error are not modelled. *)

From S2P Require Import Prelude GoStrings GoStrconv GoPath GoSort Effects OS.
#[local] Open Scope go_scope.

Definition defaultPIDFile : string := "/var/run/gojaild.pid".
Definition defaultLayersDir : string := "/run/gojail/layers".
Definition cgroupRoot : string := "/sys/fs/cgroup/gojail".

(** The locked file's descriptor. *)
Definition AcquireDaemonLock (pidPath : string) : io (result Z) :=
  let pidPath := if bool_decide (pidPath = "") then defaultPIDFile else pidPath in
  let? _ := sys (MkdirAll (Dir pidPath) mode_0755) onerr e =>
    mret (Err (WrapErr "failed to create pidfile directory" e)) in
  let? file := sys (OpenFile pidPath (Z.lor O_CREATE O_RDWR) mode_0644) onerr e =>
    mret (Err (WrapErr ("failed to open pidfile " +:+ pidPath) e)) in
  let? _ := sys (Flock file (Z.lor LOCK_EX LOCK_NB)) onerr _e =>
    (do_ sys (CloseFd file);;
     mret (Err (NewErr ("another gojaild daemon instance is already active (lock held on " +:+ pidPath +:+ ")")))) in
  let? _ := sys (Truncate file 0) onerr e =>
    (do_ sys (CloseFd file);; mret (Err (WrapErr "failed to truncate pidfile" e))) in
  let? _ := sys (Seek file 0) onerr e =>
    (do_ sys (CloseFd file);; mret (Err (WrapErr "failed to seek pidfile" e))) in
  pid ← sys Getpid;
  let? _ := sys (WriteString file (Itoa pid +:+ String newline "")) onerr e =>
    (do_ sys (CloseFd file);; mret (Err (WrapErr ("failed to write pid to " +:+ pidPath) e))) in
  mret (Ok file).

(** The mount point of a line of /proc/mounts, when it is in the swept directory. *)
Definition matched_mount (cleanPrefix line : string) : option string :=
  match Fields line with
  | _ :: f1 :: _ => let target := Clean f1 in
                    if inside cleanPrefix target then Some target else None
  | _ => None
  end.

Definition path_len (s : string) : Z := Z.of_nat (String.length s).

(** The mounts are detached one by one; a mount point that is gone counts as detached. *)
Definition detach_all (targets : list string) : io Z :=
  foldM (fun count target =>
    r ← sys (Unmount target MNT_DETACH);
    mret (match r with
          | Ok _ => count + 1
          | Err e => if IsNotExist e then count + 1 else count
          end)) 0 targets.

(** A scan that ended with an error. *)
Definition SweepStaleMounts `{SliceSort} (layersPrefix : string) : io (result Z) :=
  let layersPrefix := if bool_decide (layersPrefix = "") then defaultLayersDir else layersPrefix in
  let? scanned := sys (OpenScan "/proc/mounts") onerr e =>
    (if IsNotExist e then mret (Ok 0)
     else mret (Err (WrapErr "failed to read /proc/mounts" e))) in
  let cleanPrefix := Clean layersPrefix in
  let '(lines, scan_err) := scan (fst scanned) (snd scanned) in
  let matchedMounts := omap (matched_mount cleanPrefix) lines in
  match scan_err with
  | Some e => mret (Err (WrapErr "error parsing /proc/mounts" e))
  | None =>
      let sorted := sort_slice (fun a b => path_len b <? path_len a) matchedMounts in
      unmountedCount ← detach_all sorted;
      mret (Ok unmountedCount)
  end.

(** The cgroup of a dead worker is killed, when the kernel can, and removed. *)
Definition sweep_entry (entry : string * bool) : io unit :=
  let '(name, is_dir) := entry in
  if negb is_dir then mret tt
  else if HasPrefix name "warm-" || HasPrefix name "jail-" then
    let cgPath := PathJoin [cgroupRoot; name] in
    let killFile := PathJoin [cgPath; "cgroup.kill"] in
    do_ mbind (fun r => match r with
                        | Ok _ => do_ sys (WriteFile killFile ("1" +:+ String newline "") mode_0644);; mret tt
                        | Err _ => mret tt
                        end) (sys (Stat killFile));;
    do_ sys (Remove cgPath);;
    mret tt
  else mret tt.

Definition SweepStaleCgroups : io (result unit) :=
  let? entries := sys (ReadDir cgroupRoot) onerr e =>
    (if IsNotExist e then mret (Ok tt)
     else mret (Err (WrapErr ("failed to inspect " +:+ cgroupRoot) e))) in
  do_ foldM (fun _ e => sweep_entry e) tt entries;;
  mret (Ok tt).

Definition ResetLayersTree `{SliceSort} (layersDir : string) : io (result unit) :=
  let layersDir := if bool_decide (layersDir = "") then defaultLayersDir else layersDir in
  let? _ := SweepStaleMounts layersDir onerr e =>
    mret (Err (WrapErr "failed to sweep stale mounts" e)) in
  let remake :=
    let? _ := sys (MkdirAll layersDir mode_0755) onerr e =>
      mret (Err (WrapErr "failed to recreate layers directory" e)) in
    mret (Ok tt) in
  r ← sys (RemoveAll layersDir);
  match r with
  | Err e => if negb (IsNotExist e)
             then mret (Err (WrapErr ("failed to clean layers directory " +:+ layersDir) e))
             else remake
  | Ok _ => remake
  end.

(** ** The sweep of the mounts *)

(** Whether an unmount succeeded or found nothing mounted. *)
Definition detached (e : event os) : bool :=
  match e with
  | Ev c r => match c return osans c -> bool with
              | Unmount _ _ => fun r => match r with Ok _ => true | Err e => IsNotExist e end
              | _ => fun _ => false
              end r
  end.

Lemma detach_all_ends ts count tr n :
  ends (foldM (fun count target =>
    r ← sys (Unmount target MNT_DETACH);
    mret (match r with
          | Ok _ => count + 1
          | Err e => if IsNotExist e then count + 1 else count
          end)) count ts) tr n ->
  calls tr = map (fun t => Unmount t MNT_DETACH : os) ts /\
  n = count + Z.of_nat (length (List.filter detached tr)).
Proof.
  revert count tr. induction ts as [|t ts IH]; intros count tr He; cbn [foldM] in He.
  - apply ends_inv in He as [-> ->]. simpl. split; [done | lia].
  - apply ends_bind_inv in He as (tr1 & n1 & tr2 & H1 & H2 & ->).
    apply IH in H2 as [Hc ->]. apply ends_bind_inv in H1 as (tr3 & r & tr4 & H3 & H4 & ->).
    apply ends_inv in H3 as (r' & tr5 & -> & H5). apply ends_inv in H5 as [-> ->].
    apply ends_inv in H4 as [-> ->]. unfold calls in *. rewrite app_nil_r, map_app, Hc. split; [done |].
    rewrite List.filter_app, length_app. simpl. destruct r' as [|e]; [simpl; lia |].
    destruct (IsNotExist e); simpl; lia.
Qed.

(** A line of /proc/mounts: six fields, the second the mount point. *)
Record mount_entry := { me_source : string; me_target : string; me_type : string; me_options : string }.

Definition entry_line (e : mount_entry) : string :=
  me_source e +:+ " " +:+ me_target e +:+ " " +:+ me_type e +:+ " " +:+ me_options e +:+ " 0 0".

Definition entry_ok (e : mount_entry) : Prop :=
  word (me_source e) /\ word (me_target e) /\ word (me_type e) /\ word (me_options e) /\ scannable (entry_line e).

(** The directory itself, or below it. *)
Definition in_tree (dir target : string) : bool :=
  String.eqb target dir || String.prefix (dir +:+ "/") target.

(** The directory that is swept. *)
Definition swept (prefix : string) : string :=
  Clean (if bool_decide (prefix = "") then "/run/gojail/layers" else prefix).

(** The mount points of a table that are in the swept directory. *)
Definition stale_mounts (prefix : string) (entries : list mount_entry) : list string :=
  List.filter (in_tree (swept prefix)) (map (fun e => Clean (me_target e)) entries).

Lemma in_tree_inside dir t : in_tree dir t = inside dir t.
Proof.
  unfold in_tree, inside, HasPrefix. f_equal. case_bool_decide as E; [by apply String.eqb_eq | by apply String.eqb_neq].
Qed.

Lemma matched_entry dir e : entry_ok e ->
  matched_mount dir (entry_line e) = if in_tree dir (Clean (me_target e)) then Some (Clean (me_target e)) else None.
Proof.
  intros (Hs & Ht & _). rewrite in_tree_inside. unfold matched_mount.
  assert (exists rest, Fields (entry_line e) = me_source e :: me_target e :: rest) as [rest ->]; [| done].
  eexists. unfold entry_line.
  etransitivity; [refine (Fields_blank (me_source e) _ Hs) | f_equal; refine (Fields_blank (me_target e) _ Ht)].
Qed.

Lemma matched_stale prefix entries : Forall entry_ok entries ->
  omap (matched_mount (swept prefix)) (map entry_line entries) = stale_mounts prefix entries.
Proof.
  unfold stale_mounts. induction 1 as [|e entries He _ IH]; [done |]. cbn [map omap list_omap List.filter].
  rewrite matched_entry by done. destruct (in_tree _ _); [f_equal |]; exact IH.
Qed.

(** The text of the table, as the first call read it. *)
Definition mounts_read (tr : list (event os)) : option (string * option error) :=
  match tr with
  | Ev c r :: _ => match c return osans c -> option (string * option error) with
                   | OpenScan _ => fun r => match r with Ok x => Some x | Err _ => None end
                   | _ => fun _ => None
                   end r
  | [] => None
  end.

Definition unmount_calls (ts : list string) : list os := map (fun t => Unmount t MNT_DETACH : os) ts.

(** C36: The sweep detaches exactly the mount points of /proc/mounts that are the layers
    directory or below it, each as often as it is listed: for a table of lines of six
    fields, up to their order, the cleaned second fields that are the directory or start
    with it and a slash; and whatever the table holds, never one outside.  A mount nested
    in another is detached before it; the count is that of the unmounts that succeeded or
    found nothing there; a failing unmount does not stop the sweep, and nothing is
    unmounted when the table cannot be read to its end. *)
Theorem SweepStaleMounts_spec `{SliceSort} prefix tr r :
  ends (SweepStaleMounts prefix) tr r ->
  exists ts, calls tr = (OpenScan "/proc/mounts" : os) :: unmount_calls ts /\
    (forall n, r = Ok n -> n = Z.of_nat (length (List.filter detached tr))) /\
    (is_ok r = false -> ts = []) /\
    (forall entries rerr, Forall entry_ok entries -> mounts_read tr = Some (lines (map entry_line entries), rerr) ->
       match rerr with
       | None => is_ok r = true /\ ts ≡ₚ stale_mounts prefix entries
       | Some _ => is_ok r = false
       end) /\
    (forall t, t ∈ ts -> in_tree (swept prefix) t = true) /\
    (forall i j outer inner, ts !! i = Some outer -> ts !! j = Some inner ->
       HasPrefix inner (outer +:+ "/") = true -> (j < i)%nat).
Proof.
  intros He. unfold SweepStaleMounts in He. change (Clean _) with (swept prefix) in He. set (pre := swept prefix) in *.
  apply ends_bind_inv in He as (tr1 & a & tr2 & H1 & H2 & ->).
  apply ends_inv in H1 as (a' & tr3 & -> & H3). apply ends_inv in H3 as [-> ->].
  destruct a' as [[text rerr] | e].
  2: { exists []. destruct (IsNotExist e); apply ends_inv in H2 as [-> ->]; repeat split; try done;
       intros; simplify_eq/=; set_solver. }
  simpl in H2. destruct (scan text rerr) as [lines serr] eqn:Hscan. destruct serr as [e|].
  { exists []. apply ends_inv in H2 as [-> ->]. repeat split; try done; [| set_solver].
    intros entries rerr' Hok Hr. simplify_eq/=. rewrite scan_lines in Hscan; [by injection Hscan as _ -> |].
    apply Forall_fmap. eapply Forall_impl; [exact Hok | by intros x (_ & _ & _ & _ & Hx)]. }
  apply ends_bind_inv in H2 as (tr4 & n & tr5 & H4 & H5 & ->).
  apply ends_inv in H5 as [-> ->]. apply detach_all_ends in H4 as [Hc ->].
  set (ts := sort_slice _ _) in *.
  assert (ts ≡ₚ omap (matched_mount pre) lines) as Hp by apply sort_slice_perm.
  exists ts. split; [rewrite app_nil_r; unfold unmount_calls; rewrite <- Hc; reflexivity |].
  split; [by intros n [= <-]; rewrite app_nil_r |]. split; [done |].
  split.
  { intros entries rerr' Hok Hr. simpl in Hr. simplify_eq. rewrite scan_lines in Hscan.
    - injection Hscan as <- ->. split; [done |]. by rewrite Hp, <- (matched_stale prefix entries Hok).
    - apply Forall_fmap. eapply Forall_impl; [exact Hok | by intros x (_ & _ & _ & _ & Hx)]. }
  split.
  - intros t Ht. rewrite in_tree_inside. rewrite Hp in Ht. apply list_elem_of_omap in Ht as (l & _ & Hl).
    unfold matched_mount in Hl. repeat case_match; by simplify_eq.
  - intros i j outer inner Hi Hj Hpre. apply HasPrefix_elim in Hpre as [s Hs].
    assert (path_len outer < path_len inner) as Hlen.
    { unfold path_len. rewrite <- (length_list_of inner), <- (length_list_of outer), Hs, !list_of_app, !length_app.
      cbn [list_of length]. lia. }
    destruct (decide (j < i)%nat) as [|Hge]; [done |]. exfalso.
    assert (i <> j) by (intros ->; assert (outer = inner) as E by congruence; rewrite E in Hlen; lia).
    pose proof (sort_slice_sorted (fun a b => path_len b <? path_len a) (fun s => - path_len s)
      (omap (matched_mount pre) lines)) as Hs2.
    assert (StronglySorted (fun x y => - path_len x <= - path_len y) ts) as Hsorted.
    { apply Hs2. intros x y. apply eq_true_iff_eq. rewrite !Z.ltb_lt. lia. }
    pose proof (sorted_lookup _ _ i j outer inner Hsorted Hi Hj ltac:(lia)). simpl in *. lia.
Qed.

(** ** The sweep of the cgroups *)

(** What a run removed, wrote and listed. *)
Fixpoint removed (cs : list os) : list string :=
  match cs with
  | [] => []
  | c :: cs => match (c : oscall) with Remove p => p :: removed cs | _ => removed cs end
  end.

Fixpoint written_paths (cs : list os) : list string :=
  match cs with
  | [] => []
  | c :: cs => match (c : oscall) with WriteFile p _ _ => p :: written_paths cs | _ => written_paths cs end
  end.

Lemma removed_app c1 c2 : removed (c1 ++ c2) = removed c1 ++ removed c2.
Proof. induction c1 as [|c c1 IH]; [done |]. destruct c; simpl in *; rewrite ?IH; reflexivity. Qed.

Lemma written_paths_app c1 c2 : written_paths (c1 ++ c2) = written_paths c1 ++ written_paths c2.
Proof. induction c1 as [|c c1 IH]; [done |]. destruct c; simpl in *; rewrite ?IH; reflexivity. Qed.

(** The cgroups of dead workers: directories with a worker's prefix. *)
Definition dead_worker (entry : string * bool) : bool :=
  snd entry && (HasPrefix (fst entry) "warm-" || HasPrefix (fst entry) "jail-").

Definition worker_cgroup (entry : string * bool) : string := PathJoin [cgroupRoot; fst entry].

Definition worker_killfile (entry : string * bool) : string :=
  PathJoin [worker_cgroup entry; "cgroup.kill"].

Lemma sweep_entry_ends entry tr u : ends (sweep_entry entry) tr u ->
  removed (calls tr) = (if dead_worker entry then [worker_cgroup entry] else []) /\
  Forall (fun p => p = worker_killfile entry) (written_paths (calls tr)).
Proof.
  destruct entry as [name is_dir]. intros He. revert He.
  apply (wp_ends_log _ tr u (fun tr _ => removed (calls tr) = _ /\ Forall _ (written_paths (calls tr)))).
  unfold sweep_entry, dead_worker. simpl fst. simpl snd.
  destruct is_dir; [| by wp_step]. cbn [negb andb].
  destruct (HasPrefix name "warm-" || HasPrefix name "jail-"); [| by wp_step]. cbv zeta.
  wp_steps; (split; [reflexivity |]); repeat constructor.
Qed.

Lemma sweep_entries_ends entries u tr u' :
  ends (foldM (fun (_ : unit) e => sweep_entry e) u entries) tr u' ->
  removed (calls tr) = map worker_cgroup (List.filter dead_worker entries) /\
  Forall (fun p => exists e, e ∈ entries /\ p = worker_killfile e) (written_paths (calls tr)).
Proof.
  revert u tr. induction entries as [|e entries IH]; intros u tr He; cbn [foldM] in He.
  - apply ends_inv in He as [_ ->]. by split.
  - apply ends_bind_inv in He as (tr1 & u1 & tr2 & H1 & H2 & ->).
    apply sweep_entry_ends in H1 as [E1 W1]. apply IH in H2 as [E2 W2].
    unfold calls in *. rewrite map_app, removed_app, written_paths_app, E1, E2. split.
    + simpl. by destruct (dead_worker e).
    + apply Forall_app. split; (eapply Forall_impl; [eassumption |]); simpl.
      * intros p ->. exists e. split; [by left | done].
      * intros p (e' & He' & ->). exists e'. split; [by right | done].
Qed.

(** The listing, as the first call read it. *)
Definition entries_read (tr : list (event os)) : option (list (string * bool)) :=
  match tr with
  | Ev c r :: _ => match c return osans c -> option (list (string * bool)) with
                   | ReadDir _ => fun r => match r with Ok x => Some x | Err _ => None end
                   | _ => fun _ => None
                   end r
  | [] => None
  end.

(** The cgroup sweep removes, in the order of the listing, exactly the cgroups of
    dead workers (directories whose name starts with warm- or jail-) and touches nothing
    but them: it writes only to their cgroup.kill, and never to the cgroups of others. *)
Theorem SweepStaleCgroups_spec tr r entries :
  ends SweepStaleCgroups tr r -> entries_read tr = Some entries ->
  r = Ok tt /\
  removed (calls tr) = map worker_cgroup (List.filter dead_worker entries) /\
  Forall (fun p => exists e, e ∈ entries /\ p = worker_killfile e) (written_paths (calls tr)).
Proof.
  unfold SweepStaleCgroups. intros He Hread.
  apply ends_bind_inv in He as (tr1 & a & tr2 & H1 & H2 & ->).
  apply ends_inv in H1 as (a' & tr3 & -> & H3). apply ends_inv in H3 as [-> ->].
  simpl in Hread. destruct a' as [l|]; simplify_eq.
  apply ends_bind_inv in H2 as (tr4 & u & tr5 & H4 & H5 & ->).
  apply ends_inv in H5 as [-> ->]. rewrite app_nil_r. split; [done |]. by apply sweep_entries_ends in H4.
Qed.

(** ** The instance lock *)

(** The daemon's lock: success means that the pid file was opened, locked
    exclusively without waiting, and only then truncated and written with the process's
    pid; after any failure past the opening the file is closed, and when the lock is
    held elsewhere the file is not modified. *)
Theorem AcquireDaemonLock_spec path tr r :
  ends (AcquireDaemonLock path) tr r ->
  match r with
  | Ok fd => exists p pid,
      tr = [@Ev os (MkdirAll (Dir p) mode_0755) (Ok tt);
            @Ev os (OpenFile p (Z.lor O_CREATE O_RDWR) mode_0644) (Ok fd);
            @Ev os (Flock fd (Z.lor LOCK_EX LOCK_NB)) (Ok tt);
            @Ev os (Truncate fd 0) (Ok tt); @Ev os (Seek fd 0) (Ok tt);
            @Ev os Getpid pid; @Ev os (WriteString fd (Itoa pid +:+ String newline "")) (Ok tt)] /\
      p = (if bool_decide (path = "") then defaultPIDFile else path)
  | Err _ =>
      (length tr <= 2)%nat \/
      (exists fd ans, last tr = Some (@Ev os (CloseFd fd) ans) /\
         (forall i n, calls tr !! i = Some (Truncate fd n : os) ->
            tr !! 2%nat = Some (@Ev os (Flock fd (Z.lor LOCK_EX LOCK_NB)) (Ok tt))))
  end.
Proof.
  apply (wp_ends_log _ tr r (fun tr r => match r with Ok _ => _ | Err _ => _ end)).
  unfold AcquireDaemonLock. cbv zeta. set (p := if bool_decide (path = "") then _ else _).
  wp_steps; unfold log_mon; simpl; try (left; lia); try (by exists p, r0);
    (right; eexists _, _; split; [reflexivity |];
     intros [|[|[|[|[|[|[|[|i]]]]]]]] n Hi; simplify_eq/=; reflexivity).
Qed.

(** ** Concrete runs *)

Definition demo_mounts : list mount_entry :=
  [{| me_source := "tmpfs"; me_target := "/run/gojail/layers/a"; me_type := "tmpfs"; me_options := "rw" |};
   {| me_source := "overlay"; me_target := "/run/gojail/layers/a/merged"; me_type := "overlay"; me_options := "rw" |};
   {| me_source := "proc"; me_target := "/proc"; me_type := "proc"; me_options := "rw" |}].

Definition proc_mounts : string := lines (map entry_line demo_mounts).

Definition mounts_os : handler os unit := fun c w =>
  match c return osans c * unit with
  | OpenScan _ => (Ok (proc_mounts, None), w)
  | ReadDir _ => (Ok [("warm-1", true); ("gojail-7", true); ("warm-f", false)], w)
  | c => ok_os c w
  end.

Lemma SweepStaleMounts_spec_witness :
  exists ts, calls (trace mounts_os (SweepStaleMounts "") tt) = (OpenScan "/proc/mounts" : os) :: unmount_calls ts /\
    ts ≡ₚ ["/run/gojail/layers/a"; "/run/gojail/layers/a/merged"].
Proof.
  destruct (SweepStaleMounts_spec "" (trace mounts_os (SweepStaleMounts "") tt)
    (res mounts_os (SweepStaleMounts "") tt) (run_ends _ _ _)) as (ts & H1 & _ & _ & H2 & _).
  exists ts. split; [exact H1 |]. apply (H2 demo_mounts None); [| reflexivity].
  do 3 (constructor; [repeat split; (discriminate || vm_compute; reflexivity) |]). constructor.
Defined.

Lemma SweepStaleCgroups_spec_witness :
  removed (calls (trace mounts_os SweepStaleCgroups tt)) = ["/sys/fs/cgroup/gojail/warm-1"].
Proof.
  apply (SweepStaleCgroups_spec (trace mounts_os SweepStaleCgroups tt) (res mounts_os SweepStaleCgroups tt)
    [("warm-1", true); ("gojail-7", true); ("warm-f", false)]).
  - apply (run_ends mounts_os SweepStaleCgroups tt).
  - reflexivity.
Defined.

Lemma AcquireDaemonLock_spec_witness :
  exists p pid, length (trace ok_os (AcquireDaemonLock "") tt) = 7%nat /\
    nth_error (trace ok_os (AcquireDaemonLock "") tt) 5 = Some (@Ev os Getpid pid) /\ p = defaultPIDFile.
Proof.
  destruct (AcquireDaemonLock_spec "" (trace ok_os (AcquireDaemonLock "") tt)
    (res ok_os (AcquireDaemonLock "") tt) (run_ends _ _ _)) as (p & pid & -> & Hp).
  exists p, pid. repeat split. exact Hp.
Defined.
