(* ===== verification/Runner.v ===== *)
(** * The sandbox runner (src/pkg/sandbox/runner.go)

    [Run] in the parent (overlay, cgroup, child process, network, wait) and [InitChild]
    in the child, inside its namespaces (mounts, pivot_root, privilege drop, exec). *)

From S2P Require Import Prelude GoStrings GoStrconv GoPath GoSort Effects OS.
From S2P Require Import SandboxConfig Seccomp Security Cgroup Overlay Resources Pool.
From S2P Require Import GoNet Ipam Network.
#[local] Open Scope go_scope.

Definition Second : Z := 1000000000.

Record Runner := { r_cfg : Config }.

(** The defaults of the fields left zero. *)
Definition NewRunner (cfg : Config) : Runner :=
  {| r_cfg :=
     {| cfg_ID := cfg_ID cfg;
        cfg_MemoryLimitBytes := if cfg_MemoryLimitBytes cfg =? 0 then 128 * 1024 * 1024 else cfg_MemoryLimitBytes cfg;
        cfg_MaxProcesses := if cfg_MaxProcesses cfg =? 0 then 64 else cfg_MaxProcesses cfg;
        cfg_StorageLimitMB := if cfg_StorageLimitMB cfg =? 0 then 64 else cfg_StorageLimitMB cfg;
        cfg_Timeout := if cfg_Timeout cfg =? 0 then 10 * Second else cfg_Timeout cfg;
        cfg_Command := cfg_Command cfg; cfg_Args := cfg_Args cfg; cfg_Env := cfg_Env cfg;
        cfg_RootPath := cfg_RootPath cfg; cfg_Rootfs := cfg_Rootfs cfg; cfg_Mounts := cfg_Mounts cfg;
        cfg_TTY := cfg_TTY cfg; cfg_SeccompProfile := cfg_SeccompProfile cfg;
        cfg_NetworkMode := if bool_decide (cfg_NetworkMode cfg = "") then "none" else cfg_NetworkMode cfg;
        cfg_PortMappings := cfg_PortMappings cfg; cfg_DNSServers := cfg_DNSServers cfg |} |}.

Definition with_RootPath (cfg : Config) (root : string) : Config :=
  {| cfg_ID := cfg_ID cfg; cfg_MemoryLimitBytes := cfg_MemoryLimitBytes cfg;
     cfg_MaxProcesses := cfg_MaxProcesses cfg; cfg_StorageLimitMB := cfg_StorageLimitMB cfg;
     cfg_Timeout := cfg_Timeout cfg; cfg_Command := cfg_Command cfg; cfg_Args := cfg_Args cfg;
     cfg_Env := cfg_Env cfg; cfg_RootPath := root; cfg_Rootfs := cfg_Rootfs cfg;
     cfg_Mounts := cfg_Mounts cfg; cfg_TTY := cfg_TTY cfg; cfg_SeccompProfile := cfg_SeccompProfile cfg;
     cfg_NetworkMode := cfg_NetworkMode cfg; cfg_PortMappings := cfg_PortMappings cfg;
     cfg_DNSServers := cfg_DNSServers cfg |}.

(** ** The child: devices and volumes *)

(** The ioctl's failure is ignored. *)
Definition configureLoopback : io (result unit) :=
  let? lo := sys (InterfaceByName "lo") onerr e => mret (Err (WrapErr "failed to find lo interface" e)) in
  do_ sys (IoctlSetInt 0 SIOCSIFFLAGS lo);;
  mret (Ok tt).

(** One device: skipped when the host does not have it; [tty] may fail. *)
Definition mount_dev (devPath f : string) : io (result unit) :=
  let src := PathJoin ["/dev"; f] in
  let dst := PathJoin [devPath; f] in
  r ← sys (Stat src);
  match r with
  | Err _ => mret (Ok tt)
  | Ok _ =>
      let? _ := sys (MkdirAll (Dir dst) mode_0755) onerr e => mret (Err e) in
      let? touchFile := sys (OpenFile dst (Z.lor (Z.lor O_CREATE O_WRONLY) O_TRUNC) mode_0644) onerr e =>
        (if bool_decide (f = "tty") then mret (Ok tt)
         else mret (Err (WrapErr ("failed to touch " +:+ dst) e))) in
      do_ sys (CloseFd touchFile);;
      let? _ := sys (Mount src dst "" MS_BIND "") onerr e =>
        (if bool_decide (f = "tty") then mret (Ok tt)
         else mret (Err (WrapErr ("failed to bind mount " +:+ dst) e))) in
      mret (Ok tt)
  end.

Definition devFiles : list string := ["null"; "zero"; "urandom"; "random"; "tty"].

Definition mountDevNodes (targetRoot : string) : io (result unit) :=
  let devPath := PathJoin [targetRoot; "dev"] in
  let? _ := sys (MkdirAll devPath mode_0755) onerr e => mret (Err (WrapErr "failed to mkdir /dev" e)) in
  let? _ := forErr (mount_dev devPath) devFiles onerr e => mret (Err e) in
  let ptsPath := PathJoin [devPath; "pts"] in
  let? _ := sys (MkdirAll ptsPath mode_0755) onerr e => mret (Err (WrapErr "failed to mkdir /dev/pts" e)) in
  do_ mbind (fun r : result unit => match r with
                      | Ok _ => mret tt
                      | Err _ => do_ sys (Mount "/dev/pts" ptsPath "" MS_BIND "");; mret tt
                      end) (sys (Mount "devpts" ptsPath "devpts" 0 "newinstance,ptmxmode=0666,mode=0620"));;
  let ptmxTarget := PathJoin [devPath; "ptmx"] in
  do_ mbind (fun r : result unit => match r with
                      | Err e => if IsNotExist e then do_ sys (Symlink "pts/ptmx" ptmxTarget);; mret tt
                                 else mret tt
                      | Ok _ => mret tt
                      end) (sys (Lstat ptmxTarget));;
  mret (Ok tt).

(** The mount point of a volume. *)
Definition mount_dst (targetRoot : string) (m : MountSpec) : string :=
  PathJoin [targetRoot; TrimPrefix (ContainerPath m) "/"].

Definition ro_flags : Z := Z.lor (Z.lor (Z.lor MS_BIND MS_REMOUNT) MS_RDONLY) MS_REC.

Definition apply_mount (targetRoot : string) (m : MountSpec) : io (result unit) :=
  let fullDst := mount_dst targetRoot m in
  let? is_dir := sys (Stat (HostPath m)) onerr e =>
    mret (Err (WrapErr ("failed to inspect mount source " +:+ HostPath m) e)) in
  let? _ := (if (is_dir : bool) then
      let? _ := sys (MkdirAll fullDst mode_0777) onerr e =>
        mret (Err (WrapErr ("failed to create directory mount point " +:+ fullDst) e)) in
      mret (Ok tt)
    else
      let? _ := sys (MkdirAll (Dir fullDst) mode_0755) onerr e =>
        mret (Err (WrapErr ("failed to create parent dir for " +:+ fullDst) e)) in
      let? f := sys (OpenFile fullDst (Z.lor O_CREATE O_WRONLY) mode_0755) onerr e =>
        mret (Err (WrapErr ("failed to touch file mount point " +:+ fullDst) e)) in
      do_ sys (CloseFd f);; mret (Ok tt)) onerr e => mret (Err e) in
  let? _ := sys (Mount (HostPath m) fullDst "" (Z.lor MS_BIND MS_REC) "") onerr e =>
    mret (Err (WrapErr ("failed to bind mount " +:+ HostPath m +:+ " to " +:+ fullDst) e)) in
  if ReadOnly m then
    let? _ := sys (Mount "" fullDst "" ro_flags "") onerr e =>
      mret (Err (WrapErr ("failed to remount " +:+ fullDst +:+ " read-only") e)) in
    mret (Ok tt)
  else mret (Ok tt).

Definition applyCustomMounts (targetRoot : string) (mounts : list MountSpec) : io (result unit) :=
  forErr (apply_mount targetRoot) mounts.

(** ** The child: the root and the privileges *)

Definition pivotRoot (newRoot : string) : io (result unit) :=
  let? _ := sys (Mount newRoot newRoot "" (Z.lor MS_BIND MS_REC) "") onerr e =>
    mret (Err (WrapErr ("failed to bind-mount new root " +:+ newRoot +:+ " onto itself") e)) in
  let oldRoot := PathJoin [newRoot; ".oldroot"] in
  let? _ := sys (MkdirAll oldRoot mode_0700) onerr e =>
    mret (Err (WrapErr ("failed to create oldroot dir " +:+ oldRoot) e)) in
  let? _ := sys (PivotRoot newRoot oldRoot) onerr e =>
    mret (Err (WrapErr "unix pivot_root failed" e)) in
  let? _ := sys (Chdir "/") onerr e =>
    mret (Err (WrapErr "chdir / after pivot_root failed" e)) in
  let? _ := sys (Unmount "/.oldroot" MNT_DETACH) onerr e =>
    mret (Err (WrapErr "failed to unmount old root /.oldroot" e)) in
  do_ sys (Remove "/.oldroot");;
  mret (Ok tt).

Definition unprivilegedUID : Z := 65534.
Definition unprivilegedGID : Z := 65534.

Section child.
Context `{SliceSort}.
Variable profile_json : string -> result Profile.
Variable UnmarshalConfig : string -> result Config.

Definition dropPrivileges (seccompProfile : string) : io (result unit) :=
  let? _ := DropCapabilities onerr e => mret (Err (WrapErr "capability drop failed" e)) in
  let? _ := ApplySeccompFilter profile_json seccompProfile onerr e =>
    mret (Err (WrapErr "seccomp filter failed" e)) in
  let? _ := sys (Setgroups [unprivilegedGID]) onerr e => mret (Err (WrapErr "setgroups failed" e)) in
  let? _ := sys (Setgid unprivilegedGID) onerr e => mret (Err (WrapErr "setgid failed" e)) in
  let? _ := sys (Setuid unprivilegedUID) onerr e => mret (Err (WrapErr "setuid failed" e)) in
  mret (Ok tt).

(** A successful [Execve] does not return; its answer [Ok] stands for the exec'd program.
    Descriptor 3 is the sync pipe. *)
Definition InitChild (cfgJSON : string) : io (result unit) :=
  match UnmarshalConfig cfgJSON with
  | Err e => mret (Err (WrapErr "child: failed to parse config" e))
  | Ok cfg =>
      let? _ := sys (Mount "" "/" "" (Z.lor MS_REC MS_PRIVATE) "") onerr e =>
        mret (Err (WrapErr "child: failed to make root private" e)) in
      let targetRoot := cfg_RootPath cfg in
      if bool_decide (targetRoot = "") then
        mret (Err (NewErr "child: missing root path for container"))
      else
        let? _ := mountDevNodes targetRoot onerr e =>
          mret (Err (WrapErr "child: failed to mount dev nodes" e)) in
        let? _ := applyCustomMounts targetRoot (cfg_Mounts cfg) onerr e =>
          mret (Err (WrapErr "child: failed to apply volume mounts" e)) in
        let? _ := pivotRoot targetRoot onerr e =>
          mret (Err (WrapErr "child: pivot_root failed" e)) in
        do_ configureLoopback;;
        do_ sys (ReadFd 3 1);;
        do_ sys (CloseFd 3);;
        let? _ := dropPrivileges (cfg_SeccompProfile cfg) onerr e =>
          mret (Err (WrapErr "child: privilege drop failed" e)) in
        let? binaryPath := sys (LookPath (cfg_Command cfg)) onerr e =>
          mret (Err (WrapErr "child: command not found" e)) in
        let execArgs := cfg_Command cfg :: cfg_Args cfg in
        let? _ := sys (Execve binaryPath execArgs (cfg_Env cfg)) onerr e =>
          mret (Err (WrapErr "child: exec failed" e)) in
        mret (Ok tt)
  end.
End child.

(** ** The parent *)

Section parent.
Context `{IpamJSON}.
Variable netlink_ParseAddr : string -> result string.
Variable MarshalConfig : Config -> result string.

(** The network manager of a run, over system calls. *)
Definition setup_net (cfg : Config) (pid : Z) : io (result unit) :=
  translate (S := net) (T := os) (link_ipam NewManager)
    (SetupContainerNetwork netlink_ParseAddr NewManager (cfg_ID cfg) pid (cfg_RootPath cfg)
       (cfg_PortMappings cfg) (cfg_DNSServers cfg)).

Definition cleanup_net (cfg : Config) : io unit :=
  translate (S := net) (T := os) (link_ipam NewManager) (NetCleanup (cfg_ID cfg) (cfg_PortMappings cfg)).

(** The end of a run: waiting for the child and reporting. *)
Definition await_child (ctx pid start : Z) (cg : CgroupController) : io (result Result) :=
  waitErr ← sys (WaitProcess pid);
  now ← sys Now;
  let duration := time_Sub now start in
  metrics ← ReadMetrics cg;
  cerr ← sys (CtxErr ctx);
  let timedOut := match cerr with Some e => errors_Is e DeadlineExceeded | None => false end in
  outs ← sys (Captured pid);
  let finish exitCode :=
    let exitCode := if timedOut && (exitCode =? 0) then 124 else exitCode in
    mret (Ok {| res_ExitCode := exitCode; res_Stdout := fst outs; res_Stderr := snd outs;
                res_Duration := duration; res_TimedOut := timedOut; res_Metrics := metrics |}) in
  match waitErr with
  | None => finish 0
  | Some e =>
      match as_exit e with
      | Some n => finish n
      | None => if timedOut then finish 124 else mret (Err (WrapErr "execution error" e))
      end
  end.

(** The child's part of a run, once its cgroup is there: limits, start, attach, network,
    release of the sync pipe, wait. *)
Definition run_child (cfg : Config) (ctx : Z) (cg : CgroupController) : io (result Result) :=
  let? _ := ApplyLimits cg (cfg_MemoryLimitBytes cfg) (cfg_MaxProcesses cfg) onerr e =>
    mret (Err (WrapErr "failed to apply cgroup limits" e)) in
  match MarshalConfig cfg with
  | Err e => mret (Err (WrapErr "failed to serialize config" e))
  | Ok cfgBytes =>
      let? selfBin := sys Executable onerr e =>
        mret (Err (WrapErr "failed to get executable path" e)) in
      let? sync := sys Pipe onerr e => mret (Err (WrapErr "failed to create sync pipe" e)) in
      let '(syncR, syncW) := sync in
      defer (do_ sys (CloseFd syncW);; mret tt)
        (start ← sys Now;
         let? childPid := sys (StartCmd [selfBin; "__init_child__"; cfgBytes] worker_cloneflags [syncR])
           onerr e => (do_ sys (CloseFd syncR);;
                       mret (Err (WrapErr "failed to start containerized child" e))) in
         do_ sys (CloseFd syncR);;
         let? _ := AttachPID cg childPid onerr e =>
           (do_ sys (KillProcess childPid);;
            mret (Err (WrapErr "failed to bind process to cgroup" e))) in
         let unblock := do_ sys (CloseFd syncW);; await_child ctx childPid start cg in
         if bool_decide (cfg_NetworkMode cfg = "bridge") then
           let? _ := setup_net cfg childPid onerr e =>
             (do_ sys (KillProcess childPid);;
              mret (Err (WrapErr "failed to setup container networking" e))) in
           defer (cleanup_net cfg) unblock
         else unblock)
  end.

(** [ctx] is the context with the run's timeout. *)
Definition Run (r : Runner) (ctx : Z) : io (result Result) :=
  let cfg := r_cfg r in
  defer (do_ sys (CancelCtx ctx);; mret tt)
    (let? overlay := NewOverlayManager (cfg_ID cfg) (cfg_StorageLimitMB cfg) onerr e =>
       mret (Err (WrapErr "failed to initialize overlay manager" e)) in
     defer (do_ OverlayCleanup overlay;; mret tt)
       (let? targetRoot := OverlayMount overlay onerr e =>
          mret (Err (WrapErr "failed to mount overlay" e)) in
        let cfg := with_RootPath cfg targetRoot in
        let? cg := NewCgroupController (cfg_ID cfg) onerr e =>
          mret (Err (WrapErr "cgroup init error" e)) in
        defer (do_ CgroupCleanup cg;; mret tt) (run_child cfg ctx cg))).
End parent.

(** ** The jail is closed before the command runs *)

(** How far the child got (private mounts 1, pivoted root 2, old root detached 3,
    no_new_privs 4, filter installed 5, groups 6, gid 7, uid 8), how many bounding
    capabilities it dropped, the file it read last with its content, the filter with the
    file that was read last before it, whether a step came out of order, and the state at
    the exec. *)
Record jail := {
  j_stage : Z;
  j_caps : Z;
  j_read : option (string * string);
  j_filter : option (list raw_insn * option (string * string));
  j_ordered : bool;
  j_exec : option (Z * Z * bool * option (list raw_insn * option (string * string)));
}.

Definition jail_start : jail :=
  {| j_stage := 0; j_caps := 0; j_read := None; j_filter := None; j_ordered := true; j_exec := None |}.

(** The step of a call, when it succeeds. *)
Definition milestone (c : oscall) : option Z :=
  match c with
  | Mount _ target _ flags _ =>
      if (flags =? Z.lor MS_REC MS_PRIVATE) && bool_decide (target = "/") then Some 1 else None
  | PivotRoot _ _ => Some 2
  | Unmount target _ => if bool_decide (target = "/.oldroot") then Some 3 else None
  | Prctl op arg => if (op =? PR_SET_NO_NEW_PRIVS) && (arg =? 1) then Some 4 else None
  | InstallFilter _ _ => Some 5
  | Setgroups gids => if bool_decide (gids = [unprivilegedGID]) then Some 6 else None
  | Setgid gid => if gid =? unprivilegedGID then Some 7 else None
  | Setuid uid => if uid =? unprivilegedUID then Some 8 else None
  | _ => None
  end.

(** A step may be repeated (a profile sets no_new_privs again), not skipped. *)
Definition advance (s : jail) (k : Z) : jail :=
  {| j_stage := Z.max k (j_stage s); j_caps := j_caps s; j_read := j_read s; j_filter := j_filter s;
     j_ordered := j_ordered s && (k <=? j_stage s + 1); j_exec := j_exec s |}.

Definition jail_mon (s : jail) (c : os) (r : ans c) : jail :=
  match c return osans c -> jail with
  | Prctl op arg => fun r =>
      if (op =? PR_CAPBSET_DROP) && (arg =? j_caps s) then
        {| j_stage := j_stage s; j_caps := j_caps s + 1; j_read := j_read s; j_filter := j_filter s;
           j_ordered := j_ordered s; j_exec := j_exec s |}
      else if is_ok r then match milestone (Prctl op arg) with Some k => advance s k | None => s end
      else s
  | InstallFilter f n => fun r =>
      if is_ok r then advance {| j_stage := j_stage s; j_caps := j_caps s; j_read := j_read s;
                                 j_filter := Some (f, j_read s); j_ordered := j_ordered s; j_exec := j_exec s |} 5 else s
  | Mount a b c d e => fun r =>
      match milestone (Mount a b c d e) with Some k => if is_ok r then advance s k else s | None => s end
  | PivotRoot a b => fun r => if is_ok r then advance s 2 else s
  | ReadFile path => fun r =>
      match r with
      | Ok data => {| j_stage := j_stage s; j_caps := j_caps s; j_read := Some (path, data);
                      j_filter := j_filter s; j_ordered := j_ordered s; j_exec := j_exec s |}
      | Err _ => s
      end
  | Unmount a b => fun r =>
      match milestone (Unmount a b) with Some k => if is_ok r then advance s k else s | None => s end
  | Setgroups a => fun r =>
      match milestone (Setgroups a) with Some k => if is_ok r then advance s k else s | None => s end
  | Setgid a => fun r =>
      match milestone (Setgid a) with Some k => if is_ok r then advance s k else s | None => s end
  | Setuid a => fun r =>
      match milestone (Setuid a) with Some k => if is_ok r then advance s k else s | None => s end
  | Execve _ _ _ => fun _ =>
      {| j_stage := j_stage s; j_caps := j_caps s; j_read := j_read s; j_filter := j_filter s;
         j_ordered := j_ordered s; j_exec := Some (j_stage s, j_caps s, j_ordered s, j_filter s) |}
  | _ => fun _ => s
  end r.

Lemma neutral_jail_mountDevNodes root : neutral jail_mon (mountDevNodes root).
Proof.
  unfold mountDevNodes, mount_dev. cbn [forErr devFiles]. neutral_steps.
Qed.

Lemma neutral_jail_applyCustomMounts root ms : neutral jail_mon (applyCustomMounts root ms).
Proof. unfold applyCustomMounts, apply_mount. neutral_steps. Qed.

Lemma neutral_jail_configureLoopback : neutral jail_mon configureLoopback.
Proof. unfold configureLoopback. neutral_steps. Qed.

Ltac jail_step := wp_step_with ltac:(fun _ => cbn [jail_mon is_ok]).

Definition jail_at (stage caps : Z) (rd : option (string * string))
    (f : option (list raw_insn * option (string * string))) : jail :=
  {| j_stage := stage; j_caps := caps; j_read := rd; j_filter := f; j_ordered := true; j_exec := None |}.

Lemma wp_cap_loop caps n : 
  wp jail_mon (foldM (fun (_ : unit) capID => do_ sys (Prctl PR_CAPBSET_DROP capID);; mret tt) tt
                 (seqZ caps (Z.of_nat n))) (jail_at 4 caps None None)
    (fun s _ => s = jail_at 4 (caps + Z.of_nat n) None None).
Proof.
  revert caps. induction n as [|n IH]; intros caps.
  - simpl. unfold jail_at. f_equal. lia.
  - rewrite seqZ_cons by lia. cbn [foldM]. wp_step. wp_step.
    wp_step; cbn [jail_mon jail_at j_caps is_ok]; rewrite !Z.eqb_refl; cbn [andb]; wp_step;
      replace (Z.pred (Z.of_nat (S n))) with (Z.of_nat n) by lia;
      (eapply wp_mono; [| apply (IH (Z.succ caps))]); intros s u ->; unfold jail_at; f_equal; lia.
Qed.

Lemma wp_DropCapabilities :
  wp jail_mon DropCapabilities (jail_at 3 0 None None) (fun s r =>
    match r with Ok _ => s = jail_at 4 64 None None | Err _ => j_exec s = None end).
Proof.
  unfold DropCapabilities. wp_step. jail_step; [| by wp_step].
  wp_step. eapply wp_mono; [| apply (wp_cap_loop 0 64)]. intros s u ->. by wp_step.
Qed.

Section jail_theorem.
Context `{SliceSort}.
Variables (profile_json : string -> result Profile) (UnmarshalConfig : string -> result Config).

(** The filter a seccomp setting asks for: the denylist, or what the profile in the file
    at the configured path compiles to; [rd] is the file that was read. *)
Definition asked_filter (profile : string) (f : list raw_insn) (rd : option (string * string)) : Prop :=
  if bool_decide (profile = "") then f = map raw (denylist_filter blockedSyscalls)
  else exists data prof, rd = Some (profile, data) /\ profile_json data = Ok prof /\
    f = map raw (compileBPF prof).

Lemma wp_ApplySeccompFilter profile :
  wp jail_mon (ApplySeccompFilter profile_json profile) (jail_at 4 64 None None) (fun s r =>
    match r with
    | Ok _ => exists f rd, s = jail_at 5 64 rd (Some (f, rd)) /\ asked_filter profile f rd
    | Err _ => j_exec s = None
    end).
Proof.
  unfold ApplySeccompFilter, asked_filter. case_bool_decide as Hp; cbn [negb].
  - unfold ApplySeccompDenylist. cbv zeta. wp_step. jail_step; [| by wp_step]. wp_step.
    by eexists _, None.
  - unfold ApplyProfile, LoadProfile. rewrite bool_decide_eq_false_2 by done.
    wp_step. wp_step. jail_step; [| by wp_step; wp_step].
    destruct (profile_json x) as [prof|e] eqn:Hj; [| by wp_step; wp_step].
    wp_step. cbv zeta. wp_step. jail_step; [| by wp_step]. wp_step. jail_step; [| by wp_step].
    wp_step. exists (map raw (compileBPF prof)), (Some (profile, x)). split; [done |]. by exists x, prof.
Qed.

Lemma wp_dropPrivileges profile :
  wp jail_mon (dropPrivileges profile_json profile) (jail_at 3 0 None None) (fun s r =>
    match r with
    | Ok _ => exists f rd, s = jail_at 8 64 rd (Some (f, rd)) /\ asked_filter profile f rd
    | Err _ => j_exec s = None
    end).
Proof.
  unfold dropPrivileges. wp_step. eapply wp_mono; [| apply wp_DropCapabilities].
  intros s [[]|e] Hs; cbv beta iota; [subst s | by wp_step].
  wp_step. eapply wp_mono; [| apply wp_ApplySeccompFilter].
  intros s [[]|e] Hs; cbv beta iota; [destruct Hs as (f & rd & -> & Hf) | by wp_step].
  wp_step. jail_step; [| by wp_step]. wp_step. jail_step; [| by wp_step].
  wp_step. jail_step; [| by wp_step]. wp_step. by exists f, rd.
Qed.

Lemma wp_pivotRoot root :
  wp jail_mon (pivotRoot root) (jail_at 1 0 None None) (fun s r =>
    match r with Ok _ => s = jail_at 3 0 None None | Err _ => j_exec s = None end).
Proof.
  unfold pivotRoot. cbv zeta. wp_step. jail_step; [| by wp_step]. wp_step. jail_step; [| by wp_step].
  wp_step. jail_step; [| by wp_step]. wp_step. jail_step; [| by wp_step].
  wp_step. jail_step; [| by wp_step]. repeat jail_step. done.
Qed.

(** C2: The command runs only in a closed jail: on every path, whatever the system
    answers, an exec happens only after, in this order, the mounts were made private,
    the root was pivoted, the old root detached, no_new_privs set, all 64 bounding
    capabilities dropped (tried), the asked-for seccomp filter installed (the denylist
    without a profile, else what the file at the configured path was read to hold), and
    the groups, the gid and the uid given up for nobody's; each of these but the
    capability drops with success. *)
Theorem InitChild_jailed cfgJSON tr r at_exec :
  ends (InitChild profile_json UnmarshalConfig cfgJSON) tr r ->
  j_exec (mon_trace jail_mon jail_start tr) = Some at_exec ->
  exists cfg f rd, UnmarshalConfig cfgJSON = Ok cfg /\ at_exec = (8, 64, true, Some (f, rd)) /\
    asked_filter (cfg_SeccompProfile cfg) f rd.
Proof.
  apply (wp_ends jail_mon _ _ (fun s _ => j_exec s = Some at_exec -> _)). unfold InitChild.
  destruct (UnmarshalConfig cfgJSON) as [cfg|e]; [| by wp_step].
  wp_step. jail_step; [| by wp_step]. change (jail_mon _ _ _) with (jail_at 1 0 None None).
  case_bool_decide; [by wp_step |].
  wp_step. eapply wp_mono; [| apply neutral_jail_mountDevNodes]. intros ? [[]|?] ->; cbv beta iota; [| by wp_step].
  wp_step. eapply wp_mono; [| apply neutral_jail_applyCustomMounts]. intros ? [[]|?] ->; cbv beta iota; [| by wp_step].
  wp_step. eapply wp_mono; [| apply wp_pivotRoot]. intros s [[]|e] Hs; cbv beta iota;
    [subst s | wp_step; congruence].
  wp_step. eapply wp_mono; [| apply neutral_jail_configureLoopback]. intros ? ? ->; cbv beta iota.
  wp_step. jail_step. wp_step. jail_step.
  wp_step. eapply wp_mono; [| apply wp_dropPrivileges]. intros s [[]|e] Hs; cbv beta iota;
    [destruct Hs as (f & rd & -> & Hf) | wp_step; congruence].
  wp_step. jail_step; [| by wp_step]. wp_step. jail_step; wp_step; intros [= <-]; eauto 6.
Qed.
End jail_theorem.

(** ** Volumes *)








(** A container path that was not cleaned leaves the root. *)
Example mount_dst_escapes :
  mount_dst "/run/gojail/layers/warm-1/merged"
    {| HostPath := "/srv"; ContainerPath := "/../../../../../etc"; ReadOnly := false |} = "/etc".
Proof. vm_compute. reflexivity. Qed.

(** ** A run gives back what it took *)

(** The processes alone, as [res_mon] follows them. *)
Definition procs_mon (s : list Z) (c : os) (r : ans c) : list Z :=
  match c return osans c -> list Z with
  | StartCmd _ _ _ => fun r => match r with Ok pid => pid :: s | Err _ => s end
  | PtyStart _ _ => fun r => match r with Ok (pid, _) => pid :: s | Err _ => s end
  | KillProcess pid => fun _ => without pid s
  | WaitProcess pid => fun _ => without pid s
  | WaitOrDone _ pid => fun a => match a with ProcDone _ => without pid s | CtxDone _ => s end
  | _ => fun _ => s
  end r.

Lemma res_procs s c r : rs_procs (res_mon s c r) = procs_mon (rs_procs s) c r.
Proof.
  destruct c; simpl in *; try done; repeat case_match; simplify_eq/=; done.
Qed.

(** The manager's calls start and end no process of the run. *)
Definition net_procs_mon (s : list Z) (c : net) (r : ans c) : list Z :=
  match c return netans c -> list Z with
  | NOs c => fun r => procs_mon s c r
  | _ => fun _ => s
  end r.

Section release.
Context `{IpamJSON}.

Lemma neutral_procs_ipam m cid :
  neutral procs_mon (AllocateIP m cid) /\ neutral procs_mon (ReleaseIP m cid) /\
  neutral procs_mon (GetIP m cid).
Proof.
  split; [| split]; unfold AllocateIP, ReleaseIP, GetIP, withLock, loadState, saveState; neutral_steps.
Qed.

Lemma link_ipam_procs m s (c : net) :
  wp procs_mon (link_ipam m c) s (fun s' r => s' = net_procs_mon s c r).
Proof.
  destruct c as [c | cid | cid | cid]; simpl.
  - by intros r.
  - apply neutral_procs_ipam.
  - apply neutral_procs_ipam.
  - apply neutral_procs_ipam.
Qed.

Lemma wp_cleanup_net cfg s :
  wp res_mon (cleanup_net cfg) s (fun s' _ => rs_procs s' = rs_procs s).
Proof.
  apply (wp_project res_mon procs_mon rs_procs _ s (fun l _ => l = rs_procs s)); [apply res_procs |].
  unfold cleanup_net. eapply wp_translate; [apply link_ipam_procs |].
  wp_frame. unfold NetCleanup, removePortForwarding, ignore. neutral_steps.
Qed.

Lemma neutral_lift {A} (p : io A) :
  neutral procs_mon p -> neutral net_procs_mon (lift p).
Proof using.
  clear. intros Hp s. unfold lift. eapply (wp_translate procs_mon); [| apply Hp].
  intros s' c r. done.
Qed.

Lemma wp_setup_net parse cfg pid s :
  wp res_mon (setup_net parse cfg pid) s (fun s' _ => rs_procs s' = rs_procs s).
Proof.
  apply (wp_project res_mon procs_mon rs_procs _ s (fun l _ => l = rs_procs s)); [apply res_procs |].
  unfold setup_net. eapply wp_translate; [apply link_ipam_procs |].
  wp_frame. unfold SetupContainerNetwork, EnsureBridge, configureInNetns, applyPortForwarding,
    apply_mapping, ignore. cbv zeta.
  neutral_steps.
  - apply neutral_seq. repeat constructor; unfold iptables, write_proc, ignore; neutral_steps.
  - apply neutral_lift. unfold Dns.InjectResolvConf, Dns.ResolveDNSList, Dns.parseHostResolvConf. neutral_steps.
Qed.

Lemma wp_await ctx pid start cg s :
  wp res_mon (await_child ctx pid start cg) s (fun s' _ => rs_procs s' = without pid (rs_procs s)).
Proof.
  unfold await_child. res_step. res_step. res_step. res_step.
  res_step. eapply wp_mono; [| apply neutral_res_metrics]. intros s' m ->. cbv beta.
  repeat res_step; done.
Qed.
End release.

Section run_theorem.
Context `{IpamJSON}.
Variables (netlink_ParseAddr : string -> result string) (MarshalConfig : Config -> result string).
Variables (r : Runner) (ctx : Z).

Definition run_om : OverlayManager :=
  layer (cfg_ID (r_cfg r)) (if cfg_StorageLimitMB (r_cfg r) <=? 0 then 64 else cfg_StorageLimitMB (r_cfg r)).
Definition run_cgroup : string := PathJoin [defaultCgroupRoot; cfg_ID (r_cfg r)].

(** Nothing of the run remains. *)
Definition run_gone (s : resources) : Prop :=
  (om_mergedDir run_om ∉ rs_mounts s) /\ (om_baseDir run_om ∉ rs_mounts s) /\
  rs_procs s = [] /\ (run_cgroup ∉ rs_dirs s) /\
  Forall (fun d => inside (om_baseDir run_om) d = false) (rs_dirs s).

(** What the layer's clean-up needs. *)
Definition run_inner (s : resources) : Prop :=
  rs_procs s = [] /\
  (run_cgroup ∉ rs_dirs s \/
   forall d, d ∈ rs_dirs s -> d = defaultCgroupRoot \/ inside (om_baseDir run_om) d = true).

Hypothesis Hid : plain (cfg_ID (r_cfg r)).

Lemma run_cgroup_ne : run_cgroup <> defaultCgroupRoot.
Proof using Hid.
  unfold run_cgroup. pose proof (PathJoin_plain ["sys"; "fs"; "cgroup"; "gojail"] (cfg_ID (r_cfg r))) as E.
  change ("/" +:+ Join ["sys"; "fs"; "cgroup"; "gojail"] "/") with defaultCgroupRoot in E.
  rewrite E; [| | done | done].
  - intros Hl. apply (f_equal list_of) in Hl. rewrite !list_of_app in Hl.
    apply (f_equal length) in Hl. rewrite !length_app in Hl. simpl in Hl. lia.
  - repeat (constructor; [done |]). constructor.
Qed.

Lemma run_overlay_cleanup s : run_inner s ->
  wp res_mon (do_ OverlayCleanup run_om;; mret tt) s (fun s' _ => run_gone s').
Proof using Hid.
  intros [Hp Hd]. res_step. eapply wp_mono; [| apply wp_OverlayCleanup]. intros s' a ->. cbv beta.
  wp_step. unfold run_gone, overlay_gone. simpl.
  split; [by apply not_in_without_mono, not_in_without |]. split; [by apply not_in_without |].
  split; [done |]. unfold without_tree. split.
  - intros [Hi Hin]%list_elem_of_filter. destruct Hd as [Hd | Hd]; [done |].
    destruct (Hd _ Hin) as [E | E]; [by apply run_cgroup_ne |].
    assert (inside (om_baseDir run_om) run_cgroup = false) by exact Hi. congruence.
  - apply Forall_forall. by intros d [? _]%list_elem_of_filter.
Qed.

(** Inside the deferred clean-up of the cgroup. *)
Lemma run_cgroup_cleanup cg s :
  cg_cgroupPath cg = run_cgroup -> rs_procs s = [] ->
  wp res_mon (do_ CgroupCleanup cg;; mret tt) s (fun s' _ => run_inner s').
Proof using.
  intros Hcg Hp. res_step. eapply wp_mono; [| apply wp_CgroupCleanup]. intros s' a ->. cbv beta.
  wp_step. split; [done |]. left. unfold cg_gone. simpl. rewrite Hcg. apply not_in_without.
Qed.
(** What only touches files keeps the processes. *)
Lemma wp_keeps_procs {A} (p : io A) s :
  neutral procs_mon p -> wp res_mon p s (fun s' _ => rs_procs s' = rs_procs s).
Proof using.
  clear. intros Hp. apply (wp_project res_mon procs_mon rs_procs p s (fun l _ => l = rs_procs s));
    [apply res_procs | apply Hp].
Qed.

Lemma neutral_procs_cgroup cg mem pids pid :
  neutral procs_mon (ApplyLimits cg mem pids) /\ neutral procs_mon (AttachPID cg pid).
Proof using. clear. split; unfold ApplyLimits, AttachPID; neutral_steps. Qed.

Lemma without_self {A} `{EqDecision A} (x : A) : without x [x] = [].
Proof using. clear. unfold without. by rewrite filter_cons_False by auto. Qed.

Lemma wp_unblock pid start syncW cg s : rs_procs s = [pid] ->
  wp res_mon (do_ sys (CloseFd syncW);; await_child ctx pid start cg) s (fun s' _ => rs_procs s' = []).
Proof using.
  clear. intros Hp. wp_step. wp_step; (eapply wp_mono; [| apply wp_await]); intros s' a ->;
    simpl; rewrite Hp; apply without_self.
Qed.

(** The child is gone when its part ends. *)
Lemma wp_run_child cfg cg s : rs_procs s = [] ->
  wp res_mon (run_child netlink_ParseAddr MarshalConfig cfg ctx cg) s (fun s' _ => rs_procs s' = []).
Proof using.
  clear. intros Hp. unfold run_child. wp_step.
  eapply wp_mono; [| eapply wp_keeps_procs, (proj1 (neutral_procs_cgroup _ _ _ 0))].
  intros s1 [[]|e] E1; cbv beta iota; [| wp_step; congruence]. rewrite Hp in E1. clear Hp s.
  destruct (MarshalConfig cfg) as [cfgBytes|e]; [| by wp_step].
  wp_step. wp_step; [| by wp_step]. wp_step. wp_step; [| by wp_step]. destruct x0 as [syncR syncW].
  wp_step. eapply wp_mono with (Q := fun s _ => rs_procs s = []). { intros s' a Hs'. by repeat wp_step. }
  wp_step. wp_step. wp_step. wp_step; [| by wp_steps]. rename x0 into pid.
  wp_step. eapply wp_mono with (Q := fun s _ => rs_procs s = [pid]).
  2: { wp_step; simpl; by rewrite E1. }
  intros s2 [[]|e] E2; cbv beta iota;
    (wp_step; eapply wp_mono; [| eapply wp_keeps_procs, (proj2 (neutral_procs_cgroup _ 0 0 _))]);
    (intros s3 [[]|e'] E3; cbv beta iota; rewrite E2 in E3; clear E2 s2;
     [cbv zeta | wp_steps; simpl; rewrite E3; apply without_self]).
  all: case_bool_decide; [| by apply wp_unblock].
  all: wp_step; (eapply wp_mono; [| apply wp_setup_net]).
  all: intros s4 [[]|e'] E4; cbv beta iota; rewrite E3 in E4; clear E3 s3;
       [| wp_steps; simpl; rewrite E4; apply without_self].
  all: wp_step; (eapply wp_mono; [| by apply wp_unblock]); intros s5 a E5.
  all: eapply wp_mono; [| apply wp_cleanup_net]; intros s6 u ->; done.
Qed.

(** Before the cgroup is there, the only directories are the layer's and the cgroups' root. *)
Definition run_dirs (s : resources) : Prop :=
  rs_procs s = [] /\ forall d, d ∈ rs_dirs s -> d = defaultCgroupRoot \/ inside (om_baseDir run_om) d = true.

Lemma run_dirs_layer s : s = layer_made run_om (overlay_gone run_om no_resources) -> run_dirs s.
Proof using Hid.
  intros ->. split; [done |]. intros d Hd. right.
  destruct (layer_inside _ (om_storageMB run_om) Hid) as (Hu & Hw & Hm & Ht).
  unfold layer_made, overlay_gone in Hd. simpl in Hd. set_unfold in Hd.
  destruct Hd as [-> | [-> | [-> | [-> | [-> | []]]]]]; done || apply inside_refl.
Qed.

Lemma wp_Run :
  wp res_mon (Run netlink_ParseAddr MarshalConfig r ctx) no_resources (fun s _ => run_gone s).
Proof using All.
  unfold Run. cbv zeta.
  wp_step. eapply wp_mono with (Q := fun s _ => run_gone s).
  { intros s a Hs. by repeat res_step. }
  wp_step. eapply wp_mono; [| by apply wp_NewOverlayManager].
  intros s [om|e] Hs; cbv beta iota; [destruct Hs as [-> ->] |].
  2: { wp_step. subst s. unfold run_gone, overlay_gone. simpl. repeat split; set_solver. }
  fold run_om. wp_step. eapply wp_mono with (Q := fun s _ => run_inner s).
  { intros s a Hs. by apply run_overlay_cleanup. }
  assert (run_dirs (layer_made run_om (overlay_gone run_om no_resources))) as Hd by by apply run_dirs_layer.
  revert Hd. generalize (layer_made run_om (overlay_gone run_om no_resources)) as s. intros s Hd.
  wp_step. eapply wp_mono; [| apply wp_OverlayMount].
  intros s' [root|e] Hs; cbv beta iota; [destruct Hs as [-> ->] | subst s'; wp_step; destruct Hd; by split; [| right]].
  change (run_dirs s) with (run_dirs (with_mounts (cons (om_mergedDir run_om)) s)) in Hd.
  revert Hd. generalize (with_mounts (cons (om_mergedDir run_om)) s) as s1. clear s. intros s Hd.
  wp_step. eapply wp_mono; [| apply wp_NewCgroupController].
  intros s' [cg|e] Hs; cbv beta iota; [destruct Hs as (_ & Hcg & ws & ->) |].
  2: { wp_step. destruct Hs as (ws & ds & Hds & ->), Hd as [Hp Hd]. split; [done |]. right. simpl.
       intros d [Hin | Hin]%elem_of_app; [| by apply Hd]. left. destruct Hds as [-> | ->]; set_solver. }
  destruct Hd as [Hp _].
  assert (rs_procs (wrote ws (with_dirs (fun l => cg_cgroupPath cg :: defaultCgroupRoot :: l) s)) = []) as Hp1 by done.
  revert Hp1. generalize (wrote ws (with_dirs (fun l => cg_cgroupPath cg :: defaultCgroupRoot :: l) s)) as s1.
  intros s1 Hp1. wp_step. eapply wp_mono with (Q := fun s _ => rs_procs s = []).
  { intros s' a Hs'. by apply run_cgroup_cleanup. }
  by apply wp_run_child.
Qed.

(** Nothing of the run is there but what the system refused to give back. *)
Definition run_nothing_there (k : machine) : Prop :=
  (forall m, m = om_mergedDir run_om \/ m = om_baseDir run_om -> m ∈ mc_mounts k -> m ∈ mc_stuck_mounts k) /\
  (forall p, p ∈ mc_procs k -> p ∈ mc_stuck_procs k) /\
  (forall d, d = run_cgroup \/ inside (om_baseDir run_om) d = true -> d ∈ mc_dirs k -> d ∈ mc_stuck_dirs k).

(** C14: A run gives back what it took, however it ends: whatever the system answers at
    each step, when [Run] returns, the layer's two mounts, its whole directory tree and
    the run's cgroup are gone, and no child is running, except what is there because the
    system refused to unmount, remove or kill it. *)
Theorem Run_releases tr x (He : ends (Run netlink_ParseAddr MarshalConfig r ctx) tr x) :
  run_nothing_there (machine_after tr).
Proof using All.
  pose proof (wp_ends res_mon _ _ (fun s _ => run_gone s) _ _ wp_Run He) as (Hm & Hb & Hp & Hc & Hd).
  pose proof (tracks_after tr) as Ht. rewrite Forall_forall in Hd. split; [| split].
  - by intros m [-> | ->] [Hin | ?]%(tr_mounts _ _ Ht).
  - intros p [Hin | ?]%(tr_procs _ _ Ht); [| done]. rewrite Hp in Hin. by apply elem_of_nil in Hin.
  - intros d [-> | Hi] [Hin | ?]%(tr_dirs _ _ Ht); try done. apply Hd in Hin. congruence.
Qed.
End run_theorem.

(** ** Concrete runs *)

Definition demo_config : Config :=
  {| cfg_ID := "jail-1"; cfg_MemoryLimitBytes := 0; cfg_MaxProcesses := 0; cfg_StorageLimitMB := 0;
     cfg_Timeout := 0; cfg_Command := "sh"; cfg_Args := ["-c"; "true"]; cfg_Env := [];
     cfg_RootPath := "/run/gojail/layers/jail-1/merged"; cfg_Rootfs := ""; cfg_Mounts := [];
     cfg_TTY := false; cfg_SeccompProfile := ""; cfg_NetworkMode := "bridge"; cfg_PortMappings := [];
     cfg_DNSServers := [] |}.


(** The same with a seccomp profile. *)
Definition demo_config_profile : Config :=
  {| cfg_ID := "jail-1"; cfg_MemoryLimitBytes := 0; cfg_MaxProcesses := 0; cfg_StorageLimitMB := 0;
     cfg_Timeout := 0; cfg_Command := "sh"; cfg_Args := ["-c"; "true"]; cfg_Env := [];
     cfg_RootPath := "/run/gojail/layers/jail-1/merged"; cfg_Rootfs := ""; cfg_Mounts := [];
     cfg_TTY := false; cfg_SeccompProfile := "/etc/gojail/strict.json"; cfg_NetworkMode := "bridge";
     cfg_PortMappings := []; cfg_DNSServers := [] |}.

Abbreviation demo_profile_json := (fun _ : string => Ok DefaultHardenedProfile).
Abbreviation demo_child := (InitChild demo_profile_json (fun _ => Ok demo_config_profile) "{}").

Lemma InitChild_jailed_witness :
  exists at_exec, j_exec (mon_trace jail_mon jail_start (trace ok_os demo_child tt)) = Some at_exec /\
    exists cfg f rd, Ok demo_config_profile = Ok cfg /\ at_exec = (8, 64, true, Some (f, rd)) /\
      asked_filter demo_profile_json (cfg_SeccompProfile cfg) f rd.
Proof.
  eexists. split.
  - vm_compute. reflexivity.
  - apply (InitChild_jailed demo_profile_json (fun _ => Ok demo_config_profile) "{}" (trace ok_os demo_child tt)
      (res ok_os demo_child tt)).
    + apply run_ends.
    + vm_compute. reflexivity.
Defined.


#[local] Existing Instance plain_ipam_json.

Lemma Run_releases_witness :
  let tr := trace ok_os (Run (fun s => Ok s) (fun _ => Ok "{}") (NewRunner demo_config) 1) tt in
  run_nothing_there (NewRunner demo_config) (machine_after tr) /\
  mc_mounts (machine_after tr) = [] /\ mc_stuck_mounts (machine_after tr) = [] /\ mc_procs (machine_after tr) = [].
Proof.
  intros tr. split; [| vm_compute; done].
  apply (Run_releases (fun s => Ok s) (fun _ => Ok "{}") (NewRunner demo_config) 1 ltac:(done) _
    (res ok_os (Run (fun s => Ok s) (fun _ => Ok "{}") (NewRunner demo_config) 1) tt)).
  apply run_ends.
Defined.
