(* ===== verification/Server.v ===== *)
(** * The daemon (src/pkg/server/server.go)

    Start-up and shutdown over system calls; the handling of a connection over the
    daemon's own signature ([scall]): the connection, the shared registry and pool, the
    worker and its network.  [link_worker] replaces the calls on a worker and its network
    by the programs of [Pool], [Network] and [Ipam]; [srv_step] gives the calls on the
    registry their meaning, with any interleaving of other connections.  Messages printed
    to the daemon's own standard output and error are not modelled. *)

From Stdlib Require Import Init.Byte SpecFloat.
From stdpp Require Import relations.
From S2P Require Import Prelude GoStrings GoStrconv GoPath GoSort Effects OS SandboxConfig Protocol.
From S2P Require Import Cgroup Registry GoNet Ipam Network Overlay Resources Pool DaemonConfig Recovery.
#[local] Open Scope go_scope.

Definition Second : Z := 1000000000.

(** ** Start and stop *)

Record Daemon := {
  d_cfg : DaemonConfig;
  d_listening : bool;
  d_pool : option Pool;
  d_registry : registry;
  d_lockFile : option Z;
}.

(** A nil configuration is the default one. *)
Definition NewDaemon (cfg : option DaemonConfig) : Daemon :=
  {| d_cfg := default DefaultConfig cfg; d_listening := false; d_pool := None;
     d_registry := NewJobRegistry; d_lockFile := None |}.

(** The sizes the daemon starts with. *)
Definition pool_size (cfg : DaemonConfig) : Z :=
  if WarmWorkers (dc_Pool cfg) <=? 0 then 2 else WarmWorkers (dc_Pool cfg).
Definition storage_limit (cfg : DaemonConfig) : Z :=
  if StorageLimitMB (dc_Defaults cfg) <=? 0 then 64 else StorageLimitMB (dc_Defaults cfg).
Definition socket_mode (cfg : DaemonConfig) : Z :=
  if SocketMode (dc_Server cfg) =? 0 then mode_0666 else SocketMode (dc_Server cfg).

Section start.
Context `{SliceSort}.
Variable MarshalConfig : Config -> result string.

(** The daemon as it is left, with the error.  Errors of the three recovery steps are
    printed only. *)
Definition Start (d : Daemon) : io (Daemon * result unit) :=
  let cfg := d_cfg d in
  let? lockFile := AcquireDaemonLock "/var/run/gojaild.pid" onerr e =>
    mret (d, Err (WrapErr "daemon start aborted" e)) in
  let d := {| d_cfg := cfg; d_listening := d_listening d; d_pool := d_pool d;
              d_registry := d_registry d; d_lockFile := Some lockFile |} in
  do_ SweepStaleMounts defaultLayersDir;;
  do_ ResetLayersTree defaultLayersDir;;
  do_ SweepStaleCgroups;;
  let? pool := NewPoolWithStorage MarshalConfig (pool_size cfg) (storage_limit cfg) onerr e =>
    mret (d, Err (WrapErr "failed to initialize warm pool" e)) in
  let d := {| d_cfg := cfg; d_listening := d_listening d; d_pool := Some pool;
              d_registry := d_registry d; d_lockFile := Some lockFile |} in
  let socketPath := SocketPath (dc_Server cfg) in
  let? _ := sys (MkdirAll (Dir socketPath) mode_0755) onerr e =>
    mret (d, Err (WrapErr "failed to create socket directory" e)) in
  r ← sys (Remove socketPath);
  let stale := match r with Ok _ => None | Err e => if IsNotExist e then None else Some e end in
  match stale with
  | Some e => mret (d, Err (WrapErr "failed to remove stale socket" e))
  | None =>
      let? _ := sys (ListenUnix socketPath) onerr e =>
        mret (d, Err (WrapErr ("failed to listen on unix socket " +:+ socketPath) e)) in
      let? _ := sys (Chmod socketPath (socket_mode cfg)) onerr e =>
        (do_ sys CloseListener;; mret (d, Err (WrapErr "failed to set socket permissions" e))) in
      mret ({| d_cfg := cfg; d_listening := true; d_pool := Some pool;
               d_registry := d_registry d; d_lockFile := Some lockFile |}, Ok tt)
  end.
End start.

(** The end of [Stop]: the lock is let go and its file removed. *)
Definition release_lock (fd : Z) : io unit :=
  do_ sys (Flock fd LOCK_UN);;
  do_ sys (CloseFd fd);;
  do_ sys (Remove "/var/run/gojaild.pid");;
  mret tt.

(** The pool's idle workers are closed one by one; the wait for the connections ends
    when they do. *)
Definition Stop (d : Daemon) : io unit :=
  do_ (if d_listening d then do_ sys CloseListener;; mret tt else mret tt);;
  do_ (match d_pool d with
       | Some p => do_ Close p;; mret tt
       | None => mret tt
       end);;
  do_ sys (Remove (SocketPath (dc_Server (d_cfg d))));;
  match d_lockFile d with
  | Some fd => release_lock fd
  | None => mret tt
  end.

(** ** The accept loop *)

(** What [Accept] and the shutdown channel show at one turn of the loop. *)
Inductive accepted := Conn (fd : Z) | AcceptErr (shutdown : bool).

(** The connections handed to goroutines of their own, and whether the loop has ended,
    after the turns seen so far. *)
Fixpoint acceptLoop (turns : list accepted) : list Z * bool :=
  match turns with
  | [] => ([], false)
  | Conn fd :: turns => let '(conns, fin) := acceptLoop turns in (fd :: conns, fin)
  | AcceptErr true :: _ => ([], true)
  | AcceptErr false :: turns => acceptLoop turns
  end.

(** ** The calls of a connection *)

(** [SReg], [SList], [SGetJob] are the registry's methods; [SSample] is [SampleStats] of
    the controller the registry holds for a job; [SAcquire] the pool's [AcquireCustom];
    [SGoInput] starts the goroutine that feeds the terminal; [STick] waits for the ticker
    or the shutdown (then it answers [true]). *)
Inductive scall :=
| SOs (c : oscall)
| SDecode
| SWrite (bs : list byte)
| SCloseConn
| SWithTimeout (d : Z)
| SReg (o : reg_op)
| SList
| SGetJob (id : string)
| SSample (id : string)
| STick
| SAcquire (mb : Z) (mounts : list MountSpec) (isTTY : bool) (cmd : list string) (net : bool)
| SSetupNet (cid : string) (pid : Z) (root : string) (pms : list PortMapping) (dns : list string)
| SNetCleanup (cid : string) (pms : list PortMapping)
| SDestroy (w : Worker)
| SGoInput (w : Worker)
| SExecutePTY (w : Worker) (ctx : Z)
| SExecuteStream (w : Worker) (ctx : Z) (script : string).

Definition sans (c : scall) : Type :=
  match c with
  | SOs c => osans c
  | SDecode => result Request
  | SWrite _ | SCloseConn | SReg _ | SSetupNet _ _ _ _ _ => result unit
  | SWithTimeout _ => Z
  | SList => list JobInfo
  | SGetJob _ => option (JobInfo * option CgroupController * Z * Z)
  | SSample _ => (LiveStats * spec_float * result unit)%type
  | STick => bool
  | SAcquire _ _ _ _ _ => result (option Worker)
  | SNetCleanup _ _ | SDestroy _ | SGoInput _ => unit
  | SExecutePTY _ _ | SExecuteStream _ _ _ => (result Result * list (Z * string))%type
  end.

Definition srv : sig := Sig scall sans.

Abbreviation srv_call c := (@do_call srv c).
Abbreviation sio A := (prog srv A).

Definition lift_os {A} (p : io A) : sio A := translate (T := srv) (fun c : os => do_call (SOs (c : oscall) : srv)) p.
Definition fw {A} (p : prog wire A) : sio A := translate (T := srv) (fun bs : wire => do_call (SWrite bs : srv)) p.

(** ** Handling a connection *)

(** The run-time panic of a nil pointer. *)
Definition nil_deref : error := NewErr "invalid memory address or nil pointer dereference".

Definition no_metrics : ResourceMetrics :=
  {| PeakMemoryBytes := 0; UserCPUTimeUS := 0; SystemCPUTimeUS := 0 |}.

Definition exit_error (code : Z) (msg : string) : ExitPayload :=
  {| exit_ExitCode := code; exit_Duration := 0; exit_TimedOut := false; exit_Metrics := no_metrics;
     exit_Error := msg |}.

Definition exit_of (res : Result) : ExitPayload :=
  {| exit_ExitCode := res_ExitCode res; exit_Duration := res_Duration res;
     exit_TimedOut := res_TimedOut res; exit_Metrics := res_Metrics res; exit_Error := "" |}.

(** The limits a request leaves zero come from the configuration. *)
Definition with_defaults (cfg : DaemonConfig) (req : Request) : Request :=
  {| req_Action := req_Action req; req_TargetID := req_TargetID req; req_Command := req_Command req;
     req_Args := req_Args req; req_Env := req_Env req;
     req_Timeout := if req_Timeout req =? 0 then int64 (TimeoutSec (dc_Defaults cfg) * Second)
                    else req_Timeout req;
     req_MemoryLimitBytes := if req_MemoryLimitBytes req =? 0
                             then int64 (int64 (MemoryLimitMB (dc_Defaults cfg) * 1024) * 1024)
                             else req_MemoryLimitBytes req;
     req_MaxProcesses := if req_MaxProcesses req =? 0 then MaxProcesses (dc_Defaults cfg)
                         else req_MaxProcesses req;
     req_StorageLimitMB := if req_StorageLimitMB req =? 0 then StorageLimitMB (dc_Defaults cfg)
                           else req_StorageLimitMB req;
     req_Mounts := req_Mounts req; req_TTY := req_TTY req; req_SeccompProfile := req_SeccompProfile req;
     req_NetworkMode := req_NetworkMode req; req_PortMappings := req_PortMappings req;
     req_DNSServers := req_DNSServers req |}.

Definition requires_network (req : Request) : bool :=
  bool_decide (req_NetworkMode req = "bridge") || (0 <? length (req_PortMappings req))%nat ||
  (0 <? length (req_DNSServers req))%nat.

(** The script of a batch request. *)
Definition script_of (args : list string) : string :=
  match args with
  | "-c" :: a1 :: _ => a1
  | _ => Join args " "
  end.

(** The callback that a chunk of output is handed to: [OnOutput] of a terminal and
    [OnStdout] send it on the output stream, [OnStderr] on the error stream; which of the
    two a batch worker's chunk is for is told by the pipe it was read from. *)
Definition stream_of (tty : bool) (w : Worker) (fd : Z) : Z :=
  if tty then StreamStdout
  else if bool_decide (w_stderrR w = Some fd) then StreamStderr else StreamStdout.

Definition out_frame (tty : bool) (w : Worker) (c : Z * string) : Z * list byte :=
  (stream_of tty w c.1, list_byte_of_string c.2).

(** One frame of a terminal's input: text for the terminal, a new size, or something
    else, which is ignored. *)
Definition handle_input (w : Worker) (f : Z * list byte) : io unit :=
  if f.1 =? StreamStdin then do_ WriteInput w (string_of_list_byte f.2);; mret tt
  else if f.1 =? StreamResize then
    match ParseWindowSize f.2 with
    | Ok ws => do_ Resize w (ws_Rows ws) (ws_Cols ws);; mret tt
    | Err _ => mret tt
    end
  else mret tt.

(** The goroutine of [SGoInput], on the stream that its frame reader gets.  That is what
    the connection carries after the request, less what the buffer of the decoder that
    read the request had already taken: frames that arrive together with the request are
    not in [s]. *)
Definition input_loop (w : Worker) (s : stream) : io unit :=
  foldM (fun _ f => handle_input w f) tt (read_frames s).1.

Section handlers.
Context `{JSON ExitPayload, JSON StatsPayload, JSON ControlResponse}.

(** [json.NewEncoder(conn).Encode(resp)]: one write, ended by a newline. *)
Definition Encode (resp : ControlResponse) : sio (result unit) :=
  match Marshal resp with
  | Err e => mret (Err e)
  | Ok b => srv_call (SWrite (b ++ [x0a]))
  end.

Definition control_response (r : result unit) : ControlResponse :=
  {| resp_Success := is_ok r; resp_Error := match r with Ok _ => "" | Err e => ErrorText e end;
     resp_Jobs := [] |}.

Definition handleControl (o : reg_op) : sio (result unit) :=
  r ← srv_call (SReg o);
  do_ Encode (control_response r);;
  mret (Ok tt).

Definition sample_payload (targetID : string) (now memLim procLim : Z) (live : LiveStats)
    (cpuPercent : spec_float) : StatsPayload :=
  {| st_ContainerID := targetID; st_Timestamp := now; st_MemoryBytes := MemoryCurrentBytes live;
     st_MemoryLimitBytes := memLim; st_PeakMemoryBytes := MemoryPeakBytes live;
     st_CPUUsageUS := CPUUsageUS live; st_CPUPercent := cpuPercent;
     st_PIDsCurrent := PIDsCurrent live; st_PIDsLimit := procLim |}.

(** A job that is not running, or has no cgroup yet, uses nothing now. *)
Definition stopped_payload (targetID : string) (now memLim procLim : Z) (info : JobInfo) : StatsPayload :=
  {| st_ContainerID := targetID; st_Timestamp := now;
     st_MemoryBytes := job_PeakMemoryBytes info; st_MemoryLimitBytes := memLim;
     st_PeakMemoryBytes := job_PeakMemoryBytes info; st_CPUUsageUS := 0;
     st_CPUPercent := S754_zero false; st_PIDsCurrent := 0; st_PIDsLimit := procLim |}.

(** One turn of the loop: whether it goes on. *)
Definition stats_tick (targetID : string) : sio bool :=
  shutdown ← srv_call STick;
  if (shutdown : bool) then mret false
  else
    j ← srv_call (SGetJob targetID);
    match j with
    | Some (info, Some _, memLim, procLim) =>
        if negb (bool_decide (job_Status info = "running")) then
          do_ fw (WriteExitFrame (exit_error 0 ""));; mret false
        else
          s ← srv_call (SSample targetID);
          let '(live, cpuPercent, err) := s in
          match err with
          | Err e =>
              do_ fw (WriteExitFrame (exit_error 1 ("failed to read cgroup telemetry: " +:+ ErrorText e)));;
              mret false
          | Ok _ =>
              now ← srv_call (SOs Now);
              r ← fw (WriteStatsFrame (sample_payload targetID now memLim procLim live cpuPercent));
              mret (is_ok r)
          end
    | _ => do_ fw (WriteExitFrame (exit_error 0 ""));; mret false
    end.

(** At most [fuel] turns; [false] when the stream is still going after them. *)
Fixpoint stats_loop (fuel : nat) (targetID : string) : sio bool :=
  match fuel with
  | O => mret false
  | S fuel =>
      again ← stats_tick targetID;
      if (again : bool) then stats_loop fuel targetID else mret true
  end.

Definition handleStatsStream (fuel : nat) (targetID : string) : sio bool :=
  j ← srv_call (SGetJob targetID);
  match j with
  | None =>
      do_ fw (WriteExitFrame (exit_error 1 ("container " +:+ Quote targetID +:+ " not found")));;
      mret true
  | Some (info, cg, memLim, procLim) =>
      if negb (bool_decide (job_Status info = "running")) || bool_decide (cg = None) then
        now ← srv_call (SOs Now);
        do_ fw (WriteStatsFrame (stopped_payload targetID now memLim procLim info));;
        do_ fw (WriteExitFrame (exit_error 0 ""));;
        mret true
      else stats_loop fuel targetID
  end.

(** The output callbacks: one frame for each chunk, failures ignored. *)
Definition send_output (tty : bool) (w : Worker) (out : list (Z * string)) : sio unit :=
  foldM (fun _ c => do_ fw (WriteFrame (out_frame tty w c).1 (out_frame tty w c).2);; mret tt) tt out.

(** The end of a run: what the registry and the client are told. *)
Definition finish_run (w : Worker) (r : result Result) : sio (result unit) :=
  match r with
  | Err e =>
      do_ srv_call (SReg (OpUpdateFinished (w_ID w) 1 0 false));;
      do_ fw (WriteExitFrame (exit_error 1 (ErrorText e)));;
      mret (Ok tt)
  | Ok res =>
      do_ srv_call (SReg (OpUpdateFinished (w_ID w) (res_ExitCode res)
                            (PeakMemoryBytes (res_Metrics res)) (res_TimedOut res)));;
      do_ fw (WriteExitFrame (exit_of res));;
      mret (Ok tt)
  end.

(** From the registration on. *)
Definition run_worker (req : Request) (ctx : Z) (w : Worker) : sio (result unit) :=
  do_ srv_call (SReg (OpRegister (w_ID w) (PID w) (req_Command req) (req_Args req) (Some ctx)));;
  do_ srv_call (SReg (OpAttachCgroup (w_ID w) (Some (w_cgroup w)) (req_MemoryLimitBytes req)
                        (req_MaxProcesses req)));;
  x ← (if req_TTY req then do_ srv_call (SGoInput w);; srv_call (SExecutePTY w ctx)
       else srv_call (SExecuteStream w ctx (script_of (req_Args req))));
  do_ send_output (req_TTY req) w x.2;;
  finish_run w x.1.

(** A run: an error of the result stands for a panic of the goroutine. *)
Definition handleRun (cfg : DaemonConfig) (req : Request) : sio (result unit) :=
  let req := with_defaults cfg req in
  ctx ← srv_call (SWithTimeout (req_Timeout req));
  defer (srv_call (SOs (CancelCtx ctx)))
    (let initialCmd := req_Command req :: req_Args req in
     let requiresNetwork := requires_network req in
     let? acquired := srv_call (SAcquire (req_StorageLimitMB req) (req_Mounts req) (req_TTY req)
                                  initialCmd requiresNetwork) onerr e =>
       (do_ fw (WriteExitFrame (exit_error 1 ("worker acquire failed: " +:+ ErrorText e)));;
        mret (Ok tt)) in
     match acquired with
     | None => mret (Err nil_deref)
     | Some w =>
         if requiresNetwork then
           let? _ := srv_call (SSetupNet (w_ID w) (PID w) (RootPath w) (req_PortMappings req)
                                 (req_DNSServers req)) onerr e =>
             (do_ srv_call (SDestroy w);;
              do_ srv_call (SReg (OpUpdateFinished (w_ID w) 1 0 false));;
              do_ fw (WriteExitFrame (exit_error 1 ("failed to setup worker network: " +:+ ErrorText e)));;
              mret (Ok tt)) in
           defer (srv_call (SNetCleanup (w_ID w) (req_PortMappings req))) (run_worker req ctx w)
         else run_worker req ctx w
     end).

Definition handleConnection (cfg : DaemonConfig) (fuel : nat) : sio (result unit) :=
  defer (do_ srv_call SCloseConn;; mret tt)
    (let? req := srv_call SDecode onerr e =>
       (if negb (errors_Is e EOF) then
          do_ fw (WriteExitFrame (exit_error 1 ("invalid request payload: " +:+ ErrorText e)));;
          mret (Ok tt)
        else mret (Ok tt)) in
     if bool_decide (req_Action req = "list") then
       jobs ← srv_call SList;
       do_ Encode {| resp_Success := true; resp_Error := ""; resp_Jobs := jobs |};;
       mret (Ok tt)
     else if bool_decide (req_Action req = "stop") then handleControl (OpStop (req_TargetID req))
     else if bool_decide (req_Action req = "pause") then handleControl (OpPause (req_TargetID req))
     else if bool_decide (req_Action req = "unpause") then handleControl (OpUnpause (req_TargetID req))
     else if bool_decide (req_Action req = "stats") then
       do_ handleStatsStream fuel (req_TargetID req);; mret (Ok tt)
     else handleRun cfg req).
End handlers.

(** ** The worker and its network *)

Section link.
Context `{IpamJSON}.
Variable netlink_ParseAddr : string -> result string.

Definition link_worker (c : srv) : sio (ans c) :=
  match c return sio (sans c) with
  | SSetupNet cid pid root pms dns =>
      lift_os (translate (S := net) (T := os) (link_ipam NewManager)
                 (SetupContainerNetwork netlink_ParseAddr NewManager cid pid root pms dns))
  | SNetCleanup cid pms =>
      lift_os (translate (S := net) (T := os) (link_ipam NewManager) (NetCleanup cid pms))
  | SDestroy w => lift_os (Destroy w)
  | SExecutePTY w ctx => lift_os (ExecutePTY w ctx)
  | SExecuteStream w ctx script => lift_os (ExecuteStream w ctx script)
  | c => srv_call c
  end.
End link.

(** ** What the client is sent *)

(** The bytes of the writes up to the first one that fails, whether one failed, the
    execution (whether it was at a terminal, its worker and its answer), and the errors
    of the acquisition and of the network's set-up. *)
Record reply := {
  rp_sent : list byte;
  rp_broken : bool;
  rp_exec : option (bool * Worker * (result Result * list (Z * string)));
  rp_acquire : option error;
  rp_network : option error;
}.

Definition no_reply : reply :=
  {| rp_sent := []; rp_broken := false; rp_exec := None; rp_acquire := None; rp_network := None |}.

Definition reply_put (sent : list byte) (broken : bool) (s : reply) : reply :=
  {| rp_sent := sent; rp_broken := broken; rp_exec := rp_exec s; rp_acquire := rp_acquire s;
     rp_network := rp_network s |}.
Definition reply_exec (tty : bool) (w : Worker) (a : result Result * list (Z * string)) (s : reply) : reply :=
  {| rp_sent := rp_sent s; rp_broken := rp_broken s; rp_exec := Some (tty, w, a); rp_acquire := rp_acquire s;
     rp_network := rp_network s |}.

Definition reply_mon (s : reply) (c : srv) (r : ans c) : reply :=
  match c return sans c -> reply with
  | SWrite bs => fun r =>
      if rp_broken s || negb (is_ok r) then reply_put (rp_sent s) true s
      else reply_put (rp_sent s ++ bs) false s
  | SExecutePTY w _ => fun a => reply_exec true w a s
  | SExecuteStream w _ _ => fun a => reply_exec false w a s
  | SAcquire _ _ _ _ _ => fun r =>
      match r with
      | Err e => {| rp_sent := rp_sent s; rp_broken := rp_broken s; rp_exec := rp_exec s;
                    rp_acquire := Some e; rp_network := rp_network s |}
      | Ok _ => s
      end
  | SSetupNet _ _ _ _ _ => fun r =>
      match r with
      | Err e => {| rp_sent := rp_sent s; rp_broken := rp_broken s; rp_exec := rp_exec s;
                    rp_acquire := rp_acquire s; rp_network := Some e |}
      | Ok _ => s
      end
  | _ => fun _ => s
  end r.

(** The bytes [bs] were sent, unless a write failed. *)
Definition sends (bs : list byte) (s s' : reply) : Prop :=
  (rp_exec s' = rp_exec s /\ rp_acquire s' = rp_acquire s /\ rp_network s' = rp_network s) /\
  (rp_broken s' = false -> rp_broken s = false /\ rp_sent s' = rp_sent s ++ bs).

Lemma sends_nil s : sends [] s s.
Proof. split; [done |]. intros Hb. by rewrite app_nil_r. Qed.

Lemma sends_app b1 b2 s1 s2 s3 : sends b1 s1 s2 -> sends b2 s2 s3 -> sends (b1 ++ b2) s1 s3.
Proof.
  intros [(E1 & E1' & E1'') H1] [(E2 & E2' & E2'') H2]. split; [split_and!; congruence |]. intros Hb. apply H2 in Hb as [Hb ->].
  apply H1 in Hb as [Hb ->]. by rewrite app_assoc.
Qed.

Lemma sends_broken b1 b2 s s' : sends b1 s s' -> rp_broken s' = true -> sends b2 s s'.
Proof. intros [E _] Hb. split; [done | congruence]. Qed.

Lemma reply_write bs s (r : result unit) :
  let s' := reply_mon s (SWrite bs : srv) r in
  sends bs s s' /\ (is_ok r = false -> rp_broken s' = true).
Proof.
  unfold sends, reply_mon, reply_put. destruct (rp_broken s) eqn:Hb; [by repeat split |].
  destruct r; by repeat split.
Qed.

Lemma wp_reply_frame t p s :
  wp reply_mon (fw (WriteFrame t p)) s (fun s' _ => sends (frame_bytes (t, p)) s s').
Proof.
  intros r. destruct (reply_write (frame_header t p) s r) as [H1 Hb1].
  destruct r as [[]|e]; [| by apply (sends_broken _ _ _ _ H1), Hb1].
  destruct p as [|x p].
  - apply (sends_app _ [] _ _ _ H1), sends_nil.
  - intros r. destruct (reply_write (x :: p) (reply_mon s (SWrite (frame_header t (x :: p)) : srv) (Ok tt)) r)
      as [H2 Hb2].
    pose proof (sends_app _ _ _ _ _ H1 H2) as H3. by destruct r as [[]|e].
Qed.

Section replies.
Context `{JSON ExitPayload, JSON StatsPayload, JSON ControlResponse}.

(** The frame of a payload, when it can be encoded. *)
Definition exit_bytes (x : ExitPayload) : list byte :=
  match Marshal x with Ok b => frame_bytes (3, b) | Err _ => [] end.
Definition stats_bytes (x : StatsPayload) : list byte :=
  match Marshal x with Ok b => frame_bytes (StreamStats, b) | Err _ => [] end.
Definition output_bytes (tty : bool) (w : Worker) (out : list (Z * string)) : list byte :=
  concat (map (fun c => frame_bytes (out_frame tty w c)) out).

Lemma wp_reply_exit x s :
  wp reply_mon (fw (WriteExitFrame x)) s (fun s' _ => sends (exit_bytes x) s s').
Proof.
  unfold WriteExitFrame, exit_bytes. destruct (Marshal x); [apply wp_reply_frame | apply sends_nil].
Qed.

Lemma wp_reply_stats x s :
  wp reply_mon (fw (WriteStatsFrame x)) s (fun s' _ => sends (stats_bytes x) s s').
Proof.
  unfold WriteStatsFrame, stats_bytes. destruct (Marshal x); [apply wp_reply_frame | apply sends_nil].
Qed.

Lemma wp_send_output tty w out s :
  wp reply_mon (send_output tty w out) s (fun s' _ => sends (output_bytes tty w out) s s').
Proof using.
  clear. unfold send_output, output_bytes. revert s.
  induction out as [|c out IH]; intros s; [apply sends_nil |]. cbn [foldM map concat].
  wp_step. wp_step. eapply wp_mono; [| apply wp_reply_frame]. intros s1 r H1. cbv beta. wp_step.
  eapply wp_mono; [| apply IH]. intros s2 u H2. by apply (sends_app _ _ _ _ _ H1 H2).
Qed.

(** *** What the client of a run is told

    Said without the handler's own functions: streams 1 and 2 are the output and the error
    stream, 3 is the exit frame's. *)

(** A chunk was written to the standard error of a batch worker. *)
Definition from_stderr (tty : bool) (w : Worker) (fd : Z) : Prop := tty = false /\ w_stderrR w = Some fd.

(** The frame for a chunk of output. *)
Definition told (tty : bool) (w : Worker) (c : Z * string) (f : Z * list byte) : Prop :=
  f.2 = list_byte_of_string c.2 /\
  (from_stderr tty w c.1 /\ f.1 = 2 \/ ~ from_stderr tty w c.1 /\ f.1 = 1).

(** The payload of the exit frame: a failure, and the answer of an execution. *)
Definition failed_payload (msg : string) : ExitPayload :=
  {| exit_ExitCode := 1; exit_Duration := 0; exit_TimedOut := false;
     exit_Metrics := {| PeakMemoryBytes := 0; UserCPUTimeUS := 0; SystemCPUTimeUS := 0 |}; exit_Error := msg |}.

Definition final_payload (x : result Result) : ExitPayload :=
  match x with
  | Ok res => {| exit_ExitCode := res_ExitCode res; exit_Duration := res_Duration res;
                 exit_TimedOut := res_TimedOut res; exit_Metrics := res_Metrics res; exit_Error := "" |}
  | Err e => failed_payload (ErrorText e)
  end.

(** What was sent: the frames of the output and the exit frame of the execution, which is
    at a terminal exactly when the request is; or the exit frame of the error that there
    was instead. *)
Definition run_reply (tty : bool) (s : reply) (sent : list byte) : Prop :=
  match rp_exec s with
  | Some (tty', w, (x, out)) => tty' = tty /\
      exists fs, Forall2 (told tty w) out fs /\ sent = concat (map frame_bytes fs) ++ exit_bytes (final_payload x)
  | None =>
      match rp_acquire s with
      | Some e => sent = exit_bytes (failed_payload ("worker acquire failed: " +:+ ErrorText e))
      | None => exists e, rp_network s = Some e /\
          sent = exit_bytes (failed_payload ("failed to setup worker network: " +:+ ErrorText e))
      end
  end.

Lemma out_frame_told tty w c : told tty w c (out_frame tty w c).
Proof using.
  clear. split; [done |]. unfold from_stderr, out_frame, stream_of. cbn [fst]. destruct tty; [right; by split; [intros [] |] |].
  case_bool_decide as Hd; [by left | right]. split; [by intros [_ E] | done].
Qed.

Lemma output_told tty w out :
  exists fs, Forall2 (told tty w) out fs /\ output_bytes tty w out = concat (map frame_bytes fs).
Proof using.
  clear. exists (map (out_frame tty w) out). split; [| unfold output_bytes; by rewrite map_map].
  apply Forall2_fmap_r, Forall_Forall2_diag, Forall_forall. intros c _. apply out_frame_told.
Qed.

Lemma wp_reply_finish w r s :
  wp reply_mon (finish_run w r) s (fun s' ret => ret = Ok tt /\ sends (exit_bytes (final_payload r)) s s').
Proof.
  unfold finish_run. destruct r as [res|e]; do 3 wp_step;
    (eapply wp_mono; [| apply wp_reply_exit]); intros s' x Hx; by wp_step.
Qed.
Ltac rp_step := wp_step_with ltac:(fun _ => cbn [reply_mon no_reply rp_sent rp_broken rp_exec rp_acquire rp_network]).

Definition run_post (tty : bool) (s : reply) (ret : result unit) : Prop :=
  ret = Ok tt -> rp_broken s = false -> run_reply tty s (rp_sent s).

Lemma wp_reply_worker req ctx w :
  wp reply_mon (run_worker req ctx w) no_reply (run_post (req_TTY req)).
Proof.
  unfold run_worker. rp_step. rp_step. rp_step. rp_step. rp_step.
  eapply wp_mono with (Q := fun s x => s = reply_exec (req_TTY req) w x no_reply).
  2: { destruct (req_TTY req); [rp_step; rp_step |]; by intros r. }
  intros s [r out] ->. cbn [fst snd]. rp_step. eapply wp_mono; [| apply wp_send_output].
  intros s1 u Hout. cbv beta. eapply wp_mono; [| apply wp_reply_finish].
  intros s2 ret (-> & Hexit) _ Hb. pose proof (sends_app _ _ _ _ _ Hout Hexit) as [(E & _ & _) Hall].
  apply Hall in Hb as [_ Hs]. unfold run_reply. rewrite E, Hs. cbn [reply_exec no_reply rp_exec rp_sent app].
  split; [done |]. destruct (output_told (req_TTY req) w out) as (fs & Hfs & ->). by exists fs.
Qed.

(** An exit frame sent instead of an execution. *)
Lemma run_post_early tty x s0 s :
  rp_sent s0 = [] -> rp_exec s0 = None -> run_reply tty s0 (exit_bytes x) ->
  sends (exit_bytes x) s0 s -> run_post tty s (Ok tt).
Proof.
  unfold run_post, run_reply. intros E0 E1 Hr [(E & Ea & En) Hs] _ Hb. apply Hs in Hb as [_ Hs'].
  rewrite E, Ea, En, Hs', E0. exact Hr.
Qed.

Lemma wp_handleRun_reply cfg req : wp reply_mon (handleRun cfg req) no_reply (run_post (req_TTY req)).
Proof.
  unfold handleRun. cbv zeta. assert (req_TTY req = req_TTY (with_defaults cfg req)) as -> by done.
  generalize (with_defaults cfg req). clear req. intros req.
  rp_step. rp_step. rp_step. eapply wp_mono with (Q := run_post (req_TTY req)).
  { intros s ret Hs. by rp_step. }
  rp_step. rp_step; [destruct x as [w|]; [destruct (requires_network req) |] |].
  - rp_step. rp_step.
    + rp_step. eapply wp_mono; [| apply wp_reply_worker]. intros s ret Hs. by rp_step.
    + do 4 rp_step. rp_step. eapply wp_mono; [| apply wp_reply_exit]. intros s x Hs. rp_step.
      eapply run_post_early; [..| exact Hs]; try done. by exists e.
  - apply wp_reply_worker.
  - by rp_step.
  - rp_step. eapply wp_mono; [| apply wp_reply_exit]. intros s x Hs. rp_step.
    by eapply run_post_early; [..| exact Hs].
Qed.

Definition run_request (req : Request) : bool :=
  negb (bool_decide (req_Action req ∈ ["list"; "stop"; "pause"; "unpause"; "stats"])).

(** The answer of a decoding. *)
Definition decoded (e : event srv) : option (result Request) :=
  let '(Ev c r) := e in
  match c return sans c -> option (result Request) with SDecode => Some | _ => fun _ => None end r.

Lemma handleConnection_run cfg fuel req tr ret :
  run_request req = true ->
  ends (handleConnection cfg fuel) (Ev (SDecode : srv) (Ok req) :: tr) ret ->
  exists tr1 r2, tr = tr1 ++ [Ev (SCloseConn : srv) r2] /\ ends (handleRun cfg req) tr1 ret.
Proof.
  intros Hr He. unfold handleConnection, defer in He.
  apply ends_bind_inv in He as (tr1 & x & tr2 & Hbody & Hclose & E).
  apply ends_inv in Hbody as (r & tr' & -> & Hbody).
  pose proof (f_equal tail E) as Etr. apply (f_equal (fun l => decoded <$> head l)) in E.
  cbn in Etr, E. injection E as <-. subst tr.
  change (ends (if bool_decide (req_Action req = "list") then
      jobs ← srv_call SList;
      do_ Encode {| resp_Success := true; resp_Error := ""; resp_Jobs := jobs |};; mret (Ok tt)
    else if bool_decide (req_Action req = "stop") then handleControl (OpStop (req_TargetID req))
    else if bool_decide (req_Action req = "pause") then handleControl (OpPause (req_TargetID req))
    else if bool_decide (req_Action req = "unpause") then handleControl (OpUnpause (req_TargetID req))
    else if bool_decide (req_Action req = "stats") then
      do_ handleStatsStream fuel (req_TargetID req);; mret (Ok tt)
    else handleRun cfg req) tr' x) in Hbody.
  unfold run_request in Hr. apply negb_true_iff, bool_decide_eq_false in Hr.
  rewrite !bool_decide_eq_false_2 in Hbody by (intros E; apply Hr; rewrite E; set_solver).
  apply ends_bind_inv in Hclose as (tr3 & u & tr4 & Hclose & Hret & ->).
  apply ends_inv in Hret as [-> ->]. apply ends_bind_inv in Hclose as (tr5 & r5 & tr6 & H5 & H6 & ->).
  apply ends_inv in H6 as [_ ->]. apply ends_inv in H5 as (r & tr'' & -> & H7).
  apply ends_inv in H7 as [_ ->]. exists tr', r. by rewrite !app_nil_r.
Qed.

Lemma connection_run_post cfg fuel req tr ret :
  run_request req = true ->
  ends (handleConnection cfg fuel) (Ev (SDecode : srv) (Ok req) :: tr) ret ->
  run_post (req_TTY req) (mon_trace reply_mon no_reply tr) ret.
Proof.
  intros Hr He. apply handleConnection_run in He as (tr1 & r2 & -> & He); [| done].
  pose proof (wp_ends reply_mon _ _ _ _ _ (wp_handleRun_reply cfg req) He) as Hp.
  unfold mon_trace in *. by rewrite fold_left_app.
Qed.

(** C20: What a client that asked for a run receives: if no write to it fails, it gets,
    whatever happens in the daemon, the frames of the worker's output in order, each
    chunk on the stream it was written to (stream 2 for what a batch worker wrote to its
    standard error, stream 1 for the rest), and then exactly one exit frame (stream 3),
    with the exit code, duration, time-out and metrics of the execution, its error, or the
    reason why there was none: the acquisition's error or the network's; only a panic (a
    nil worker, after the pool was closed) leaves it without. *)
Theorem handleConnection_reply cfg fuel req tr ret :
  run_request req = true ->
  ends (handleConnection cfg fuel) (Ev (SDecode : srv) (Ok req) :: tr) ret -> ret = Ok tt ->
  rp_broken (mon_trace reply_mon no_reply tr) = false ->
  run_reply (req_TTY req) (mon_trace reply_mon no_reply tr) (rp_sent (mon_trace reply_mon no_reply tr)).
Proof. intros Hr He Hret Hb. by eapply connection_run_post. Qed.
End replies.

(** ** What a run does to the worker, its network and the registry *)

(** The workers acquired and not given back, the networks set up and not cleaned up, the
    contexts made and not cancelled; the registry's methods called; the contexts made,
    each with its time; the worker acquired; whether the network's set-up failed; and the
    execution: its worker, its context, its script ([None] at a terminal) and its answer. *)
Record cycle := {
  cy_live : list string;
  cy_net : list (string * list PortMapping);
  cy_ctx : list Z;
  cy_ops : list reg_op;
  cy_made : list (Z * Z);
  cy_got : option Worker;
  cy_nonet : bool;
  cy_exec : option (Worker * Z * option string * result Result);
  cy_nil : bool;
}.

Definition no_cycle : cycle :=
  {| cy_live := []; cy_net := []; cy_ctx := []; cy_ops := []; cy_made := []; cy_got := None;
     cy_nonet := false; cy_exec := None; cy_nil := false |}.

Definition cy_hold (live : list string) (nets : list (string * list PortMapping)) (ctxs : list Z) (s : cycle) : cycle :=
  {| cy_live := live; cy_net := nets; cy_ctx := ctxs; cy_ops := cy_ops s; cy_made := cy_made s;
     cy_got := cy_got s; cy_nonet := cy_nonet s; cy_exec := cy_exec s; cy_nil := cy_nil s |}.

Definition cy_know (made : list (Z * Z)) (got : option Worker) (nonet nil : bool) (s : cycle) : cycle :=
  {| cy_live := cy_live s; cy_net := cy_net s; cy_ctx := cy_ctx s; cy_ops := cy_ops s; cy_made := made;
     cy_got := got; cy_nonet := nonet; cy_exec := cy_exec s; cy_nil := nil |}.

Definition executed (w : Worker) (ctx : Z) (script : option string) (a : result Result * list (Z * string))
    (s : cycle) : cycle :=
  {| cy_live := without (w_ID w) (cy_live s); cy_net := cy_net s; cy_ctx := cy_ctx s; cy_ops := cy_ops s;
     cy_made := cy_made s; cy_got := cy_got s; cy_nonet := cy_nonet s;
     cy_exec := Some (w, ctx, script, a.1); cy_nil := cy_nil s |}.

(** A worker is live from its acquisition to its execution or destruction; a network from
    its set-up to its clean-up; a context from its making to its cancellation. *)
Definition cycle_mon (s : cycle) (c : srv) (r : ans c) : cycle :=
  match c return sans c -> cycle with
  | SAcquire _ _ _ _ _ => fun r =>
      match r with
      | Ok (Some w) => cy_hold (w_ID w :: cy_live s) (cy_net s) (cy_ctx s)
                         (cy_know (cy_made s) (Some w) (cy_nonet s) (cy_nil s) s)
      | Ok None => cy_know (cy_made s) (cy_got s) (cy_nonet s) true s
      | Err _ => s
      end
  | SDestroy w => fun _ => cy_hold (without (w_ID w) (cy_live s)) (cy_net s) (cy_ctx s) s
  | SExecutePTY w ctx => fun a => executed w ctx None a s
  | SExecuteStream w ctx script => fun a => executed w ctx (Some script) a s
  | SSetupNet cid _ _ pms _ => fun r =>
      if is_ok r then cy_hold (cy_live s) ((cid, pms) :: cy_net s) (cy_ctx s) s
      else cy_know (cy_made s) (cy_got s) true (cy_nil s) s
  | SNetCleanup cid pms => fun _ => cy_hold (cy_live s) (without (cid, pms) (cy_net s)) (cy_ctx s) s
  | SReg o => fun _ =>
      {| cy_live := cy_live s; cy_net := cy_net s; cy_ctx := cy_ctx s; cy_ops := cy_ops s ++ [o];
         cy_made := cy_made s; cy_got := cy_got s; cy_nonet := cy_nonet s; cy_exec := cy_exec s;
         cy_nil := cy_nil s |}
  | SWithTimeout d => fun ctx =>
      cy_hold (cy_live s) (cy_net s) (ctx :: cy_ctx s)
        (cy_know ((d, ctx) :: cy_made s) (cy_got s) (cy_nonet s) (cy_nil s) s)
  | SOs (CancelCtx ctx) => fun _ => cy_hold (cy_live s) (cy_net s) (without ctx (cy_ctx s)) s
  | _ => fun _ => s
  end r.

(** A limit of the request, or the configured one when the request leaves it zero. *)
Definition effective (given configured : Z) : Z := if given =? 0 then configured else given.

(** The script of a request that is not for a terminal: the argument of -c, or all
    arguments. *)
Definition asked_script (req : Request) (script : string) : Prop :=
  match req_Args req with
  | "-c" :: a :: _ => script = a
  | args => script = Join args " "
  end.

(** What the registry is told of an execution: its start, its cgroup with the limits that
    apply (mebibytes to bytes as an int64), and its end. *)
Definition execution_ops (cfg : DaemonConfig) (req : Request) (ctx : Z) (w : Worker) (r : result Result) : list reg_op :=
  [OpRegister (w_ID w) (w_cmd w) (req_Command req) (req_Args req) (Some ctx);
   OpAttachCgroup (w_ID w) (Some (w_cgroup w))
     (effective (req_MemoryLimitBytes req) (int64 (MemoryLimitMB (dc_Defaults cfg) * 2 ^ 20)))
     (effective (req_MaxProcesses req) (MaxProcesses (dc_Defaults cfg)));
   match r with
   | Ok res => OpUpdateFinished (w_ID w) (res_ExitCode res) (PeakMemoryBytes (res_Metrics res)) (res_TimedOut res)
   | Err _ => OpUpdateFinished (w_ID w) 1 0 false
   end].

(** What a run did with the worker it acquired, if any: executed it, under the context that
    was made with the time that applies, and told the registry all of it; or, when the
    network could not be set up, told the registry that it ended. *)
Definition run_told (cfg : DaemonConfig) (req : Request) (s : cycle) : Prop :=
  exists ctx, cy_made s = [(effective (req_Timeout req) (int64 (TimeoutSec (dc_Defaults cfg) * 10 ^ 9)), ctx)] /\
  match cy_got s with
  | None => cy_ops s = [] /\ cy_exec s = None
  | Some w =>
      match cy_exec s with
      | Some (w', ctx', script, r) => w' = w /\ ctx' = ctx /\ cy_nonet s = false /\
          match script with
          | None => req_TTY req = true
          | Some sc => req_TTY req = false /\ asked_script req sc
          end /\ cy_ops s = execution_ops cfg req ctx w r
      | None => cy_nonet s = true /\ cy_ops s = [OpUpdateFinished (w_ID w) 1 0 false]
      end
  end.

(** Nothing is left to give back, and the registry was told. *)
Definition cycle_post (cfg : DaemonConfig) (req : Request) (s : cycle) (ret : result unit) : Prop :=
  cy_live s = [] /\ cy_net s = [] /\ cy_ctx s = [] /\ run_told cfg req s /\
  (is_ok ret = false -> cy_nil s = true).

(** Whatever a run told the registry, it finished the job that it registered. *)
Lemma run_told_ops cfg req s :
  run_told cfg req s ->
  cy_ops s = [] \/ (exists w, cy_ops s = [OpUpdateFinished (w_ID w) 1 0 false]) \/
  exists ctx w r, cy_ops s = execution_ops cfg req ctx w r.
Proof.
  intros (ctx & _ & Ho). destruct (cy_got s) as [w|]; [right | by left; destruct Ho].
  destruct (cy_exec s) as [[[[w' ctx'] script] r]|]; [right | left; exists w; by destruct Ho].
  destruct Ho as (_ & _ & _ & _ & Ho). by exists ctx, w, r.
Qed.

Section cycles.
Context `{JSON ExitPayload, JSON StatsPayload, JSON ControlResponse}.

Ltac cy_step := wp_step_with ltac:(fun _ => cbn [cycle_mon is_ok executed cy_hold cy_know no_cycle
  cy_live cy_net cy_ctx cy_ops cy_made cy_got cy_nonet cy_exec cy_nil app]).

Lemma neutral_cycle_fw {A} (p : prog wire A) : neutral cycle_mon (fw p).
Proof using. clear. intros s. unfold fw. revert s. induction p as [a | c k IH]; intros s; [done |]. intros r. apply IH. Qed.

Lemma neutral_cycle_output tty w out : neutral cycle_mon (send_output tty w out).
Proof using. clear. unfold send_output. neutral_steps. apply neutral_cycle_fw. Qed.

(** A run that has its worker, and one that has executed it. *)
Definition cycle_with (nets : list (string * list PortMapping)) (made : list (Z * Z)) (ctx : Z) (w : Worker) : cycle :=
  {| cy_live := [w_ID w]; cy_net := nets; cy_ctx := [ctx]; cy_ops := []; cy_made := made; cy_got := Some w;
     cy_nonet := false; cy_exec := None; cy_nil := false |}.

Definition cycle_over (nets : list (string * list PortMapping)) (made : list (Z * Z)) (ctx : Z) (w : Worker)
    (ops : list reg_op) (x : option (Worker * Z * option string * result Result)) : cycle :=
  {| cy_live := without (w_ID w) [w_ID w]; cy_net := nets; cy_ctx := [ctx]; cy_ops := ops; cy_made := made;
     cy_got := Some w; cy_nonet := negb (bool_decide (is_Some x)); cy_exec := x; cy_nil := false |}.

Definition how_executed (req : Request) : option string :=
  if req_TTY req then None else Some (script_of (req_Args req)).

Lemma int64_mul_1024 n : int64 (int64 (n * 1024) * 1024) = int64 (n * 2 ^ 20).
Proof using.
  clear. unfold wraps. change (64 - 1) with 63. f_equal.
  pose proof (Z.div_mod (n * 1024 + 2 ^ 63) (2 ^ 64) ltac:(lia)) as E.
  set (q := (n * 1024 + 2 ^ 63) / 2 ^ 64) in E.
  assert (((n * 1024 + 2 ^ 63) mod 2 ^ 64 - 2 ^ 63) * 1024 + 2 ^ 63 = n * 2 ^ 20 + 2 ^ 63 + (- q * 1024) * 2 ^ 64) as -> by lia.
  apply Z_mod_plus_full.
Qed.

(** The effective request, as [with_defaults] makes it. *)
Lemma with_defaults_ops cfg req ctx w r :
  [OpRegister (w_ID w) (PID w) (req_Command (with_defaults cfg req)) (req_Args (with_defaults cfg req)) (Some ctx);
   OpAttachCgroup (w_ID w) (Some (w_cgroup w)) (req_MemoryLimitBytes (with_defaults cfg req))
     (req_MaxProcesses (with_defaults cfg req));
   match r with
   | Ok res => OpUpdateFinished (w_ID w) (res_ExitCode res) (PeakMemoryBytes (res_Metrics res)) (res_TimedOut res)
   | Err _ => OpUpdateFinished (w_ID w) 1 0 false
   end] = execution_ops cfg req ctx w r.
Proof using. clear. unfold execution_ops, with_defaults, effective. cbn. by rewrite int64_mul_1024. Qed.

Lemma wp_cycle_worker cfg req ctx w nets made Q :
  (forall ret r, is_ok ret = true ->
     Q (cycle_over nets made ctx w (execution_ops cfg req ctx w r) (Some (w, ctx, how_executed req, r))) ret) ->
  wp cycle_mon (run_worker (with_defaults cfg req) ctx w) (cycle_with nets made ctx w) Q.
Proof.
  intros HQ. unfold run_worker, cycle_with. cy_step. cy_step. cy_step. cy_step. cy_step.
  eapply wp_mono with (Q := fun s x => s = cycle_over nets made ctx w
    [OpRegister (w_ID w) (PID w) (req_Command (with_defaults cfg req)) (req_Args (with_defaults cfg req)) (Some ctx);
     OpAttachCgroup (w_ID w) (Some (w_cgroup w)) (req_MemoryLimitBytes (with_defaults cfg req))
       (req_MaxProcesses (with_defaults cfg req))] (Some (w, ctx, how_executed req, x.1))).
  2: { unfold how_executed. change (req_TTY (with_defaults cfg req)) with (req_TTY req).
       destruct (req_TTY req); [cy_step; cy_step |]; by intros r. }
  intros s [r out] ->. cbn [fst snd]. cy_step. eapply wp_mono; [| apply neutral_cycle_output].
  intros s1 u ->. cbv beta. unfold finish_run.
  pose proof (HQ (Ok tt) r eq_refl) as Hend. rewrite <- with_defaults_ops in Hend. unfold cycle_over in *.
  destruct r as [res|e]; (cy_step; cy_step; cy_step; eapply wp_mono; [| apply neutral_cycle_fw]);
    intros s1 x ->; cy_step; exact Hend.
Qed.

Lemma without_one {A} `{EqDecision A} (x : A) : without x [x] = [].
Proof using. clear. unfold without. by rewrite filter_cons_False by auto. Qed.

Lemma how_executed_asked req :
  match how_executed req with
  | None => req_TTY req = true
  | Some sc => req_TTY req = false /\ asked_script req sc
  end.
Proof using.
  clear. unfold how_executed, asked_script, script_of. destruct (req_TTY req); [done |]. split; [done |].
  by repeat case_match.
Qed.

Lemma wp_handleRun_cycle cfg req : wp cycle_mon (handleRun cfg req) no_cycle (cycle_post cfg req).
Proof.
  unfold handleRun. cbv zeta. cy_step. cy_step. rename r into ctx.
  set (t := effective (req_Timeout req) (int64 (TimeoutSec (dc_Defaults cfg) * 10 ^ 9))).
  change (req_Timeout (with_defaults cfg req)) with t.
  assert (forall s ret, cycle_post cfg req (cy_hold (cy_live s) (cy_net s) (without ctx (cy_ctx s)) s) ret ->
    wp cycle_mon (srv_call (SOs (CancelCtx ctx))) s (fun s' _ => cycle_post cfg req s' ret)) as Hcancel.
  { intros s ret Hp r. exact Hp. }
  assert (forall w r ret, is_ok ret = true -> cycle_post cfg req
    (cy_hold [] [] [] (cycle_over [] [(t, ctx)] ctx w (execution_ops cfg req ctx w r)
       (Some (w, ctx, how_executed req, r)))) ret) as Hdone.
  { intros w r ret Hret. split_and!; try done; [| congruence]. exists ctx. split; [done |].
    cbn -[execution_ops]. split_and!; try done. apply how_executed_asked. }
  cy_step. cy_step. cy_step; [destruct x as [w|]; [destruct (requires_network _) |] |].
  - cy_step. cy_step; cbn [cycle_mon is_ok].
    + cy_step. refine (wp_cycle_worker cfg req ctx w [(w_ID w, req_PortMappings req)] [(t, ctx)] _ _).
      intros ret r Hret. cy_step. apply Hcancel. cbn -[execution_ops without]. rewrite !without_one. by apply Hdone.
    + cy_step. cy_step. cy_step. cy_step. cy_step. eapply wp_mono; [| apply neutral_cycle_fw].
      intros s x ->. cy_step. apply Hcancel. unfold cycle_post, run_told. cbn -[without]. rewrite !without_one.
      split_and!; try done. by exists ctx.
  - refine (wp_cycle_worker cfg req ctx w [] [(t, ctx)] _ _). intros ret r Hret. apply Hcancel.
    cbn -[execution_ops without]. rewrite !without_one. by apply Hdone.
  - cy_step. apply Hcancel. unfold cycle_post, run_told. cbn -[without]. rewrite without_one. split_and!; try done. by exists ctx.
  - cy_step. eapply wp_mono; [| apply neutral_cycle_fw]. intros s x ->. cy_step. apply Hcancel.
    unfold cycle_post, run_told. cbn -[without]. rewrite without_one. split_and!; try done. by exists ctx.
Qed.

(** C9: A run gives everything back and closes its books: whatever fails, when the
    handler of a run returns, the worker it acquired was executed or destroyed, the
    network it set up was cleaned up with the same mappings, and its context, made with
    the request's time or the configured one, was cancelled.  A run that got no worker
    executed none and told the registry nothing; one whose network failed executed none
    and told it only that the worker ended; any other executed the worker it got, with the
    request's script or at a terminal, and told the registry of its start, its cgroup with
    the limits that apply and, last, its end with the exit code, peak memory and time-out
    of that execution (1, 0 and false for an error).  Only a run whose acquisition gave a
    nil worker panics. *)
Theorem handleConnection_releases cfg fuel req tr ret :
  run_request req = true ->
  ends (handleConnection cfg fuel) (Ev (SDecode : srv) (Ok req) :: tr) ret ->
  cycle_post cfg req (mon_trace cycle_mon no_cycle tr) ret.
Proof.
  intros Hr He. apply handleConnection_run in He as (tr1 & r2 & -> & He); [| done].
  pose proof (wp_ends cycle_mon _ _ _ _ _ (wp_handleRun_cycle cfg req) He) as Hp.
  unfold mon_trace in *. by rewrite fold_left_app.
Qed.
End cycles.

(** ** The registry under other connections

    Between any two calls of a run, other connections may call any method of the registry
    for other workers, and, for this run's worker [me], the control requests. *)

Definition allowed (me : string) (o : reg_op) : Prop :=
  Registry.op_id o = me -> match o with OpPause _ | OpUnpause _ | OpStop _ => True | _ => False end.

Definition other_step (me : string) (r r' : registry) : Prop :=
  exists o tr ret, allowed me o /\ ends (exec_op r o) tr (r', ret).

Definition srv_step (me : string) (r : registry) (c : srv) (a : ans c) (r' : registry) : Prop :=
  exists r1, rtc (other_step me) r r1 /\
    match c return sans c -> Prop with
    | SReg o => fun a => exists tr, ends (exec_op r1 o) tr (r', a)
    | SGetJob id => fun a => a = GetJob r1 id /\ r' = r1
    | SList => fun l => r' = r1 /\ exists order tr, order ≡ₚ map_to_list r1 /\ ends (Registry.List order) tr l
    | SAcquire _ _ _ _ _ => fun a => r' = r1 /\ match a with Ok (Some w) => w_ID w = me | _ => True end
    | _ => fun _ => r' = r1
    end a.

(** The job of [me] is over. *)
Definition job_over (me : string) (r : registry) : Prop :=
  exists j, r !! me = Some j /\ active_status (status j) = false.

(** What other connections leave as it is. *)
Definition stays (me : string) (P : registry -> Prop) : Prop :=
  forall r r', other_step me r r' -> P r -> P r'.

Lemma effect_other (o : reg_op) (r r' : registry) me :
  effect r o r' -> Registry.op_id o <> me -> r' !! me = r !! me.
Proof.
  intros He Hne. destruct o as [id | id | id | id c p t | id | id | id]; simpl in *.
  - destruct He as (j & -> & _). by apply lookup_insert_ne.
  - subst. unfold AttachCgroup. destruct (r !! id); [by apply lookup_insert_ne | done].
  - subst. unfold UpdatePID. destruct (r !! id); [by apply lookup_insert_ne | done].
  - destruct (r !! id); [destruct He as (d & ->); by apply lookup_insert_ne | by subst].
  - destruct He as (j & _ & _ & _ & ->). by apply lookup_insert_ne.
  - destruct He as (j & _ & _ & _ & ->). by apply lookup_insert_ne.
  - destruct He as (j & _ & _ & ->). by apply lookup_insert_ne.
Qed.

Lemma other_lookup me r r' : other_step me r r' ->
  r' !! me = r !! me \/
  exists j s, r !! me = Some j /\ active_status (status j) = true /\
    r' !! me = Some (set_info (with_status s) j).
Proof.
  intros (o & tr & ret & Ha & He%exec_op_effect). destruct ret; [| subst; by left].
  destruct (decide (Registry.op_id o = me)) as [E | Hne]; [| left; by eapply effect_other].
  specialize (Ha E). destruct o; simpl in *; try done; subst; right.
  - destruct He as (j & Hj & Hs & _ & ->). exists j, "paused". rewrite Hs, lookup_insert_eq. done.
  - destruct He as (j & Hj & Hs & _ & ->). exists j, "running". rewrite Hs, lookup_insert_eq. done.
  - destruct He as (j & Hj & Hs & ->). exists j, "killed". rewrite Hs, lookup_insert_eq. done.
Qed.

Lemma stays_absent me : stays me (fun r => r !! me = None).
Proof. intros r r' [E | (j & s & Hj & _)]%other_lookup Hr; congruence. Qed.

Lemma stays_present me : stays me (fun r => is_Some (r !! me)).
Proof. intros r r' [E | (j & s & Hj & _ & E)]%other_lookup Hr; rewrite E; [done | by eexists]. Qed.

Lemma stays_over me : stays me (job_over me).
Proof.
  intros r r' [E | (j & s & Hj & Hs & _)]%other_lookup (j' & Hj' & Ha); [| congruence].
  exists j'. by rewrite E.
Qed.

Lemma stays_rtc me P r r' : stays me P -> rtc (other_step me) r r' -> P r -> P r'.
Proof. intros Hst. induction 1; eauto. Qed.

(** ** Programs that do not call the registry's methods *)

Fixpoint quiet {A} (p : sio A) : Prop :=
  match p with
  | Ret _ => True
  | Vis c k => match c with SReg _ => False | _ => True end /\ forall r, quiet (k r)
  end.

Lemma quiet_bind {A B} (f : A -> sio B) p : quiet p -> (forall a, quiet (f a)) -> quiet (mbind f p).
Proof. unfold mbind, prog_bind. induction p as [a | c k IH]; simpl; [auto |]. intros [Hc Hk] Hf. eauto. Qed.

Lemma quiet_fw {A} (p : prog wire A) : quiet (fw p).
Proof. unfold fw. induction p as [a | c k IH]; [done |]. split; [done |]. intros r. apply IH. Qed.

Lemma quiet_output tty w out : quiet (send_output tty w out).
Proof.
  unfold send_output. induction out as [|c out IH]; [done |]. cbn [foldM].
  apply quiet_bind; [| intros []; apply IH]. apply quiet_bind; [apply quiet_fw | done].
Qed.

Lemma rwp_quiet {A} me P (p : sio A) r Q :
  stays me P -> quiet p -> P r -> (forall a r, P r -> Q a r) -> rwp (srv_step me) p r Q.
Proof.
  intros Hst. revert r. induction p as [a | c k IH]; intros r Hq Hr HQ; simpl; [by apply HQ |].
  destruct Hq as [Hc Hk]. intros x r' (r1 & Ho & Hx). apply IH; [done | | done].
  pose proof (stays_rtc _ _ _ _ Hst Ho Hr) as Hr1.
  destruct c; simpl in *; try done; first [by subst | by destruct Hx as [-> _] | by destruct Hx as [_ ->]].
Qed.

Lemma rwp_quiet_step {A B} me P (p : sio A) (f : A -> sio B) r Q :
  stays me P -> quiet p -> P r -> (forall a r, P r -> rwp (srv_step me) (f a) r Q) ->
  rwp (srv_step me) (mbind f p) r Q.
Proof. intros Hst Hp Hr Hf. apply rwp_bind. eapply rwp_quiet; eauto. Qed.

(** One call of a registry's method by the run itself. *)
Lemma rwp_reg me P o r (Q : result unit -> registry -> Prop) :
  stays me P -> P r ->
  (forall r1 r' tr a, P r1 -> ends (exec_op r1 o) tr (r', a) -> Q a r') ->
  rwp (srv_step me) (srv_call (SReg o)) r Q.
Proof.
  intros Hst Hr HQ a r' (r1 & Ho & tr & He). eapply HQ; [| exact He]. by eapply stays_rtc.
Qed.

Lemma finished_over c t : active_status (finished_status c t) = false.
Proof. unfold finished_status. by destruct t, (c =? 0). Qed.

(** The end of a present job, and of an absent one; the registration. *)
Lemma update_finished_lookup me c p t r tr r' a :
  ends (exec_op r (OpUpdateFinished me c p t)) tr (r', a) ->
  (is_Some (r !! me) -> job_over me r') /\ (r !! me = None -> r' !! me = None).
Proof.
  intros He. assert (a = Ok tt) as ->.
  { apply ends_bind_inv in He as (? & ? & ? & _ & He & _). by apply ends_inv in He as [[=] _]. }
  apply exec_op_effect in He. simpl in He. split.
  - intros [j Hj]. rewrite Hj in He. destruct He as (d & ->). eexists. rewrite lookup_insert_eq.
    split; [done |]. unfold finish. case_bool_decide as Hk; [| apply finished_over].
    change (active_status (status j) = false). by rewrite Hk.
  - intros Hn. rewrite Hn in He. by subst.
Qed.

Lemma register_lookup me pid cmd args ctx r tr r' a :
  ends (exec_op r (OpRegister me pid cmd args ctx)) tr (r', a) -> is_Some (r' !! me).
Proof.
  intros He. assert (a = Ok tt) as ->.
  { apply ends_bind_inv in He as (? & ? & ? & _ & He & _). by apply ends_inv in He as [[=] _]. }
  apply exec_op_effect in He as (j & -> & _). rewrite lookup_insert_eq. by eexists.
Qed.

Lemma attach_lookup me cg m p r tr r' a :
  is_Some (r !! me) -> ends (exec_op r (OpAttachCgroup me cg m p)) tr (r', a) -> is_Some (r' !! me).
Proof.
  intros [j Hj] He. apply ends_inv in He as [[= -> _] _]. unfold AttachCgroup. rewrite Hj, lookup_insert_eq.
  by eexists.
Qed.

Section ends_over.
Context `{JSON ExitPayload, JSON StatsPayload, JSON ControlResponse}.

Lemma rwp_run_worker req ctx w r (Q : result unit -> registry -> Prop) :
  r !! w_ID w = None -> (forall ret r', job_over (w_ID w) r' -> Q ret r') ->
  rwp (srv_step (w_ID w)) (run_worker req ctx w) r Q.
Proof.
  intros Hr HQ. unfold run_worker. set (me := w_ID w) in *.
  apply rwp_bind, (rwp_reg me _ _ _ _ (stays_absent me)); [done |].
  intros r1 r2 tr a _ He%register_lookup. clear r r1 Hr tr.
  apply rwp_bind, (rwp_reg me _ _ _ _ (stays_present me)); [done |].
  intros r3 r4 tr b Hr3 He4. apply attach_lookup in He4; [| done].
  eapply rwp_quiet_step; [apply (stays_present me) | | exact He4 |].
  { destruct (req_TTY req); repeat split. }
  intros x r5 Hr5. eapply rwp_quiet_step; [apply (stays_present me) | apply quiet_output | exact Hr5 |].
  intros [] r6 Hr6. unfold finish_run. destruct x.1 as [res|e].
  all: apply rwp_bind, (rwp_reg me _ _ _ _ (stays_present me)); [done |];
    intros r7 r8 tr' c Hr7 He8; apply update_finished_lookup in He8 as [Ho _];
    (eapply rwp_quiet_step; [apply (stays_over me) | apply quiet_fw | by apply Ho |]); intros y r9 Hr9;
    by apply HQ.
Qed.
(** The job of [me] is over or was never there. *)
Definition settled (me : string) (r : registry) : Prop := r !! me = None \/ job_over me r.

Lemma stays_settled me : stays me (settled me).
Proof using.
  clear. intros r r' Hs [Hr | Hr]; [left; by eapply stays_absent | right; by eapply stays_over].
Qed.

(** A call whose answer tells nothing of the registry. *)
Lemma rwp_call_absent me (c : srv) r (Q : ans c -> registry -> Prop) :
  match c with SReg _ | SAcquire _ _ _ _ _ => False | _ => True end ->
  r !! me = None -> (forall a r', r' !! me = None -> Q a r') -> rwp (srv_step me) (srv_call c) r Q.
Proof using.
  clear. intros Hc Hr HQ. eapply (rwp_quiet me (fun r => r !! me = None)); [apply stays_absent | | exact Hr | exact HQ].
  split; [by destruct c | done].
Qed.

Lemma rwp_acquire me mb ms tty cmd net r (Q : result (option Worker) -> registry -> Prop) :
  r !! me = None ->
  (forall a r', r' !! me = None -> match a with Ok (Some w) => w_ID w = me | _ => True end -> Q a r') ->
  rwp (srv_step me) (srv_call (SAcquire mb ms tty cmd net)) r Q.
Proof using.
  clear. intros Hr HQ a r' (r1 & Ho & -> & Ha). apply HQ; [| exact Ha].
  by eapply (stays_rtc _ (fun r => r !! me = None)); [apply stays_absent | exact Ho |].
Qed.

(** A last frame, when the job was never there. *)
Lemma rwp_last_frame {A} me x r (ret : A) :
  r !! me = None ->
  rwp (srv_step me) (do_ fw (WriteExitFrame x);; mret ret) r (fun _ r' => settled me r').
Proof using.
  clear. intros Hr. eapply (rwp_quiet_step me (fun r => r !! me = None));
    [apply stays_absent | apply quiet_fw | exact Hr |]. intros a r' Hr'. by left.
Qed.

Lemma rwp_handleRun me cfg req r :
  r !! me = None -> rwp (srv_step me) (handleRun cfg req) r (fun _ r' => settled me r').
Proof.
  intros Hr. unfold handleRun. cbv zeta. generalize (with_defaults cfg req). clear req. intros req.
  apply rwp_bind, rwp_call_absent; [done | done |]. clear r Hr. intros ctx r Hr.
  apply rwp_defer. eapply rwp_mono with (Q := fun _ r' => settled me r').
  { intros ret r' Hs. by eapply (rwp_quiet me (settled me)); [apply stays_settled | split | |]. }
  apply rwp_bind, rwp_acquire; [done |]. clear r Hr. intros a r Hr Ha.
  destruct a as [[w|]|e]; [subst me | by left | by apply rwp_last_frame].
  destruct (requires_network req).
  2: { apply rwp_run_worker; [done |]. intros ret r' Ho. by right. }
  apply rwp_bind, rwp_call_absent; [done | done |]. clear r Hr. intros [[]|e] r Hr.
  - apply rwp_defer, rwp_run_worker; [done |]. intros ret r' Ho.
    eapply (rwp_quiet _ (settled (w_ID w))); [apply stays_settled | by split | by right |]. done.
  - apply rwp_bind, rwp_call_absent; [done | done |]. clear r Hr. intros [] r Hr.
    eapply rwp_bind, (rwp_reg _ _ _ _ _ (stays_absent (w_ID w))); [done |].
    intros r1 r2 tr b Hr1 He%update_finished_lookup. by apply rwp_last_frame, He.
Qed.

(** A run never leaves a job that looks alive: when the handler of a run returns,
    the registry holds no job under its worker's identifier or one that is over (killed,
    completed, failed or timed out), whatever the other connections do to the registry
    between any two of its steps, control requests for this very job included, as long
    as no other run has the same identifier. *)
Theorem handleRun_job_over me cfg req r ret r' :
  r !! me = None -> exec (srv_step me) (handleRun cfg req) r ret r' ->
  r' !! me = None \/ exists j, r' !! me = Some j /\ active_status (status j) = false.
Proof. intros Hr He. by apply (rwp_exec _ _ _ _ _ _ (rwp_handleRun me cfg req r Hr)) in He. Qed.
End ends_over.

(** ** The stream of statistics *)

Section stats.
Context `{JSON ExitPayload, JSON StatsPayload, JSON ControlResponse}.

(** Samples, then at most one exit frame. *)
Definition stats_stream (ps : list StatsPayload) (last : option ExitPayload) : list byte :=
  concat (map stats_bytes ps) ++ match last with Some x => exit_bytes x | None => [] end.

(** What the daemon has measured: the job's last record, its last cgroup sample, and, for
    each look at the clock, the payload these make. *)
Record sampling := {
  sa_job : option (JobInfo * Z * Z);
  sa_live : option (LiveStats * spec_float);
  sa_taken : list StatsPayload;
}.

Definition nothing_sampled : sampling := {| sa_job := None; sa_live := None; sa_taken := [] |}.

Definition payload_at (id : string) (s : sampling) (now : Z) : list StatsPayload :=
  match sa_job s, sa_live s with
  | Some (_, memLim, procLim), Some (live, pct) => [sample_payload id now memLim procLim live pct]
  | Some (info, memLim, procLim), None => [stopped_payload id now memLim procLim info]
  | None, _ => []
  end.

Definition sampling_mon (id : string) (s : sampling) (c : srv) (r : ans c) : sampling :=
  match c return sans c -> sampling with
  | SGetJob _ => fun j =>
      {| sa_job := match j with Some (info, _, memLim, procLim) => Some (info, memLim, procLim) | None => None end;
         sa_live := None; sa_taken := sa_taken s |}
  | SSample _ => fun a => {| sa_job := sa_job s; sa_live := Some a.1; sa_taken := sa_taken s |}
  | SOs Now => fun now =>
      {| sa_job := sa_job s; sa_live := sa_live s; sa_taken := sa_taken s ++ payload_at id s now |}
  | _ => fun _ => s
  end r.

Definition stats_mon (id : string) := pair_mon reply_mon (sampling_mon id).

(** What was measured is what was sent. *)
Definition streamed (n : nat) (s s' : reply * sampling) : Prop :=
  exists ps last, sends (stats_stream ps last) s.1 s'.1 /\ sa_taken s'.2 = sa_taken s.2 ++ ps /\ (length ps <= n)%nat.

Lemma streamed_last n x s s' : sends (exit_bytes x) s.1 s'.1 -> sa_taken s'.2 = sa_taken s.2 -> streamed n s s'.
Proof. intros Hs E. exists [], (Some x). rewrite app_nil_r. split; [exact Hs | split; [done | simpl; lia]]. Qed.

Lemma streamed_none n s s' : s'.1 = s.1 -> sa_taken s'.2 = sa_taken s.2 -> streamed n s s'.
Proof. intros Es E. exists [], None. rewrite app_nil_r, Es. split; [apply sends_nil | split; [done | simpl; lia]]. Qed.

Definition one_sample (p : StatsPayload) (s s' : reply * sampling) : Prop :=
  sends (stats_bytes p) s.1 s'.1 /\ sa_taken s'.2 = sa_taken s.2 ++ [p].

Lemma streamed_cons n p s1 s2 s3 : one_sample p s1 s2 -> streamed n s2 s3 -> streamed (S n) s1 s3.
Proof.
  intros [Hs E] (ps & last & Hs' & E' & Hn). exists (p :: ps), last.
  split; [| split; [by rewrite E', E, <- app_assoc | simpl; lia]]. unfold stats_stream. cbn [map concat].
  rewrite <- app_assoc. by apply (sends_app _ _ _ _ _ Hs).
Qed.

Lemma neutral_sampling_fw {A} id (p : prog wire A) : neutral (sampling_mon id) (fw p).
Proof using. clear. intros s. unfold fw. revert s. induction p as [a | c k IH]; intros s; [done |]. intros r. apply IH. Qed.

Lemma wp_stats_fw {A} id (p : prog wire A) bs s :
  wp reply_mon (fw p) s.1 (fun s' _ => sends bs s.1 s') ->
  wp (stats_mon id) (fw p) s (fun s' _ => sends bs s.1 s'.1 /\ s'.2 = s.2).
Proof using.
  clear. destruct s as [s t]. intros Hp. unfold stats_mon.
  refine (wp_pair reply_mon (sampling_mon id) (fw p) s t (fun s' _ => sends bs s s') (fun t' _ => t' = t) Hp _).
  apply neutral_sampling_fw.
Qed.

Ltac st_step := wp_step_with ltac:(fun _ => cbn [stats_mon pair_mon reply_mon sampling_mon fst snd]).
Ltac st_write lem := st_step; eapply wp_mono; [| apply wp_stats_fw, lem].
Ltac st_exit := st_write wp_reply_exit;
  let Hs := fresh in let E := fresh in intros ? ? [Hs E]; st_step; eapply streamed_last; [exact Hs | by rewrite E].

(** A turn that goes on sent one sample; the last turn sent what it sent. *)
Lemma wp_stats_tick id s :
  wp (stats_mon id) (stats_tick id) s (fun s' again =>
    if again then exists p, one_sample p s s' else streamed 1 s s').
Proof.
  unfold stats_tick. st_step. st_step. destruct r; [st_step; by apply streamed_none |].
  st_step. st_step. destruct r as [[[[info [cg|]] m] p]|]; [| st_exit | st_exit].
  case_bool_decide; cbn [negb]; [| st_exit].
  st_step. st_step. destruct r as [[live pct] [[]|e]]; [| st_exit].
  st_step. st_step. rename r into now. st_write wp_reply_stats.
  intros s' r [Hs E]. st_step.
  assert (one_sample (sample_payload id now m p live pct) s s') as Ho by (split; [exact Hs | by rewrite E]).
  destruct (is_ok r); [by eexists |]. eapply streamed_cons; [exact Ho | by apply streamed_none].
Qed.

Lemma wp_stats_loop id n s : wp (stats_mon id) (stats_loop n id) s (fun s' _ => streamed n s s').
Proof.
  revert s. induction n as [|n IH]; intros s; [by apply streamed_none |]. cbn [stats_loop].
  st_step. eapply wp_mono; [| apply wp_stats_tick]. intros s1 [|] Hs.
  - destruct Hs as [p Hp]. eapply wp_mono; [| apply IH]. intros s2 fin Hs2. by eapply streamed_cons.
  - st_step. destruct Hs as (ps & last & Hs & E & Hn). exists ps, last. split; [done |]. split; [done | lia].
Qed.

(** The samples taken for a statistics request. *)
Definition samples (id : string) (tr : list (event srv)) : list StatsPayload :=
  sa_taken (mon_trace (sampling_mon id) nothing_sampled tr).

(** What a client that asked for statistics receives while no write fails, whatever the
    registry, the cgroup and the clock answer: the samples that were taken, in order, at
    most [n] of them after [n] turns (one for a job that is not running), then at most one
    exit frame and nothing after it. *)
Theorem handleStatsStream_frames id n tr fin :
  ends (handleStatsStream n id) tr fin ->
  rp_broken (mon_trace reply_mon no_reply tr) = false ->
  exists last, rp_sent (mon_trace reply_mon no_reply tr) = stats_stream (samples id tr) last /\
    (length (samples id tr) <= Nat.max 1 n)%nat.
Proof.
  intros He Hb.
  assert (streamed (Nat.max 1 n) (no_reply, nothing_sampled) (mon_trace (stats_mon id) (no_reply, nothing_sampled) tr)) as Hst.
  { revert He. clear. apply (wp_ends (stats_mon id) _ _ (fun s _ => streamed (Nat.max 1 n) (no_reply, nothing_sampled) s)).
    unfold handleStatsStream. st_step. st_step.
    destruct r as [[[[info cg] m] p]|]; [| st_exit].
    destruct (_ || _).
    - st_step. st_step. rename r into now. st_write wp_reply_stats. intros s1 r1 [Hs1 E1].
      st_write wp_reply_exit. intros s2 r2 [Hs2 E2]. st_step.
      assert (exists k, Nat.max 1 n = S k) as [k ->] by (exists (pred (Nat.max 1 n)); lia).
      eapply (streamed_cons k _ _ s1); [split; [exact Hs1 | by rewrite E1] |].
      eapply streamed_last; [exact Hs2 | by rewrite E2].
    - eapply wp_mono; [| apply wp_stats_loop]. intros s1 r1 (ps & last & Hs & E & Hn).
      exists ps, last. split; [done |]. split; [done | lia]. }
  unfold stats_mon in Hst. rewrite mon_trace_pair in Hst. destruct Hst as (ps & last & [_ Hs] & E & Hn).
  destruct (Hs Hb) as [_ Es]. cbn [fst snd] in *. unfold samples. rewrite E. exists last. by rewrite Es.
Qed.
End stats.

(** ** The terminal's input *)

Definition term_call (fd : Z) (f : Z * list byte) : option os :=
  if f.1 =? StreamStdin then Some (WriteString fd (string_of_list_byte f.2) : os)
  else if f.1 =? StreamResize then
    match ParseWindowSize f.2 with
    | Ok ws => Some (PtySetsize fd (ws_Rows ws) (ws_Cols ws) : os)
    | Err _ => None
    end
  else None.

Lemma handle_input_calls w fd f tr u :
  w_ptyMaster w = Some fd -> ends (handle_input w f) tr u -> calls tr = option_list (term_call fd f).
Proof.
  intros Hw. apply (wp_ends_log _ tr u (fun tr _ => calls tr = _)).
  unfold handle_input, WriteInput, Resize, term_call. rewrite Hw. by wp_steps.
Qed.

Lemma input_calls w fd fs tr u :
  w_ptyMaster w = Some fd -> ends (foldM (fun _ f => handle_input w f) tt fs) tr u ->
  calls tr = omap (term_call fd) fs.
Proof.
  intros Hw. revert tr. induction fs as [|f fs IH]; intros tr He; cbn [foldM] in He.
  - by apply ends_inv in He as [_ ->].
  - apply ends_bind_inv in He as (tr1 & [] & tr2 & Hf & Hfs & ->).
    rewrite calls_app, (handle_input_calls w fd f tr1 tt Hw Hf), (IH _ Hfs). cbn [omap list_omap].
    by destruct (term_call fd f).
Qed.

(** Over the wire: one write for each frame of input, with its bytes, one resize for each
    well-formed size; the rest is ignored. *)
Lemma input_delivers w fd fs e tr u :
  w_ptyMaster w = Some fd -> Forall frame_ok fs ->
  ends (input_loop w (Stream (concat (map frame_bytes fs)) e)) tr u ->
  calls tr = omap (term_call fd) fs.
Proof.
  intros Hw Hfs. unfold input_loop, read_frames. cbn [s_data]. rewrite read_frames_fuel; [| done |].
  - by apply input_calls.
  - pose proof (length_frames fs). lia.
Qed.

(** ** Start *)

(** What taking the lock may do to the system. *)
Definition lock_call (c : os) : Prop :=
  match (c : oscall) with
  | MkdirAll _ _ | OpenFile _ _ _ | Flock _ _ | Truncate _ _ | Seek _ _ | Getpid | WriteString _ _ | CloseFd _ => True
  | _ => False
  end.

Lemma AcquireDaemonLock_calls path tr r :
  ends (AcquireDaemonLock path) tr r -> Forall lock_call (calls tr).
Proof.
  apply (wp_ends_log _ tr r (fun tr _ => Forall lock_call (calls tr))).
  unfold AcquireDaemonLock. wp_steps; unfold log_mon; cbn [calls map app ev_call]; repeat constructor.
Qed.

(** What a configuration asks of the pool and of the socket. *)
Definition started_pool (cfg : DaemonConfig) (p : Pool) : Prop :=
  let workers := WarmWorkers (dc_Pool cfg) in
  let storage := StorageLimitMB (dc_Defaults cfg) in
  (0 < workers -> p_capacity p = workers) /\ (workers <= 0 -> p_capacity p = 2) /\
  (0 < storage -> p_storageLimitMB p = storage) /\ (storage <= 0 -> p_storageLimitMB p = 64).

(** 438 is 0666. *)
Definition started_mode (cfg : DaemonConfig) (mode : Z) : Prop :=
  (SocketMode (dc_Server cfg) <> 0 -> mode = SocketMode (dc_Server cfg)) /\
  (SocketMode (dc_Server cfg) = 0 -> mode = 438).

Definition socket_opened (cfg : DaemonConfig) (mode : Z) : list os :=
  [ListenUnix (SocketPath (dc_Server cfg)) : os; Chmod (SocketPath (dc_Server cfg)) mode : os].

Section starts.
Context `{SliceSort}.
Variable MarshalConfig : Config -> result string.

(** C31: The start of the daemon: without the instance lock nothing is touched but the
    lock file: no sweep, no worker, no socket; with it the daemon keeps the lock.  A start
    that succeeds ends with opening the socket at the configured path and giving it the
    configured mode (0666 when none is configured), and leaves a full open pool of the
    configured number of workers (2 when it is not positive) with the configured storage
    limit (64 MB when it is not positive), and the registry untouched. *)
Theorem Start_spec d tr d' ret :
  ends (Start MarshalConfig d) tr (d', ret) ->
  exists tr1 l tr2, tr = tr1 ++ tr2 /\ ends (AcquireDaemonLock "/var/run/gojaild.pid") tr1 l /\
    Forall lock_call (calls tr1) /\
    match l with
    | Err e => tr2 = [] /\ d' = d /\ ret = Err (WrapErr "daemon start aborted" e)
    | Ok fd =>
        d_lockFile d' = Some fd /\ d_registry d' = d_registry d /\
        (ret = Ok tt -> d_listening d' = true /\
           (exists p, d_pool d' = Some p /\ pool_new p /\ started_pool (d_cfg d) p) /\
           exists pre mode, calls tr2 = pre ++ socket_opened (d_cfg d) mode /\ started_mode (d_cfg d) mode)
    end.
Proof.
  intros He. unfold Start in He. cbv zeta in He.
  apply ends_bind_inv in He as (tr1 & l & tr2 & Hl & He & ->). exists tr1, l, tr2.
  split; [done |]. split; [done |]. split; [by eapply AcquireDaemonLock_calls |].
  destruct l as [fd|e]; [| by apply ends_inv in He as [[= -> ->] ->]].
  apply ends_bind_inv in He as (? & ? & ? & _ & He & ->).
  apply ends_bind_inv in He as (? & ? & ? & _ & He & ->).
  apply ends_bind_inv in He as (? & ? & ? & _ & He & ->).
  apply ends_bind_inv in He as (tr3 & pr & tr4 & Hp & He & ->).
  destruct pr as [pool|e]; [| by apply ends_inv in He as [[= -> ->] ->]].
  destruct (NewPoolWithStorage_full MarshalConfig _ _ _ _ Hp) as (Hnew & Hcap & Hmb).
  assert (started_pool (d_cfg d) pool) as Hsize.
  { revert Hcap Hmb. unfold started_pool, pool_size, storage_limit. repeat case_match; bool_hyps; lia. }
  rewrite !app_assoc. match goal with |- context [calls (?t ++ tr4)] => set (pre := t); clearbody pre end.
  revert He. apply (wp_ends_log _ tr4 (d', ret) (fun tr4 x => d_lockFile x.1 = Some fd /\
    d_registry x.1 = d_registry d /\ (x.2 = Ok tt -> d_listening x.1 = true /\
      (exists p, d_pool x.1 = Some p /\ pool_new p /\ started_pool (d_cfg d) p) /\
      exists pre' mode, calls (pre ++ tr4) = pre' ++ socket_opened (d_cfg d) mode /\ started_mode (d_cfg d) mode))).
  assert (started_mode (d_cfg d) (socket_mode (d_cfg d))) as Hmode.
  { unfold started_mode, socket_mode. destruct (Z.eqb_spec (SocketMode (dc_Server (d_cfg d))) 0); by split. }
  wp_steps; cbn [fst snd d_lockFile d_registry d_listening d_pool]; (split; [done |]; split; [done |]; intros [=]).
  all: split; [done |]; split; [by exists pool |].
  all: unfold log_mon, calls; rewrite map_app; cbn [app map ev_call].
  all: eexists (_ ++ [_; _]), _; split; [rewrite <- app_assoc; reflexivity | exact Hmode].
Qed.
End starts.

(** ** Concrete runs *)

#[local] Instance spec_float_eq_dec : EqDecision spec_float.
Proof. solve_decision. Defined.

#[local] Instance spec_float_countable : Countable spec_float.
Proof.
  refine (inj_countable'
    (fun x => match x with
              | S754_zero b => inl (inl b) | S754_infinity b => inl (inr b)
              | S754_nan => inr (inl tt) | S754_finite b m e => inr (inr (b, m, e)) end)
    (fun y => match y with
              | inl (inl b) => S754_zero b | inl (inr b) => S754_infinity b
              | inr (inl _) => S754_nan | inr (inr (b, m, e)) => S754_finite b m e end) _).
  by intros [].
Defined.

#[local] Instance StatsPayload_eq_dec : EqDecision StatsPayload.
Proof. solve_decision. Defined.

#[local] Instance StatsPayload_countable : Countable StatsPayload.
Proof.
  refine (inj_countable'
    (fun x => (st_ContainerID x, ((st_Timestamp x, st_MemoryBytes x, (st_MemoryLimitBytes x, st_PeakMemoryBytes x)),
               (st_CPUUsageUS x, st_CPUPercent x, (st_PIDsCurrent x, st_PIDsLimit x)))))
    (fun '(a, ((b, c, (d, e)), (f, g, (h, i)))) => Build_StatsPayload a b c d e f g h i) _).
  by intros [].
Defined.

#[local] Instance JobInfo_eq_dec : EqDecision JobInfo.
Proof. solve_decision. Defined.

#[local] Instance JobInfo_countable : Countable JobInfo.
Proof.
  refine (inj_countable'
    (fun x => (job_ID x, job_PID x, job_Command x, job_Args x, job_Status x, job_StartTime x,
               job_Duration x, job_PeakMemoryBytes x, job_ExitCode x))
    (fun '(a, b, c, d, e, f, g, h, i) => Build_JobInfo a b c d e f g h i) _).
  by intros [].
Defined.

#[local] Instance ControlResponse_eq_dec : EqDecision ControlResponse.
Proof. solve_decision. Defined.

#[local] Instance ControlResponse_countable : Countable ControlResponse.
Proof.
  refine (inj_countable' (fun x => (resp_Success x, resp_Error x, resp_Jobs x))
    (fun '(a, b, c) => Build_ControlResponse a b c) _).
  by intros [].
Defined.

#[local] Instance exit_json : JSON ExitPayload := countable_json ExitPayload.
#[local] Instance stats_json : JSON StatsPayload := countable_json StatsPayload.
#[local] Instance response_json : JSON ControlResponse := countable_json ControlResponse.

Definition demo_request (action : string) (tty : bool) : Request :=
  {| req_Action := action; req_TargetID := "warm-0"; req_Command := "/bin/sh"; req_Args := ["-c"; "echo hi"];
     req_Env := []; req_Timeout := 0; req_MemoryLimitBytes := 0; req_MaxProcesses := 0;
     req_StorageLimitMB := 0; req_Mounts := []; req_TTY := tty; req_SeccompProfile := "";
     req_NetworkMode := "bridge"; req_PortMappings := []; req_DNSServers := [] |}.

Definition demo_result : Result :=
  {| res_ExitCode := 3; res_Stdout := ""; res_Stderr := ""; res_Duration := 9; res_TimedOut := false;
     res_Metrics := no_metrics |}.

(** A cooperative daemon: every acquisition gives [demo_worker]; the registry is real. *)
Definition ok_srv (req : Request) : handler srv registry := fun c r =>
  match c return sans c * registry with
  | SOs c => (fst (ok_os c tt), r)
  | SDecode => (Ok req, r)
  | SWrite _ | SCloseConn | SSetupNet _ _ _ _ _ => (Ok tt, r)
  | SReg o => let '(r', a) := res ok_os (exec_op r o) tt in (a, r')
  | SWithTimeout _ => (7, r)
  | SList => (res ok_os (Registry.List (map_to_list r)) tt, r)
  | SGetJob id => (GetJob r id, r)
  | SSample _ => ({| MemoryCurrentBytes := 1; MemoryPeakBytes := 2; CPUUsageUS := 3; PIDsCurrent := 4 |},
                  S754_zero false, Ok tt, r)
  | STick => (false, r)
  | SAcquire _ _ _ _ _ => (Ok (Some demo_worker), r)
  | SNetCleanup _ _ | SDestroy _ | SGoInput _ => (tt, r)
  | SExecutePTY _ _ | SExecuteStream _ _ _ => (Ok demo_result, [(4, "hi"); (5, "oops")], r)
  end.

Abbreviation demo_conn := (handleConnection DefaultConfig 3).
Abbreviation demo_srv := (ok_srv (demo_request "run" false)).

Lemma demo_decoded :
  trace demo_srv demo_conn ∅ = Ev (SDecode : srv) (Ok (demo_request "run" false)) :: tail (trace demo_srv demo_conn ∅).
Proof. reflexivity. Qed.

Lemma demo_ends :
  ends demo_conn (Ev (SDecode : srv) (Ok (demo_request "run" false)) :: tail (trace demo_srv demo_conn ∅))
    (res demo_srv demo_conn ∅).
Proof. rewrite <- demo_decoded. apply run_ends. Qed.

Definition demo_out : list (Z * string) := [(4, "hi"); (5, "oops")].

(** The worker of the run has pipes: the streams are told apart. *)
Definition pipe_worker : Worker :=
  {| w_ID := "warm-0"; w_StorageMB := 64; w_rootPath := "/run/gojail/layers/warm-0/merged"; w_cmd := 100;
     w_stdin := Some 3; w_stdoutR := Some 4; w_stderrR := Some 5; w_cgroup := demo_cg;
     w_overlay := Overlay.layer "warm-0" 64; w_ptyMaster := None |}.

Definition pipe_srv : handler srv registry := fun c r =>
  match c return sans c * registry with
  | SAcquire _ _ _ _ _ => (Ok (Some pipe_worker), r)
  | c => ok_srv (demo_request "run" false) c r
  end.

Abbreviation pipe_run := (handleConnection DefaultConfig 0).

Lemma pipe_ends :
  ends pipe_run (Ev (SDecode : srv) (Ok (demo_request "run" false)) :: tail (trace pipe_srv pipe_run (∅ : registry))) (Ok tt).
Proof.
  pose proof (run_ends pipe_srv pipe_run (∅ : registry)) as He.
  replace (res pipe_srv pipe_run (∅ : registry)) with (Ok tt : result unit) in He by reflexivity.
  exact He.
Qed.

(** A daemon whose pool has no worker to give. *)
Definition poor_srv : handler srv registry := fun c r =>
  match c return sans c * registry with
  | SAcquire _ _ _ _ _ => (Err (NewErr "no space"), r)
  | c => demo_srv c r
  end.

Lemma handleConnection_reply_witness :
  rp_sent (mon_trace reply_mon no_reply (tail (trace pipe_srv pipe_run (∅ : registry)))) =
    frame_bytes (1, [x68; x69]) ++ frame_bytes (2, [x6f; x6f; x70; x73]) ++
    exit_bytes {| exit_ExitCode := 3; exit_Duration := 9; exit_TimedOut := false; exit_Metrics := no_metrics;
                  exit_Error := "" |} /\
  rp_sent (mon_trace reply_mon no_reply (tail (trace poor_srv pipe_run (∅ : registry)))) =
    exit_bytes (failed_payload "worker acquire failed: no space").
Proof.
  split.
  - pose proof (handleConnection_reply DefaultConfig 0 (demo_request "run" false)
      (tail (trace pipe_srv pipe_run (∅ : registry))) (Ok tt) eq_refl pipe_ends eq_refl eq_refl) as Hr.
    destruct Hr as (_ & fs & Hfs & Hsent). rewrite Hsent. clear Hsent.
    apply Forall2_cons_inv_l in Hfs as ([t1 b1] & fs1 & [Eb1 Ht1] & Hfs & ->).
    apply Forall2_cons_inv_l in Hfs as ([t2 b2] & fs2 & [Eb2 Ht2] & Hfs & ->).
    apply Forall2_nil_inv_l in Hfs as ->. cbn in Eb1, Eb2, Ht1, Ht2. subst b1 b2.
    assert (t1 = 1) as -> by (destruct Ht1 as [[[_ [=]] _] | [_ E]]; exact E).
    assert (t2 = 2) as -> by (destruct Ht2 as [[_ E] | [Hn _]]; [exact E | exfalso; by apply Hn]).
    vm_compute. reflexivity.
  - assert (trace poor_srv pipe_run (∅ : registry) =
            Ev (SDecode : srv) (Ok (demo_request "run" false)) :: tail (trace poor_srv pipe_run (∅ : registry))) as E by reflexivity.
    pose proof (run_ends poor_srv pipe_run (∅ : registry)) as He. rewrite E in He.
    exact (handleConnection_reply DefaultConfig 0 (demo_request "run" false)
      (tail (trace poor_srv pipe_run (∅ : registry))) (Ok tt) eq_refl He eq_refl eq_refl).
Defined.

Lemma handleConnection_releases_witness :
  cycle_post DefaultConfig (demo_request "run" false)
    (mon_trace cycle_mon no_cycle (tail (trace demo_srv demo_conn ∅))) (res demo_srv demo_conn ∅).
Proof. apply (handleConnection_releases DefaultConfig 3); [reflexivity | apply demo_ends]. Defined.

Lemma demo_srv_step c r : srv_step "warm-0" r c (demo_srv c r).1 (demo_srv c r).2.
Proof.
  exists r. split; [constructor |]. destruct c; try done.
  - cbn. destruct (res ok_os (exec_op r o) tt) as [r' a] eqn:E. exists (trace ok_os (exec_op r o) tt).
    pose proof (run_ends ok_os (exec_op r o) tt) as Hr. rewrite E in Hr. exact Hr.
  - cbn. split; [done |]. exists (map_to_list r), (trace ok_os (Registry.List (map_to_list r)) tt).
    split; [done | apply run_ends].
Qed.

Lemma handleRun_job_over_witness :
  exists j, final demo_srv (handleRun DefaultConfig (demo_request "run" false)) ∅ !! "warm-0" = Some j /\
    active_status (status j) = false.
Proof.
  destruct (handleRun_job_over "warm-0" DefaultConfig (demo_request "run" false) ∅
    (res demo_srv (handleRun DefaultConfig (demo_request "run" false)) ∅)
    (final demo_srv (handleRun DefaultConfig (demo_request "run" false)) ∅)) as [Hn | Hj].
  - done.
  - apply exec_run. apply demo_srv_step.
  - exfalso. revert Hn. vm_compute. discriminate.
  - exact Hj.
Defined.

(** A configuration that differs from the defaults in all three. *)
Definition demo_daemon_config : DaemonConfig :=
  {| dc_Server := {| SocketPath := "/tmp/jail.sock"; SocketMode := 384 |};
     dc_Pool := {| WarmWorkers := 3 |};
     dc_Defaults := {| MemoryLimitMB := 128; MaxProcesses := 32; TimeoutSec := 10; StorageLimitMB := 100 |};
     dc_Storage := dc_Storage DefaultConfig |}.

Abbreviation demo_start := (Start Pool.demo_config (NewDaemon (Some demo_daemon_config))).

Lemma Start_spec_witness :
  exists fd p pre, d_lockFile (res ok_os demo_start tt).1 = Some fd /\ d_pool (res ok_os demo_start tt).1 = Some p /\
    p_capacity p = 3 /\ p_storageLimitMB p = 100 /\
    calls (trace ok_os demo_start tt) = pre ++ [ListenUnix "/tmp/jail.sock" : os; Chmod "/tmp/jail.sock" 384 : os].
Proof.
  destruct (Start_spec Pool.demo_config (NewDaemon (Some demo_daemon_config)) (trace ok_os demo_start tt)
    (res ok_os demo_start tt).1 (res ok_os demo_start tt).2) as (tr1 & l & tr2 & E & Hl & _ & Hpost).
  - rewrite <- surjective_pairing. apply run_ends.
  - destruct l as [fd|e].
    + destruct Hpost as (Hfd & _ & Hok). destruct Hok as (_ & (p & Hp & _ & Hc & _ & Hs & _) & pre & mode & Epre & Hm & _);
        [vm_compute; reflexivity |].
      assert (mode = 384) as -> by (apply Hm; discriminate).
      exists fd, p, (calls tr1 ++ pre). split; [exact Hfd |]. split; [exact Hp |]. split; [by apply Hc |].
      split; [by apply Hs |]. rewrite E. unfold calls in *. rewrite map_app, Epre. by rewrite app_assoc.
    + destruct Hpost as (_ & _ & Hr). exfalso. revert Hr. vm_compute. discriminate.
Defined.

(** When the socket cannot be opened, the start fails and the pool's workers stay: their
    processes are neither killed nor waited for. *)
Definition no_listen_os : handler os unit := fun c w =>
  match c return osans c * unit with
  | ListenUnix _ => (Err (SysErr EACCES "listen"), w)
  | c => ok_os c w
  end.

Example Start_leaves_workers :
  let p := Start Pool.demo_config (NewDaemon None) in
  is_ok (snd (res no_listen_os p tt)) = false /\
  rs_procs (mon_trace res_mon no_resources (trace no_listen_os p tt)) <> [].
Proof. vm_compute. split; [done | discriminate]. Qed.

(** A run that arrives when the pool was closed panics. *)
Definition closed_srv : handler srv registry := fun c r =>
  match c return sans c * registry with
  | SAcquire _ _ _ _ _ => (Ok None, r)
  | c => demo_srv c r
  end.

Example handleRun_panics :
  res closed_srv (handleRun DefaultConfig (demo_request "run" false)) ∅ = Err nil_deref.
Proof. reflexivity. Qed.
