(* ===== verification/Locking.v ===== *)
(** * One daemon at a time

    [AcquireDaemonLock] (src/pkg/server/recovery.go) run by several processes at once,
    over a kernel that knows what the lock file, open files and flock are.  The processes
    take turns at every system call. *)

From stdpp Require Import relations.
From S2P Require Import Prelude GoStrings GoPath Effects OS Recovery Server.
#[local] Open Scope go_scope.

(** ** The kernel *)

Definition lock_path : string := "/var/run/gojaild.pid".

(** The inode the path names, the next free inode, the open files of each process, and
    the open file that holds the exclusive lock of an inode. *)
Record locks := {
  lk_file : option nat;
  lk_next : nat;
  lk_fds : gmap (nat * Z) nat;
  lk_owner : gmap nat (nat * Z);
}.

Definition fresh_locks : locks := {| lk_file := None; lk_next := 0; lk_fds := ∅; lk_owner := ∅ |}.

Definition opened_at (w : locks) : nat := default (lk_next w) (lk_file w).

Definition opened (i : nat) (fd : Z) (w : locks) : locks :=
  {| lk_file := Some (opened_at w); lk_next := S (Nat.max (lk_next w) (opened_at w));
     lk_fds := <[(i, fd) := opened_at w]> (lk_fds w); lk_owner := lk_owner w |}.

Definition locked (ino : nat) (k : nat * Z) (w : locks) : locks :=
  {| lk_file := lk_file w; lk_next := lk_next w; lk_fds := lk_fds w;
     lk_owner := <[ino := k]> (lk_owner w) |}.

Definition unlocked (k : nat * Z) (w : locks) : locks :=
  {| lk_file := lk_file w; lk_next := lk_next w; lk_fds := lk_fds w;
     lk_owner := filter (fun '(_, k') => k' <> k) (lk_owner w) |}.

(** Closing an open file lets its lock go. *)
Definition closed (k : nat * Z) (w : locks) : locks :=
  {| lk_file := lk_file w; lk_next := lk_next w; lk_fds := delete k (lk_fds w);
     lk_owner := filter (fun '(_, k') => k' <> k) (lk_owner w) |}.

Definition unlinked (w : locks) : locks :=
  {| lk_file := None; lk_next := lk_next w; lk_fds := lk_fds w; lk_owner := lk_owner w |}.

(** What process [i]'s system call may answer, and what it does: any call may fail, and
    the calls that are not listed have nothing to do with the lock.  The lock of the model
    is the exclusive one: a shared one gives nothing and keeps nobody out. *)
Definition kernel (i : nat) (w : locks) (c : os) : ans c -> locks -> Prop :=
  match c return osans c -> locks -> Prop with
  | OpenFile p _ _ => fun r w' =>
      match r with
      | Ok fd => if bool_decide (p = lock_path) then lk_fds w !! (i, fd) = None /\ w' = opened i fd w else w' = w
      | Err _ => w' = w
      end
  | Flock fd op => fun r w' =>
      match r with
      | Ok _ =>
          if exclusive op then
            exists ino, lk_fds w !! (i, fd) = Some ino /\
              (lk_owner w !! ino = None \/ lk_owner w !! ino = Some (i, fd)) /\ w' = locked ino (i, fd) w
          else w' = unlocked (i, fd) w
      | Err _ => w' = w
      end
  | CloseFd fd => fun _ w' => w' = closed (i, fd) w
  | Remove p => fun r w' =>
      w' = if bool_decide (p = lock_path) && is_ok r then unlinked w else w
  | _ => fun _ w' => w' = w
  end.

(** ** What processes may rely on *)

(** Every open lock file is the file the path names. *)
Definition one_file (w : locks) : Prop :=
  forall k ino, lk_fds w !! k = Some ino -> lk_file w = Some ino.

(** The others leave a process's open files and its lock alone. *)
Record undisturbed (i : nat) (w w' : locks) : Prop := {
  un_file : one_file w -> one_file w';
  un_fds fd : lk_fds w' !! (i, fd) = lk_fds w !! (i, fd);
  un_owner ino fd : lk_owner w !! ino = Some (i, fd) -> lk_owner w' !! ino = Some (i, fd);
}.

Lemma undisturbed_refl i w : undisturbed i w w.
Proof. by split. Qed.

Lemma undisturbed_trans i w1 w2 w3 : undisturbed i w1 w2 -> undisturbed i w2 w3 -> undisturbed i w1 w3.
Proof. intros [A1 B1 C1] [A2 B2 C2]. split; [tauto | intros; by rewrite B2, B1 | auto]. Qed.

Lemma guar_same i w : guar undisturbed i w w.
Proof. intros j _. apply undisturbed_refl. Qed.

Lemma guar_opened i fd w : lk_fds w !! (i, fd) = None -> guar undisturbed i w (opened i fd w).
Proof.
  intros Hfd j Hj. split; simpl; [| intros fd'; by rewrite lookup_insert_ne by congruence | done].
  intros H1 k ino Hk. simpl in *. destruct (decide (k = (i, fd))) as [-> | Hne].
  - rewrite lookup_insert_eq in Hk. congruence.
  - rewrite lookup_insert_ne in Hk by congruence. unfold opened_at. by rewrite (H1 k ino Hk).
Qed.

Lemma guar_locked i fd ino w :
  lk_owner w !! ino = None \/ lk_owner w !! ino = Some (i, fd) ->
  guar undisturbed i w (locked ino (i, fd) w).
Proof.
  intros Ho j Hj. split; [done | done |]. intros ino' fd' Hown. simpl.
  destruct (decide (ino' = ino)) as [-> | Hne]; [| by rewrite lookup_insert_ne].
  destruct Ho as [Ho | Ho]; congruence.
Qed.

Lemma guar_closed i fd w : guar undisturbed i w (closed (i, fd) w).
Proof.
  intros j Hj. split; simpl.
  - intros H1 k ino Hk. simpl in *. apply (H1 k). by apply lookup_delete_Some in Hk as [_ Hk].
  - intros fd'. by rewrite lookup_delete_ne by congruence.
  - intros ino fd' Hown. apply map_lookup_filter_Some. split; [done | congruence].
Qed.

(** Process [i] holds the lock through [fd]. *)
Definition holds (i : nat) (r : result Z) (w : locks) : Prop :=
  one_file w /\
  forall fd, r = Ok fd -> exists ino, lk_fds w !! (i, fd) = Some ino /\ lk_owner w !! ino = Some (i, fd).

Lemma holds_stable i r w w' : undisturbed i w w' -> holds i r w -> holds i r w'.
Proof.
  intros [Hf Hfds Ho] [H1 H2]. split; [auto |]. intros fd ->.
  destruct (H2 fd eq_refl) as (ino & Hk & Hown). exists ino. split; [by rewrite Hfds | auto].
Qed.

(** ** Mutual exclusion *)

Lemma tsafe_sys {B} i (c : os) (f : ans c -> io B) w Q :
  (forall w1, undisturbed i w w1 -> forall r w2, kernel i w1 c r w2 ->
     guar undisturbed i w1 w2 /\ tsafe kernel undisturbed i (f r) w2 Q) ->
  tsafe kernel undisturbed i (mbind f (sys c)) w Q.
Proof. exact id. Qed.

Ltac lock_step :=
  apply tsafe_sys; let w1 := fresh "w1" in let Hw := fresh "Hw" in let r := fresh "r" in
  let w2 := fresh "w2" in let Hs := fresh "Hs" in
  intros w1 Hw r w2 Hs; simpl in r, Hs.

(** A failure after the opening. *)
Lemma close_safe i fd e w :
  one_file w -> tsafe kernel undisturbed i (do_ sys (CloseFd fd);; mret (Err e)) w (holds i).
Proof.
  intros H0. lock_step. subst w2. split; [apply guar_closed |]. destruct Hw as [Hf _ _].
  split; [| done]. intros k ino Hk. simpl in *. apply lookup_delete_Some in Hk as [_ Hk]. by eapply Hf.
Qed.

(** A call that leaves the lock alone, while it is held. *)
Lemma held_safe i fd (c : os) (f : ans c -> io (result Z)) w Q :
  (forall w1 r w2, kernel i w1 c r w2 -> w2 = w1) -> holds i (Ok fd) w ->
  (forall r w1, holds i (Ok fd) w1 -> tsafe kernel undisturbed i (f r) w1 Q) ->
  tsafe kernel undisturbed i (mbind f (sys c)) w Q.
Proof.
  intros Hc Hh Hf. lock_step. apply Hc in Hs as ->. split; [apply guar_same |].
  apply Hf. by eapply holds_stable.
Qed.

Lemma acquire_safe i w : one_file w -> tsafe kernel undisturbed i (AcquireDaemonLock lock_path) w (holds i).
Proof.
  intros H0. unfold AcquireDaemonLock. cbv zeta. rewrite bool_decide_false by done.
  lock_step. destruct Hw as [Hf _ _]. specialize (Hf H0). subst w2. split; [apply guar_same |].
  destruct r as [[]|e]; [| by split]. clear w H0. rename w1 into w.
  lock_step. destruct Hw as [Hf' _ _]. specialize (Hf' Hf). clear Hf w.
  destruct r as [fd|e]; [| subst w2; split; [apply guar_same | by split]].
  destruct Hs as [Hfd ->]. pose proof (guar_opened i fd w1 Hfd) as Hg. split; [done |].
  assert (one_file (opened i fd w1)) as H1 by by apply (un_file (S i) _ _ (Hg (S i) ltac:(lia))).
  lock_step. destruct Hw as [Hf _ _]. specialize (Hf H1).
  destruct r as [[]|e]; [| subst w2; split; [apply guar_same | by apply close_safe]].
  destruct Hs as (ino & Hino & Hown & ->). split; [by apply guar_locked |].
  assert (holds i (Ok fd) (locked ino (i, fd) w0)) as Hh.
  { split; [done |]. intros fd' [= <-]. exists ino. split; [done |]. apply lookup_insert_eq. }
  clear - Hh. revert Hh. generalize (locked ino (i, fd) w0). clear. intros w Hh.
  apply (held_safe i fd); [by intros ???-> | done |]. clear w Hh. intros [[]|e] w Hh; [| apply close_safe, Hh].
  apply (held_safe i fd); [by intros ???-> | done |]. clear w Hh. intros [[]|e] w Hh; [| apply close_safe, Hh].
  apply (held_safe i fd); [by intros ???-> | done |]. clear w Hh. intros pid w Hh.
  apply (held_safe i fd); [by intros ???-> | done |]. clear w Hh. intros [[]|e] w Hh; [done | apply close_safe, Hh].
Qed.

(** C11: However many processes try to become the daemon at once, and however their system
    calls are interleaved and fail, at most one of them gets the lock. *)
Theorem one_daemon n ps w i j fi fj :
  rtc (tstep kernel) (replicate n (AcquireDaemonLock lock_path), fresh_locks) (ps, w) ->
  ps !! i = Some (Ret (Ok fi)) -> ps !! j = Some (Ret (Ok fj)) -> i = j.
Proof.
  intros Hr Hi Hj.
  assert (all_safe kernel undisturbed holds (ps, w)) as Hs.
  { refine (proj1 (threads_safe kernel undisturbed undisturbed_refl undisturbed_trans holds _ _ _ _ Hr)).
    - intros k a w1 w2. apply holds_stable.
    - intros k p [-> _]%lookup_replicate. apply acquire_safe. by intros k' ino Hk. }
  destruct (Hs i _ Hi) as [H1 H2], (Hs j _ Hj) as [_ H3].
  destruct (H2 fi eq_refl) as (ino & Hf & Ho), (H3 fj eq_refl) as (ino' & Hf' & Ho').
  apply H1 in Hf, Hf'. congruence.
Qed.

(** ** Concrete schedules *)

(** A kernel that lets every call succeed that can. *)
Definition answer (i : nat) (w : locks) (c : os) : option (ans c * locks) :=
  match c return option (osans c * locks) with
  | OpenFile p _ _ =>
      if bool_decide (p = lock_path)
      then match lk_fds w !! (i, 3) with None => Some (Ok 3, opened i 3 w) | Some _ => None end
      else Some (Ok 3, w)
  | Flock fd op =>
      if exclusive op
      then match lk_fds w !! (i, fd) with
           | Some ino => match lk_owner w !! ino with
                         | None => Some (Ok tt, locked ino (i, fd) w)
                         | Some _ => Some (Err (SysErr EWOULDBLOCK ""), w)
                         end
           | None => None
           end
      else Some (Ok tt, unlocked (i, fd) w)
  | CloseFd fd => Some (Ok tt, closed (i, fd) w)
  | Remove p => Some (Ok tt, if bool_decide (p = lock_path) then unlinked w else w)
  | c => Some ((ok_os c tt).1, w)
  end.

Lemma answer_kernel i w c r w' : answer i w c = Some (r, w') -> kernel i w c r w'.
Proof.
  destruct c; simpl; intros H; repeat case_match; simplify_eq/=; rewrite ?andb_true_r; try done; eauto.
Qed.

Abbreviation schedule := (Effects.schedule answer).

Lemma kernel_schedule {A} ts (c c' : list (io A) * locks) :
  schedule ts c = Some c' -> rtc (tstep kernel) c c'.
Proof. apply Effects.schedule_steps, answer_kernel. Qed.

(** The second of two processes finds the lock held. *)
Definition two_daemons : list nat := repeat 0%nat 7 ++ repeat 1%nat 4.

Definition both : list (io (result Z)) * locks :=
  (replicate 2 (AcquireDaemonLock lock_path), fresh_locks).

Example second_daemon_refused :
  (fun c => (returned 0 c, is_ok <$> returned 1 c)) <$> schedule two_daemons both = Some (Some (Ok 3), Some false).
Proof. vm_compute. reflexivity. Qed.

Lemma one_daemon_witness :
  exists c, rtc (tstep kernel) both c /\ returned 0 c = Some (Ok 3) /\ returned 1 c <> Some (Ok 3).
Proof.
  assert (returned 0 <$> schedule two_daemons both = Some (Some (Ok 3))) as H by (vm_compute; reflexivity).
  destruct (schedule two_daemons both) as [[ps w]|] eqn:E; [| done]. injection H as H.
  pose proof (kernel_schedule two_daemons both _ E) as Hr.
  exists (ps, w). split; [exact Hr |]. split; [exact H |]. intros H1.
  apply returned_lookup in H, H1. discriminate (one_daemon 2 ps w 0 1 3 3 Hr H H1).
Defined.

(** A daemon that has stopped. *)
Definition starts_and_stops : io (result Z) :=
  let? fd := AcquireDaemonLock lock_path onerr e => mret (Err e) in
  do_ release_lock fd;;
  mret (Err Canceled).

(** [Stop] removes the path of the lock file after it has let the lock go: a process that
    locked the file in between keeps its lock on a file without a name, and the next one
    makes a new file and gets a lock of its own. *)
Example Stop_admits_two :
  exists c, rtc (tstep kernel)
      ([starts_and_stops; AcquireDaemonLock lock_path; AcquireDaemonLock lock_path], fresh_locks) c /\
    returned 1 c = Some (Ok 3) /\ returned 2 c = Some (Ok 3).
Proof.
  pose (sched := repeat 0%nat 7 ++ repeat 1%nat 2 ++ [0%nat] ++ repeat 1%nat 5 ++ repeat 0%nat 2 ++ repeat 2%nat 7).
  pose (start := ([starts_and_stops; AcquireDaemonLock lock_path; AcquireDaemonLock lock_path], fresh_locks)).
  assert ((fun c => (returned 1 c, returned 2 c)) <$> schedule sched start = Some (Some (Ok 3), Some (Ok 3)))
    as H by (vm_compute; reflexivity).
  destruct (schedule sched start) as [c|] eqn:E; [| done]. injection H as H1 H2.
  exists c. split; [exact (kernel_schedule sched start c E) | exact (conj H1 H2)].
Qed.
