(* ===== verification/System.v ===== *)
(** * The daemon's runs, all the way down

    The handler of a run (src/pkg/server/server.go) linked to the pool, the workers, the
    network manager and the address allocator it calls: one program of system calls,
    frames and registry operations, and what it holds of the system when it ends; and the
    life of a daemon, from the making of its pool to the close. *)

From S2P Require Import Prelude GoStrings GoStrconv GoPath Effects OS SandboxConfig Protocol Cgroup Registry.
From S2P Require Import GoNet Ipam Dns Network Overlay Resources Pool DaemonConfig Server.
#[local] Open Scope go_scope.

(** ** What is held at each point *)

(** Directories that no run owns. *)
Definition shared_dir (d : string) : Prop := d = defaultCgroupRoot \/ d = DefaultStateDir.

(** A worker as [spawnWorker] makes them. *)
Definition worker_shape (w : Worker) : Prop :=
  (exists id mb, plain id /\ w_overlay w = layer id mb) /\ w_rootPath w = om_mergedDir (w_overlay w).

Definition mount_of (w : Worker) (m : string) : Prop :=
  m = om_mergedDir (w_overlay w) \/ m = om_baseDir (w_overlay w).

Definition dir_of (w : Worker) (d : string) : Prop :=
  d = cg_cgroupPath (w_cgroup w) \/ inside (om_baseDir (w_overlay w)) d = true.

(** Of mounts, processes and directories nothing is held (made, and not asked to go) but
    what the workers [ws] hold: every one of them, but the shared directories, is one of
    theirs.  Descriptors, leases
    and veth pairs are not of this account: [Pool.worker_ready] and
    [Pool.nothing_left] account for a spawn's descriptors, [Network.given_back] for leases
    and veth pairs. *)
Record held (ws : list Worker) (s : resources) : Prop := {
  held_shape w : w ∈ ws -> worker_shape w;
  held_mounts m : m ∈ rs_mounts s -> exists w, w ∈ ws /\ mount_of w m;
  held_procs p : p ∈ rs_procs s -> exists w, w ∈ ws /\ p = w_cmd w;
  held_dirs d : d ∈ rs_dirs s -> shared_dir d \/ exists w, w ∈ ws /\ dir_of w d;
}.

(** No mount, no process and no directory of a worker. *)
Definition idle (s : resources) : Prop :=
  rs_mounts s = [] /\ rs_procs s = [] /\ forall d, d ∈ rs_dirs s -> shared_dir d.

Lemma held_nil s : held [] s <-> idle s.
Proof.
  split.
  - intros [_ Hm Hp Hd]. split; [| split].
    + destruct (rs_mounts s) as [|m l]; [done |]. by destruct (Hm m ltac:(by left)) as (w & ?%elem_of_nil & _).
    + destruct (rs_procs s) as [|p l]; [done |]. by destruct (Hp p ltac:(by left)) as (w & ?%elem_of_nil & _).
    + intros d Hin. destruct (Hd d Hin) as [? | (w & ?%elem_of_nil & _)]; done.
  - intros (Hm & Hp & Hd). split.
    + by intros w ?%elem_of_nil.
    + rewrite Hm. by intros m ?%elem_of_nil.
    + rewrite Hp. by intros p ?%elem_of_nil.
    + intros d Hin. left. by apply Hd.
Qed.

Lemma held_weaken ws ws' s : (forall w, w ∈ ws -> w ∈ ws') -> (forall w, w ∈ ws' -> worker_shape w) ->
  held ws s -> held ws' s.
Proof.
  intros Hi Hsh [_ Hm Hp Hd]. split; [done | | |].
  - intros m (w & Hw & ?)%Hm. eauto.
  - intros p (w & Hw & ?)%Hp. eauto.
  - intros d [? | (w & Hw & ?)]%Hd; [by left | right; eauto].
Qed.

Lemma held_perm ws ws' s : ws ≡ₚ ws' -> held ws s -> held ws' s.
Proof.
  intros E Hh. apply (held_weaken ws); [| | done]; intros w.
  - by rewrite E.
  - rewrite <- E. apply (held_shape _ _ Hh).
Qed.

(** Giving a worker back. *)
Lemma released_held w ws s s' : released w s s' -> held (w :: ws) s -> held ws s'.
Proof.
  intros (Hm' & Hd' & Hp') [Hsh Hm Hp Hd]. split.
  - intros w' Hw'. apply Hsh. by right.
  - intros m. rewrite Hm'. unfold without. intros [Hb [Ha Hin]%list_elem_of_filter]%list_elem_of_filter.
    destruct (Hm m Hin) as (w' & [-> | Hw']%elem_of_cons & Ho); [by destruct Ho | eauto].
  - intros p. rewrite Hp'. unfold without. intros [Ha Hin]%list_elem_of_filter.
    destruct (Hp p Hin) as (w' & [-> | Hw']%elem_of_cons & Ho); [done | eauto].
  - intros d. rewrite Hd'. unfold without_tree, without.
    intros [Hout [Hne Hin]%list_elem_of_filter]%list_elem_of_filter.
    destruct (Hd d Hin) as [Hs | (w' & [-> | Hw']%elem_of_cons & Ho)]; [by left | | right; eauto].
    destruct Ho as [-> | Hi]; [done | congruence].
Qed.

(** ** The rest of the system does not matter *)

(** [s'] holds at most what [s] holds and what the frame [f] holds. *)
Definition framed (f s s' : resources) : Prop :=
  (forall m, m ∈ rs_mounts s' -> m ∈ rs_mounts s \/ m ∈ rs_mounts f) /\
  (forall p, p ∈ rs_procs s' -> p ∈ rs_procs s \/ p ∈ rs_procs f) /\
  (forall d, d ∈ rs_dirs s' -> d ∈ rs_dirs s \/ d ∈ rs_dirs f).

Lemma without_framed {A} `{EqDecision A} (x : A) (l l' f : list A) :
  (forall y, y ∈ l' -> y ∈ l \/ y ∈ f) -> forall y, y ∈ without x l' -> y ∈ without x l \/ y ∈ f.
Proof.
  unfold without. intros Hl y [Hne Hin]%list_elem_of_filter. destruct (Hl y Hin); [left | by right].
  by apply list_elem_of_filter.
Qed.

Lemma without_tree_framed root (l l' f : list string) :
  (forall y, y ∈ l' -> y ∈ l \/ y ∈ f) -> forall y, y ∈ without_tree root l' -> y ∈ without_tree root l \/ y ∈ f.
Proof.
  unfold without_tree. intros Hl y [Hne Hin]%list_elem_of_filter. destruct (Hl y Hin); [left | by right].
  by apply list_elem_of_filter.
Qed.

Lemma cons_framed {A} (x : A) (l l' f : list A) :
  (forall y, y ∈ l' -> y ∈ l \/ y ∈ f) -> forall y, y ∈ x :: l' -> y ∈ x :: l \/ y ∈ f.
Proof. intros Hl y. rewrite !elem_of_cons. intros [-> | Hin%Hl]; tauto. Qed.

Lemma framed_step f s s' (c : os) (r : ans c) : framed f s s' -> framed f (res_mon s c r) (res_mon s' c r).
Proof.
  intros (Hm & Hp & Hd). destruct c; simpl in *; repeat case_match; try done;
    repeat split; try assumption; unfold with_mounts, with_dirs, with_fds, with_procs, with_writes; simpl;
    first [by apply cons_framed | by apply without_framed | by apply without_tree_framed].
Qed.

(** What a program does on an empty system it does next to anything else. *)
Lemma wp_framed {A} (p : io A) f s s' Q :
  framed f s s' -> wp res_mon p s Q -> wp res_mon p s' (fun s2' a => exists s2, Q s2 a /\ framed f s2 s2').
Proof.
  revert s s'. induction p as [a | c k IH]; intros s s' Hf Hp; simpl in *; [by exists s |].
  intros r. apply (IH r (res_mon s c r)); [by apply framed_step | apply Hp].
Qed.

Lemma framed_start s : framed s no_resources s.
Proof. repeat split; auto. Qed.

(** Spawning a worker next to others. *)
Lemma spawn_held ws isTTY s s2 s' r :
  held ws s -> spawn_result isTTY s2 r -> framed s s2 s' ->
  match r with Ok w => held (w :: ws) s' | Err _ => held ws s' end.
Proof.
  intros Hh Hr (Hm & Hp & Hd). destruct r as [w|e].
  - destruct Hr as (id & mb & wr & Hid & Hov & Hcg & Hroot & ->). split.
    + intros w' [-> | Hw']%elem_of_cons; [split; eauto | by apply (held_shape _ _ Hh)].
    + intros m [Hin | Hin]%Hm.
      * exists w. split; [by left |]. cbn [spawned wrote with_writes with_procs with_fds with_dirs with_mounts rs_mounts] in Hin.
        rewrite !elem_of_cons, elem_of_nil in Hin. unfold mount_of. tauto.
      * destruct (held_mounts _ _ Hh m Hin) as (w' & Hw' & Ho). exists w'. split; [by right | done].
    + intros p [Hin | Hin]%Hp.
      * exists w. split; [by left |]. cbn in Hin. rewrite elem_of_cons, elem_of_nil in Hin. tauto.
      * destruct (held_procs _ _ Hh p Hin) as (w' & Hw' & Ho). exists w'. split; [by right | done].
    + intros d [Hin | Hin]%Hd.
      * revert Hin. intros [-> | [-> | Hin]%elem_of_cons]%elem_of_cons.
        -- right. exists w. split; [by left |]. by left.
        -- left; by left.
        -- right. exists w. split; [by left |]. right. rewrite Hov in *. by apply layer_dirs in Hin.
      * destruct (held_dirs _ _ Hh d Hin) as [? | (w' & Hw' & Ho)]; [by left |].
        right. exists w'. split; [by right | done].
  - destruct Hr as (Hm0 & _ & Hp0 & Hd0). rewrite Hm0 in Hm. rewrite Hp0 in Hp. destruct Hh as [Hsh Hmh Hph Hdh]. split; [done | | |].
    + intros m [?%elem_of_nil | Hin]%Hm; [done | auto].
    + intros p [?%elem_of_nil | Hin]%Hp; [done | auto].
    + intros d [Hin | Hin]%Hd; [left; left | auto]. by eapply Forall_forall in Hd0.
Qed.

Section system.
Context `{IpamJSON, JSON ExitPayload, JSON StatsPayload, JSON ControlResponse}.
Variables (netlink_ParseAddr : string -> result string) (MarshalConfig : Config -> result string).

(** The pool as it is when the run acquires its worker. *)
Variable pool : Pool.

Definition link_run (c : srv) : sio (ans c) :=
  match c return sio (sans c) with
  | SAcquire mb mounts isTTY cmd net =>
      r ← lift_os (AcquireCustom MarshalConfig pool mb mounts isTTY cmd net);
      mret r.1
  | c => link_worker netlink_ParseAddr c
  end.

(** The pool's idle workers once a run has acquired its own: a warm one when the request
    allows it, else one spawned for it. *)
Definition storage_of (mb : Z) : Z := if mb <=? 0 then p_storageLimitMB pool else mb.

Definition pool_after (mb : Z) (mounts : list MountSpec) (isTTY net : bool) : Pool :=
  if warm_fits pool (storage_of mb) mounts isTTY net then (take_worker pool).2 else pool.

Lemma wp_spawn_held mb mounts isTTY cmd ws s :
  held ws s -> wp res_mon (spawnWorker MarshalConfig mb mounts isTTY cmd) s (fun s' r =>
    match r with Ok w => held (w :: ws) s' | Err _ => held ws s' end).
Proof.
  intros Hh. eapply wp_mono; [| apply (wp_framed _ s no_resources); [apply framed_start | apply wp_spawnWorker]].
  intros s' r (s2 & Hr & Hf). by eapply spawn_held.
Qed.

(** ** What the network manager touches *)

(** No mount, no process, and only directories with [P]. *)
Definition quiet (P : string -> Prop) (c : os) : Prop :=
  match (c : oscall) with
  | Mount _ _ _ _ _ | Unmount _ _ | StartCmd _ _ _ | PtyStart _ _ | KillProcess _ | WaitProcess _
  | WaitOrDone _ _ => False
  | MkdirAll d _ => P d
  | _ => True
  end.

Definition net_quiet (P : string -> Prop) (c : net) : Prop :=
  match (c : netcall) with NOs c => quiet P c | _ => True end.

(** What a quiet program keeps. *)
Definition kept (P : string -> Prop) (s s' : resources) : Prop :=
  rs_mounts s' = rs_mounts s /\ rs_procs s' = rs_procs s /\
  forall d, d ∈ rs_dirs s' -> d ∈ rs_dirs s \/ P d.

Lemma quiet_kept P s0 s c r : quiet P c -> kept P s0 s -> kept P s0 (res_mon s c r).
Proof.
  intros Hq (Hm & Hp & Hd). destruct c; simpl in *; try done; repeat case_match;
    try (split; [done | split; [done | try done]]; simpl; unfold without, without_tree;
         intros d; rewrite ?list_elem_of_filter; try intros [_ Hin]; auto; fail).
  split; [done | split; [done |]]. simpl. intros d [-> | Hin]%elem_of_cons; auto.
Qed.

Lemma wp_quiet {A} P (p : io A) s : only (quiet P) p -> wp res_mon p s (fun s' _ => kept P s s').
Proof.
  intros Hp. apply (wp_only (quiet P) res_mon (kept P s)); [| done | by repeat split; auto].
  intros s' c r. apply quiet_kept.
Qed.

Lemma link_ipam_quiet (P : string -> Prop) (c : net) :
  P DefaultStateDir -> net_quiet P c -> only (quiet P) (link_ipam NewManager c).
Proof.
  intros HP Hc. destruct c as [c | cid | cid | cid]; cbn [link_ipam].
  - by split.
  - unfold AllocateIP, withLock, loadState, saveState. only_steps; exact HP.
  - unfold ReleaseIP, withLock, loadState, saveState. only_steps; exact HP.
  - unfold GetIP, withLock, loadState. only_steps; exact HP.
Qed.

Lemma only_lift_net {A} P (p : io A) : only (quiet P) p -> only (net_quiet P) (lift p).
Proof using. clear. apply only_translate. by intros c Hc; split. Qed.

Lemma NetCleanup_quiet P cid pms : only (net_quiet P) (NetCleanup cid pms).
Proof using. clear. unfold NetCleanup, removePortForwarding, ignore. only_steps. Qed.

Lemma only_seq P (ps : list (nio unit)) : Forall (only (net_quiet P)) ps -> only (net_quiet P) (seq_ ps).
Proof using. clear. induction 1 as [|p ps Hp _ IH]; [done |]. simpl. by only_step. Qed.

Lemma Setup_quiet P m cid pid root pms dns :
  P (PathJoin [root; "etc"]) ->
  only (net_quiet P) (SetupContainerNetwork netlink_ParseAddr m cid pid root pms dns).
Proof using.
  clear. intros HP. unfold SetupContainerNetwork, EnsureBridge, configureInNetns, applyPortForwarding,
    apply_mapping, ignore. cbv zeta. only_steps.
  - apply only_seq. repeat constructor; unfold iptables, write_proc, ignore; only_steps.
  - apply only_lift_net. unfold InjectResolvConf, ResolveDNSList, parseHostResolvConf. only_steps. exact HP.
Qed.

(** A container's /etc is in its layer. *)
Lemma etc_inside id mb : plain id ->
  inside (om_baseDir (layer id mb)) (PathJoin [om_mergedDir (layer id mb); "etc"]) = true.
Proof using.
  clear. intros Hid. destruct (layer_paths id mb Hid) as (-> & _ & _ & ->).
  pose proof (PathJoin_plain ["run"; "gojail"; "layers"; id; "merged"] "etc") as E.
  change ("/" +:+ Join ["run"; "gojail"; "layers"; id; "merged"] "/") with
    ("/run/gojail/layers/" +:+ id +:+ "/merged") in E.
  rewrite E; [| | done | done].
  - assert ((("/run/gojail/layers/" +:+ id +:+ "/merged") +:+ "/" +:+ "etc") =
            ("/run/gojail/layers/" +:+ id) +:+ "/" +:+ "merged/etc") as -> by by rewrite !app_str_assoc.
    apply inside_app.
  - repeat (constructor; [done |]). constructor.
Qed.

(** ** The calls of a run, and what they hold *)

Definition sys_res_mon (s : resources) (c : srv) (r : ans c) : resources :=
  match c return sans c -> resources with
  | SOs c => fun r => res_mon s c r
  | _ => fun _ => s
  end r.

Lemma wp_lift_os {A} (p : io A) s Q : wp res_mon p s Q -> wp sys_res_mon (lift_os p) s Q.
Proof using. clear. unfold lift_os. apply wp_translate. by intros s' c r. Qed.

(** What an acquisition does to what is held. *)
Definition acquire_spec : Type :=
  Z -> list MountSpec -> bool -> bool -> resources -> result (option Worker) -> resources -> Prop.

(** What each call of a run does to what is held. *)
Definition run_call (acq : acquire_spec) (s : resources) (c : srv) : ans c -> resources -> Prop :=
  match c return sans c -> resources -> Prop with
  | SOs c => fun r s' => s' = res_mon s c r
  | SAcquire mb mounts isTTY cmd net => acq mb mounts isTTY net s
  | SSetupNet cid pid root pms dns => fun r s' =>
      forall w ws, held (w :: ws) s -> root = w_rootPath w -> held (w :: ws) s'
  | SNetCleanup cid pms => fun _ s' => forall ws, held ws s -> held ws s'
  | SDestroy w | SExecutePTY w _ | SExecuteStream w _ _ => fun _ s' => forall ws, held (w :: ws) s -> held ws s'
  | _ => fun _ s' => s' = s
  end.

(** The acquisition from a pool nobody else uses. *)
Definition acquire_alone : acquire_spec := fun mb mounts isTTY net s r s' =>
  held (p_workers pool) s ->
  match r with
  | Ok (Some w) => held (w :: p_workers (pool_after mb mounts isTTY net)) s'
  | _ => held (p_workers (pool_after mb mounts isTTY net)) s'
  end.

(** A part of a program that holds for every answer holds whatever else is known. *)
Lemma wp_forall {A T} (p : io A) s (Q : T -> resources -> A -> Prop) :
  (forall t, wp res_mon p s (Q t)) -> wp res_mon p s (fun s' a => forall t, Q t s' a).
Proof using. clear. revert s. induction p as [a | c k IH]; intros s Hp; simpl in *; [done |]. intros r. apply IH. intros t. apply Hp. Qed.

Lemma wp_implied {A} (P : Prop) (p : io A) s (Q : resources -> A -> Prop) :
  (P -> wp res_mon p s Q) -> wp res_mon p s (fun s' a => P -> Q s' a).
Proof using. clear. revert s. induction p as [a | c k IH]; intros s Hp; simpl in *; [done |]. intros r. apply IH. intros HP. by apply Hp. Qed.

Lemma run_call_acquire mb mounts isTTY cmd net s :
  wp sys_res_mon (link_run (SAcquire mb mounts isTTY cmd net)) s
    (fun s' r => run_call acquire_alone s (SAcquire mb mounts isTTY cmd net) r s').
Proof.
  cbn [link_run run_call]. unfold acquire_alone. wp_step. apply wp_lift_os.
  eapply wp_mono with (Q := fun s' x => held (p_workers pool) s ->
    match x.1 with
    | Ok (Some w) => held (w :: p_workers (pool_after mb mounts isTTY net)) s'
    | _ => held (p_workers (pool_after mb mounts isTTY net)) s'
    end); [intros s' x Hx; by wp_step |].
  apply wp_implied. intros Hh. unfold AcquireCustom, pool_after, storage_of. set (mb' := if mb <=? 0 then _ else mb).
  assert (forall ms tty c, wp res_mon
            (r ← spawnWorker MarshalConfig mb' ms tty c;
             mret (match r with Ok w => Ok (Some w) | Err e => Err e end, pool)) s
            (fun s' (x : result (option Worker) * Pool) => match x.1 with
               | Ok (Some w) => held (w :: p_workers pool) s' | _ => held (p_workers pool) s' end)) as Hsp.
  { intros ms tty c. wp_step. eapply wp_mono; [| by apply wp_spawn_held]. intros s' [w|e] Hr; by wp_step. }
  destruct (warm_fits pool mb' mounts isTTY net); [| apply Hsp].
  unfold take_worker. destruct (p_workers pool) as [|w ws] eqn:Hw.
  - destruct (p_closed pool); cbn [fst snd p_workers]; [by wp_step |]. rewrite Hw. apply Hsp.
  - cbn [fst snd p_workers]. by wp_step.
Qed.

(** The network manager writes nothing of a worker's but below its root. *)
Lemma kept_held ws P s s' : kept P s s' ->
  (forall d, P d -> shared_dir d \/ exists w, w ∈ ws /\ dir_of w d) -> held ws s -> held ws s'.
Proof using.
  clear. intros (Hm & Hp & Hd) HP [Hsh Hmh Hph Hdh]. split; [done | by rewrite Hm | by rewrite Hp |].
  intros d [Hin | HPd]%Hd; auto.
Qed.

Definition is_acquire (c : srv) : bool := match (c : scall) with SAcquire _ _ _ _ _ => true | _ => false end.

Lemma link_worker_spec acq s c : is_acquire c = false ->
  wp sys_res_mon (link_worker netlink_ParseAddr c) s (fun s' r => run_call acq s c r s').
Proof using.
  intros Hc. destruct c; try done; try (by intros r); cbn [link_worker].
  - apply wp_lift_os. eapply wp_mono; [| apply (wp_quiet (fun d => shared_dir d \/ d = PathJoin [root; "etc"]))].
    + intros s' r Hk w ws Hh ->. eapply kept_held; [exact Hk | | exact Hh].
      destruct (held_shape _ _ Hh w ltac:(by left)) as ((id & mb & Hid & Hov) & Hroot).
      intros d [Hs | ->]; [by left |]. right. exists w. split; [by left |]. right. rewrite Hroot, Hov. by apply etc_inside.
    + apply (only_translate (net_quiet (fun d => shared_dir d \/ d = PathJoin [root; "etc"])));
        [| apply Setup_quiet; by right].
      intros c' Hc'. apply link_ipam_quiet; [left; by right | done].
  - apply wp_lift_os. eapply wp_mono; [| apply (wp_quiet shared_dir)].
    + intros s' r Hk ws Hh. eapply kept_held; [exact Hk | | exact Hh]. intros d Hd. by left.
    + apply (only_translate (net_quiet shared_dir)); [| apply NetCleanup_quiet].
      intros c' Hc'. apply link_ipam_quiet; [by right | done].
  - apply wp_lift_os. eapply wp_mono; [| apply wp_Destroy]. intros s' r Hr ws Hh. exact (released_held _ _ _ _ Hr Hh).
  - apply wp_lift_os. eapply wp_mono; [| apply wp_ExecutePTY]. intros s' r Hr ws Hh. exact (released_held _ _ _ _ Hr Hh).
  - apply wp_lift_os. eapply wp_mono; [| apply wp_ExecuteStream]. intros s' r Hr ws Hh. exact (released_held _ _ _ _ Hr Hh).
Qed.

Lemma link_run_spec s c : wp sys_res_mon (link_run c) s (fun s' r => run_call acquire_alone s c r s').
Proof.
  destruct (is_acquire c) eqn:Hc; [destruct c; try done; apply run_call_acquire |].
  replace (link_run c) with (link_worker netlink_ParseAddr c) by (by destruct c).
  by apply link_worker_spec.
Qed.

(** ** The handler *)

Ltac call_step :=
  rwp_step; let r := fresh "r" in let s := fresh "s" in let Hs := fresh "Hs" in
  intros r s Hs; cbn [rwp]; cbv beta; cbn [run_call] in Hs.

Lemma call_frames {A} acq (p : prog wire A) s : rwp (run_call acq) (fw p) s (fun _ s' => s' = s).
Proof using. clear. induction p as [a | c k IH]; simpl; [done |]. intros r s' ->. apply IH. Qed.

Lemma call_output acq tty w out s : rwp (run_call acq) (send_output tty w out) s (fun _ s' => s' = s).
Proof using.
  clear. unfold send_output. induction out as [|c out IH]; [done |]. cbn [foldM]. rwp_step. rwp_step.
  eapply rwp_mono; [| apply call_frames]. intros x s' ->. by rwp_step.
Qed.

Lemma call_finish acq w x s : rwp (run_call acq) (finish_run w x) s (fun _ s' => s' = s).
Proof using.
  clear -H0. unfold finish_run. destruct x as [res|e]; rwp_step; rwp_step; simpl in Hs; subst; rwp_step;
    (eapply rwp_mono; [| apply call_frames]); intros a s' ->; by rwp_step.
Qed.

(** Executing the worker gives it back. *)
Lemma call_worker acq req ctx w ws s :
  held (w :: ws) s -> rwp (run_call acq) (run_worker req ctx w) s (fun _ s' => held ws s').
Proof using.
  clear -H0. intros Ha. unfold run_worker. call_step. subst. call_step. subst.
  rwp_step. eapply rwp_mono with (Q := fun _ s' => held ws s').
  - intros [x out] s3 Hi. rwp_step. eapply rwp_mono; [| apply call_output]. intros u s4 ->.
    eapply rwp_mono; [| apply call_finish]. by intros u' s5 ->.
  - destruct (req_TTY req); [call_step; subst |]; intros x s4 Hx; by apply Hx.
Qed.

(** A run gives back the worker it acquires, wherever it comes from. *)
Lemma call_handleRun (acq : acquire_spec) cfg req ws s :
  (forall r s', acq (req_StorageLimitMB (with_defaults cfg req)) (req_Mounts req) (req_TTY req)
                  (requires_network req) s r s' ->
     match r with Ok (Some w) => held (w :: ws) s' | _ => held ws s' end) ->
  rwp (run_call acq) (handleRun cfg req) s (fun _ s' => held ws s').
Proof using.
  clear -H0. intros Hacq. unfold handleRun. cbv zeta. call_step. subst. rename r into ctx. rwp_step.
  eapply rwp_mono with (Q := fun _ s' => held ws s').
  { intros a s1 Hs r s' ->. destruct Hs as [Hsh Hm Hp Hd]. by split. }
  call_step. apply Hacq in Hs. clear Hacq.
  change (requires_network (with_defaults cfg req)) with (requires_network req) in *.
  destruct r as [[w|]|e].
  - destruct (requires_network req); [| by apply call_worker].
    call_step. pose proof (Hs0 w ws Hs eq_refl) as Ha. destruct r as [[]|e].
    + rwp_step. eapply rwp_mono; [| by apply call_worker]. intros a s2 Hi r s3 Hc. by apply Hc.
    + call_step. pose proof (Hs1 ws Ha) as Hi. call_step. subst.
      rwp_step. eapply rwp_mono; [| apply call_frames]. by intros a s4 ->.
  - exact Hs.
  - rwp_step. eapply rwp_mono; [| apply call_frames]. by intros a s1 ->.
Qed.

(** The pool's idle workers after the acquisition of a request. *)
Definition pool_for (cfg : DaemonConfig) (req : Request) : Pool :=
  pool_after (req_StorageLimitMB (with_defaults cfg req)) (req_Mounts req) (req_TTY req) (requires_network req).

Lemma run_holds cfg req s :
  held (p_workers pool) s ->
  wp sys_res_mon (translate link_run (handleRun cfg req)) s (fun s' _ => held (p_workers (pool_for cfg req)) s').
Proof.
  intros Hh. apply (wp_translate_spec (run_call acquire_alone)); [apply link_run_spec |].
  apply call_handleRun. intros r s' Hr. by apply Hr.
Qed.

(** A run of the daemon leaves nothing behind: when the handler of a run returns, linked
    to the pool, the worker's code, the network manager and the allocator, and whatever
    the system answers to each of their calls, every mount, every process and every
    directory that was made and that no call was made to remove or kill, but the two
    directories that all runs share, is one of a worker that was idle in the pool before
    the run and still is.  It covers warm workers
    and workers spawned for the run, and every path: a spawn, a network set-up or an
    execution that fails, a timed-out or a stopped run, and a pool that was closed. *)
Theorem run_leaves_nothing cfg req s tr ret :
  held (p_workers pool) s ->
  ends (translate link_run (handleRun cfg req)) tr ret ->
  held (p_workers (pool_for cfg req)) (mon_trace sys_res_mon s tr).
Proof. intros Hh. apply (wp_ends sys_res_mon _ _ (fun s _ => held _ s)). by apply run_holds. Qed.
End system.

(** ** The life of a daemon

    The pool is made, runs are handled, replacements are spawned and the pool is closed,
    in any order, each with any answers of the system; [life p s] says that the pool can
    be [p] while the system holds [s].  A run's handler, a replacement and a close are
    taken one after the other here; [Goroutines] has them all at once, and [Shutdown]
    shows that no more is held then. *)

Section life.
Context `{IpamJSON, JSON ExitPayload, JSON StatsPayload, JSON ControlResponse}.
Variables (netlink_ParseAddr : string -> result string) (MarshalConfig : Config -> result string).

Definition spawned_opt (r : result Worker) : option Worker := match r with Ok w => Some w | Err _ => None end.

Inductive life : Pool -> resources -> Prop :=
| life_start capacity mb tr p :
    ends (NewPoolWithStorage MarshalConfig capacity mb) tr (Ok p) -> life p (mon_trace res_mon no_resources tr)
| life_run p s cfg req tr ret :
    life p s -> ends (translate (link_run netlink_ParseAddr MarshalConfig p) (handleRun cfg req)) tr ret ->
    life (pool_for p cfg req) (mon_trace sys_res_mon s tr)
| life_replenish p s p1 tr r p2 :
    life p s -> pool_step p AReplenish = Next p1 -> p_mu p1 = Replenishing ->
    ends (spawnWorker MarshalConfig (p_storageLimitMB p) [] false []) tr r ->
    pool_step p1 (ASpawned (spawned_opt r)) = Next p2 -> life p2 (mon_trace res_mon s tr)
| life_late p s p1 :
    life p s -> pool_step p AReplenish = Next p1 -> p_closed p = true -> life p1 s
| life_close p s tr p' :
    life p s -> ends (Close p) tr p' -> life p' (mon_trace res_mon s tr).

Lemma wp_close_worker w s : wp res_mon (close_worker w) s (fun s' _ => released w s s').
Proof using.
  clear. unfold close_worker. res_step. eapply wp_mono; [| apply wp_Thaw_held]. intros s1 a H1. cbv beta.
  res_step. apply (wp_kill_stopped w s); [by left |]. intros s2 H2. split; [| intros e]; by apply wp_drop_worker.
Qed.

Lemma wp_close_all ws rest s :
  held (ws ++ rest) s -> wp res_mon (foldM (fun _ w => close_worker w) tt ws) s (fun s' _ => held rest s').
Proof using.
  clear. revert s. induction ws as [|w ws IH]; intros s Hh; cbn [foldM]; [done |]. wp_step.
  eapply wp_mono; [| apply wp_close_worker]. intros s1 [] Hr. apply IH. exact (released_held _ _ _ _ Hr Hh).
Qed.

Lemma wp_prefill n mb ws s :
  held ws s -> wp res_mon (prefill MarshalConfig n mb ws) s (fun s' x => held x.2 s').
Proof using.
  clear. revert ws s. induction n as [|n IH]; intros ws s Hh; cbn [prefill]; [done |]. wp_step.
  eapply wp_mono; [| by apply wp_spawn_held]. intros s1 [w|e] Hr; cbv beta iota; [| by wp_step].
  apply IH. eapply held_perm; [| exact Hr]. apply Permutation_cons_append.
Qed.

(** A pool that cannot be filled takes the workers it had down again. *)
Lemma wp_NewPoolWithStorage capacity mb :
  wp res_mon (NewPoolWithStorage MarshalConfig capacity mb) no_resources (fun s r =>
    match r with Ok p => held (p_workers p) s /\ p_closed p = false | Err _ => idle s end).
Proof using.
  clear. unfold NewPoolWithStorage. cbv zeta. wp_step. eapply wp_mono; [| apply wp_prefill, held_nil].
  2: { split; [done | split; [done |]]. by intros d ?%elem_of_nil. }
  intros s [[e|] ws] Hh; cbn [fst snd] in *; [| by wp_step].
  wp_step. eapply wp_mono; [| apply (wp_close_all ws []); by rewrite app_nil_r].
  intros s1 [] Hn. wp_step. by apply held_nil.
Qed.

Lemma pool_for_closed p cfg req : (p_closed p = true -> p_workers p = []) ->
  p_closed (pool_for p cfg req) = true -> p_workers (pool_for p cfg req) = [].
Proof using.
  clear. intros Hp. unfold pool_for, pool_after. destruct (warm_fits _ _ _ _ _); [| exact Hp].
  unfold take_worker. destruct (p_workers p) as [|w ws] eqn:Hw; [destruct (p_closed p) eqn:E; cbn [snd p_workers p_closed]; [done | congruence] |].
  cbn [snd p_closed p_workers]. intros Hc. by apply Hp in Hc.
Qed.

Lemma life_inv p s : life p s -> held (p_workers p) s /\ (p_closed p = true -> p_workers p = []).
Proof.
  induction 1 as [capacity mb tr p He | p s cfg req tr ret _ [Hh Hc] He | p s p1 tr r p2 _ [Hh Hc] E1 Hmu He E2
                 | p s p1 _ [Hh Hc] E1 Hcl | p s tr p' _ [Hh Hc] He].
  - pose proof (wp_ends res_mon _ _ _ _ _ (wp_NewPoolWithStorage capacity mb) He) as [Hh Hc]. split; [done | congruence].
  - split; [exact (run_leaves_nothing _ _ p cfg req s tr ret Hh He) | by apply pool_for_closed].
  - pose proof (wp_ends res_mon _ _ _ _ _ (wp_spawn_held MarshalConfig _ _ _ _ _ _ Hh) He) as Hr. cbv beta in Hr.
    unfold pool_step in E1. destruct (p_mu p); try done. destruct (p_pending p) as [|k]; [done |].
    destruct (p_closed p); [by injection E1 as <- |]. injection E1 as <-. cbn in E2.
    destruct r as [w|e]; cbn [spawned_opt] in E2; [destruct (_ <=? _); [done |] |]; injection E2 as <-;
      cbn [set_mu p_workers p_closed]; (split; [| done]); [| exact Hr].
    eapply held_perm; [| exact Hr]. apply Permutation_cons_append.
  - unfold pool_step in E1. destruct (p_mu p); try done. destruct (p_pending p) as [|k]; [done |].
    rewrite Hcl in E1. injection E1 as <-. cbn [set_mu p_workers p_closed]. by auto.
  - assert (held (p_workers p') (mon_trace res_mon s tr) /\ (p_closed p' = true -> p_workers p' = [])); [| done].
    revert He. apply (wp_ends res_mon _ s (fun s' p' => held (p_workers p') s' /\ (p_closed p' = true -> p_workers p' = []))).
    unfold Close. destruct (p_closed p) eqn:Hcl; [wp_step; split; [exact Hh | intros _; by apply Hc] |]. wp_step.
    eapply wp_mono; [| apply (wp_close_all (p_workers p) []); by rewrite app_nil_r]. intros s1 [] Hn. by wp_step.
Qed.

(** The daemon leaves nothing behind.  Whatever runs it handles, with warm workers or
    workers spawned for them, whatever replacements it spawns, and whatever the system
    answers to any call of the pool, the workers, the network manager or the allocator:
    between them every mount, every process and every directory that was made and that no
    call was made to remove or kill, but two directories that all runs share, is one of a
    worker idle in the pool; and once the pool is closed there is none.  It covers every path of a run: a spawn, a
    network set-up or an execution that fails, a timed-out or a stopped run, a run that
    comes after the pool was closed. *)
Theorem daemon_leaves_nothing p s :
  life p s -> held (p_workers p) s /\ (p_closed p = true -> idle s).
Proof.
  intros Hl. destruct (life_inv p s Hl) as [Hh Hc]. split; [done |]. intros Hcl.
  apply held_nil. by rewrite (Hc Hcl) in Hh.
Qed.
End life.

(** ** A concrete daemon *)

#[local] Instance run_ipam_json : IpamJSON := plain_ipam_json.
#[local] Instance run_exit_json : JSON ExitPayload := countable_json ExitPayload.

(** A pool of two, an interactive run with a worker of its own, a batch run with a warm
    one, its replacement, and the end; every call succeeds. *)
Abbreviation start_prog := (NewPoolWithStorage demo_config 2 64).
Definition pool0 : Pool := match res ok_os start_prog tt with Ok p => p | Err _ => demo_pool end.

(** A batch request that a warm worker can serve. *)
Definition warm_request : Request :=
  {| req_Action := "run"; req_TargetID := ""; req_Command := "/bin/sh"; req_Args := ["-c"; "echo hi"];
     req_Env := []; req_Timeout := 0; req_MemoryLimitBytes := 0; req_MaxProcesses := 0;
     req_StorageLimitMB := 0; req_Mounts := []; req_TTY := false; req_SeccompProfile := "";
     req_NetworkMode := "none"; req_PortMappings := []; req_DNSServers := [] |}.

Definition linked_run (p : Pool) (req : Request) : sio (result unit) :=
  translate (link_run Ok demo_config p) (handleRun DefaultConfig req).
Abbreviation run_trace p req := (trace (ok_srv req) (linked_run p req) (∅ : registry)).
Abbreviation tty_request := (demo_request "run" true).

Definition pool1 : Pool := pool_for pool0 DefaultConfig tty_request.
Definition pool2 : Pool := pool_for pool1 DefaultConfig warm_request.
Definition pool3 : Pool := match pool_step pool2 AReplenish with Next p => p | _ => pool2 end.
Abbreviation respawn := (spawnWorker demo_config (p_storageLimitMB pool2) [] false []).
Definition pool4 : Pool :=
  match pool_step pool3 (ASpawned (spawned_opt (res ok_os respawn tt))) with Next p => p | _ => pool3 end.

(** The whole of it: the traces, in order. *)
Definition state1 : resources := mon_trace res_mon no_resources (trace ok_os start_prog tt).
Definition state2 : resources := mon_trace sys_res_mon state1 (run_trace pool0 tty_request).
Definition state3 : resources := mon_trace sys_res_mon state2 (run_trace pool1 warm_request).
Definition state4 : resources := mon_trace res_mon state3 (trace ok_os respawn tt).
Definition state5 : resources := mon_trace res_mon state4 (trace ok_os (Close pool4) tt).

Lemma demo_life : life Ok demo_config (res ok_os (Close pool4) tt) state5.
Proof.
  unfold state5. apply (life_close _ _ pool4); [| apply run_ends].
  unfold state4. apply (life_replenish _ _ pool2 _ pool3 _ (res ok_os respawn tt)); [| reflexivity | reflexivity | apply run_ends | reflexivity].
  unfold state3. apply (life_run _ _ pool1 _ _ _ _ (res (ok_srv warm_request) (linked_run pool1 warm_request) (∅ : registry)));
    [| apply run_ends].
  unfold state2. apply (life_run _ _ pool0 _ _ _ _ (res (ok_srv tty_request) (linked_run pool0 tty_request) (∅ : registry)));
    [| apply run_ends].
  unfold state1. apply (life_start _ _ 2 64).
  replace (Ok pool0) with (res ok_os start_prog tt) by reflexivity. apply run_ends.
Qed.

Lemma daemon_leaves_nothing_witness :
  rs_procs state4 <> [] /\ length (p_workers pool4) = 2%nat /\ idle state5.
Proof.
  split; [vm_compute; discriminate |]. split; [vm_compute; reflexivity |].
  destruct (daemon_leaves_nothing Ok demo_config (res ok_os (Close pool4) tt) state5 demo_life) as [_ Hi].
  apply Hi. vm_compute. reflexivity.
Defined.

Lemma run_leaves_nothing_witness :
  let tr := run_trace pool0 tty_request in
  (20 < length tr)%nat /\ held (p_workers pool1) (mon_trace sys_res_mon state1 tr).
Proof.
  intros tr. split; [apply Nat.ltb_lt; vm_compute; reflexivity |].
  apply (run_leaves_nothing Ok demo_config pool0 DefaultConfig tty_request state1 tr
           (res (ok_srv tty_request) (linked_run pool0 tty_request) (∅ : registry))).
  - apply (life_inv Ok demo_config pool0 state1). unfold state1. apply (life_start _ _ 2 64).
    replace (Ok pool0) with (res ok_os start_prog tt) by reflexivity. apply run_ends.
  - apply run_ends.
Defined.
