(* ===== verification/Ownership.v ===== *)
(** * Programs that own a part of a shared state

    A thread among others is judged by its own share of the state: what it must have
    before a call, and what the call does to its share.  [owned p g Q]: a thread that has
    the share [g] may make each call that [p] makes, whatever it is answered, and ends
    with [Q]. *)

From stdpp Require Import relations.
From S2P Require Import Prelude Effects.

Section owned.
Context {S : sig} {G : Type} (pre : G -> S -> Prop) (gstep : G -> forall c : S, ans c -> G -> Prop).

Fixpoint owned {A} (p : prog S A) (g : G) (Q : G -> A -> Prop) : Prop :=
  match p with
  | Ret a => Q g a
  | Vis c k => pre g c /\ forall r g', gstep g c r g' -> owned (k r) g' Q
  end.

Lemma owned_mono {A} (p : prog S A) g (Q Q' : G -> A -> Prop) :
  (forall g a, Q g a -> Q' g a) -> owned p g Q -> owned p g Q'.
Proof.
  intros HQ. revert g. induction p as [a | c k IH]; simpl; [eauto |].
  intros g [Hc Hk]. split; eauto.
Qed.

Lemma owned_bind {A B} (f : A -> prog S B) p g (Q : G -> B -> Prop) :
  owned p g (fun g' a => owned (f a) g' Q) -> owned (mbind f p) g Q.
Proof.
  unfold mbind, prog_bind. revert g. induction p as [a | c k IH]; simpl; [done |].
  intros g [Hc Hk]. split; eauto.
Qed.

Lemma owned_defer {A} (d : prog S unit) (p : prog S A) g Q :
  owned p g (fun g' a => owned d g' (fun g'' _ => Q g'' a)) -> owned (defer d p) g Q.
Proof.
  intros H. unfold defer. apply owned_bind. eapply owned_mono; [| exact H].
  intros g' a H'. by apply owned_bind.
Qed.

Lemma owned_call (c : S) g (Q : G -> ans c -> Prop) :
  pre g c -> (forall r g', gstep g c r g' -> Q g' r) -> owned (do_call c) g Q.
Proof. by split. Qed.

(** What a thread has when it makes its next call. *)
Lemma owned_pre {A} (c : S) (k : ans c -> prog S A) g Q : owned (Vis c k) g Q -> pre g c.
Proof. by intros [H _]. Qed.

(** A linked program, against what the implementation of each call does to the share
    while [I] holds. *)
Lemma owned_translate {T : sig} {A} (R : G -> forall c : T, ans c -> G -> Prop) (I : G -> Prop)
    (impl : forall c : T, prog S (ans c)) (p : prog T A) g Q :
  (forall g c, I g -> owned (impl c) g (fun g' r => R g c r g' /\ I g')) ->
  I g -> rwp R p g Q -> owned (translate impl p) g (fun g' a => Q a g' /\ I g').
Proof.
  intros Himpl. revert g. induction p as [a | c k IH]; intros g HI Hp; simpl in *; [done |].
  apply owned_bind. eapply owned_mono; [| by apply Himpl]. intros g' r [HR HI']. auto.
Qed.
End owned.

(** Two relations at once, each on its part of the state. *)
Lemma rwp_pair {S : sig} {G H A} (R : G -> forall c : S, ans c -> G -> Prop)
    (R' : H -> forall c : S, ans c -> H -> Prop) (p : prog S A) g h Q Q' :
  rwp R p g Q -> rwp R' p h Q' ->
  rwp (fun x c r x' => R x.1 c r x'.1 /\ R' x.2 c r x'.2) p (g, h) (fun a x => Q a x.1 /\ Q' a x.2).
Proof.
  revert g h. induction p as [a | c k IH]; intros g h Hp Hp'; simpl in *; [done |].
  intros r [g' h'] [HR HR']. simpl in *. eauto.
Qed.

(** A relation that refines another through a projection. *)
Lemma rwp_project {S : sig} {G H A} (R : G -> forall c : S, ans c -> G -> Prop)
    (R' : H -> forall c : S, ans c -> H -> Prop) (proj : G -> H) (p : prog S A) g Q :
  (forall g c r g', R g c r g' -> R' (proj g) c r (proj g')) ->
  rwp R' p (proj g) Q -> rwp R p g (fun a g' => Q a (proj g')).
Proof.
  intros HR. revert g. induction p as [a | c k IH]; intros g Hp; simpl in *; [done |].
  intros r g' Hg. apply IH, Hp. by apply HR.
Qed.

(** A deterministic ghost state as a relation. *)
Lemma rwp_of_wp {S : sig} {G A} (mon : G -> forall c : S, ans c -> G) (p : prog S A) s (Q : G -> A -> Prop) :
  wp mon p s Q -> rwp (fun s c r s' => s' = mon s c r) p s (fun a s' => Q s' a).
Proof.
  revert s. induction p as [a | c k IH]; intros s Hp; simpl in *; [done |].
  intros r s' ->. by apply IH.
Qed.

(** Calls that leave the state alone. *)
Lemma rwp_only {S : sig} {G A} (R : G -> forall c : S, ans c -> G -> Prop) (ok : S -> Prop) (p : prog S A) g :
  (forall g c r g', ok c -> R g c r g' -> g' = g) -> only ok p -> rwp R p g (fun _ g' => g' = g).
Proof.
  intros HR. revert g. induction p as [a | c k IH]; simpl; [done |].
  intros g [Hc Hk] r g' Hg. rewrite (HR _ _ _ _ Hc Hg). by apply IH.
Qed.

(** ** Counting threads *)

(** How many of them, one more or one less. *)
Definition count {A} (f : A -> bool) (l : list A) : nat := length (filter (fun x => f x = true) l).

Lemma count_cons {A} (f : A -> bool) x l : count f (x :: l) = (Nat.b2n (f x) + count f l)%nat.
Proof.
  unfold count. destruct (f x) eqn:E; [by rewrite filter_cons_True | rewrite filter_cons_False; [done | congruence]].
Qed.

Lemma count_perm {A} (f : A -> bool) l l' : l ≡ₚ l' -> count f l = count f l'.
Proof. intros E. unfold count. by rewrite E. Qed.

Lemma count_zero {A} (f : A -> bool) l x : count f l = 0%nat -> x ∈ l -> f x = false.
Proof.
  intros Hc Hx. destruct (f x) eqn:E; [| done]. apply length_zero_iff_nil in Hc.
  assert (x ∈ filter (fun x => f x = true) l) as Hin by (by apply list_elem_of_filter).
  rewrite Hc in Hin. by apply elem_of_nil in Hin.
Qed.

Lemma count_some {A} (f : A -> bool) l : count f l <> 0%nat -> exists x, x ∈ l /\ f x = true.
Proof.
  unfold count. intros Hc. destruct (filter _ l) as [|x l'] eqn:E; [done |].
  assert (x ∈ filter (fun x => f x = true) l) as Hin by (rewrite E; by left).
  apply list_elem_of_filter in Hin as [Hf Hin]. by exists x.
Qed.
