(* ===== verification/Goroutines.v ===== *)
(** * The daemon's goroutines

    The whole daemon (src/pkg/server/server.go, src/pkg/sandbox/pool.go) as goroutines
    that take turns at every call: the main goroutine that waits for the signal and stops
    the daemon, the accept loop, one goroutine for each connection, linked to the pool,
    the workers, the network manager and the allocator, one for the input of each
    terminal, and one for each replacement of a worker.  They share the pool with its
    channel and its mutex, the registry, the wait group and the system's resources.  How
    a goroutine may change what it holds is judged by its own share of them
    ([Ownership.owned]); that the shares add up is in [Shutdown]. *)

From Stdlib Require Import Init.Byte SpecFloat.
From stdpp Require Import relations.
From S2P Require Import Prelude GoStrings GoStrconv GoPath Effects OS SandboxConfig Protocol Cgroup Registry.
From S2P Require Import GoNet Ipam Dns Network Overlay Resources Pool DaemonConfig Recovery Server System Ownership.
#[local] Open Scope go_scope.

(** ** The calls *)

(** [DSrv] is a call of a connection that does not wait for another goroutine; [DTake]
    the [select] on the pool's channel; [DReplenish] the mutex and the look at [closed]
    of a replacement, [DPut] its send, if it has a worker, and the unlock; [DClose] the
    mutex and the closing of the channel, [DDrain] the next worker of the closed channel,
    or the unlock; [DShutdown] the closing of the shutdown channel; [DCloseListener] the
    listener's [Close], which makes the accept loop's [Accept] return; [DDone] and [DWait]
    the wait group's. *)
Inductive dcall :=
| DSrv (c : scall)
| DTake
| DReplenish
| DPut (r : option Worker)
| DClose
| DDrain
| DShutdown
| DCloseListener
| DDone
| DWait.

Definition dans (c : dcall) : Type :=
  match c with
  | DSrv c => sans c
  | DTake => taken
  | DReplenish | DClose => bool
  | DDrain => option Worker
  | DCloseListener => result unit
  | DPut _ | DShutdown | DDone | DWait => unit
  end.

Definition dmn : sig := Sig dcall dans.

Definition dmn_call (c : dmn) : prog dmn (ans c) := do_call c.
Definition goroutine : Type := prog dmn (result unit).

Definition lift_srv {A} (p : sio A) : prog dmn A :=
  translate (T := dmn) (fun c : srv => dmn_call (DSrv c)) p.
Definition lift_io {A} (p : io A) : prog dmn A := lift_srv (lift_os p).

(** ** The goroutines' programs *)

Section programs.
Context `{IpamJSON, JSON ExitPayload, JSON StatsPayload, JSON ControlResponse}.
Variables (netlink_ParseAddr : string -> result string) (MarshalConfig : Config -> result string).

(** The pool as it was made: its capacity and its storage limit stay. *)
Variable pool0 : Pool.

(** [Pool.AcquireCustom], with the channel shared. *)
Definition acquire (requestedMB : Z) (mounts : list MountSpec) (isTTY : bool) (cmd : list string)
    (requiresNetwork : bool) : prog dmn (result (option Worker)) :=
  let requestedMB := if requestedMB <=? 0 then p_storageLimitMB pool0 else requestedMB in
  let spawn mounts isTTY cmd :=
    r ← lift_io (spawnWorker MarshalConfig requestedMB mounts isTTY cmd);
    mret (match r with Ok w => Ok (Some w) | Err e => Err e end) in
  if warm_fits pool0 requestedMB mounts isTTY requiresNetwork then
    t ← dmn_call DTake;
    match (t : taken) with
    | TakenWorker w => mret (Ok (Some w))
    | TakenNil => mret (Ok None)
    | NoneIdle => spawn [] false []
    end
  else spawn mounts isTTY cmd.

(** [go p.replenish()] *)
Definition replenish : goroutine :=
  open ← dmn_call DReplenish;
  if (open : bool) then
    r ← lift_io (spawnWorker MarshalConfig (p_storageLimitMB pool0) [] false []);
    do_ dmn_call (DPut (match r with Ok w => Some w | Err _ => None end));;
    mret (Ok tt)
  else mret (Ok tt).

(** [for w := range p.workers]: the closed channel holds at most [n] workers. *)
Fixpoint drain (n : nat) : prog dmn unit :=
  w ← dmn_call DDrain;
  match (w : option Worker) with
  | None => mret tt
  | Some w => do_ lift_io (close_worker w);; match n with O => mret tt | S n => drain n end
  end.

(** [Pool.Close] *)
Definition close_pool : prog dmn unit :=
  first ← dmn_call DClose;
  if (first : bool) then drain (Z.to_nat (p_capacity pool0)) else mret tt.

(** The calls of a connection, on the shared pool. *)
Definition link_conn (c : srv) : prog dmn (ans c) :=
  match c return prog dmn (sans c) with
  | SAcquire mb mounts isTTY cmd net => acquire mb mounts isTTY cmd net
  | c => lift_srv (link_worker netlink_ParseAddr c)
  end.

(** The goroutine of a connection. *)
Definition conn_thread (cfg : DaemonConfig) (fuel : nat) : goroutine :=
  defer (dmn_call DDone) (translate (T := dmn) link_conn (handleConnection cfg fuel)).

(** The goroutine that feeds a terminal, on the bytes its connection will bring. *)
Definition input_thread (w : Worker) (s : stream) : goroutine :=
  do_ lift_io (input_loop w s);; mret (Ok tt).

(** The main goroutine, from the signal on: [Daemon.Stop]. *)
Definition stop_thread (d : Daemon) : goroutine :=
  do_ dmn_call DShutdown;;
  do_ (if d_listening d then do_ dmn_call DCloseListener;; mret tt else mret tt);;
  do_ (match d_pool d with Some _ => close_pool | None => mret tt end);;
  do_ dmn_call DWait;;
  do_ lift_io (do_ sys (Remove (SocketPath (dc_Server (d_cfg d))));; mret tt);;
  do_ lift_io (match d_lockFile d with Some fd => release_lock fd | None => mret tt end);;
  mret (Ok tt).

(** ** What they share *)

(** [wd_res] is what the goroutines' programs have made and made no call to give back,
    [wd_sys] what is there ([Resources.machine]).  [wd_listening]: the listener is open;
    [wd_accepting]: the accept loop runs; it is counted in the wait group. *)
Record world := {
  wd_pool : Pool;
  wd_res : resources;
  wd_sys : machine;
  wd_reg : registry;
  wd_wg : nat;
  wd_shutdown : bool;
  wd_listening : bool;
  wd_accepting : bool;
}.

Definition with_pool (p : Pool) (d : world) : world :=
  {| wd_pool := p; wd_res := wd_res d; wd_sys := wd_sys d; wd_reg := wd_reg d; wd_wg := wd_wg d;
     wd_shutdown := wd_shutdown d; wd_listening := wd_listening d; wd_accepting := wd_accepting d |}.
Definition with_sys (s : resources) (k : machine) (d : world) : world :=
  {| wd_pool := wd_pool d; wd_res := s; wd_sys := k; wd_reg := wd_reg d; wd_wg := wd_wg d;
     wd_shutdown := wd_shutdown d; wd_listening := wd_listening d; wd_accepting := wd_accepting d |}.
Definition with_reg (r : registry) (d : world) : world :=
  {| wd_pool := wd_pool d; wd_res := wd_res d; wd_sys := wd_sys d; wd_reg := r; wd_wg := wd_wg d;
     wd_shutdown := wd_shutdown d; wd_listening := wd_listening d; wd_accepting := wd_accepting d |}.
Definition with_wg (n : nat) (d : world) : world :=
  {| wd_pool := wd_pool d; wd_res := wd_res d; wd_sys := wd_sys d; wd_reg := wd_reg d; wd_wg := n;
     wd_shutdown := wd_shutdown d; wd_listening := wd_listening d; wd_accepting := wd_accepting d |}.
Definition with_shutdown (d : world) : world :=
  {| wd_pool := wd_pool d; wd_res := wd_res d; wd_sys := wd_sys d; wd_reg := wd_reg d; wd_wg := wd_wg d;
     wd_shutdown := true; wd_listening := wd_listening d; wd_accepting := wd_accepting d |}.
Definition listener_closed (d : world) : world :=
  {| wd_pool := wd_pool d; wd_res := wd_res d; wd_sys := wd_sys d; wd_reg := wd_reg d; wd_wg := wd_wg d;
     wd_shutdown := wd_shutdown d; wd_listening := false; wd_accepting := wd_accepting d |}.
Definition accept_over (d : world) : world :=
  {| wd_pool := wd_pool d; wd_res := wd_res d; wd_sys := wd_sys d; wd_reg := wd_reg d; wd_wg := pred (wd_wg d);
     wd_shutdown := wd_shutdown d; wd_listening := wd_listening d; wd_accepting := false |}.

(** A system call of a goroutine. *)
Definition sys_call (c : os) (r : ans c) (d : world) : world :=
  with_sys (res_mon (wd_res d) c r) (sys_mon (wd_sys d) c r) d.

(** What a call may be answered, what it does, and the goroutines it starts.  A method of
    the registry is atomic under its mutex; the system may answer anything. *)
Definition srv_does (d : world) (c : srv) : ans c -> world -> list goroutine -> Prop :=
  match c return sans c -> world -> list goroutine -> Prop with
  | SOs c => fun r d' new => d' = sys_call c r d /\ new = []
  | SReg o => fun a d' new =>
      exists tr r', ends (exec_op (wd_reg d) o) tr (r', a) /\ d' = with_reg r' d /\ new = []
  | SGetJob id => fun a d' new => a = GetJob (wd_reg d) id /\ d' = d /\ new = []
  | SList => fun l d' new => d' = d /\ new = [] /\
      exists order tr, order ≡ₚ map_to_list (wd_reg d) /\ ends (Registry.List order) tr l
  | STick => fun over d' new => (over = true -> wd_shutdown d = true) /\ d' = d /\ new = []
  | SGoInput w => fun _ d' new => d' = d /\ exists s, new = [input_thread w s]
  | _ => fun _ d' new => d' = d /\ new = []
  end.

(** A call that the pool's state does not allow waits. *)
Definition pool_does (d : world) (a : paction) (d' : world) : Prop :=
  exists p', pool_step (wd_pool d) a = Next p' /\ d' = with_pool p' d.

Definition does (d : world) (c : dmn) : ans c -> world -> list goroutine -> Prop :=
  match c return dans c -> world -> list goroutine -> Prop with
  | DSrv c => srv_does d c
  | DTake => fun t d' new => t = (take_worker (wd_pool d)).1 /\ pool_does d ATake d' /\
      new = match t with NoneIdle => [] | _ => [replenish] end
  | DReplenish => fun open d' new =>
      pool_does d AReplenish d' /\ open = negb (p_closed (wd_pool d)) /\ new = []
  | DPut r => fun _ d' new => pool_does d (ASpawned r) d' /\ new = []
  | DClose => fun first d' new =>
      pool_does d AClose d' /\ first = negb (p_closed (wd_pool d)) /\ new = []
  | DDrain => fun w d' new => w = head (p_workers (wd_pool d)) /\
      pool_does d (match w with Some _ => ADrain | None => ACloseEnd end) d' /\ new = []
  | DShutdown => fun _ d' new => d' = with_shutdown d /\ new = []
  | DCloseListener => fun _ d' new => d' = listener_closed d /\ new = []
  | DDone => fun _ d' new => d' = with_wg (pred (wd_wg d)) d /\ new = []
  | DWait => fun _ d' new => wd_wg d = 0%nat /\ d' = d /\ new = []
  end.

(** A panic of one goroutine ends the process: no goroutine goes on. *)
Definition calm (ps : list goroutine) : Prop := Forall (fun p => forall e, p <> Ret (Err e)) ps.

(** The main goroutine's first call waits for the signal. *)
Definition is_signal (c : dmn) : bool := match (c : dcall) with DShutdown => true | _ => false end.

(** What the goroutines there are do: a call of one of them, or the accept loop's end,
    when [Accept] fails because the listener is closed and the shutdown is announced. *)
Inductive works : list goroutine * world -> list goroutine * world -> Prop :=
| works_call ps1 c k ps2 d (r : ans c) d' new :
    calm (ps1 ++ Vis c k :: ps2) -> is_signal c = false -> does d c r d' new ->
    works (ps1 ++ Vis c k :: ps2, d) (ps1 ++ k r :: ps2 ++ new, d')
| works_accept_over ps d :
    calm ps -> wd_accepting d = true -> wd_listening d = false -> wd_shutdown d = true ->
    works (ps, d) (ps, accept_over d).

(** The daemon's steps: these, the signal, and what comes from outside: a connection that
    is accepted, or an [Accept] that fails with the listener open, which ends the loop once
    the shutdown is announced and not before. *)
Inductive dstep (cfg : DaemonConfig) : list goroutine * world -> list goroutine * world -> Prop :=
| dstep_works c c' : works c c' -> dstep cfg c c'
| dstep_signal ps1 k ps2 d d' new :
    calm (ps1 ++ Vis (DShutdown : dmn) k :: ps2) -> does d DShutdown tt d' new ->
    dstep cfg (ps1 ++ Vis (DShutdown : dmn) k :: ps2, d) (ps1 ++ k tt :: ps2 ++ new, d')
| dstep_accept ps d fuel :
    calm ps -> wd_accepting d = true -> wd_listening d = true ->
    dstep cfg (ps, d) (ps ++ [conn_thread cfg fuel], with_wg (S (wd_wg d)) d)
| dstep_accept_fails ps d :
    calm ps -> wd_accepting d = true -> wd_shutdown d = true -> dstep cfg (ps, d) (ps, accept_over d).
End programs.

(** ** The same programs with nobody else

    With no other goroutine, an acquisition and a close do what [Pool.AcquireCustom] and
    [Pool.Close] do, call for call. *)

Section alone.
Variable MarshalConfig : Config -> result string.
Variable pool0 : Pool.
Context {W : Type} (h : handler os W).

Definition pool_alone (p : Pool) (a : paction) : Pool :=
  match pool_step p a with Next p' => p' | _ => p end.

Definition alone : handler dmn (Pool * W) := fun c x =>
  match c return dans c * (Pool * W) with
  | DSrv c =>
      match c return sans c * (Pool * W) with
      | SOs c => let '(r, w) := h c x.2 in (r, (x.1, w))
      | c => (fst (ok_srv (demo_request "run" false) c ∅), x)
      end
  | DTake => ((take_worker x.1).1, (pool_alone x.1 ATake, x.2))
  | DReplenish => (negb (p_closed x.1), (pool_alone x.1 AReplenish, x.2))
  | DPut r => (tt, (pool_alone x.1 (ASpawned r), x.2))
  | DClose => (negb (p_closed x.1), (pool_alone x.1 AClose, x.2))
  | DDrain =>
      let w := head (p_workers x.1) in
      (w, (pool_alone x.1 (match w with Some _ => ADrain | None => ACloseEnd end), x.2))
  | DCloseListener => (Ok tt, x)
  | DShutdown | DDone | DWait => (tt, x)
  end.

Lemma run_lift_io {A} (q : io A) p w :
  run alone (lift_io q) (p, w) = let '(a, w') := run h q w in (a, (p, w')).
Proof using.
  clear. unfold lift_io, lift_srv, lift_os. revert w. induction q as [a | c k IH]; intros w; simpl; [done |].
  destruct (h c w) as [r w']. apply IH.
Qed.

Lemma run_drain n p w :
  p_mu p = Closing -> (length (p_workers p) <= n)%nat ->
  run alone (drain n) (p, w) =
  let '(u, w') := run h (foldM (fun _ w => close_worker w) tt (p_workers p)) w in
  (u, ({| p_capacity := p_capacity p; p_workers := []; p_closed := p_closed p;
          p_storageLimitMB := p_storageLimitMB p; p_mu := Free; p_pending := p_pending p;
          p_out := p_out p; p_destroyed := p_destroyed p ++ p_workers p; p_spawned := p_spawned p |}, w')).
Proof using.
  clear. revert p w. induction n as [|n IH]; intros [cp ws cl mb mu pe out de sp] w Hmu Hn; simpl in Hmu, Hn; subst mu;
    (destruct ws as [|w1 ws]; [simpl; by rewrite app_nil_r |]); [simpl in Hn; lia |].
  simpl in Hn. cbn [drain]. rewrite run_bind. cbn [run dmn_call do_call alone]. cbn [p_workers head snd fst].
  rewrite run_bind, run_lift_io. unfold pool_alone, pool_step. cbn [p_mu p_workers foldM].
  rewrite run_bind. destruct (run h (close_worker w1) w) as [[] w']. rewrite IH by (simpl; (done || lia)).
  cbn [p_workers p_capacity p_closed p_storageLimitMB p_pending p_out p_destroyed p_spawned].
  destruct (run h _ w') as [u w'']. by rewrite <- app_assoc.
Qed.

(** An acquisition and a close that no other goroutine disturbs do exactly what
    [AcquireCustom] and [Close] do: the same calls with the same answers, the same result
    and the same pool. *)
Theorem pool_programs_agree p w mb mounts isTTY cmd net :
  p_storageLimitMB p = p_storageLimitMB pool0 -> p_capacity p = p_capacity pool0 ->
  run alone (acquire MarshalConfig pool0 mb mounts isTTY cmd net) (p, w) =
    (let '((r, p'), w') := run h (AcquireCustom MarshalConfig p mb mounts isTTY cmd net) w in (r, (p', w'))) /\
  (p_mu p = Free -> Z.of_nat (length (p_workers p)) <= p_capacity p ->
   run alone (close_pool pool0) (p, w) = let '(p', w') := run h (Close p) w in (tt, (p', w'))).
Proof.
  intros Hlim Hcap. split.
  - unfold acquire, AcquireCustom. cbv zeta. rewrite <- Hlim. set (mb' := if mb <=? 0 then _ else mb). clearbody mb'.
    assert (warm_fits pool0 mb' mounts isTTY net = warm_fits p mb' mounts isTTY net) as ->
      by (unfold warm_fits; by rewrite Hlim).
    assert (forall ms tty c, run alone (r ← lift_io (spawnWorker MarshalConfig mb' ms tty c);
              mret (match r with Ok w => Ok (Some w) | Err e => Err e end)) (p, w) =
            let '((r, p'), w') := run h (r ← spawnWorker MarshalConfig mb' ms tty c;
              mret (match r with Ok w => Ok (Some w) | Err e => Err e end, p)) w in (r, (p', w'))) as Hsp.
    { intros ms tty c. rewrite !run_bind, run_lift_io. by destruct (run h _ w) as [[x|e] w']. }
    destruct (warm_fits p mb' mounts isTTY net); [| apply Hsp].
    rewrite run_bind. cbn [run dmn_call do_call alone fst snd]. unfold pool_alone. cbn [pool_step].
    destruct (take_worker p) as [[x | |] p'] eqn:Et; [done | done |]. cbn [fst snd].
    assert (p' = p) as -> by (unfold take_worker in Et; by repeat case_match; simplify_eq). apply Hsp.
  - intros Hmu Hlen. unfold close_pool, Close. rewrite run_bind. cbn [run dmn_call do_call alone fst snd].
    unfold pool_alone, pool_step. rewrite Hmu. destruct (p_closed p) eqn:Hc; [done |]. cbn [negb].
    rewrite run_drain by (simpl; (done || lia)). rewrite run_bind. cbn [p_workers set_mu].
    destruct (run h _ w) as [[] w'].
    done.
Qed.
End alone.

Lemma pool_programs_agree_witness :
  run (alone ok_os) (close_pool System.pool0) (System.pool0, tt) =
  let '(p', w') := run ok_os (Close System.pool0) tt in (tt, (p', w')).
Proof.
  destruct (pool_programs_agree Pool.demo_config System.pool0 ok_os System.pool0 tt 0 [] false [] false) as [_ Hc];
    [reflexivity | reflexivity |]. apply Hc; [reflexivity |]. vm_compute. discriminate.
Defined.
