(* ===== verification/Schedule.v ===== *)
(** * A scheduler for the daemon's goroutines

    The daemon's steps ([Goroutines.dstep]) under answers that succeed, as a function that
    is told which goroutine goes on, for how many calls, and when a connection comes, with
    the proof that each of its steps is a step of the daemon. *)

From Stdlib Require Import Init.Byte SpecFloat.
From stdpp Require Import relations.
From S2P Require Import Prelude GoStrings GoStrconv GoPath Effects OS SandboxConfig Protocol Cgroup Registry.
From S2P Require Import GoNet Ipam Dns Network Overlay Resources Pool DaemonConfig Recovery Server System.
From S2P Require Import Ownership Goroutines.
#[local] Open Scope go_scope.

Section schedule.
Context `{IpamJSON, JSON ExitPayload, JSON StatsPayload, JSON ControlResponse}.
Variables (netlink_ParseAddr : string -> result string) (MarshalConfig : Config -> result string).
Variables (pool0 : Pool) (req : Request) (cfg : DaemonConfig).

Definition calmb (ps : list goroutine) : bool :=
  forallb (fun p => match p with Ret (Err _) => false | _ => true end) ps.

Lemma calmb_calm ps : calmb ps = true -> calm ps.
Proof using. clear. intros Hc. apply Forall_forall. intros p Hp e ->. unfold calmb in Hc.
  rewrite forallb_forall in Hc. by specialize (Hc _ (proj1 (list_elem_of_In _ _) Hp)). Qed.

Definition pool_answer (d : world) (a : paction) : option world :=
  match pool_step (wd_pool d) a with Next p => Some (with_pool p d) | _ => None end.

Definition answer (d : world) (c : dmn) : option (ans c * world * list goroutine) :=
  match c return option (dans c * world * list goroutine) with
  | DSrv c =>
      let x := ok_srv req c (wd_reg d) in
      Some (x.1, match c return sans c -> world with
                 | SOs c => fun r => sys_call c r d
                 | SReg _ => fun _ => with_reg x.2 d
                 | _ => fun _ => d
                 end x.1,
            match c with SGoInput w => [input_thread w (Stream [] EOF)] | _ => [] end)
  | DTake =>
      let t := (take_worker (wd_pool d)).1 in
      d' ← pool_answer d ATake;
      Some (t, d', match t with NoneIdle => [] | _ => [replenish MarshalConfig pool0] end)
  | DReplenish => d' ← pool_answer d AReplenish; Some (negb (p_closed (wd_pool d)), d', [])
  | DPut r => d' ← pool_answer d (ASpawned r); Some (tt, d', [])
  | DClose => d' ← pool_answer d AClose; Some (negb (p_closed (wd_pool d)), d', [])
  | DDrain =>
      let w := head (p_workers (wd_pool d)) in
      d' ← pool_answer d (match w with Some _ => ADrain | None => ACloseEnd end); Some (w, d', [])
  | DShutdown => Some (tt, with_shutdown d, [])
  | DCloseListener => Some (Ok tt, listener_closed d, [])
  | DDone => Some (tt, with_wg (pred (wd_wg d)) d, [])
  | DWait => if (wd_wg d =? 0)%nat then Some (tt, d, []) else None
  end.

Lemma pool_answer_does d a d' : pool_answer d a = Some d' -> pool_does d a d'.
Proof using. clear. unfold pool_answer, pool_does. destruct (pool_step _ _) as [| | |p]; intros [= <-]. by exists p. Qed.

Lemma answer_does d (c : dmn) r d' new :
  answer d c = Some (r, d', new) -> does MarshalConfig pool0 d c r d' new.
Proof using.
  clear. destruct c as [c | | | | | | | | |]; simpl.
  - intros [= <- <- <-]. destruct c; try done; simpl.
    + destruct (res ok_os (exec_op (wd_reg d) o) tt) as [r' a] eqn:E.
      exists (trace ok_os (exec_op (wd_reg d) o) tt), r'. split; [| done].
      pose proof (run_ends ok_os (exec_op (wd_reg d) o) tt) as Hr. rewrite E in Hr. exact Hr.
    + split; [done | split; [done |]]. exists (map_to_list (wd_reg d)), (trace ok_os (Registry.List (map_to_list (wd_reg d))) tt).
      split; [done | apply run_ends].
    + split; [done |]. by exists (Stream [] EOF).
  - destruct (pool_answer d ATake) eqn:E; [| done]. intros [= <- <- <-]. by split; [| split; [apply pool_answer_does |]].
  - destruct (pool_answer d AReplenish) eqn:E; [| done]. intros [= <- <- <-]. by split; [apply pool_answer_does |].
  - destruct (pool_answer d (ASpawned _)) eqn:E; [| done]. intros [= <- <- <-]. by split; [apply pool_answer_does |].
  - destruct (pool_answer d AClose) eqn:E; [| done]. intros [= <- <- <-]. by split; [apply pool_answer_does |].
  - destruct (pool_answer d _) eqn:E; [| done]. intros [= <- <- <-]. by split; [| split; [apply pool_answer_does |]].
  - by intros [= <- <- <-].
  - by intros [= <- <- <-].
  - by intros [= <- <- <-].
  - destruct (Nat.eqb_spec (wd_wg d) 0); [| done]. by intros [= <- <- <-].
Qed.

(** [Turn i n]: at most [n] calls of goroutine [i], until it waits or ends. *)
Inductive act := Turn (i n : nat) | Accept (fuel : nat) | AcceptOver.

Definition config : Type := list goroutine * world.

Definition turn (i : nat) (c : config) : option config :=
  match c.1 !! i with
  | Some (Vis call k) =>
      if calmb c.1 then
        match answer c.2 call with
        | Some (r, d', new) => Some (take i c.1 ++ k r :: drop (S i) c.1 ++ new, d')
        | None => None
        end
      else None
  | _ => None
  end.

Fixpoint turns (i n : nat) (c : config) : config :=
  match n with
  | O => c
  | S n => match turn i c with Some c' => turns i n c' | None => c end
  end.

Definition act_on (c : config) (a : act) : config :=
  match a with
  | Turn i n => turns i n c
  | Accept fuel =>
      if calmb c.1 && wd_accepting c.2 && wd_listening c.2 then
        (c.1 ++ [conn_thread netlink_ParseAddr MarshalConfig pool0 cfg fuel], with_wg (S (wd_wg c.2)) c.2)
      else c
  | AcceptOver =>
      if calmb c.1 && wd_accepting c.2 && negb (wd_listening c.2) && wd_shutdown c.2 then (c.1, accept_over c.2) else c
  end.

Abbreviation steps := (rtc (dstep netlink_ParseAddr MarshalConfig pool0 cfg)).

Lemma turn_step i c c' : turn i c = Some c' -> dstep netlink_ParseAddr MarshalConfig pool0 cfg c c'.
Proof using.
  clear. destruct c as [ps d]. unfold turn. simpl. destruct (ps !! i) as [[r | call k] |] eqn:Hi; try done.
  destruct (calmb ps) eqn:Hc; [| done]. apply calmb_calm in Hc.
  destruct (answer d call) as [[[r d'] new] |] eqn:Ha; [| done]. intros [= <-]. apply answer_does in Ha.
  pose proof (take_drop_middle _ _ _ Hi) as E. rewrite <- E in Hc.
  rewrite <- E at 1. destruct (is_signal call) eqn:Hs.
  - destruct call; try done. destruct r. by apply dstep_signal.
  - by apply dstep_works, works_call.
Qed.

Lemma act_steps c a : steps c (act_on c a).
Proof using.
  clear. destruct a as [i n | fuel |]; simpl.
  - revert c. induction n as [|n IH]; intros c; [done |]. simpl. destruct (turn i c) as [c'|] eqn:E; [| done].
    eapply rtc_l; [by apply (turn_step i) | apply IH].
  - destruct c as [ps d]. simpl. destruct (calmb ps) eqn:Hc; [| done]. destruct (wd_accepting d) eqn:Ha, (wd_listening d) eqn:Hl; try done.
    apply rtc_once. apply dstep_accept; [by apply calmb_calm | done | done].
  - destruct c as [ps d]. simpl. destruct (calmb ps) eqn:Hc; [| done].
    destruct (wd_accepting d) eqn:Ha, (wd_listening d) eqn:Hl, (wd_shutdown d) eqn:Hs; try done. simpl.
    apply rtc_once, dstep_works. apply works_accept_over; [by apply calmb_calm | done..].
Qed.

Lemma acts_steps acts c : steps c (fold_left act_on acts c).
Proof using. clear. revert c. induction acts as [|a acts IH]; intros c; [done |]. etrans; [apply act_steps | apply IH]. Qed.
End schedule.
