(* ===== verification/Shares.v ===== *)
(** * What each of the daemon's goroutines holds

    A goroutine's share of the daemon: the resources it has made and not given back or
    handed on, the jobs it has registered and not finished, the pool's mutex, its count in
    the wait group.  The specification of each goroutine ([conn_thread], [replenish],
    [stop_thread], [input_thread]) against these shares. *)

From Stdlib Require Import Init.Byte SpecFloat.
From stdpp Require Import relations.
From S2P Require Import Prelude GoStrings GoStrconv GoPath Effects OS SandboxConfig Protocol Cgroup Registry.
From S2P Require Import GoNet Ipam Dns Network Overlay Resources Pool DaemonConfig Recovery Server System.
From S2P Require Import Ownership Goroutines.
#[local] Open Scope go_scope.

(** ** Shares *)

(** Who holds the pool's mutex: a replacement under way, or [Close] with at most [k] idle
    workers left. *)
Inductive hold := HoldSpawn | HoldClose (k : nat).

(** [sh_phase]: how far [Stop] is; 1 the shutdown is announced, 2 the listener is closed,
    3 the pool is closed, 4 every goroutine of the wait group has ended.  [sh_main]: the main goroutine. *)
Record share := {
  sh_res : resources;
  sh_jobs : list string;
  sh_mutex : option hold;
  sh_wg : bool;
  sh_pending : bool;
  sh_phase : nat;
  sh_main : bool;
}.

Definition put_res (s : resources) (g : share) : share :=
  {| sh_res := s; sh_jobs := sh_jobs g; sh_mutex := sh_mutex g; sh_wg := sh_wg g;
     sh_pending := sh_pending g; sh_phase := sh_phase g; sh_main := sh_main g |}.
Definition put_mutex (m : option hold) (g : share) : share :=
  {| sh_res := sh_res g; sh_jobs := sh_jobs g; sh_mutex := m; sh_wg := sh_wg g;
     sh_pending := sh_pending g; sh_phase := sh_phase g; sh_main := sh_main g |}.
Definition put_phase (n : nat) (g : share) : share :=
  {| sh_res := sh_res g; sh_jobs := sh_jobs g; sh_mutex := sh_mutex g; sh_wg := sh_wg g;
     sh_pending := sh_pending g; sh_phase := n; sh_main := sh_main g |}.
Definition no_pending (g : share) : share :=
  {| sh_res := sh_res g; sh_jobs := sh_jobs g; sh_mutex := sh_mutex g; sh_wg := sh_wg g;
     sh_pending := false; sh_phase := sh_phase g; sh_main := sh_main g |}.
Definition no_wg (g : share) : share :=
  {| sh_res := sh_res g; sh_jobs := sh_jobs g; sh_mutex := sh_mutex g; sh_wg := false;
     sh_pending := sh_pending g; sh_phase := sh_phase g; sh_main := sh_main g |}.

(** What a new goroutine of each kind starts with. *)
Definition new_share (wg pending main : bool) : share :=
  {| sh_res := no_resources; sh_jobs := []; sh_mutex := None; sh_wg := wg; sh_pending := pending;
     sh_phase := 0; sh_main := main |}.

(** Resources put together. *)
Definition join (s1 s2 : resources) : resources :=
  {| rs_mounts := rs_mounts s1 ++ rs_mounts s2; rs_dirs := rs_dirs s1 ++ rs_dirs s2;
     rs_fds := rs_fds s1 ++ rs_fds s2; rs_procs := rs_procs s1 ++ rs_procs s2;
     rs_writes := rs_writes s1 ++ rs_writes s2 |}.

(** The jobs registered and not finished. *)
Definition jobs_op (l : list string) (o : reg_op) : list string :=
  match o with
  | OpRegister id _ _ _ _ => id :: l
  | OpUpdateFinished id _ _ _ => without id l
  | _ => l
  end.

Definition jobs_mon (l : list string) (c : srv) (r : ans c) : list string :=
  match (c : scall) with SReg o => jobs_op l o | _ => l end.

(** Only a goroutine that the wait group counts or that holds the mutex has anything. *)
Definition at_rest (g : share) : Prop := idle (sh_res g) /\ sh_jobs g = [].
Definition busy (g : share) : Prop := sh_wg g = true \/ sh_mutex g <> None.
Definition share_ok (g : share) : Prop := busy g \/ at_rest g.

Definition dmn_pre (g : share) (c : dmn) : Prop :=
  share_ok g /\
  match (c : dcall) with
  | DSrv _ => True
  | DTake => sh_wg g = true
  | DReplenish => sh_wg g = false /\ sh_mutex g = None /\ sh_pending g = true /\ sh_phase g = 0%nat
  | DPut r => sh_mutex g = Some HoldSpawn /\ sh_jobs g = [] /\
      match r with Some w => held [w] (sh_res g) | None => idle (sh_res g) end
  | DClose => sh_wg g = false /\ sh_mutex g = None /\ sh_phase g = 2%nat
  | DDrain => exists k, sh_mutex g = Some (HoldClose k) /\ at_rest g /\ sh_phase g = 2%nat
  | DCloseListener => sh_wg g = false /\ sh_mutex g = None /\ sh_phase g = 1%nat
  | DShutdown => sh_wg g = false /\ sh_mutex g = None /\ sh_phase g = 0%nat
  | DDone => sh_wg g = true /\ sh_mutex g = None /\ at_rest g
  | DWait => sh_wg g = false /\ sh_mutex g = None /\ sh_phase g = 3%nat
  end.

(** [cap]: the pool's capacity.  A worker that is received comes with what it holds. *)
Definition dmn_share (cap : nat) (g : share) (c : dmn) : ans c -> share -> Prop :=
  match c return dans c -> share -> Prop with
  | DSrv c => fun r g' => g' = {| sh_res := sys_res_mon (sh_res g) c r; sh_jobs := jobs_mon (sh_jobs g) c r;
      sh_mutex := sh_mutex g; sh_wg := sh_wg g; sh_pending := sh_pending g; sh_phase := sh_phase g;
      sh_main := sh_main g |}
  | DTake => fun t g' =>
      match t with
      | TakenWorker w => exists s, held [w] s /\ g' = put_res (join s (sh_res g)) g
      | _ => g' = g
      end
  | DReplenish => fun open g' => g' = no_pending (if open then put_mutex (Some HoldSpawn) g else g)
  | DPut r => fun _ g' =>
      g' = put_mutex None (match r with Some w => put_res no_resources g | None => g end)
  | DClose => fun first g' =>
      if first then exists k, (k <= cap)%nat /\ g' = put_mutex (Some (HoldClose k)) g else g' = put_phase 3 g
  | DDrain => fun w g' =>
      match w with
      | Some w => exists k s, sh_mutex g = Some (HoldClose (S k)) /\ held [w] s /\
          g' = put_mutex (Some (HoldClose k)) (put_res (join s (sh_res g)) g)
      | None => g' = put_phase 3 (put_mutex None g)
      end
  | DShutdown => fun _ g' => g' = put_phase 1 g
  | DCloseListener => fun _ g' => g' = put_phase 2 g
  | DDone => fun _ g' => g' = no_wg g
  | DWait => fun _ g' => g' = put_phase 4 g
  end.

(** A goroutine that has ended has nothing. *)
Definition ended (g : share) (_ : result unit) : Prop :=
  at_rest g /\ sh_mutex g = None /\ sh_wg g = false /\ sh_pending g = false /\
  (sh_main g = true -> sh_phase g = 4%nat).

(** The same role, whatever the resources and jobs. *)
Definition same_role (g g' : share) : Prop :=
  g' = {| sh_res := sh_res g'; sh_jobs := sh_jobs g'; sh_mutex := sh_mutex g; sh_wg := sh_wg g;
          sh_pending := sh_pending g; sh_phase := sh_phase g; sh_main := sh_main g |}.

Lemma same_role_refl g : same_role g g.
Proof. by destruct g. Qed.

Lemma same_role_trans g1 g2 g3 : same_role g1 g2 -> same_role g2 g3 -> same_role g1 g3.
Proof. unfold same_role. intros E1 E2. rewrite E2. rewrite E1. done. Qed.

Lemma same_role_busy g g' : same_role g g' -> busy g -> busy g'.
Proof. unfold same_role. intros ->. done. Qed.

Lemma idle_none : idle no_resources.
Proof. split; [done | split; [done |]]. by intros d ?%elem_of_nil. Qed.

Lemma held_join ws1 ws2 s1 s2 : held ws1 s1 -> held ws2 s2 -> held (ws1 ++ ws2) (join s1 s2).
Proof.
  intros [Hs1 Hm1 Hp1 Hd1] [Hs2 Hm2 Hp2 Hd2]. split; simpl; intros x; rewrite elem_of_app.
  - intros [?|?]; auto.
  - intros [(w & Hw & ?)%Hm1 | (w & Hw & ?)%Hm2]; exists w; rewrite elem_of_app; auto.
  - intros [(w & Hw & ?)%Hp1 | (w & Hw & ?)%Hp2]; exists w; rewrite elem_of_app; auto.
  - intros [[?|(w & Hw & ?)]%Hd1 | [?|(w & Hw & ?)]%Hd2]; auto; right; exists w; rewrite elem_of_app; auto.
Qed.

(** ** Programs of system calls *)

Section lifted.
Variable cap : nat.
Abbreviation owns := (owned dmn_pre (dmn_share cap)).

(** A busy goroutine may make any calls. *)
Lemma owned_srv {A} (p : sio A) g (Q : resources * list string -> A -> Prop) :
  busy g -> wp (pair_mon sys_res_mon jobs_mon) p (sh_res g, sh_jobs g) Q ->
  owns (lift_srv p) g (fun g' a => Q (sh_res g', sh_jobs g') a /\ same_role g g').
Proof.
  unfold lift_srv. revert g. induction p as [a | c k IH]; intros g Hb Hp; simpl in *.
  { split; [done | apply same_role_refl]. }
  split; [by repeat split; left |]. intros r g' ->. eapply owned_mono; [| apply IH; [done | apply Hp]].
  intros g1 a [HQ Hr]. split; [done |]. exact Hr.
Qed.

Lemma wp_lift_os_jobs {A} (p : io A) s l Q :
  wp res_mon p s Q ->
  wp (pair_mon sys_res_mon jobs_mon) (lift_os p) (s, l) (fun sl a => Q sl.1 a /\ sl.2 = l).
Proof.
  intros Hp. apply (wp_pair _ _ _ _ _ Q (fun l' _ => l' = l)); [by apply wp_lift_os |].
  clear Hp. unfold lift_os. induction p as [a | c k IH]; [done |]. intros r. apply IH.
Qed.

Lemma owned_io {A} (p : io A) g (Q : resources -> A -> Prop) :
  busy g -> wp res_mon p (sh_res g) Q ->
  owns (lift_io p) g (fun g' a => Q (sh_res g') a /\ g' = put_res (sh_res g') g).
Proof.
  intros Hb Hp. eapply owned_mono; [| apply owned_srv; [done | by apply wp_lift_os_jobs]].
  intros g' a [[HQ Hl] Hr]. simpl in *. split; [done |]. rewrite Hr. unfold put_res. simpl. by rewrite Hl.
Qed.

(** A goroutine with nothing may make calls that take nothing. *)
Lemma idle_kept s s' : kept shared_dir s s' -> idle s -> idle s'.
Proof.
  intros (Hm & Hp & Hd) (Hm0 & Hp0 & Hd0). split; [by rewrite Hm | split; [by rewrite Hp |]].
  intros d [Hin | ?]%Hd; auto.
Qed.

Lemma owned_quiet {A} (p : io A) g :
  only (System.quiet shared_dir) p -> at_rest g ->
  owns (lift_io p) g (fun g' _ => at_rest g' /\ same_role g g').
Proof.
  unfold lift_io, lift_srv, lift_os. revert g. induction p as [a | c k IH]; intros g Hq Ha; simpl in *.
  { split; [done | apply same_role_refl]. }
  destruct Hq as [Hc Hk]. split; [by repeat split; right |]. intros r g' ->. destruct Ha as [Hi Hj].
  eapply owned_mono; [| apply IH; [apply Hk |]].
  - intros g1 a [Ha Hr]. by split.
  - split; [| done]. simpl. apply (idle_kept (sh_res g)); [| done].
    apply (quiet_kept _ (sh_res g)); [done |]. repeat split; auto.
Qed.
End lifted.

(** ** The jobs a connection registers *)

Section jobs.
Context `{JSON ExitPayload, JSON StatsPayload, JSON ControlResponse}.

(** Calls that neither acquire, register nor finish anything. *)
Definition light (c : srv) : Prop :=
  match (c : scall) with
  | SAcquire _ _ _ _ _ | SSetupNet _ _ _ _ _ | SNetCleanup _ _ | SDestroy _ | SExecutePTY _ _
  | SExecuteStream _ _ _ => False
  | SReg (OpRegister _ _ _ _ _) | SReg (OpUpdateFinished _ _ _ _) => False
  | SOs c => match c with Now => True | _ => False end
  | _ => True
  end.

Lemma light_fw {A} (p : prog wire A) : only light (fw p).
Proof using. clear. unfold fw. induction p as [a | c k IH]; [done |]. split; [done |]. intros r. apply IH. Qed.

Lemma light_Encode r : only light (Encode r).
Proof. unfold Encode. only_steps. Qed.

Lemma light_stats fuel id : only light (handleStatsStream fuel id).
Proof.
  assert (forall n, only light (stats_loop n id)) as Hl.
  { induction n as [|n IH]; [done |]. cbn [stats_loop]. apply only_bind; [| by intros []].
    unfold stats_tick. only_steps; apply light_fw. }
  unfold handleStatsStream. only_steps; first [apply light_fw | apply Hl].
Qed.

Lemma jobs_light l c (r : ans c) : light c -> jobs_mon l c r = l.
Proof using. clear. destruct c; try done. by destruct o. Qed.

(** A run registers one job and finishes it. *)
Lemma wp_jobs_handleRun cfg req :
  wp jobs_mon (handleRun cfg req) [] (fun l _ => l = []).
Proof.
  pose (jobs := fun s : cycle => fold_left jobs_op (cy_ops s) []).
  assert (forall {A} (p : sio A) s Q, wp cycle_mon p s Q ->
            wp jobs_mon p (jobs s) (fun l a => exists s', l = jobs s' /\ Q s' a)) as Himg.
  { intros A p. induction p as [a | c k IH]; intros s Q Hp; simpl in *; [by exists s |].
    intros r. replace (jobs_mon (jobs s) c r) with (jobs (cycle_mon s c r)); [by apply IH |].
    unfold jobs. destruct c as [o| | | | | | | | | | | | | | | |]; try done; simpl.
    - by destruct o.
    - by rewrite fold_left_app.
    - by destruct r as [[w|]|e].
    - by destruct r. }
  eapply wp_mono; [| apply (Himg _ _ no_cycle _ (wp_handleRun_cycle cfg req))].
  intros l a (s & -> & _ & _ & _ & Hops & _). unfold jobs.
  destruct (run_told_ops _ _ _ Hops) as [-> | [[w ->] | (ctx & w & x & ->)]]; [done | done |].
  unfold execution_ops. destruct x; apply without_one.
Qed.

(** A connection that asks for no run is light. *)
Lemma handleConnection_cases cfg fuel {G} (R : G -> forall c : srv, ans c -> G -> Prop) g (Q : G -> Prop) :
  (forall g c r g', light c -> R g c r g' -> g' = g) ->
  Q g -> (forall req, rwp R (handleRun cfg req) g (fun _ g' => Q g')) ->
  rwp R (handleConnection cfg fuel) g (fun _ g' => Q g').
Proof.
  intros HR HQ Hrun.
  assert (forall A (p : sio A), only light p -> rwp R p g (fun _ g' => Q g')) as Hl.
  { intros A p Hp. eapply rwp_mono; [| by apply (rwp_only R light)]. by intros a g' ->. }
  unfold handleConnection. apply rwp_defer. eapply rwp_mono with (Q := fun _ g' => Q g').
  { intros a g' Hg'. eapply rwp_mono; [| apply (rwp_only R light); [exact HR | repeat split]].
    by intros u g2 ->. }
  apply rwp_bind. eapply rwp_mono with (Q := fun _ g' => g' = g).
  2: { apply (rwp_only R light); [exact HR | repeat split]. }
  intros r g' ->. destruct r as [req|e].
  2: { apply Hl. only_steps. apply light_fw. }
  repeat case_bool_decide; first [apply Hrun | apply Hl; unfold handleControl; only_steps];
    first [apply light_Encode | apply light_stats].
Qed.
End jobs.

(** ** The goroutines' specifications *)

Section specs.
Context `{IpamJSON, JSON ExitPayload, JSON StatsPayload, JSON ControlResponse}.
Variables (netlink_ParseAddr : string -> result string) (MarshalConfig : Config -> result string).
Variable pool0 : Pool.
Abbreviation cap := (Z.to_nat (p_capacity pool0)).
Abbreviation owns := (owned dmn_pre (dmn_share cap)).

(** An acquisition next to other goroutines: a worker and what it holds. *)
Definition acquire_shared : acquire_spec := fun _ _ _ _ s r s' =>
  forall ws, held ws s -> match r with Ok (Some w) => held (w :: ws) s' | _ => held ws s' end.

Lemma owned_spawn mb mounts isTTY cmd g : busy g ->
  owns (lift_io (spawnWorker MarshalConfig mb mounts isTTY cmd)) g (fun g' r =>
    (forall ws, held ws (sh_res g) -> match r with Ok w => held (w :: ws) (sh_res g') | Err _ => held ws (sh_res g') end)
    /\ g' = put_res (sh_res g') g).
Proof using.
  clear. intros Hb. apply (owned_io _ _ _ (fun s' r =>
    forall ws, held ws (sh_res g) -> match r with Ok w => held (w :: ws) s' | Err _ => held ws s' end)); [done |].
  apply wp_forall. intros ws. apply wp_implied. intros Hh. by apply wp_spawn_held.
Qed.

Lemma put_res_role s g : same_role g (put_res s g).
Proof using. clear. by destruct g. Qed.

Lemma owned_acquire mb mounts isTTY cmd net g : sh_wg g = true ->
  owns (acquire MarshalConfig pool0 mb mounts isTTY cmd net) g (fun g' r =>
    acquire_shared mb mounts isTTY net (sh_res g) r (sh_res g') /\ sh_jobs g' = sh_jobs g /\ same_role g g').
Proof using.
  clear. intros Hwg. assert (busy g) as Hb by by left.
  assert (forall mb1 ms tty c, owns
            (r ← lift_io (spawnWorker MarshalConfig mb1 ms tty c);
             mret (match r with Ok w => Ok (Some w) | Err e => Err e end)) g
            (fun g' (r : result (option Worker)) => acquire_shared mb mounts isTTY net (sh_res g) r (sh_res g') /\
               sh_jobs g' = sh_jobs g /\ same_role g g')) as Hsp.
  { intros mb' ms tty c. apply owned_bind. eapply owned_mono; [| by apply owned_spawn].
    intros g' r [Hh ->]. split; [| split; [done | apply put_res_role]].
    intros ws Hws. specialize (Hh ws Hws). by destruct r. }
  unfold acquire. cbv zeta. set (mb' := if mb <=? 0 then _ else mb). clearbody mb'.
  destruct (warm_fits pool0 mb' mounts isTTY net); [| apply Hsp].
  apply owned_bind, owned_call; [split; [by left | done] |]. intros [w | |] g' Hg'; simpl in Hg'.
  - destruct Hg' as (s & Hs & ->). split; [| split; [done | apply put_res_role]].
    intros ws Hws. by apply (held_join [w]).
  - subst g'. split; [by intros ws Hws | split; [done | apply same_role_refl]].
  - subst g'. apply Hsp.
Qed.

(** What a connection's call does to its share. *)
Definition conn_step (g : share) (c : srv) (r : ans c) (g' : share) : Prop :=
  run_call acquire_shared (sh_res g) c r (sh_res g') /\ sh_jobs g' = jobs_mon (sh_jobs g) c r.

Lemma wp_link_jobs c l : is_acquire c = false ->
  wp jobs_mon (link_worker netlink_ParseAddr c) l (fun l' r => l' = jobs_mon l c r).
Proof using.
  clear -H. intros Hc.
  assert (forall {A} (p : io A) l, wp jobs_mon (lift_os p) l (fun l' _ => l' = l)) as Hl.
  { intros A p. unfold lift_os. induction p as [a | c' k IH]; intros l'; [done |]. intros r. apply IH. }
  destruct c; try done; cbn [link_worker]; apply Hl.
Qed.

Lemma owned_link c g g0 : same_role g0 g -> sh_wg g0 = true ->
  owns (link_conn netlink_ParseAddr MarshalConfig pool0 c) g (fun g' r => conn_step g c r g' /\ same_role g0 g').
Proof using.
  clear -H. intros Hr Hwg. assert (sh_wg g = true) as Hwg' by by rewrite Hr.
  destruct (is_acquire c) eqn:Hc.
  - destruct c; try done. eapply owned_mono; [| by apply owned_acquire].
    intros g' r (Ha & Hj & Hr'). split; [by split |]. by eapply same_role_trans.
  - assert (link_conn netlink_ParseAddr MarshalConfig pool0 c = lift_srv (link_worker netlink_ParseAddr c)) as ->
      by by destruct c.
    eapply owned_mono; [| apply owned_srv; [by left | apply wp_pair; [by apply link_worker_spec | by apply wp_link_jobs]]].
    intros g' r [[Ha Hj] Hr']. split; [by split |]. by eapply same_role_trans.
Qed.

(** A connection gives everything back and finishes what it registered. *)
Lemma owned_conn cfg fuel :
  owns (conn_thread netlink_ParseAddr MarshalConfig pool0 cfg fuel) (new_share true false false) ended.
Proof.
  unfold conn_thread. apply owned_defer. set (g0 := new_share true false false).
  eapply owned_mono with (Q := fun g' _ => at_rest g' /\ same_role g0 g').
  { intros g a [Ha Hr]. assert (sh_wg g = true) as Hwg by by rewrite Hr.
    apply owned_call; [split; [by left; left |]; split; [done | split; [by rewrite Hr | done]] |].
    intros r g' ->. split; [exact Ha |]. rewrite Hr. repeat split. intros [=]. }
  eapply owned_mono; [| apply (owned_translate _ _ conn_step (same_role g0)) with
    (Q := fun _ g' => at_rest g')].
  - by intros g a [Ha Hr].
  - intros g c Hr. by apply owned_link.
  - apply same_role_refl.
  - eapply rwp_mono; [| apply (rwp_project conn_step (fun x c r x' =>
      run_call acquire_shared x.1 c r x'.1 /\ x'.2 = jobs_mon x.2 c r) (fun g => (sh_res g, sh_jobs g)))
      with (Q := fun _ x => idle x.1 /\ x.2 = [])].
    + by intros a g'.
    + by intros g c r g'.
    + apply (handleConnection_cases cfg fuel _ _ (fun x => idle x.1 /\ x.2 = [])).
      * intros [s l] c r [s' l'] Hc [Hs Hl]; simpl in *. rewrite (jobs_light _ _ _ Hc) in Hl. subst l'. f_equal.
        destruct c as [o| | | | | | | | | | | | | | | |]; try done. by destruct o.
      * split; [apply idle_none | done].
      * intros req. eapply rwp_mono; [| apply (rwp_pair (run_call acquire_shared) (fun l c r l' => l' = jobs_mon l c r))
          with (Q := fun _ s' => held [] s') (Q' := fun _ l => l = [])].
        -- intros a [s l] [Hs Hl]. split; [by apply held_nil | done].
        -- apply call_handleRun. intros r s' Ha. apply Ha. apply held_nil, idle_none.
        -- apply rwp_of_wp, wp_jobs_handleRun.
Qed.

(** A replacement holds the mutex while it makes its worker, and hands it on. *)
Lemma owned_replenish : owns (replenish MarshalConfig pool0) (new_share false true false) ended.
Proof using.
  clear. unfold replenish. apply owned_bind, owned_call.
  { split; [right; split; [apply idle_none | done] | done]. }
  intros [|] g ->; [| split; [split; [apply idle_none | done] | done]].
  apply owned_bind. eapply owned_mono; [| apply owned_spawn; by right].
  intros g1 r [Hh Hg1]. specialize (Hh [] ltac:(apply held_nil, idle_none)).
  assert (sh_mutex g1 = Some HoldSpawn) as Hm by by rewrite Hg1.
  apply owned_bind, owned_call.
  - split; [left; right; by rewrite Hm |]. split; [done |]. split; [by rewrite Hg1 |].
    destruct r; [done | by apply held_nil].
  - intros [] g2 ->. destruct r as [w|e]; (split; [| by rewrite Hg1]); split; simpl; try by rewrite Hg1.
    + apply idle_none.
    + by apply held_nil.
Qed.

Lemma quiet_input w s : only (System.quiet shared_dir) (input_loop w s).
Proof using. clear. unfold input_loop, handle_input, WriteInput, Resize. only_steps. Qed.

Lemma owned_input w s : owns (input_thread w s) (new_share false false false) ended.
Proof using.
  clear. unfold input_thread. apply owned_bind.
  eapply owned_mono; [| apply owned_quiet; [apply quiet_input | split; [apply idle_none | done]]].
  intros g [] [Ha Hr]. split; [done |]. by rewrite Hr.
Qed.

(** The main goroutine after [n] of the stages of a stop. *)
Definition stopping (n : nat) (g : share) : Prop :=
  at_rest g /\ sh_mutex g = None /\ sh_wg g = false /\ sh_pending g = false /\ sh_phase g = n /\ sh_main g = true.

Lemma owned_drain n k g :
  (k <= n)%nat -> stopping 2 (put_mutex None g) -> sh_mutex g = Some (HoldClose k) ->
  owns (drain n) g (fun g' _ => stopping 3 g').
Proof using.
  clear. revert k g. induction n as [|n IH]; intros k g Hk Hs Hm; simpl in Hs;
    cbn [drain]; (apply owned_bind, owned_call;
    [destruct Hs as (Ha & _ & _ & _ & Hp & _); split; [by right | by exists k] |]);
    (intros [w|] g' Hg'; simpl in Hg';
     [destruct Hg' as (k' & s & Hm' & Hw & ->) | subst g'; by destruct Hs as (Ha & _ & Hwg & Hpe & Hp & Hma)]).
  - rewrite Hm in Hm'. injection Hm' as ->. lia.
  - rewrite Hm in Hm'. injection Hm' as ->. apply owned_bind.
    eapply owned_mono; [| apply (owned_io _ _ _ (fun s' _ => idle s')); [by right |]].
    + intros g2 [] [Hi ->]. apply (IH k'); [lia | | done].
      destruct Hs as ([_ Hj] & _ & Hwg & Hpe & Hp & Hma). by repeat split; try apply Hi.
    + destruct Hs as ([Hi Hj] & _). eapply wp_mono; [| apply wp_close_worker].
      intros s' a Hrel. apply held_nil. apply (released_held _ _ _ _ Hrel).
      apply (held_join [w] []); [done | by apply held_nil].
Qed.

Lemma owned_close_pool g : stopping 2 g -> owns (close_pool pool0) g (fun g' _ => stopping 3 g').
Proof using.
  clear. intros Hs. pose proof Hs as (Ha & Hm & Hwg & Hpe & Hp & Hma). unfold close_pool.
  apply owned_bind, owned_call; [split; [by right | done] |]. intros [|] g' Hg'; simpl in Hg'.
  - destruct Hg' as (k & Hk & ->). by apply (owned_drain _ k).
  - by subst g'.
Qed.

Lemma owned_stopping {A} (p : io A) n g :
  only (System.quiet shared_dir) p -> stopping n g -> owns (lift_io p) g (fun g' _ => stopping n g').
Proof using.
  clear. intros Hq Hs. pose proof Hs as (Ha & Hm & Hwg & Hpe & Hp & Hma).
  eapply owned_mono; [| by apply owned_quiet]. intros g' a [Ha' ->]. done.
Qed.

(** A stop waits for the goroutines of the wait group with the pool closed. *)
Lemma owned_stop d g : d_pool d <> None -> d_listening d = true -> stopping 0 g -> owns (stop_thread pool0 d) g ended.
Proof using.
  clear. intros Hd Hl (Ha & Hm & Hwg & Hpe & Hp & Hma). unfold stop_thread. rewrite Hl. destruct (d_pool d) as [p|]; [| done].
  apply owned_bind, owned_call; [split; [by right | done] |]. intros [] g1 ->.
  apply owned_bind. eapply owned_mono with (Q := fun g' _ => stopping 2 g').
  2: { apply owned_bind, owned_call; [split; [by right | done] |]. by intros r g' ->. }
  clear g Ha Hm Hwg Hpe Hp Hma. intros g [] Hs. apply owned_bind. eapply owned_mono; [| by apply owned_close_pool]. clear g Hs.
  intros g [] Hs. pose proof Hs as (Ha & Hm & Hwg & Hpe & Hp & Hma).
  apply owned_bind, owned_call; [split; [by right | done] |]. intros [] g' ->.
  assert (stopping 4 (put_phase 4 g)) as Hs4 by done.
  apply owned_bind. eapply owned_mono; [| apply owned_stopping; [by repeat split | exact Hs4]]. clear.
  intros g [] Hs. apply owned_bind. eapply owned_mono; [| apply owned_stopping; [| exact Hs]]; clear.
  - intros g [] (Ha & Hm & Hwg & Hpe & Hp & Hma). by repeat split; try apply Ha.
  - destruct (d_lockFile d); [by repeat split | done].
Qed.
End specs.
