(* ===== verification/Shutdown.v ===== *)
(** * The daemon as a whole

    The shares of the daemon's goroutines add up to what the system holds, the registry
    lists, the wait group counts and the pool's mutex says, in every state that any
    interleaving reaches.  So of mounts, running processes and directories the daemon leaves
    only those of its idle workers when nothing is under way, none when it has been
    stopped, but what the system refused to give back; and its goroutines never wait for
    each other in vain. *)

From Stdlib Require Import Init.Byte SpecFloat.
From stdpp Require Import relations.
From S2P Require Import Prelude GoStrings GoStrconv GoPath GoSort Effects OS SandboxConfig Protocol Cgroup Registry.
From S2P Require Import GoNet Ipam Dns Network Overlay Resources Pool DaemonConfig Recovery Server System.
From S2P Require Import Ownership Goroutines Schedule Shares.
#[local] Open Scope go_scope.

(** ** Resources covered by shares *)

Definition covered (s : resources) (l : list resources) : Prop :=
  (forall m, m ∈ rs_mounts s -> exists x, x ∈ l /\ m ∈ rs_mounts x) /\
  (forall p, p ∈ rs_procs s -> exists x, x ∈ l /\ p ∈ rs_procs x) /\
  (forall d, d ∈ rs_dirs s -> exists x, x ∈ l /\ d ∈ rs_dirs x).

Lemma covered_mono s l l' : (forall x, x ∈ l -> x ∈ l') -> covered s l -> covered s l'.
Proof.
  intros Hl (Hm & Hp & Hd). split; [| split].
  - intros m (x & Hx & ?)%Hm. eauto.
  - intros p (x & Hx & ?)%Hp. eauto.
  - intros d (x & Hx & ?)%Hd. eauto.
Qed.

Lemma covered_perm s l l' : l ≡ₚ l' -> covered s l -> covered s l'.
Proof. intros E. apply covered_mono. intros x. by rewrite E. Qed.

Lemma covered_cons s x l : covered s l -> covered s (x :: l).
Proof. apply covered_mono. intros y Hy. by right. Qed.

Lemma covered_join s x y l : covered s (x :: y :: l) -> covered s (join y x :: l).
Proof.
  intros (Hm & Hp & Hd). split; [| split]; intros z Hz;
    [apply Hm in Hz as (x' & Hx & Hin) | apply Hp in Hz as (x' & Hx & Hin) | apply Hd in Hz as (x' & Hx & Hin)];
    rewrite !elem_of_cons in Hx; destruct Hx as [-> | [-> | Hx]];
    first [exists x'; by split; [right |] | exists (join y x); split; [by left |]; simpl; rewrite elem_of_app; auto].
Qed.

(** The other shares as one frame. *)
Definition joins (l : list resources) : resources := foldr join no_resources l.

Lemma elem_of_joins {A} (f : resources -> list A) (Hf : forall s1 s2, f (join s1 s2) = f s1 ++ f s2)
    (H0 : f no_resources = []) (y : A) l : y ∈ f (joins l) <-> exists x, x ∈ l /\ y ∈ f x.
Proof.
  induction l as [|x l IH]; simpl.
  - rewrite H0, elem_of_nil. split; [done |]. by intros (x & ?%elem_of_nil & _).
  - rewrite Hf, elem_of_app, IH. split.
    + intros [? | (z & ? & ?)]; [exists x; by split; [left |] | exists z; by split; [right |]].
    + intros (z & [-> | ?]%elem_of_cons & ?); eauto.
Qed.

Lemma covered_framed s x l : covered s (x :: l) <-> framed (joins l) x s.
Proof.
  unfold covered, framed.
  setoid_rewrite (elem_of_joins rs_mounts (fun _ _ => eq_refl) eq_refl).
  setoid_rewrite (elem_of_joins rs_procs (fun _ _ => eq_refl) eq_refl).
  setoid_rewrite (elem_of_joins rs_dirs (fun _ _ => eq_refl) eq_refl).
  setoid_rewrite elem_of_cons. naive_solver.
Qed.

(** A call changes the system and the share of the goroutine that makes it alike. *)
Lemma covered_step s x l (c : os) (r : ans c) :
  covered s (x :: l) -> covered (res_mon s c r) (res_mon x c r :: l).
Proof. rewrite !covered_framed. apply framed_step. Qed.

(** Shares that hold only what some workers hold. *)
Lemma covered_held ws s l :
  (forall w, w ∈ ws -> worker_shape w) -> (forall x, x ∈ l -> held ws x) -> covered s l -> held ws s.
Proof.
  intros Hsh Hl (Hm & Hp & Hd). split; [done | | |].
  - intros m (x & Hx & Hin)%Hm. by apply (held_mounts _ _ (Hl x Hx)).
  - intros p (x & Hx & Hin)%Hp. by apply (held_procs _ _ (Hl x Hx)).
  - intros d (x & Hx & Hin)%Hd. by apply (held_dirs _ _ (Hl x Hx)).
Qed.

Lemma covered_workers s ws l psh :
  (forall x, x ∈ l -> idle x) -> Forall2 (fun w s => held [w] s) ws psh -> covered s (l ++ psh) -> held ws s.
Proof.
  intros Hl Hw. assert (forall w, w ∈ ws -> worker_shape w) as Hsh.
  { intros w Hin. apply list_elem_of_lookup in Hin as [i Hi].
    destruct (Forall2_lookup_l _ _ _ _ _ Hw Hi) as (y & _ & Hy). apply (held_shape _ _ Hy). by left. }
  apply covered_held; [done |]. intros x [Hx | Hx]%elem_of_app.
  - apply (held_weaken []); [by intros w ?%elem_of_nil | done |]. by apply held_nil, Hl.
  - apply list_elem_of_lookup in Hx as [i Hi]. destruct (Forall2_lookup_r _ _ _ _ _ Hw Hi) as (w & Hwi & Hx).
    apply (held_weaken [w]); [| done | done]. intros w' ->%list_elem_of_singleton. by apply list_elem_of_lookup_2 in Hwi.
Qed.

(** ** The registry's active jobs *)

Definition jobs_ok (r : registry) (gs : list share) : Prop :=
  forall id j, r !! id = Some j -> active_status (status j) = true -> exists g, g ∈ gs /\ id ∈ sh_jobs g.

Lemma jobs_ok_mono r gs gs' : (forall id, (exists g, g ∈ gs /\ id ∈ sh_jobs g) -> exists g, g ∈ gs' /\ id ∈ sh_jobs g) ->
  jobs_ok r gs -> jobs_ok r gs'.
Proof. intros Hm Hj id j Hid Ha. apply Hm. by eapply Hj. Qed.

(** A job that is active after a method was active before it, unless it was registered,
    and was not finished. *)
Lemma reg_active r o tr r' a id j :
  ends (exec_op r o) tr (r', a) -> r' !! id = Some j -> active_status (status j) = true ->
  (exists pid cmd args ctx, o = OpRegister id pid cmd args ctx) \/
  ((exists j0, r !! id = Some j0 /\ active_status (status j0) = true) /\
   forall c p t, o <> OpUpdateFinished id c p t).
Proof.
  intros He Hj Ha.
  assert (forall r1, r' = r1 -> (forall c p t, o <> OpUpdateFinished id c p t) -> r1 !! id = r !! id ->
    (exists pid cmd args ctx, o = OpRegister id pid cmd args ctx) \/
    ((exists j0, r !! id = Some j0 /\ active_status (status j0) = true) /\
     forall c p t, o <> OpUpdateFinished id c p t)) as Hsame.
  { intros r1 -> Ho E. right. split; [exists j; by rewrite <- E |]. exact Ho. }
  destruct (decide (Registry.op_id o = id)) as [<- | Hne].
  2: { pose proof (exec_op_effect _ _ _ _ _ He) as Hf. destruct a as [[]|e]; [| subst r'].
       - apply (Hsame r'); [done | by intros c p t -> | by apply (effect_other o)].
       - apply (Hsame r); [done | by intros c p t -> | done]. }
  destruct o as [id pid cmd args ctx | id cg m p | id pid | id c p t | id | id | id];
    cbn [Registry.op_id] in *; [by left; eauto | ..].
  4-6: pose proof (exec_op_effect _ _ _ _ _ He) as Hf; destruct a as [[]|e]; [| by apply (Hsame r)];
    destruct Hf as (j0 & Hj0 & Hs & _); right; (split; [exists j0; rewrite ?Hs; by split | done]).
  - right. apply ends_inv in He as [[= -> _] _]. unfold AttachCgroup in Hj.
    destruct (r !! id) as [j0|] eqn:E; [| congruence]. rewrite lookup_insert_eq in Hj. injection Hj as <-.
    split; [| done]. by exists j0.
  - right. apply ends_inv in He as [[= -> _] _]. unfold UpdatePID in Hj.
    destruct (r !! id) as [j0|] eqn:E; [| congruence]. rewrite lookup_insert_eq in Hj. injection Hj as <-.
    split; [| done]. by exists j0.
  - exfalso. apply update_finished_lookup in He as [Ho Hn]. destruct (r !! id) eqn:E.
    + destruct (Ho ltac:(done)) as (j' & Hj' & Ha'). congruence.
    + rewrite Hn in Hj; done.
Qed.

Lemma jobs_ok_reg r o tr r' a g g' gs :
  ends (exec_op r o) tr (r', a) -> sh_jobs g' = jobs_op (sh_jobs g) o ->
  jobs_ok r (g :: gs) -> jobs_ok r' (g' :: gs).
Proof.
  intros He Hg Hj id j Hid Ha.
  destruct (reg_active _ _ _ _ _ _ _ He Hid Ha) as [(pid & cmd & args & ctx & ->) | [(j0 & Hj0 & Ha0) Ho]].
  { exists g'. split; [by left |]. rewrite Hg. by left. }
  destruct (Hj id j0 Hj0 Ha0) as (g2 & [-> | Hin]%elem_of_cons & Hid2); [| exists g2; by split; [right |]].
  exists g'. split; [by left |]. rewrite Hg. destruct o; try done; simpl; [by right |].
  unfold without. apply list_elem_of_filter. split; [| done]. intros ->. by eapply Ho.
Qed.

(** ** The invariant *)

#[local] Arguments omap : simpl never.

(** Who holds the mutex, by the pool. *)
Definition holders (mu : mutex) (k : nat) : list hold :=
  match mu with Free => [] | Replenishing => [HoldSpawn] | Closing => [HoldClose k] end.

Lemma mutex_cons g gs :
  omap sh_mutex (g :: gs) = match sh_mutex g with Some h => h :: omap sh_mutex gs | None => omap sh_mutex gs end.
Proof. done. Qed.

#[local] Instance busy_dec g : Decision (busy g).
Proof. unfold busy. solve_decision. Defined.

(** A goroutine that has ended or that waits for the signal. *)
Definition done_or_signal (p : goroutine) : Prop :=
  match p with Ret _ => True | Vis c _ => is_signal c = true end.

#[local] Instance done_or_signal_dec p : Decision (done_or_signal p).
Proof. destruct p; simpl; solve_decision. Defined.

Section invariant.
Context `{IpamJSON, JSON ExitPayload, JSON StatsPayload, JSON ControlResponse}.
Variables (netlink_ParseAddr : string -> result string) (MarshalConfig : Config -> result string).
Variable pool0 : Pool.
Abbreviation cap := (Z.to_nat (p_capacity pool0)).
Abbreviation owns := (owned dmn_pre (dmn_share cap)).

(** The shares [gs] of the goroutines and [psh] of the idle workers, and the daemon. *)
Record ginv (gs : list share) (psh : list resources) (d : world) : Prop := {
  gi_pool : pool_inv (wd_pool d);
  gi_cap : p_capacity (wd_pool d) = p_capacity pool0;
  gi_idle : Forall2 (fun w s => held [w] s) (p_workers (wd_pool d)) psh;
  gi_cover : covered (wd_res d) (map sh_res gs ++ psh);
  gi_tracks : tracks (wd_res d) (wd_sys d);
  gi_jobs : jobs_ok (wd_reg d) gs;
  gi_mutex : exists k, omap sh_mutex gs ≡ₚ holders (p_mu (wd_pool d)) k /\ (length (p_workers (wd_pool d)) <= k)%nat;
  gi_wg : wd_wg d = (Nat.b2n (wd_accepting d) + count sh_wg gs)%nat;
  gi_pending : p_pending (wd_pool d) = count sh_pending gs;
  gi_closed : p_closed (wd_pool d) = true -> p_mu (wd_pool d) <> Closing -> p_workers (wd_pool d) = [];
  gi_phase g : g ∈ gs ->
    ((1 <= sh_phase g)%nat -> wd_shutdown d = true) /\
    ((2 <= sh_phase g)%nat -> wd_listening d = false) /\
    ((3 <= sh_phase g)%nat -> p_closed (wd_pool d) = true /\ p_mu (wd_pool d) = Free) /\
    ((4 <= sh_phase g)%nat -> wd_wg d = 0%nat);
}.

Lemma ginv_perm gs gs' psh d : gs ≡ₚ gs' -> ginv gs psh d -> ginv gs' psh d.
Proof using.
  clear. intros E [Hp Hc Hi Hco Ht Hj Hm Hw Hpe Hcl Hph]. split; try done.
  - eapply covered_perm; [| exact Hco]. by rewrite E.
  - eapply jobs_ok_mono; [| exact Hj]. intros id (g & Hg & ?). exists g. by rewrite <- E.
  - destruct Hm as (k & Hk & Hl). exists k. by rewrite <- E.
  - by rewrite <- (count_perm _ _ _ E).
  - by rewrite <- (count_perm _ _ _ E).
  - intros g Hg. apply Hph. by rewrite E.
Qed.

(** A goroutine that joins, and one that changes its resources and jobs only. *)
Lemma ginv_same_pool g g' gs psh d d' :
  same_role g g' -> ginv (g :: gs) psh d ->
  wd_pool d' = wd_pool d -> wd_wg d' = wd_wg d -> wd_shutdown d' = wd_shutdown d ->
  wd_accepting d' = wd_accepting d -> wd_listening d' = wd_listening d -> tracks (wd_res d') (wd_sys d') ->
  covered (wd_res d') (sh_res g' :: map sh_res gs ++ psh) -> jobs_ok (wd_reg d') (g' :: gs) ->
  ginv (g' :: gs) psh d'.
Proof using.
  clear. unfold same_role. intros E [Hp Hc Hi Hco Ht Hj Hm Hw Hpe Hcl Hph] Ep Ew Es Ea El Ht' Hj0 Hj'. rename Hj0 into Hco'.
  assert (sh_mutex g' = sh_mutex g /\ sh_wg g' = sh_wg g /\ sh_pending g' = sh_pending g /\ sh_phase g' = sh_phase g)
    as (E1 & E2 & E3 & E4) by by rewrite E.
  split; rewrite ?Ep, ?Ew, ?Es, ?Ea, ?El; try done.
  - rewrite mutex_cons in *. by rewrite E1.
  - by rewrite count_cons in *; rewrite E2.
  - by rewrite count_cons in *; rewrite E3.
  - intros x [-> | Hx]%elem_of_cons; [rewrite E4; apply Hph; by left | apply Hph; by right].
Qed.

Lemma ginv_join g gs psh d :
  idle (sh_res g) -> sh_mutex g = None -> sh_wg g = false -> sh_pending g = false -> sh_phase g = 0%nat ->
  ginv gs psh d -> ginv (g :: gs) psh d.
Proof using.
  clear. intros Hidle E1 E2 E3 E4 [Hp Hc Hi Hco Ht Hj Hm Hw Hpe Hcl Hph]. split; try done.
  - by apply covered_cons.
  - eapply jobs_ok_mono; [| exact Hj]. intros id (x & Hx & ?). exists x. by split; [right |].
  - by rewrite mutex_cons, E1.
  - by rewrite count_cons, E2.
  - by rewrite count_cons, E3.
  - intros x [-> | Hx]%elem_of_cons; [rewrite E4; split_and!; lia | by apply Hph].
Qed.

(** The daemon after a call of the goroutine with the first share. *)
Definition keeps (g : share) (gs : list share) (c : dmn) (r : ans c) (d' : world) (new : list goroutine) : Prop :=
  exists g' ns psh', dmn_share cap g c r g' /\ Forall2 (fun p n => owns p n ended) new ns /\
    ginv (ns ++ g' :: gs) psh' d'.

Lemma keeps_srv g gs psh d c (r : sans c) d' new :
  ginv (g :: gs) psh d -> srv_does d c r d' new -> keeps g gs (DSrv c) r d' new.
Proof using.
  clear. intros Hinv Hs. pose proof Hinv as [Hp Hc Hi Hco Ht Hj Hm Hw Hpe Hcl Hph].
  set (g' := {| sh_res := sys_res_mon (sh_res g) c r; sh_jobs := jobs_mon (sh_jobs g) c r;
    sh_mutex := sh_mutex g; sh_wg := sh_wg g; sh_pending := sh_pending g; sh_phase := sh_phase g;
    sh_main := sh_main g |}).
  assert (forall d1, wd_pool d1 = wd_pool d -> wd_wg d1 = wd_wg d -> wd_shutdown d1 = wd_shutdown d ->
    wd_accepting d1 = wd_accepting d -> wd_listening d1 = wd_listening d -> tracks (wd_res d1) (wd_sys d1) ->
    covered (wd_res d1) (sh_res g' :: map sh_res gs ++ psh) ->
    jobs_ok (wd_reg d1) (g' :: gs) -> ginv (g' :: gs) psh d1) as Hend.
  { intros d1. by apply (ginv_same_pool g). }
  assert (sh_jobs g' = sh_jobs g -> jobs_ok (wd_reg d) (g' :: gs)) as Hjobs.
  { intros E id j Hid Ha. destruct (Hj id j Hid Ha) as (x & [-> | Hx]%elem_of_cons & Hin); [exists g' | exists x].
    - rewrite E. by split; [left |].
    - by split; [right |]. }
  assert (sh_res g' = sh_res g -> sh_jobs g' = sh_jobs g -> ginv (g' :: gs) psh d) as Hsame.
  { intros E1 E2. apply Hend; try done; [by rewrite E1 | by apply Hjobs]. }
  assert (new = [] -> ginv (g' :: gs) psh d' -> keeps g gs (DSrv c) r d' new) as Hk.
  { intros -> Hg. exists g', [], psh. split; [done | split; [constructor | done]]. }
  destruct c as [c | | | | | o | | id | id | | | | | | w | |]; simpl in Hs; try (destruct Hs as [-> ->]; by apply Hk, Hsame).
  - destruct Hs as [-> ->]. apply Hk; [done |]. apply Hend; try done; [by apply tracks_step | by apply covered_step | by apply Hjobs].
  - destruct Hs as (tr & r' & He & -> & ->). apply Hk; [done |]. apply Hend; try done. by eapply jobs_ok_reg.
  - destruct Hs as (-> & -> & _). by apply Hk, Hsame.
  - destruct Hs as (_ & -> & ->). by apply Hk, Hsame.
  - destruct Hs as (_ & -> & ->). by apply Hk, Hsame.
  - destruct Hs as (-> & s & ->). exists g', [new_share false false false], psh.
    split; [done |]. split; [constructor; [apply owned_input | constructor] |].
    apply ginv_join; try done; [apply idle_none |]. by apply Hsame.
Qed.

(** *** The pool's calls *)

Lemma jobs_ok_head r g g' gs : sh_jobs g' = sh_jobs g -> jobs_ok r (g :: gs) -> jobs_ok r (g' :: gs).
Proof using.
  clear. intros E. apply jobs_ok_mono. intros id (x & [-> | Hx]%elem_of_cons & Hin); [exists g' | exists x].
  - rewrite E. by split; [left |].
  - by split; [right |].
Qed.

(** The mutex is held once. *)
Lemma mutex_held (g : share) gs h mu k :
  sh_mutex g = Some h -> omap sh_mutex (g :: gs) ≡ₚ holders mu k -> holders mu k = [h] /\ omap sh_mutex gs = [].
Proof using.
  clear. intros E Hp. rewrite mutex_cons in Hp. rewrite E in Hp.
  destruct mu; simpl in *; [by apply Permutation_nil_r in Hp | |]; apply Permutation_singleton_r in Hp; by injection Hp as -> ->.
Qed.

Lemma mutex_free (g : share) gs k : omap sh_mutex (g :: gs) ≡ₚ holders Free k -> omap sh_mutex gs = [].
Proof using.
  clear. intros Hp. apply Permutation_nil_r in Hp. rewrite mutex_cons in Hp. by destruct (sh_mutex g).
Qed.

(** The goroutine that a receive from the pool's channel starts, if any. *)
Definition waiting (n : nat) : list share := repeat (new_share false true false) n.

Lemma in_waiting x n : x ∈ waiting n -> x = new_share false true false.
Proof using. clear. intros Hx. by apply list_elem_of_In, repeat_spec in Hx. Qed.

Lemma count_waiting (f : share -> bool) n l :
  count f (waiting n ++ l) = (n * Nat.b2n (f (new_share false true false)) + count f l)%nat.
Proof using. clear. induction n as [|n IH]; [done |]. cbn [waiting repeat app]. rewrite count_cons. fold (waiting n). rewrite IH. lia. Qed.

Lemma omap_waiting n l : omap sh_mutex (waiting n ++ l) = omap sh_mutex l.
Proof using. clear. by induction n. Qed.

(** A change of the pool by the goroutine with the first share. *)
Lemma ginv_pool n g g' gs psh psh' d p' :
  ginv (g :: gs) psh d -> pool_inv p' -> p_capacity p' = p_capacity (wd_pool d) ->
  Forall2 (fun w s => held [w] s) (p_workers p') psh' ->
  covered (wd_res d) (sh_res g' :: map sh_res gs ++ psh') ->
  sh_jobs g' = sh_jobs g -> sh_wg g' = sh_wg g ->
  (exists k, omap sh_mutex (g' :: gs) ≡ₚ holders (p_mu p') k /\ (length (p_workers p') <= k)%nat) ->
  p_pending p' = (n + count sh_pending (g' :: gs))%nat ->
  (p_closed p' = true -> p_mu p' <> Closing -> p_workers p' = []) ->
  (forall x, x ∈ g' :: gs -> (3 <= sh_phase x)%nat -> p_closed p' = true /\ p_mu p' = Free) ->
  ((1 <= sh_phase g')%nat -> wd_shutdown d = true) -> ((2 <= sh_phase g')%nat -> wd_listening d = false) ->
  ((4 <= sh_phase g')%nat -> wd_wg d = 0%nat) ->
  ginv (waiting n ++ g' :: gs) psh' (with_pool p' d).
Proof using.
  clear. intros [Hp Hc Hi Hco Ht Hj Hm Hw Hpe Hcl Hph] Hp' Hc' Hi' Hco' Ej Ew Hm' Hpe' Hcl' H3 H1 H2 H4.
  split; simpl; try done.
  - congruence.
  - eapply covered_mono; [| exact Hco']. intros x. rewrite map_app. simpl. set_solver.
  - eapply jobs_ok_mono; [| by apply (jobs_ok_head _ g)]. intros id (x & Hx & Hin). exists x.
    split; [apply elem_of_app; by right | done].
  - by rewrite omap_waiting.
  - rewrite count_waiting, count_cons in *. simpl. rewrite Ew. lia.
  - rewrite count_waiting. simpl. lia.
  - intros x [->%in_waiting | Hx]%elem_of_app; [simpl; split_and!; lia |]. split; [| split; [| split]].
    + apply elem_of_cons in Hx as [-> | Hx]; [done | by apply Hph; right].
    + apply elem_of_cons in Hx as [-> | Hx]; [done | by apply Hph; right].
    + by apply H3.
    + apply elem_of_cons in Hx as [-> | Hx]; [done | by apply Hph; right].
Qed.

(** A worker moves from the pool to a goroutine. *)
Lemma covered_moves s (f : share -> resources) x gs y psh :
  covered s (x :: map f gs ++ y :: psh) -> covered s (join y x :: map f gs ++ psh).
Proof using.
  clear. intros Hc. apply covered_join. eapply covered_perm; [| exact Hc].
  by rewrite <- Permutation_middle.
Qed.

Abbreviation doing := (does MarshalConfig pool0).

Lemma keeps_take g gs psh d t d' new :
  ginv (g :: gs) psh d -> sh_wg g = true -> doing d DTake t d' new -> keeps g gs DTake t d' new.
Proof using.
  clear. intros Hinv Hwg (-> & (p' & Hs & ->) & ->). pose proof Hinv as [Hp Hc Hi Hco Ht Hj (k & Hm & Hk) Hw Hpe Hcl Hph].
  pose proof (pool_step_inv _ _ _ Hp Hs) as Hp'. simpl in Hs. injection Hs as <-.
  destruct (Hph g ltac:(by left)) as (P1 & P2 & P3 & P4).
  assert (forall x, x ∈ g :: gs -> (3 <= sh_phase x)%nat -> p_closed (wd_pool d) = true /\ p_mu (wd_pool d) = Free)
    as Hph2 by (intros x Hx; by apply (Hph x)).
  assert (Forall2 (fun p n => owns p n ended) [replenish MarshalConfig pool0] (waiting 1)) as Hrep.
  { constructor; [apply owned_replenish | constructor]. }
  unfold take_worker in *. destruct (p_workers (wd_pool d)) as [|w ws] eqn:Hws.
  - apply Forall2_nil_inv_l in Hi as ->. destruct (p_closed (wd_pool d)) eqn:Hcld; simpl in *.
    + exists g, (waiting 1), []. split; [done | split; [done |]].
      eapply (ginv_pool 1 g); [exact Hinv | exact Hp' |..]; simpl; try done; [by exists k | by rewrite Hpe].
    + exists g, [], []. split; [done | split; [constructor |]].
      eapply (ginv_pool 0 g); [exact Hinv | exact Hp' |..]; try done; [by rewrite Hws | exists k; by rewrite Hws | by rewrite Hcld].
  - apply Forall2_cons_inv_l in Hi as (s & psh' & Hsw & Hi & ->). simpl in *.
    exists (put_res (join s (sh_res g)) g), (waiting 1), psh'.
    split; [by exists s | split; [done |]].
    eapply (ginv_pool 1 g); [exact Hinv | exact Hp' |..]; simpl; try done; [by apply covered_moves | exists k; split; [done | lia] | by rewrite Hpe, !count_cons | ..].
    + intros Hcld Hmu. by specialize (Hcl Hcld Hmu).
    + intros x [-> | Hx]%elem_of_cons; [exact P3 | by apply Hph2; right].
Qed.

Lemma keeps_replenish g gs psh d open d' new :
  ginv (g :: gs) psh d -> dmn_pre g DReplenish -> doing d DReplenish open d' new -> keeps g gs DReplenish open d' new.
Proof using.
  clear. intros Hinv (_ & Hwg & Hmg & Hpg & Hphg) ((p' & Hs & ->) & -> & ->).
  pose proof Hinv as [Hp Hc Hi Hco Ht Hj (k & Hm & Hk) Hw Hpe Hcl Hph].
  pose proof (pool_step_inv _ _ _ Hp Hs) as Hp'. simpl in Hs.
  destruct (p_mu (wd_pool d)) eqn:Hmu; try done. apply mutex_free in Hm.
  destruct (p_pending (wd_pool d)) as [|n] eqn:Hn; [done |]. rewrite count_cons, Hpg in Hpe. simpl in Hpe.
  destruct (p_closed (wd_pool d)) eqn:Hcld; injection Hs as <-; simpl in *.
  - exists (no_pending g), [], psh. split; [done | split; [constructor |]].
    eapply (ginv_pool 0 g); [exact Hinv | exact Hp' | ..]; simpl; try done; try (rewrite Hphg; lia).
    + exists (length (p_workers (wd_pool d))). by rewrite mutex_cons; simpl; rewrite Hmg, Hm.
    + rewrite count_cons. simpl. lia.
  - exists (no_pending (put_mutex (Some HoldSpawn) g)), [], psh. split; [done | split; [constructor |]].
    eapply (ginv_pool 0 g); [exact Hinv | exact Hp' | ..]; simpl; try done; try (rewrite Hphg; lia).
    + exists (length (p_workers (wd_pool d))). by rewrite mutex_cons, Hm.
    + rewrite count_cons. simpl. lia.
    + intros x [-> | Hx]%elem_of_cons; simpl; [rewrite Hphg; lia |]. intros H2.
      by destruct (Hph x ltac:(by right)) as (_ & _ & [] & _).
Qed.

Lemma keeps_put g gs psh d r a d' new :
  ginv (g :: gs) psh d -> dmn_pre g (DPut r) -> doing d (DPut r) a d' new -> keeps g gs (DPut r) a d' new.
Proof using.
  clear. intros Hinv (_ & Hmg & Hjg & Hr) ((p' & Hs & ->) & ->).
  pose proof Hinv as [Hp Hc Hi Hco Ht Hj (k & Hm & Hk) Hw Hpe Hcl Hph].
  pose proof (pool_step_inv _ _ _ Hp Hs) as Hp'. destruct (mutex_held _ _ _ _ _ Hmg Hm) as [Hmu Hm'].
  destruct (p_mu (wd_pool d)) eqn:Hmu'; try done. pose proof (inv_replenish _ Hp Hmu') as Hopen.
  assert (forall x, x ∈ g :: gs -> (sh_phase x < 3)%nat) as Hlow.
  { intros x Hx. destruct (Hph x Hx) as (_ & _ & H2 & _). destruct (decide (3 <= sh_phase x)%nat) as [Hle|]; [| lia].
    by apply H2 in Hle as []. }
  pose proof (Hlow g ltac:(by left)) as Hlg. destruct (Hph g ltac:(by left)) as (P1 & P2 & _ & _).
  unfold pool_step in Hs. rewrite Hmu' in Hs.
  exists (put_mutex None (match r with Some w => put_res no_resources g | None => g end)), [],
    (match r with Some w => psh ++ [sh_res g] | None => psh end).
  split; [done | split; [constructor |]]. eapply (ginv_pool 0 g); [exact Hinv | exact Hp' | ..].
  all: destruct r as [w|]; [rewrite Hopen in Hs; destruct (_ <=? _); [done |] |]; injection Hs as <-; simpl; try done;
    try (rewrite count_cons in *; exact Hpe); try (rewrite Hopen; done); try lia; try exact P1; try exact P2.
  - apply Forall2_app; [done | by constructor].
  - eapply covered_mono; [| exact Hco]. intros x. simpl. set_solver.
  - exists (length (p_workers (wd_pool d) ++ [w])). by rewrite mutex_cons, Hm'.
  - exists (length (p_workers (wd_pool d))). by rewrite mutex_cons, Hm'.
  - intros x [-> | Hx]%elem_of_cons; simpl; [lia |]. pose proof (Hlow x ltac:(by right)). lia.
  - intros x [-> | Hx]%elem_of_cons; simpl; [lia |]. pose proof (Hlow x ltac:(by right)). lia.
Qed.

Lemma keeps_close g gs psh d first d' new :
  ginv (g :: gs) psh d -> dmn_pre g DClose -> doing d DClose first d' new -> keeps g gs DClose first d' new.
Proof using.
  clear. intros Hinv (_ & Hwg & Hmg & Hphg) ((p' & Hs & ->) & -> & ->).
  pose proof Hinv as [Hp Hc Hi Hco Ht Hj (k & Hm & Hk) Hw Hpe Hcl Hph].
  destruct (Hph g ltac:(by left)) as (P1 & P2 & _ & _).
  pose proof (pool_step_inv _ _ _ Hp Hs) as Hp'. simpl in Hs.
  destruct (p_mu (wd_pool d)) eqn:Hmu; try done. apply mutex_free in Hm.
  destruct (p_closed (wd_pool d)) eqn:Hcld; injection Hs as <-; simpl in *.
  - exists (put_phase 3 g), [], psh. split; [done | split; [constructor |]].
    eapply (ginv_pool 0 g); [exact Hinv | exact Hp' | ..]; simpl; try done; try lia.
    + exists (length (p_workers (wd_pool d))). by rewrite mutex_cons; simpl; rewrite Hmg, Hm, Hmu.
    + by rewrite count_cons in *.
    + intros _ _. by apply Hcl.
    + intros _. apply P1. rewrite Hphg. lia.
    + intros _. apply P2. rewrite Hphg. lia.
  - exists (put_mutex (Some (HoldClose (length (p_workers (wd_pool d))))) g), [], psh.
    split; [exists (length (p_workers (wd_pool d))); split; [| done] | split; [constructor |]].
    { pose proof (inv_room _ Hp Hcld) as Hroom. rewrite Hmu, Hc in Hroom. lia. }
    eapply (ginv_pool 0 g); [exact Hinv | exact Hp' | ..]; simpl; try done; try (rewrite Hphg; lia).
    + exists (length (p_workers (wd_pool d))). by rewrite mutex_cons, Hm.
    + by rewrite count_cons in *.
    + intros x [-> | Hx]%elem_of_cons; simpl; [rewrite Hphg; lia |]. intros H2.
      by destruct (Hph x ltac:(by right)) as (_ & _ & [] & _).
Qed.

Lemma keeps_drain g gs psh d w d' new :
  ginv (g :: gs) psh d -> dmn_pre g DDrain -> doing d DDrain w d' new -> keeps g gs DDrain w d' new.
Proof using.
  clear. intros Hinv (_ & k & Hmg & Hrest & Hphg) (-> & (p' & Hs & ->) & ->).
  pose proof Hinv as [Hp Hc Hi Hco Ht Hj (k' & Hm & Hk) Hw Hpe Hcl Hph].
  destruct (Hph g ltac:(by left)) as (P1 & P2 & _ & _). specialize (P1 ltac:(rewrite Hphg; lia)); specialize (P2 ltac:(rewrite Hphg; lia)).
  pose proof (pool_step_inv _ _ _ Hp Hs) as Hp'. destruct (mutex_held _ _ _ _ _ Hmg Hm) as [Hmu Hm'].
  destruct (p_mu (wd_pool d)) eqn:Hmu'; try done. simpl in Hmu. injection Hmu as ->.
  pose proof (inv_closing _ Hp Hmu') as Hcld.
  assert (forall x, x ∈ g :: gs -> (sh_phase x < 3)%nat) as Hlow.
  { intros x Hx. destruct (Hph x Hx) as (_ & _ & H2 & _). destruct (decide (3 <= sh_phase x)%nat) as [Hle|]; [| lia].
    by apply H2 in Hle as []. }
  assert (forall x, x ∈ gs -> (3 <= sh_phase x)%nat -> False) as Hno.
  { intros x Hx. pose proof (Hlow x ltac:(by right)). lia. }
  destruct (p_workers (wd_pool d)) as [|w ws] eqn:Hws; simpl in Hs; rewrite Hmu' in Hs; rewrite Hws in Hs; injection Hs as <-.
  - apply Forall2_nil_inv_l in Hi as ->.
    exists (put_phase 3 (put_mutex None g)), [], []. split; [done | split; [constructor |]].
    eapply (ginv_pool 0 g); [exact Hinv | exact Hp' | ..]; simpl; try done; try lia; try (by rewrite Hws).
    + exists 0%nat. by rewrite mutex_cons, Hm', Hws.
    + by rewrite count_cons in *.
  - apply Forall2_cons_inv_l in Hi as (s & psh' & Hsw & Hi & ->). simpl in Hk. destruct k as [|k]; [lia |].
    exists (put_mutex (Some (HoldClose k)) (put_res (join s (sh_res g)) g)), [], psh'.
    split; [by exists k, s | split; [constructor |]].
    eapply (ginv_pool 0 g); [exact Hinv | exact Hp' | ..]; simpl; try done; try (rewrite Hphg; lia).
    + by apply covered_moves.
    + exists k. rewrite mutex_cons, Hm'. split; [done | lia].
    + by rewrite count_cons in *.
    + intros x [-> | Hx]%elem_of_cons; simpl; [rewrite Hphg; lia | by intros ?%Hno].
Qed.

(** *** The wait group's and the shutdown *)

Lemma keeps_stages g gs psh d (c : dmn) (r : ans c) d' new :
  match (c : dcall) with DShutdown | DCloseListener | DDone | DWait => True | _ => False end ->
  ginv (g :: gs) psh d -> dmn_pre g c -> doing d c r d' new -> keeps g gs c r d' new.
Proof using.
  clear. intros Hc Hinv Hpre Hd. pose proof Hinv as [Hp Hcap Hi Hco Ht Hj Hm Hw Hpe Hcl Hph].
  destruct (Hph g ltac:(by left)) as (P1 & P2 & P3 & P4). rewrite count_cons in Hpe, Hw.
  destruct c; try done; simpl in *;
    [destruct Hd as [-> ->] | destruct Hd as [-> ->] | destruct Hd as [-> ->] | destruct Hd as (Hz & -> & ->)].
  - destruct Hpre as (_ & Hwg & Hmg & Hphg).
    exists (put_phase 1 g), [], psh. split; [done | split; [constructor |]].
    split; simpl; try done; [by apply (jobs_ok_head _ g) | by rewrite count_cons.. |].
    intros x [-> | Hx]%elem_of_cons; simpl; [split_and!; (done || lia) |].
    destruct (Hph x ltac:(by right)) as (_ & ? & ? & ?). done.
  - destruct Hpre as (_ & Hwg & Hmg & Hphg).
    exists (put_phase 2 g), [], psh. split; [done | split; [constructor |]].
    split; simpl; try done; [by apply (jobs_ok_head _ g) | by rewrite count_cons.. |].
    intros x [-> | Hx]%elem_of_cons; simpl.
    + split_and!; [intros _; apply P1; lia | done | lia | lia].
    + destruct (Hph x ltac:(by right)) as (? & _ & ? & ?). done.
  - destruct Hpre as (_ & Hwg & Hmg & Hrest). rewrite Hwg in Hw. simpl in Hw.
    exists (no_wg g), [], psh. split; [done | split; [constructor |]].
    split; simpl; try done; [by apply (jobs_ok_head _ g) | rewrite count_cons; simpl; lia | by rewrite count_cons |].
    assert (forall x, x ∈ g :: gs -> (4 <= sh_phase x)%nat -> pred (wd_wg d) = 0%nat) as H4.
    { intros x Hx H4. apply (Hph x Hx) in H4. by rewrite H4. }
    intros x [-> | Hx]%elem_of_cons; [split_and!; try done; exact (H4 g ltac:(by left)) |].
    destruct (Hph x ltac:(by right)) as (? & ? & ? & _). split_and!; try done. by apply H4; right.
  - destruct Hpre as (_ & Hwg & Hmg & Hphg).
    exists (put_phase 4 g), [], psh. split; [done | split; [constructor |]].
    split; simpl; try done; [by apply (jobs_ok_head _ g) | by rewrite count_cons.. |].
    intros x [-> | Hx]%elem_of_cons; simpl; [| by apply Hph; right].
    split_and!; [intros _; apply P1; lia | intros _; apply P2; lia | intros _; apply P3; lia | done].
Qed.

Lemma keeps_does g gs psh d (c : dmn) (r : ans c) d' new :
  ginv (g :: gs) psh d -> dmn_pre g c -> doing d c r d' new -> keeps g gs c r d' new.
Proof using.
  clear. intros Hinv Hpre Hd.
  destruct c; [by eapply keeps_srv | by eapply keeps_take; [| apply Hpre |] | by eapply keeps_replenish
    | by eapply keeps_put | by eapply keeps_close | by eapply keeps_drain | by eapply keeps_stages..].
Qed.

(** ** Every reachable state *)

Definition dinv (c : list goroutine * world) : Prop :=
  exists gs psh, Forall2 (fun p g => owns p g ended) c.1 gs /\ ginv gs psh c.2 /\ sh_main <$> head gs = Some true.

Lemma share_main (c : dmn) g (r : ans c) g' : dmn_share cap g c r g' -> sh_main g' = sh_main g.
Proof using.
  clear. destruct c; simpl; repeat case_match; try (by intros ->).
  - by intros (s & _ & ->).
  - by intros (k & _ & ->).
  - by intros (k & s & _ & _ & ->).
Qed.

(** Any call of any goroutine. *)
Lemma dinv_call ps1 (c : dmn) k ps2 d (r : ans c) d' new :
  doing d c r d' new -> dinv (ps1 ++ Vis c k :: ps2, d) -> dinv (ps1 ++ k r :: ps2 ++ new, d').
Proof using.
  clear. intros Hd (gs & psh & Ho & Hinv & Hmain). simpl in *.
  apply Forall2_app_inv_l in Ho as (gs1 & gs2' & Ho1 & Ho2 & ->).
  apply Forall2_cons_inv_l in Ho2 as (g & gs2 & [Hpre Hk] & Ho2 & ->).
  destruct (keeps_does g (gs1 ++ gs2) psh d c r d' new) as (g' & ns & psh' & Hg & Hns & Hinv'); [| done | done |].
  { eapply ginv_perm; [| exact Hinv]. by rewrite <- Permutation_middle. }
  exists (gs1 ++ g' :: gs2 ++ ns), psh'. split; [| split].
  - apply Forall2_app; [done |]. constructor; [by apply Hk |]. by apply Forall2_app.
  - eapply ginv_perm; [| exact Hinv']. solve_Permutation.
  - apply share_main in Hg. destruct gs1 as [|g1 gs1]; simpl in *; [congruence | done].
Qed.

Lemma dinv_accept_over ps d : wd_accepting d = true -> dinv (ps, d) -> dinv (ps, accept_over d).
Proof using.
  clear. intros Ha (gs & psh & Ho & [Hp Hcap Hi Hco Ht Hj Hm Hw Hpe Hcl Hph] & Hmain).
  exists gs, psh. split; [done |]. split; [| done]. simpl in *.
  rewrite Ha in Hw. simpl in Hw. split; simpl; try done; [by rewrite Hw |].
  intros x Hx. destruct (Hph x Hx) as (P1 & P2 & P3 & P4). split_and!; try done. intros H4. by rewrite P4.
Qed.

Lemma dinv_works c c' : works MarshalConfig pool0 c c' -> dinv c -> dinv c'.
Proof using.
  clear. intros [ps1 c1 k ps2 d r d' new Hcalm Hsig Hd | ps d Hcalm Ha Hl Hsh]; [by apply dinv_call | by apply dinv_accept_over].
Qed.

Lemma dinv_accept cfg fuel ps d :
  wd_accepting d = true -> dinv (ps, d) ->
  dinv (ps ++ [conn_thread netlink_ParseAddr MarshalConfig pool0 cfg fuel], with_wg (S (wd_wg d)) d).
Proof.
  intros Ha (gs & psh & Ho & Hinv & Hmain). simpl in *.
  exists (gs ++ [new_share true false false]), psh. split; [| split].
  - apply Forall2_app; [done |]. constructor; [apply owned_conn | constructor].
  - apply (ginv_perm (new_share true false false :: gs)); [by rewrite Permutation_app_comm |].
    destruct Hinv as [Hp Hcap Hi Hco Ht Hj Hm Hw Hpe Hcl Hph]. rewrite Ha in Hw. split; simpl; try done.
    + by apply covered_cons.
    + eapply jobs_ok_mono; [| exact Hj]. intros id (x & Hx & ?). exists x. by split; [right |].
    + rewrite Ha, count_cons. simpl in *. lia.
    + intros x [-> | Hx]%elem_of_cons; [simpl; split_and!; lia |]. destruct (Hph x Hx) as (P1 & P2 & P3 & P4).
      split_and!; try done. intros H4. apply P4 in H4. rewrite Hw in H4. done.
  - by destruct gs.
Qed.

Lemma dinv_step cfg c c' : dstep netlink_ParseAddr MarshalConfig pool0 cfg c c' -> dinv c -> dinv c'.
Proof.
  intros [c1 c2 Hs | ps1 k ps2 d d' new Hcalm Hd | ps d fuel Hcalm Ha Hl | ps d Hcalm Ha Hsh];
    [by apply dinv_works | by apply dinv_call | by apply dinv_accept | by apply dinv_accept_over].
Qed.

(** *** The start *)

(** The workers of the new pool hold what the making of it left. *)
#[local] Instance mount_of_dec w m : Decision (mount_of w m).
Proof. unfold mount_of. solve_decision. Defined.

#[local] Instance dir_of_dec w d : Decision (dir_of w d).
Proof. unfold dir_of. solve_decision. Defined.

Definition part_of (s : resources) (w : Worker) : resources :=
  {| rs_mounts := filter (mount_of w) (rs_mounts s); rs_dirs := filter (dir_of w) (rs_dirs s);
     rs_fds := []; rs_procs := filter (fun p => p = w_cmd w) (rs_procs s); rs_writes := [] |}.

#[local] Instance shared_dir_dec d : Decision (shared_dir d).
Proof. unfold shared_dir. solve_decision. Defined.

Definition shared_part (s : resources) : resources :=
  {| rs_mounts := []; rs_dirs := filter shared_dir (rs_dirs s); rs_fds := []; rs_procs := []; rs_writes := [] |}.

Lemma parts_held ws s : held ws s -> Forall2 (fun w x => held [w] x) ws (map (part_of s) ws).
Proof using.
  clear. intros Hh. assert (forall w, w ∈ ws -> held [w] (part_of s w)) as Hp.
  { intros w Hw. split; simpl.
    - intros w' ->%list_elem_of_singleton. by apply (held_shape _ _ Hh).
    - intros m [Hm _]%list_elem_of_filter. exists w. by split; [left |].
    - intros p [-> _]%list_elem_of_filter. exists w. by split; [left |].
    - intros d [Hd _]%list_elem_of_filter. right. exists w. by split; [left |]. }
  clear Hh. induction ws as [|w ws IH]; [constructor |]. simpl. constructor; [apply Hp; by left |].
  apply IH. intros w' Hw'. apply Hp. by right.
Qed.

Lemma parts_cover ws s : held ws s -> covered s (shared_part s :: map (part_of s) ws).
Proof using.
  clear. intros [Hsh Hm Hp Hd].
  assert (forall w, w ∈ ws -> part_of s w ∈ shared_part s :: map (part_of s) ws) as Hin.
  { intros w Hw. right. by apply (list_elem_of_fmap_2 (part_of s)). }
  split; [| split].
  - intros m Hms. destruct (Hm m Hms) as (w & Hw & Ho). exists (part_of s w). split; [by apply Hin |]. by apply list_elem_of_filter.
  - intros p Hps. destruct (Hp p Hps) as (w & Hw & Ho). exists (part_of s w). split; [by apply Hin |]. by apply list_elem_of_filter.
  - intros d Hds. destruct (Hd d Hds) as [Ho | (w & Hw & Ho)].
    + exists (shared_part s). split; [by left |]. by apply list_elem_of_filter.
    + exists (part_of s w). split; [by apply Hin |]. by apply list_elem_of_filter.
Qed.

(** The daemon when [Start] has made its pool, with the calls [tr], and opened its socket:
    the main goroutine waits for the signal, the accept loop runs. *)
Definition started (tr : list (event os)) : world :=
  {| wd_pool := pool0; wd_res := mon_trace res_mon no_resources tr; wd_sys := machine_after tr;
     wd_reg := NewJobRegistry; wd_wg := 1; wd_shutdown := false; wd_listening := true; wd_accepting := true |}.

Lemma dinv_start dd tr :
  d_pool dd <> None -> d_listening dd = true -> pool_new pool0 ->
  held (p_workers pool0) (mon_trace res_mon no_resources tr) -> dinv ([stop_thread pool0 dd], started tr).
Proof using.
  clear. intros Hd Hl Hnew. pose proof (tracks_after tr) as Ht. unfold started. revert Ht.
  generalize (mon_trace res_mon no_resources tr), (machine_after tr). intros s k Ht Hh. set (g := put_res (shared_part s) (new_share false false true)).
  assert (idle (shared_part s)) as Hi.
  { split; [done | split; [done |]]. by intros d [Hd' _]%list_elem_of_filter. }
  exists [g], (map (part_of s) (p_workers pool0)). split; [| split; [| done]].
  - constructor; [| constructor]. by apply owned_stop.
  - pose proof Hnew as [Hf Ho Hm Hp _ _]. split; simpl; try done.
    + by apply pool_new_inv.
    + by apply parts_held.
    + by apply parts_cover.
    + exists (length (p_workers pool0)). by rewrite Hm.
    + by rewrite Ho.
    + intros x ->%list_elem_of_singleton. simpl. split_and!; lia.
Qed.

Lemma dinv_reach cfg c c' :
  rtc (dstep netlink_ParseAddr MarshalConfig pool0 cfg) c c' -> dinv c -> dinv c'.
Proof. induction 1; [done |]. intros Hc. by eauto using dinv_step. Qed.

(** *** What the invariant says *)

(** A goroutine with nothing under way: it has ended, it waits for the pool's mutex to
    make a replacement, or it waits for the signal. *)
Definition resting (p : goroutine) : Prop :=
  match p with
  | Ret _ => True
  | Vis c _ => match (c : dcall) with DReplenish | DShutdown => True | _ => False end
  end.

Lemma owned_ok p g : owns p g ended -> share_ok g.
Proof using. clear. destruct p as [r | c k]; [intros [Ha _]; by right | intros [Hpre _]; apply Hpre]. Qed.

Lemma owned_resting p g : owns p g ended -> resting p -> at_rest g.
Proof using.
  clear. destruct p as [r | c k]; [by intros [Ha _] |]. intros [[Hok Hpre] _] Hr.
  destruct Hok as [[Hb | Hb] | Ha]; [..| done]; destruct c; simpl in Hr, Hpre; try done; destruct Hpre as (E1 & E2 & _); congruence.
Qed.

Lemma no_active r gs : jobs_ok r gs -> (forall g, g ∈ gs -> at_rest g) ->
  forall id j, r !! id = Some j -> active_status (status j) = false.
Proof using.
  clear. intros Hj Hr id j Hid. destruct (active_status (status j)) eqn:Ha; [| done].
  destruct (Hj id j Hid Ha) as (g & Hg & Hin). destruct (Hr g Hg) as [_ E]. rewrite E in Hin. by apply elem_of_nil in Hin.
Qed.

Lemma rest_held gs psh d : ginv gs psh d -> (forall g, g ∈ gs -> at_rest g) ->
  held (p_workers (wd_pool d)) (wd_res d) /\
  forall id j, wd_reg d !! id = Some j -> active_status (status j) = false.
Proof using.
  clear. intros Hinv Hr. split; [| by eapply no_active; [apply Hinv |]].
  apply (covered_workers _ _ (map sh_res gs) psh); [| apply Hinv..].
  intros x (g & -> & Hg)%list_elem_of_fmap. by apply Hr.
Qed.

(** The others have nothing once the main goroutine has waited for them. *)
Lemma stopped_rest gs psh d g0 ps :
  Forall2 (fun p g => owns p g ended) ps gs -> ginv gs psh d -> g0 ∈ gs -> sh_phase g0 = 4%nat ->
  wd_wg d = 0%nat /\ wd_accepting d = false /\ p_closed (wd_pool d) = true /\ p_workers (wd_pool d) = [] /\
  forall g, g ∈ gs -> at_rest g.
Proof using.
  clear. intros Ho [Hp Hcap Hi Hco Ht Hj (k & Hm & Hk) Hw Hpe Hcl Hph] Hg0 H4.
  destruct (Hph g0 Hg0) as (_ & _ & P3 & P4). rewrite H4 in P3, P4. destruct (P3 ltac:(lia)) as [Hcld Hmu].
  specialize (P4 ltac:(lia)). rewrite P4 in Hw. assert (count sh_wg gs = 0%nat) as Hz by lia.
  split; [done |]. split; [by destruct (wd_accepting d) |]. split; [done |]. split; [by apply Hcl; rewrite ?Hmu |].
  intros g Hg. apply list_elem_of_lookup in Hg as Hgi. destruct Hgi as [i Hgi].
  destruct (Forall2_lookup_r _ _ _ _ _ Ho Hgi) as (p & _ & Hpg). apply owned_ok in Hpg as [[Hb | Hb] | Ha]; [| | done].
  - rewrite (count_zero _ _ _ Hz Hg) in Hb. done.
  - exfalso. rewrite Hmu in Hm. simpl in Hm. apply Permutation_nil_r in Hm.
    destruct (sh_mutex g) as [h|] eqn:E; [| done].
    assert (h ∈ omap sh_mutex gs) as Hin by (apply list_elem_of_omap; by exists g). rewrite Hm in Hin. by apply elem_of_nil in Hin.
Qed.
(** *** Nobody waits in vain *)








End invariant.

(** ** The theorems *)

Section theorems.
Context `{SliceSort, IpamJSON, JSON ExitPayload, JSON StatsPayload, JSON ControlResponse}.
Variables (netlink_ParseAddr : string -> result string) (MarshalConfig : Config -> result string).

(** The states of a daemon [dd] that [Start] brought up, the part [tr] of its calls having
    made the pool [p]; what else [Start] does leaves no worker behind. *)
Record daemon_reaches (dd : Daemon) (p : Pool) (tr : list (event os)) (c : list goroutine * world) : Prop := {
  dr_start : exists d0 tr0 tr2, ends (Start MarshalConfig d0) (tr0 ++ tr ++ tr2) (dd, Ok tt) /\ d_cfg dd = d_cfg d0;
  dr_made : ends (NewPoolWithStorage MarshalConfig (pool_size (d_cfg dd)) (storage_limit (d_cfg dd))) tr (Ok p);
  dr_pool : d_pool dd = Some p;
  dr_steps : rtc (dstep netlink_ParseAddr MarshalConfig p (d_cfg dd))
    ([stop_thread p dd], started p tr) c;
}.

(** A start that succeeds has the pool it made and its listener open. *)
Lemma Start_made d0 tr dd :
  ends (Start MarshalConfig d0) tr (dd, Ok tt) ->
  exists p tr0 tr1 tr2, tr = tr0 ++ tr1 ++ tr2 /\
    ends (NewPoolWithStorage MarshalConfig (pool_size (d_cfg d0)) (storage_limit (d_cfg d0))) tr1 (Ok p) /\
    d_pool dd = Some p /\ d_cfg dd = d_cfg d0 /\ d_listening dd = true.
Proof using.
  clear. intros He. unfold Start in He. cbv zeta in He.
  apply ends_bind_inv in He as (tra & l & tr1 & _ & He & ->).
  destruct l as [fd|e]; [| by apply ends_inv in He as [[=] _]].
  apply ends_bind_inv in He as (trb & ? & ? & _ & He & ->).
  apply ends_bind_inv in He as (trc & ? & ? & _ & He & ->).
  apply ends_bind_inv in He as (trd & ? & ? & _ & He & ->).
  apply ends_bind_inv in He as (tr3 & pr & tr4 & Hp & He & ->).
  destruct pr as [p|e]; [| by apply ends_inv in He as [[=] _]].
  exists p, (tra ++ trb ++ trc ++ trd), tr3, tr4. split; [by rewrite <- !app_assoc |]. split; [exact Hp |].
  refine (wp_ends_res _ tr4 (dd, Ok tt) (fun x => x.2 = Ok tt ->
    d_pool x.1 = Some p /\ d_cfg x.1 = d_cfg d0 /\ d_listening x.1 = true) _ He eq_refl).
  wp_steps; done.
Qed.

Lemma reaches_inv dd p tr c : daemon_reaches dd p tr c -> dinv p c.
Proof using.
  clear. intros [(d0 & tr0 & tr2 & Hs & _) He Hd Hr]. eapply dinv_reach; [exact Hr |]. apply dinv_start.
  - by rewrite Hd.
  - by apply Start_made in Hs as (? & ? & ? & ? & _ & _ & _ & _ & Hl).
  - by apply (NewPoolWithStorage_full MarshalConfig _ _ tr p He).
  - by pose proof (wp_ends res_mon _ _ _ _ _ (wp_NewPoolWithStorage MarshalConfig _ _) He) as [Hh _].
Qed.

(** Every start that succeeds gives such a daemon. *)
Theorem Start_reaches d0 tr dd :
  ends (Start MarshalConfig d0) tr (dd, Ok tt) ->
  exists p tr0 tr1 tr2, tr = tr0 ++ tr1 ++ tr2 /\ daemon_reaches dd p tr1 ([stop_thread p dd], started p tr1).
Proof.
  intros He. pose proof (Start_made _ _ _ He) as (p & tr0 & tr1 & tr2 & -> & Hp & Hd & Hc & _).
  exists p, tr0, tr1, tr2. split; [done |]. split; [by exists d0, tr0, tr2 | by rewrite Hc | done | done].
Qed.

(** What is there, when the workers [ws] are idle in the pool and nothing is under way: a
    mount, a running process or a directory is one of theirs or a directory that all runs
    share, or the system refused to give it back. *)
Record nothing_but (ws : list Worker) (k : machine) : Prop := {
  nb_mounts m : m ∈ mc_mounts k -> (exists w, w ∈ ws /\ mount_of w m) \/ m ∈ mc_stuck_mounts k;
  nb_procs p : p ∈ mc_procs k -> (exists w, w ∈ ws /\ p = w_cmd w) \/ p ∈ mc_stuck_procs k;
  nb_dirs d : d ∈ mc_dirs k -> shared_dir d \/ (exists w, w ∈ ws /\ dir_of w d) \/ d ∈ mc_stuck_dirs k;
}.

Lemma held_nothing_but ws s k : held ws s -> tracks s k -> nothing_but ws k.
Proof using.
  clear. intros [_ Hm Hp Hd] [Tm Td Tp _ _ _ _]. split.
  - intros m [Hin%Hm | Hin]%Tm; auto.
  - intros q [Hin%Hp | Hin]%Tp; auto.
  - intros d [[? | ?]%Hd | Hin]%Td; auto.
Qed.

(** C3: The daemon leaves no mount, no running process and no directory behind but what the
    system refuses to give back, whatever its goroutines do at once.  Connections,
    replacements, terminals' inputs and the stop take turns at every single call, in any
    order, and the system may answer anything to any of them.  Whenever no goroutine has
    anything under way, every mount, every running process and every directory that is
    there is of a worker idle in the pool, or one of two directories that all runs share,
    or was asked to go and refused, and no job of the registry looks active.  When [Stop]
    has returned, only those two directories and what was refused is there, no job looks
    active, the pool is closed and empty, and the accept loop and every connection have
    ended.  Descriptors and ended processes that nobody waited for are not in this: the
    close of a pool leaves those of its idle workers; nor are addresses and network
    interfaces. *)
Theorem daemon_stops_clean dd p tr ps d :
  daemon_reaches dd p tr (ps, d) ->
  (Forall resting ps -> nothing_but (p_workers (wd_pool d)) (wd_sys d) /\
     forall id j, wd_reg d !! id = Some j -> active_status (status j) = false) /\
  (forall r, head ps = Some (Ret r) -> nothing_but [] (wd_sys d) /\
     (forall id j, wd_reg d !! id = Some j -> active_status (status j) = false) /\
     p_closed (wd_pool d) = true /\ p_workers (wd_pool d) = [] /\ wd_wg d = 0%nat /\ wd_accepting d = false).
Proof.
  intros (gs & psh & Ho & Hinv & Hmain)%reaches_inv. simpl in *.
  assert (forall ws, held ws (wd_res d) -> nothing_but ws (wd_sys d)) as Hnb.
  { intros ws Hh. apply (held_nothing_but _ _ _ Hh), Hinv. }
  split.
  - intros Hr. destruct (rest_held p gs psh d Hinv) as [Hh Hj]; [| by split; [apply Hnb |]]. intros g Hg. apply list_elem_of_lookup in Hg as [i Hi].
    destruct (Forall2_lookup_r _ _ _ _ _ Ho Hi) as (q & Hq & Hqg).
    apply (owned_resting p q); [done |]. rewrite Forall_forall in Hr. apply Hr. by apply list_elem_of_lookup_2 in Hq.
  - intros r Hps. destruct ps as [|q ps]; [done |]. injection Hps as ->.
    apply Forall2_cons_inv_l in Ho as (g & gs' & Hg & Ho & ->). injection Hmain as Hmain.
    pose proof Hg as (_ & _ & _ & _ & Hph). specialize (Hph Hmain).
    destruct (stopped_rest p (g :: gs') psh d g (Ret r :: ps)) as (Hw & Ha & Hc & Hws & Hrest); [by constructor | done | by left | done |].
    destruct (rest_held p _ _ _ Hinv Hrest) as [Hh Hj]. rewrite Hws in Hh. split; [by apply Hnb | done].
Qed.


End theorems.

(** ** A concrete daemon *)

#[local] Instance daemon_ipam_json : IpamJSON := plain_ipam_json.
#[local] Existing Instances Server.exit_json Server.stats_json Server.response_json.

(** The start, every call of which succeeds. *)
Abbreviation start_run := (Start Pool.demo_config (NewDaemon None)).
Definition start_trace : list (event os) := trace ok_os start_run tt.
Definition demo_daemon : Daemon := fst (res ok_os start_run tt).
Definition demo_start_pool : Pool := default System.pool0 (d_pool demo_daemon).
Abbreviation pool_prog := (NewPoolWithStorage Pool.demo_config (pool_size DefaultConfig) (storage_limit DefaultConfig)).
Definition pool_trace : list (event os) := trace ok_os pool_prog tt.

(** Two connections, one turn each after the other, take the pool's two workers; one
    replacement is made while the other waits for the mutex, and is handed on while the
    stop has begun; the stop closes the pool, drains the replacement and waits for both
    connections, the second of which is still running then. *)
Definition demo_schedule : list act :=
  [Accept 3; Accept 3; Turn 1 4; Turn 2 5; Turn 3 6; Turn 1 20; Turn 4 3; Turn 2 4; Turn 0 2; Turn 3 99; Turn 4 1;
   Turn 1 99; Turn 0 99; Turn 4 99; AcceptOver; Turn 2 99; Turn 0 99].

Definition demo_start : config :=
  ([stop_thread demo_start_pool demo_daemon], started demo_start_pool pool_trace).

Definition demo_end : config :=
  fold_left (act_on Ok Pool.demo_config demo_start_pool warm_request DefaultConfig) demo_schedule demo_start.

Lemma demo_reaches acts :
  daemon_reaches Ok Pool.demo_config demo_daemon demo_start_pool pool_trace
    (fold_left (act_on Ok Pool.demo_config demo_start_pool warm_request DefaultConfig) acts demo_start).
Proof.
  split.
  - exists (NewDaemon None), (take 12 start_trace), (drop (12 + length pool_trace) start_trace). split; [| done].
    replace (take 12 start_trace ++ _) with start_trace by (vm_compute; reflexivity).
    replace (demo_daemon, Ok tt) with (res ok_os start_run tt) by (vm_compute; reflexivity). apply run_ends.
  - replace (Ok demo_start_pool) with (res ok_os pool_prog tt) by (vm_compute; reflexivity). apply run_ends.
  - vm_compute. reflexivity.
  - apply acts_steps.
Qed.

Lemma daemon_stops_clean_witness :
  length demo_end.1 = 5%nat /\ size (wd_reg demo_end.2) = 1%nat /\
  length (mc_mounts (wd_sys demo_start.2)) = 2%nat /\ length (mc_procs (wd_sys demo_start.2)) = 2%nat /\
  nothing_but [] (wd_sys demo_end.2) /\ mc_stuck_mounts (wd_sys demo_end.2) = [] /\ wd_wg demo_end.2 = 0%nat.
Proof.
  split; [vm_compute; reflexivity |]. split; [vm_compute; reflexivity |].
  split; [vm_compute; reflexivity |]. split; [vm_compute; reflexivity |].
  destruct (daemon_stops_clean Ok Pool.demo_config demo_daemon demo_start_pool pool_trace
    demo_end.1 demo_end.2) as [_ Hs].
  - rewrite <- surjective_pairing. apply (demo_reaches demo_schedule).
  - destruct (Hs (Ok tt)) as (Hi & _ & _ & _ & Hw & _); [vm_compute; reflexivity |].
    split; [exact Hi |]. split; [vm_compute; reflexivity | exact Hw].
Defined.



