(* ===== verification/Client.v ===== *)
(** * The client (src/pkg/client/client.go)

    The requests a client makes over the daemon's socket, over its own signature
    ([ccall]): the connection, the terminal and the writers the output goes to.  What the
    daemon sends is one answer ([CRecv]): all the bytes, and the error at their end. *)

From Stdlib Require Import Init.Byte.
From S2P Require Import Prelude GoStrings Effects OS SandboxConfig Protocol Registry Pool DaemonConfig Server.
#[local] Open Scope go_scope.

(** ** Data *)

(** The writers are descriptors; a nil one is [None]. *)
Record ExecOptions := {
  opt_Command : string;
  opt_Args : list string;
  opt_Env : list string;
  opt_Timeout : Z;
  opt_MemoryLimitBytes : Z;
  opt_MaxProcesses : Z;
  opt_StorageLimitMB : Z;
  opt_Mounts : list MountSpec;
  opt_TTY : bool;
  opt_Stdout : option Z;
  opt_Stderr : option Z;
  opt_SeccompProfile : string;
  opt_NetworkMode : string;
  opt_PortMappings : list PortMapping;
  opt_DNSServers : list string;
}.

Record Response := {
  rsp_ExitCode : Z;
  rsp_Duration : Z;
  rsp_TimedOut : bool;
  rsp_Metrics : ResourceMetrics;
  rsp_Error : string;
}.

Definition response_of (x : ExitPayload) : Response :=
  {| rsp_ExitCode := exit_ExitCode x; rsp_Duration := exit_Duration x; rsp_TimedOut := exit_TimedOut x;
     rsp_Metrics := exit_Metrics x; rsp_Error := exit_Error x |}.

(** [&Response{ExitCode: 0}] *)
Definition zero_response : Response :=
  {| rsp_ExitCode := 0; rsp_Duration := 0; rsp_TimedOut := false; rsp_Metrics := no_metrics; rsp_Error := "" |}.

Record Client := { socketPath : string }.

Definition NewClient (path : string) : Client :=
  {| socketPath := if bool_decide (path = "") then "/var/run/gojail.sock" else path |}.

(** ** Calls *)

(** The goroutines of an interactive run: one sends the terminal's size when it changes,
    one sends what is typed. *)
Inductive helper := Winch | Typing.

Inductive ccall :=
| CDial (path : string)
| CCloseConn
| CWrite (bs : list byte)
| CResponse
| CRecv
| COut (fd : Z) (bs : list byte)
| COnStats (x : StatsPayload)
| CIsTerminal
| CMakeRaw
| CRestore
| CGetSize
| CNotify
| CSignalStop
| CGo (h : helper).

Definition cans (c : ccall) : Type :=
  match c with
  | CResponse => result ControlResponse
  | CRecv => stream
  | CIsTerminal => bool
  | CGetSize => result (Z * Z)
  | COnStats _ | CNotify | CSignalStop | CGo _ => unit
  | _ => result unit
  end.

Definition cli : sig := Sig ccall cans.

Abbreviation cli_call c := (@do_call cli c).
Abbreviation cio A := (prog cli A).

(** A writer of frames on the client's connection. *)
Definition cfw {A} (p : prog wire A) : cio A := translate (T := cli) (fun bs : wire => do_call (CWrite bs : cli)) p.

(** [errors.Is(err, net.ErrClosed)] *)
Definition stream_closed (e : error) : bool := errors_Is e EOF || errors_Is e ErrClosed.

(** A request leaves unset what it does not need. *)
Definition control_request (action target : string) : Request :=
  {| req_Action := action; req_TargetID := target; req_Command := ""; req_Args := []; req_Env := [];
     req_Timeout := 0; req_MemoryLimitBytes := 0; req_MaxProcesses := 0; req_StorageLimitMB := 0;
     req_Mounts := []; req_TTY := false; req_SeccompProfile := ""; req_NetworkMode := "";
     req_PortMappings := []; req_DNSServers := [] |}.

Definition run_options_request (o : ExecOptions) : Request :=
  {| req_Action := "run"; req_TargetID := ""; req_Command := opt_Command o; req_Args := opt_Args o;
     req_Env := opt_Env o; req_Timeout := opt_Timeout o; req_MemoryLimitBytes := opt_MemoryLimitBytes o;
     req_MaxProcesses := opt_MaxProcesses o; req_StorageLimitMB := opt_StorageLimitMB o;
     req_Mounts := opt_Mounts o; req_TTY := opt_TTY o; req_SeccompProfile := opt_SeccompProfile o;
     req_NetworkMode := opt_NetworkMode o; req_PortMappings := opt_PortMappings o;
     req_DNSServers := opt_DNSServers o |}.

(** ** Requests *)

Section requests.
Context `{JSON Request, JSON ExitPayload, JSON StatsPayload}.

(** [json.NewEncoder(conn).Encode(req)] *)
Definition EncodeRequest (req : Request) : cio (result unit) :=
  match Marshal req with
  | Err e => mret (Err e)
  | Ok b => cli_call (CWrite (b ++ [x0a]))
  end.

Definition closing {A} (p : cio A) : cio A := defer (do_ cli_call CCloseConn;; mret tt) p.

(** Connect, send one request, read one answer. *)
Definition control (c : Client) (what : string) (req : Request) : cio (result ControlResponse) :=
  let? _ := cli_call (CDial (socketPath c)) onerr e =>
    mret (Err (WrapErr ("failed to connect to daemon at " +:+ socketPath c) e)) in
  closing
    (let? _ := EncodeRequest req onerr e => mret (Err (WrapErr ("failed to send " +:+ what +:+ " request") e)) in
     let? resp := cli_call CResponse onerr e =>
       mret (Err (WrapErr ("failed to decode " +:+ what +:+ " response") e)) in
     if negb (resp_Success resp) then mret (Err (NewErr (resp_Error resp))) else mret (Ok resp)).

Definition ListJobs (c : Client) : cio (result (list JobInfo)) :=
  let? resp := control c "list" (control_request "list" "") onerr e => mret (Err e) in
  mret (Ok (resp_Jobs resp)).

Definition control_job (c : Client) (action target : string) : cio (result unit) :=
  let? _ := control c action (control_request action target) onerr e => mret (Err e) in
  mret (Ok tt).

Definition StopJob (c : Client) (target : string) : cio (result unit) := control_job c "stop" target.
Definition PauseJob (c : Client) (target : string) : cio (result unit) := control_job c "pause" target.
Definition UnpauseJob (c : Client) (target : string) : cio (result unit) := control_job c "unpause" target.

(** ** The stream of statistics *)

(** A reading loop has one turn for each frame, of at least five bytes: the bytes there
    are and one more are turns enough ([receive_total], [stats_recv_enough]). *)
Definition out_of_fuel : error := NewErr "out of fuel".

Fixpoint stats_recv (fuel : nat) (onStats : bool) (s : stream) : cio (result unit) :=
  match fuel with
  | O => mret (Err out_of_fuel)
  | S fuel =>
      match ReadFrame s with
      | (Err e, _) =>
          if stream_closed e then mret (Ok tt) else mret (Err (WrapErr "error reading stats frame" e))
      | (Ok (streamType, payload), s') =>
          if streamType =? StreamStats then
            match ParseStatsPayload payload with
            | Ok x => if onStats then do_ cli_call (COnStats x);; stats_recv fuel onStats s'
                      else stats_recv fuel onStats s'
            | Err _ => stats_recv fuel onStats s'
            end
          else if streamType =? StreamExit then
            match ParseExitPayload payload with
            | Ok x => if negb (bool_decide (exit_Error x = "")) then mret (Err (NewErr (exit_Error x)))
                      else mret (Ok tt)
            | Err _ => mret (Ok tt)
            end
          else stats_recv fuel onStats s'
      end
  end.

Definition StreamStats (c : Client) (target : string) (onStats : bool) : cio (result unit) :=
  let? _ := cli_call (CDial (socketPath c)) onerr e =>
    mret (Err (WrapErr ("failed to connect to daemon at " +:+ socketPath c) e)) in
  closing
    (let? _ := EncodeRequest (control_request "stats" target) onerr e =>
       mret (Err (WrapErr "failed to send stats request" e)) in
     s ← cli_call CRecv;
     stats_recv (S (length (s_data s))) onStats s).

(** ** Running *)

Fixpoint recv (fuel : nat) (stdout stderr : Z) (s : stream) : cio (result Response) :=
  match fuel with
  | O => mret (Err out_of_fuel)
  | S fuel =>
      match ReadFrame s with
      | (Err e, _) =>
          if errors_Is e EOF then mret (Ok zero_response)
          else mret (Err (WrapErr "streaming error from daemon" e))
      | (Ok (streamType, payload), s') =>
          if streamType =? StreamStdout then do_ cli_call (COut stdout payload);; recv fuel stdout stderr s'
          else if streamType =? StreamStderr then do_ cli_call (COut stderr payload);; recv fuel stdout stderr s'
          else if streamType =? StreamExit then
            match ParseExitPayload payload with
            | Err e => mret (Err (WrapErr "failed to read exit status" e))
            | Ok x => mret (Ok (response_of x))
            end
          else recv fuel stdout stderr s'
      end
  end.

Definition receive (stdout stderr : Z) (s : stream) : cio (result Response) :=
  recv (S (length (s_data s))) stdout stderr s.

Definition send_size : cio unit :=
  r ← cli_call CGetSize;
  match r with
  | Ok (width, height) =>
      do_ cfw (WriteFrame StreamResize (EncodeWindowSize (uint16 height) (uint16 width)));; mret tt
  | Err _ => mret tt
  end.

(** The goroutine of [Winch], for [n] changes of the size. *)
Fixpoint winch_loop (n : nat) : cio unit :=
  match n with O => mret tt | S n => do_ send_size;; winch_loop n end.

(** The goroutine of [Typing], for the reads of standard input: the bytes and whether
    with an error. *)
Fixpoint typing_loop (reads : list (list byte * bool)) : cio unit :=
  match reads with
  | [] => mret tt
  | (buf, err) :: reads =>
      do_ (if (0 <? length buf)%nat then do_ cfw (WriteFrame StreamStdin buf);; mret tt else mret tt);;
      if (err : bool) then mret tt else typing_loop reads
  end.

(** Nothing is interactive unless asked for and standard input is a terminal. *)
Definition with_terminal (tty : bool) (body : cio (result Response)) : cio (result Response) :=
  interactive ← (if tty then cli_call CIsTerminal else mret false);
  if (interactive : bool) then
    rErr ← cli_call CMakeRaw;
    let rest :=
      do_ send_size;;
      do_ cli_call CNotify;;
      defer (cli_call CSignalStop)
        (do_ cli_call (CGo Winch);; do_ cli_call (CGo Typing);; body) in
    match rErr with
    | Ok _ => defer (do_ cli_call CRestore;; mret tt) rest
    | Err _ => rest
    end
  else body.

Definition Run (c : Client) (opts : ExecOptions) : cio (result Response) :=
  let? _ := cli_call (CDial (socketPath c)) onerr e =>
    mret (Err (WrapErr ("failed to connect to gojaild at " +:+ socketPath c) e)) in
  closing
    (let? _ := EncodeRequest (run_options_request opts) onerr e =>
       mret (Err (WrapErr "failed to send request" e)) in
     with_terminal (opt_TTY opts)
       (s ← cli_call CRecv;
        receive (default 1 (opt_Stdout opts)) (default 2 (opt_Stderr opts)) s)).
End requests.

(** ** What a run returns *)

Section receives.
Context `{JSON ExitPayload, JSON StatsPayload, JSON ControlResponse}.

(** The write that a chunk of output becomes: to the error writer if a batch worker wrote
    it to its standard error, to the output writer otherwise. *)
Definition heard (stdout stderr : Z) (tty : bool) (w : Worker) (c : Z * string) (call : cli) : Prop :=
  exists fd, call = COut fd (list_byte_of_string c.2) /\
    (from_stderr tty w c.1 /\ fd = stderr \/ ~ from_stderr tty w c.1 /\ fd = stdout).

Lemma stats_recv_enough n m onStats s :
  (length (s_data s) < n)%nat -> (length (s_data s) < m)%nat ->
  stats_recv n onStats s = stats_recv m onStats s.
Proof.
  revert m s. induction n as [|n IH]; intros [|m] s Hn Hm; try lia. simpl.
  destruct (ReadFrame s) as [[[t p]|e] s'] eqn:E; [| done]. apply ReadFrame_shrinks in E.
  rewrite (IH m) by lia. done.
Qed.

Lemma length_bytes s : length (list_byte_of_string s) = String.length s.
Proof using.
  clear. unfold list_byte_of_string. rewrite length_map. induction s as [|a s IH]; simpl; [done | by rewrite IH].
Qed.

(** Reading the output frames and then the exit frame. *)
Lemma recv_reply stdout stderr tty w out fs x b rest e fuel tr r :
  Forall2 (told tty w) out fs -> Forall (fun c : Z * string => Z.of_nat (String.length c.2) < 2 ^ 32) out ->
  Marshal x = Ok b -> json_faithful x -> Z.of_nat (length b) < 2 ^ 32 -> (length fs < fuel)%nat ->
  ends (recv fuel stdout stderr (Stream (concat (map frame_bytes fs) ++ exit_bytes x ++ rest) e)) tr r ->
  r = Ok (response_of x) /\ Forall2 (heard stdout stderr tty w) out (calls tr).
Proof.
  intros Hfs Hout Hm Hx Hb. revert Hout fuel tr.
  induction Hfs as [|c [t p] out fs [Hp Ht] _ IH]; intros Hout fuel tr Hf He;
    (destruct fuel as [|fuel]; [simpl in Hf; lia |]).
  - unfold exit_bytes in He. cbn [map concat app recv] in He.
    rewrite Hm, ReadFrame_frame_bytes in He by by split.
    change (3 =? StreamStdout) with false in He. change (3 =? StreamStderr) with false in He.
    change (3 =? StreamExit) with true in He. cbv iota in He. unfold ParseExitPayload in He.
    rewrite (Unmarshal_Marshal x) in He by done. apply ends_inv in He as [-> ->]. by split; [| constructor].
  - apply Forall_cons in Hout as [Hc Hout]. cbn [fst snd] in *. subst p.
    cbn [map concat recv] in He. rewrite <- app_assoc, ReadFrame_frame_bytes in He.
    2: { split; cbn [fst snd]; [by destruct Ht as [[_ ->] | [_ ->]] | by rewrite length_bytes]. }
    destruct Ht as [[Hc' ->] | [Hc' ->]]; simpl in He;
      apply ends_inv in He as (a & tr' & -> & He); apply IH in He as [-> Htr]; [| done | simpl in Hf; lia | | done | simpl in Hf; lia];
      (split; [done |]); unfold calls in *; cbn [map ev_call]; (constructor; [| done]); eexists; split; [done | auto | done | auto].
Qed.






(** End to end: what the client of a run shows and returns is what the worker did.
    For every run of the daemon's handler in which no write failed and the worker was
    executed with the answer [x] and the output [out], a client that reads the bytes the
    daemon sent, however its writers answer, writes exactly the chunks of [out], in
    order, standard output and standard error each to its own writer, and returns the
    exit code, duration, time-out, metrics and error of [x]. *)
Theorem run_end_to_end cfg fuel req tr tty w x out b e stdout stderr tr' r :
  run_request req = true ->
  ends (handleConnection cfg fuel) (Ev (SDecode : srv) (Ok req) :: tr) (Ok tt) ->
  rp_broken (mon_trace reply_mon no_reply tr) = false ->
  rp_exec (mon_trace reply_mon no_reply tr) = Some (tty, w, (x, out)) ->
  Marshal (final_payload x) = Ok b -> json_faithful (final_payload x) -> Z.of_nat (length b) < 2 ^ 32 ->
  Forall (fun c : Z * string => Z.of_nat (String.length c.2) < 2 ^ 32) out ->
  ends (receive stdout stderr (Stream (rp_sent (mon_trace reply_mon no_reply tr)) e)) tr' r ->
  tty = req_TTY req /\ r = Ok (response_of (final_payload x)) /\ Forall2 (heard stdout stderr tty w) out (calls tr').
Proof.
  intros Hreq He Hb Hx Hm Hj Hlen Hout Hrecv.
  pose proof (connection_run_post _ _ _ _ _ Hreq He eq_refl Hb) as Hsent.
  unfold run_reply in Hsent. rewrite Hx in Hsent. destruct Hsent as (Htty & fs & Hfs & E).
  rewrite <- Htty in Hfs. split; [done |].
  assert (rp_sent (mon_trace reply_mon no_reply tr) = concat (map frame_bytes fs) ++ exit_bytes (final_payload x) ++ []) as E'.
  { by rewrite app_nil_r. }
  rewrite E' in Hrecv. unfold receive in Hrecv. eapply recv_reply; [..| exact Hrecv]; try done.
  cbn [s_data]. rewrite length_app. pose proof (length_frames fs). lia.
Qed.
End receives.

(** ** What a run does to the terminal and the connection *)

Record held := { h_conn : bool; h_raw : bool; h_notified : bool }.

Definition nothing_held : held := {| h_conn := false; h_raw := false; h_notified := false |}.

Definition held_mon (s : held) (c : cli) (r : ans c) : held :=
  match c return cans c -> held with
  | CDial _ => fun r => {| h_conn := is_ok r; h_raw := h_raw s; h_notified := h_notified s |}
  | CCloseConn => fun _ => {| h_conn := false; h_raw := h_raw s; h_notified := h_notified s |}
  | CMakeRaw => fun r => {| h_conn := h_conn s; h_raw := is_ok r; h_notified := h_notified s |}
  | CRestore => fun _ => {| h_conn := h_conn s; h_raw := false; h_notified := h_notified s |}
  | CNotify => fun _ => {| h_conn := h_conn s; h_raw := h_raw s; h_notified := true |}
  | CSignalStop => fun _ => {| h_conn := h_conn s; h_raw := h_raw s; h_notified := false |}
  | _ => fun _ => s
  end r.

Section terminal.
Context `{JSON Request, JSON ExitPayload, JSON StatsPayload}.

Lemma neutral_held_cfw {A} (p : prog wire A) : neutral held_mon (cfw p).
Proof using. clear. intros s. unfold cfw. revert s. induction p as [a | c k IH]; intros s; [done |]. intros r. apply IH. Qed.

Lemma neutral_held_size : neutral held_mon send_size.
Proof using. clear. unfold send_size. neutral_steps. apply neutral_held_cfw. Qed.

Lemma neutral_held_recv fuel o e s : neutral held_mon (recv fuel o e s).
Proof.
  revert s. induction fuel as [|fuel IH]; intros s; cbn [recv]; [neutral_steps |].
  destruct (ReadFrame s) as [[[t p]|] s']; neutral_steps; apply IH.
Qed.

Lemma neutral_held_encode req : neutral held_mon (EncodeRequest req).
Proof. unfold EncodeRequest. neutral_steps. Qed.

Ltac h_step := wp_step_with ltac:(fun _ => cbn [held_mon is_ok h_conn h_raw h_notified]).

Lemma wp_with_terminal tty body :
  neutral held_mon body ->
  wp held_mon (with_terminal tty body) {| h_conn := true; h_raw := false; h_notified := false |}
    (fun s _ => s = {| h_conn := true; h_raw := false; h_notified := false |}).
Proof.
  intros Hbody. unfold with_terminal. h_step.
  eapply wp_mono with (Q := fun s _ => s = {| h_conn := true; h_raw := false; h_notified := false |}).
  2: { destruct tty; h_step; done. }
  intros ? [|] ->; [| apply Hbody]. h_step. h_step; cbv zeta.
  - h_step. h_step. eapply wp_mono; [| apply neutral_held_size]. intros ? ? ->. cbv beta.
    h_step. h_step. h_step. h_step. h_step. h_step. h_step. eapply wp_mono; [| apply Hbody].
    intros ? ? ->. cbv beta. repeat h_step; done.
  - h_step. eapply wp_mono; [| apply neutral_held_size]. intros ? ? ->. cbv beta.
    h_step. h_step. h_step. h_step. h_step. h_step. h_step. eapply wp_mono; [| apply Hbody].
    intros ? ? ->. cbv beta. repeat h_step; done.
Qed.

(** C30: The client leaves the terminal and the connection as it found them: whatever
    fails, and whatever the daemon sends, when a run returns the connection is closed,
    a terminal that was put in raw mode is restored, and no notification of window
    changes stays installed. *)
Theorem Run_restores c opts tr r :
  ends (Run c opts) tr r -> mon_trace held_mon nothing_held tr = nothing_held.
Proof.
  apply (wp_ends held_mon _ nothing_held (fun s _ => s = nothing_held)). unfold Run, closing.
  h_step. h_step; [| by h_step].
  h_step. eapply wp_mono with (Q := fun s _ => s = {| h_conn := true; h_raw := false; h_notified := false |}).
  { intros ? ? ->. by repeat h_step. }
  h_step. eapply wp_mono; [| apply neutral_held_encode]. intros ? [[]|e] ->; cbv beta iota; [| by h_step].
  apply wp_with_terminal. neutral_steps. apply neutral_held_recv.
Qed.
End terminal.

(** ** From the keyboard to the container *)

(** The non-empty reads up to the first error. *)
Fixpoint typed (reads : list (list byte * bool)) : list (list byte) :=
  match reads with
  | [] => []
  | (buf, err) :: reads =>
      (if (0 <? length buf)%nat then [buf] else []) ++ (if (err : bool) then [] else typed reads)
  end.

Definition typed_frames (reads : list (list byte * bool)) : list (Z * list byte) :=
  map (fun buf => (StreamStdin, buf)) (typed reads).

(** The bytes of all writes. *)
Fixpoint sent (cs : list cli) : list byte :=
  match cs with
  | [] => []
  | c :: cs => match (c : ccall) with CWrite bs => bs ++ sent cs | _ => sent cs end
  end.

Lemma sent_app c1 c2 : sent (c1 ++ c2) = sent c1 ++ sent c2.
Proof. induction c1 as [|c c1 IH]; [done |]. destruct c; simpl in *; rewrite ?IH, ?app_assoc; done. Qed.

(** Whether every write succeeded. *)
Definition write_ok (e : event cli) : Prop :=
  match ev_call e as c return cans c -> Prop with
  | CWrite _ => fun r => r = Ok tt
  | _ => fun _ => True
  end (ev_ans e).

Lemma cfw_frame_sent t p tr r :
  ends (cfw (WriteFrame t p)) tr r -> Forall write_ok tr -> sent (calls tr) = frame_bytes (t, p).
Proof.
  intros He Hok. unfold cfw, WriteFrame in He. simpl in He. apply ends_inv in He as (r1 & tr1 & -> & He).
  inversion Hok as [|? ? H1 Hok1]; subst. unfold write_ok in H1. simpl in H1. subst r1.
  destruct p as [|x p]; simpl in He.
  - apply ends_inv in He as [_ ->]. reflexivity.
  - apply ends_inv in He as (r2 & tr2 & -> & He). inversion Hok1 as [|? ? H2 Hok2]; subst.
    unfold write_ok in H2. simpl in H2. subst r2. apply ends_inv in He as [_ ->].
    unfold frame_bytes. cbn [calls map ev_call sent fst snd]. by rewrite app_nil_r.
Qed.

Lemma typing_sent reads tr u :
  ends (typing_loop reads) tr u -> Forall write_ok tr ->
  sent (calls tr) = concat (map frame_bytes (typed_frames reads)).
Proof.
  revert tr. unfold typed_frames. induction reads as [|[buf err] reads IH]; intros tr He Hok; cbn [typing_loop] in He.
  - by apply ends_inv in He as [_ ->].
  - apply ends_bind_inv in He as (tr1 & [] & tr2 & Hw & He & ->). apply Forall_app in Hok as [Hok1 Hok2].
    unfold calls in *. rewrite map_app, sent_app. cbn [typed].
    rewrite map_app, map_app, concat_app. f_equal.
    + destruct (0 <? length buf)%nat.
      * apply ends_bind_inv in Hw as (tr3 & r3 & tr4 & Hw & Hr & ->). apply ends_inv in Hr as [_ ->].
        rewrite app_nil_r in *. apply cfw_frame_sent in Hw; [| done]. cbn [map concat]. by rewrite app_nil_r.
      * by apply ends_inv in Hw as [_ ->].
    + destruct err; [by apply ends_inv in He as [_ ->] | by apply IH].
Qed.

Lemma typed_small reads :
  Forall (fun x : list byte * bool => Z.of_nat (length x.1) < 2 ^ 32) reads -> Forall frame_ok (typed_frames reads).
Proof.
  unfold typed_frames. induction 1 as [|[buf err] reads Hb _ IH]; [constructor |]. cbn [typed]. rewrite map_app.
  apply Forall_app. split; [| by destruct err].
  destruct (0 <? length buf)%nat; [| constructor]. constructor; [| constructor]. by split.
Qed.

(** The sequences in which two goroutines' frames can follow each other on a connection
    when no frame is written inside another. *)
Inductive interleaved {A} : list A -> list A -> list A -> Prop :=
| interleaved_nil : interleaved [] [] []
| interleaved_left x xs ys zs : interleaved xs ys zs -> interleaved (x :: xs) ys (x :: zs)
| interleaved_right y xs ys zs : interleaved xs ys zs -> interleaved xs (y :: ys) (y :: zs).

Lemma interleaved_Forall {A} (P : A -> Prop) xs ys zs :
  interleaved xs ys zs -> Forall P xs -> Forall P ys -> Forall P zs.
Proof. induction 1; rewrite ?Forall_cons; naive_solver. Qed.

(** A goroutine that succeeded in all its writes sent exactly the frames [fs]. *)
Definition sent_frames (tr : list (event cli)) (fs : list (Z * list byte)) : Prop :=
  Forall write_ok tr /\ Forall frame_ok fs /\ sent (calls tr) = concat (map frame_bytes fs).

(** Frames can be read back, so the bytes determine them. *)
Lemma frames_inj fs fs' :
  Forall frame_ok fs -> Forall frame_ok fs' ->
  concat (map frame_bytes fs) = concat (map frame_bytes fs') -> fs = fs'.
Proof.
  intros Hf Hf' E.
  pose proof (read_frames_fuel fs (S (length fs + length fs')) EOF Hf ltac:(lia)) as E1.
  pose proof (read_frames_fuel fs' (S (length fs + length fs')) EOF Hf' ltac:(lia)) as E2.
  rewrite E in E1. congruence.
Qed.

(** The text that a frame, or a system call, is for the terminal. *)
Definition frame_text (f : Z * list byte) : option (list byte) := if f.1 =? StreamStdin then Some f.2 else None.

Definition call_text (c : os) : option (Z * string) :=
  match (c : oscall) with WriteString fd s => Some (fd, s) | _ => None end.

Lemma call_text_frames fd (fs : list (Z * list byte)) :
  omap call_text (omap (term_call fd) fs) = (fun bs => (fd, string_of_list_byte bs)) <$> omap frame_text fs.
Proof.
  induction fs as [|f fs IH]; [done |]. cbn [omap list_omap]. unfold term_call at 1, frame_text at 1.
  destruct (f.1 =? StreamStdin).
  { cbn [omap list_omap call_text fmap list_fmap]. f_equal. apply IH. }
  destruct (f.1 =? StreamResize); [destruct (ParseWindowSize f.2) |]; apply IH.
Qed.

Lemma dropped_text bufs rs fs n :
  interleaved (map (fun buf => (StreamStdin, buf)) bufs) rs fs -> Forall (fun f => f.1 = StreamResize) rs ->
  exists k, (k <= n)%nat /\ omap frame_text (drop n fs) = drop k bufs.
Proof.
  intros Hi Hr. remember (map _ bufs) as xs eqn:Ex. revert bufs n Ex Hr.
  induction Hi as [| x xs ys zs Hi IH | y xs ys zs Hi IH]; intros bufs n Ex Hr.
  - exists 0%nat. destruct bufs; [| done]. by rewrite !drop_nil, ?drop_0; split; [lia |].
  - destruct bufs as [|b bufs]; [done |]. injection Ex as -> ->. destruct n as [|n].
    + exists 0%nat. split; [done |]. destruct (IH bufs 0%nat eq_refl Hr) as (k & Hk & E).
      replace k with 0%nat in E by lia. rewrite !drop_0 in *. cbn. by rewrite E.
    + destruct (IH bufs n eq_refl Hr) as (k & Hk & E). exists (S k). split; [lia | done].
  - apply Forall_cons in Hr as [Hy Hr]. destruct n as [|n].
    + destruct (IH bufs 0%nat Ex Hr) as (k & Hk & E). exists k. split; [done |].
      rewrite drop_0 in *. cbn [omap list_omap]. unfold frame_text at 1. by rewrite Hy.
    + destruct (IH bufs n Ex Hr) as (k & Hk & E). exists k. split; [lia | done].
Qed.

Lemma send_size_sent tr u :
  ends send_size tr u -> Forall write_ok tr ->
  exists rs, sent (calls tr) = concat (map frame_bytes rs) /\ Forall (fun f => frame_ok f /\ f.1 = StreamResize) rs.
Proof.
  intros He Hok. apply ends_bind_inv in He as (tr1 & r & tr2 & Hg & He & ->).
  apply ends_inv in Hg as (r1 & tr0 & -> & Hg). apply ends_inv in Hg as [-> ->].
  apply Forall_cons in Hok as [_ Hok]. destruct r1 as [[width height]|e].
  - apply ends_bind_inv in He as (tr3 & r3 & tr4 & Hw & Hr & ->). apply ends_inv in Hr as [_ ->].
    rewrite app_nil_r in *. apply cfw_frame_sent in Hw; [| done].
    exists [(StreamResize, EncodeWindowSize (uint16 height) (uint16 width))]. split.
    + cbn [map concat]. rewrite app_nil_r, <- Hw. reflexivity.
    + apply Forall_singleton. split; [by split | done].
  - apply ends_inv in He as [_ ->]. by exists [].
Qed.

Lemma winch_sent n tr u :
  ends (winch_loop n) tr u -> Forall write_ok tr ->
  exists rs, sent (calls tr) = concat (map frame_bytes rs) /\ Forall (fun f => frame_ok f /\ f.1 = StreamResize) rs.
Proof.
  revert tr. induction n as [|n IH]; intros tr He Hok; cbn [winch_loop] in He.
  - apply ends_inv in He as [_ ->]. by exists [].
  - apply ends_bind_inv in He as (tr1 & [] & tr2 & Hs & He & ->). apply Forall_app in Hok as [Hok1 Hok2].
    destruct (send_size_sent _ _ Hs Hok1) as (rs1 & E1 & Hr1). destruct (IH _ He Hok2) as (rs2 & E2 & Hr2).
    exists (rs1 ++ rs2). split; [| by apply Forall_app].
    unfold calls in *. by rewrite map_app, sent_app, map_app, concat_app, E1, E2.
Qed.

(** C29: From the keyboard to the container: let the typing and the window-change
    goroutines of the client each succeed in all their writes, let their frames follow
    each other on the connection in any order but not one inside another, and let the
    daemon's request decoder have taken the first [lost] of them.  Then what the daemon's
    input goroutine writes to the worker's terminal is what was typed, read by read, in
    order and with the same bytes, less at most [lost] reads at the start; it writes
    nothing else, and its other calls set the terminal's size. *)
Theorem typing_reaches_terminal reads n trt trw ut uw typed_fs size_fs fs lost w fd e tr u :
  Forall (fun x : list byte * bool => Z.of_nat (length x.1) < 2 ^ 32) reads ->
  ends (typing_loop reads) trt ut -> sent_frames trt typed_fs ->
  ends (winch_loop n) trw uw -> sent_frames trw size_fs ->
  interleaved typed_fs size_fs fs -> w_ptyMaster w = Some fd ->
  ends (input_loop w (Stream (concat (map frame_bytes (drop lost fs))) e)) tr u ->
  (exists k : nat, (k <= lost)%nat /\
    omap call_text (calls tr) = (fun buf => (fd, string_of_list_byte buf)) <$> drop k (typed reads)) /\
  Forall (fun c : os => is_Some (call_text c) \/ exists rows cols, c = PtySetsize fd rows cols) (calls tr).
Proof.
  intros Hsmall Ht (Hokt & Hft & Et) Hw (Hokw & Hfw & Ew) Hi Hfd Hin.
  assert (Forall frame_ok (drop lost fs)) as Hfs by by eapply Forall_drop, interleaved_Forall.
  rewrite (input_delivers w fd _ e tr u Hfd Hfs Hin). clear Hin. split.
  - destruct (winch_sent _ _ _ Hw Hokw) as (rs & Er & [Hr1 Hr2]%Forall_and).
    assert (size_fs = rs) as -> by (apply frames_inj; [done | done | congruence]).
    pose proof (typing_sent _ _ _ Ht Hokt) as Et'.
    assert (typed_fs = typed_frames reads) as ->.
    { apply frames_inj; [done | by apply typed_small | congruence]. }
    destruct (dropped_text _ _ _ lost Hi Hr2) as (k & Hk & E). exists k. split; [done |].
    by rewrite call_text_frames, E.
  - apply Forall_forall. intros c (f & _ & Hf)%list_elem_of_omap. unfold term_call in Hf.
    destruct (f.1 =? StreamStdin); [injection Hf as <-; by left; eexists |].
    destruct (f.1 =? StreamResize), (ParseWindowSize f.2); naive_solver.
Qed.

(** ** Concrete runs *)

#[local] Instance MountSpec_countable : Countable MountSpec.
Proof.
  refine (inj_countable' (fun m => (HostPath m, ContainerPath m, ReadOnly m))
    (fun '(a, b, c) => Build_MountSpec a b c) _).
  by intros [].
Defined.

#[local] Instance PortMapping_countable : Countable PortMapping.
Proof.
  refine (inj_countable' (fun m => (pm_HostPort m, pm_ContainerPort m, pm_Protocol m))
    (fun '(a, b, c) => Build_PortMapping a b c) _).
  by intros [].
Defined.

#[local] Instance Request_eq_dec : EqDecision Request.
Proof. solve_decision. Defined.

#[local] Instance Request_countable : Countable Request.
Proof.
  refine (inj_countable'
    (fun x => (req_Action x, req_TargetID x, req_Command x, req_Args x, req_Env x, req_Timeout x,
               req_MemoryLimitBytes x, req_MaxProcesses x, req_StorageLimitMB x, req_Mounts x,
               req_TTY x, req_SeccompProfile x, req_NetworkMode x, req_PortMappings x, req_DNSServers x))
    (fun '(a, b, c, d, e, f, g, h, i, j, k, l, m, n, o) => Build_Request a b c d e f g h i j k l m n o) _).
  by intros [].
Defined.

#[local] Existing Instances exit_json stats_json response_json.
#[local] Instance request_json : JSON Request := countable_json Request.

(** A daemon that sends the bytes of [s]; standard input is a terminal. *)
Definition ok_cli (s : stream) : handler cli unit := fun c w =>
  (match c return cans c with
   | CResponse => Ok {| resp_Success := true; resp_Error := ""; resp_Jobs := [] |}
   | CRecv => s
   | CIsTerminal => true
   | CGetSize => Ok (80, 24)
   | COnStats _ | CNotify | CSignalStop | CGo _ => tt
   | _ => Ok tt
   end, w).

Definition demo_opts : ExecOptions :=
  {| opt_Command := "/bin/sh"; opt_Args := []; opt_Env := []; opt_Timeout := 0; opt_MemoryLimitBytes := 0;
     opt_MaxProcesses := 0; opt_StorageLimitMB := 0; opt_Mounts := []; opt_TTY := true; opt_Stdout := None;
     opt_Stderr := None; opt_SeccompProfile := ""; opt_NetworkMode := "none"; opt_PortMappings := [];
     opt_DNSServers := [] |}.

Lemma Run_restores_witness :
  mon_trace held_mon nothing_held
    (trace (ok_cli (Stream [] ErrClosed)) (Run (NewClient "") demo_opts) tt) = nothing_held.
Proof.
  apply (Run_restores (NewClient "") demo_opts _
    (res (ok_cli (Stream [] ErrClosed)) (Run (NewClient "") demo_opts) tt)). apply run_ends.
Defined.

Definition demo_reads : list (list byte * bool) := [([x6c; x73], false); ([], false); ([x0a], true)].

(** A key is typed, the window changes, a line end is typed; the decoder took the first
    frame, so the first read is lost. *)
Lemma typing_reaches_terminal_witness :
  let resize := (StreamResize, EncodeWindowSize (uint16 24) (uint16 80)) in
  let fs := [(StreamStdin, [x6c; x73]); resize; (StreamStdin, [x0a])] in
  let s := Stream (concat (map frame_bytes (drop 1 fs))) EOF in
  exists k : nat, (k <= 1)%nat /\
    omap call_text (calls (trace ok_os (input_loop demo_worker s) tt)) =
      (fun buf => (6, string_of_list_byte buf)) <$> drop k (typed demo_reads).
Proof.
  intros resize fs s.
  apply (typing_reaches_terminal demo_reads 1 (trace (ok_cli (Stream [] EOF)) (typing_loop demo_reads) tt)
    (trace (ok_cli (Stream [] EOF)) (winch_loop 1) tt) tt tt [(StreamStdin, [x6c; x73]); (StreamStdin, [x0a])] [resize]
    fs 1 demo_worker 6 EOF (trace ok_os (input_loop demo_worker s) tt) tt).
  - by repeat constructor.
  - apply (run_ends (ok_cli (Stream [] EOF))).
  - split; [by repeat constructor |]. split; [by repeat constructor | reflexivity].
  - apply (run_ends (ok_cli (Stream [] EOF))).
  - split; [by repeat constructor |]. split; [by repeat constructor | reflexivity].
  - by repeat constructor.
  - done.
  - apply (run_ends ok_os).
Defined.

(** A stream that is cut before the exit frame, or right after a frame's header, is
    reported as a run that ended with exit code 0. *)
Example receive_cut_is_success :
  res (ok_cli (Stream [] EOF)) (receive 1 2 (Stream (frame_bytes (StreamStdout, hello)) EOF)) tt = Ok zero_response /\
  res (ok_cli (Stream [] EOF)) (receive 1 2 (Stream [x03; x00; x00; x00; x7b] EOF)) tt = Ok zero_response.
Proof. vm_compute. done. Qed.
