(* ===== verification/Cli.v ===== *)
(** * The command line (src/cmd/gojail/main.go, src/cmd/gojaild/main.go)

    What the arguments mean: flags, volumes and port mappings, the request a run sends to
    the daemon or the configuration a direct run gets, what is printed (messages, the
    table of [ps], the display of [stats], telemetry) and the exit code.  A printed text
    is one call, however many writes it takes.  The flag package's own messages are left
    out. *)

From Stdlib Require Import SpecFloat.
From S2P Require Import Prelude GoStrings GoStrconv GoFmt GoPath GoFlag GoSort Effects OS GoTabwriter SandboxConfig.
From S2P Require Import Protocol Cgroup.
From S2P Require Import Seccomp Registry GoNet Ipam Network Pool Runner DaemonConfig Server Client.
#[local] Open Scope go_scope.

(** ** Volumes and ports *)

Fixpoint parseMounts_go (rawMounts : list string) (specs : list MountSpec) : io (result (list MountSpec)) :=
  match rawMounts with
  | [] => mret (Ok specs)
  | m :: rawMounts =>
      let? spec := ParseMountSpec m onerr e => mret (Err e) in
      parseMounts_go rawMounts (specs ++ [spec])
  end.

Definition parseMounts (rawMounts : list string) : io (result (list MountSpec)) := parseMounts_go rawMounts [].

(** A port: a decimal number from 1 to 65535. *)
Definition parse_port (s : string) : option Z :=
  match Atoi s with
  | (n, None) => if (n <=? 0) || (65535 <? n) then None else Some n
  | _ => None
  end.

(** The part before the first slash, and the protocol after it. *)
Definition split_proto (p : string) : string * string :=
  match IndexByte "/" p with
  | Some i => (take_str i p, ToLower (drop_str (S i) p))
  | None => (p, "tcp")
  end.

Definition parsePortMapping (p : string) : result PortMapping :=
  let '(portPart, proto) := split_proto p in
  match Split ":" portPart with
  | [h; c] =>
      match parse_port h with
      | None => Err (NewErr ("invalid host port in " +:+ Quote p))
      | Some hp =>
          match parse_port c with
          | None => Err (NewErr ("invalid container port in " +:+ Quote p))
          | Some cp =>
              if negb (bool_decide (proto = "tcp")) && negb (bool_decide (proto = "udp")) then
                Err (NewErr ("invalid protocol " +:+ Quote proto +:+ " (must be tcp or udp)"))
              else Ok {| pm_HostPort := hp; pm_ContainerPort := cp; pm_Protocol := proto |}
          end
      end
  | _ => Err (NewErr ("invalid port mapping " +:+ Quote p +:+ " (expected host_port:container_port[/tcp|udp])"))
  end.

Fixpoint parsePortMappings (rawPorts : list string) : result (list PortMapping) :=
  match rawPorts with
  | [] => Ok []
  | p :: rawPorts =>
      match parsePortMapping p with
      | Err e => Err e
      | Ok mapping =>
          match parsePortMappings rawPorts with
          | Err e => Err e
          | Ok mappings => Ok (mapping :: mappings)
          end
      end
  end.

(** Ports or resolvers need the bridge. *)
Definition effective_net (netMode : string) (ports : list PortMapping) (dns : list string) : string :=
  if ((0 <? length ports)%nat || (0 <? length dns)%nat) && bool_decide (netMode = "none") then "bridge"
  else netMode.

(** ** gojail run *)

Definition no_script : string :=
  "Error: must provide a command body or script to execute, or use -it for interactive session".
Definition no_direct_script : string := "Error: must provide a command via -c flag or as an argument".

(** The flags both kinds of run have. *)
Definition common_kinds (name : string) : option flag_kind :=
  if bool_decide (name ∈ ["cmd"; "c"; "seccomp"; "net"]) then Some FString
  else if bool_decide (name ∈ ["timeout"; "mem"; "procs"; "storage"]) then Some FInt
  else if bool_decide (name ∈ ["v"; "volume"; "p"; "publish"; "dns"]) then Some FList
  else None.

Definition run_kinds (name : string) : option flag_kind :=
  if bool_decide (name ∈ ["metrics"; "i"; "t"]) then Some FBool
  else if bool_decide (name = "socket") then Some FString
  else common_kinds name.

(** [-it] stands for [-i -t], wherever it is. *)
Definition normalize (args : list string) : list string :=
  concat (map (fun a => if bool_decide (a = "-it") then ["-i"; "-t"] else [a]) args).

(** A text for a descriptor. *)
Abbreviation said := (Z * string)%type.

Definition on_stdout (line : string) : said := (1, line +:+ nl).
Definition on_stderr (line : string) : said := (2, line +:+ nl).

(** The program says something and ends with a code, or goes on. *)
Inductive outcome (A : Type) := Exit (says : list said) (code : Z) | Go (a : A).
Arguments Exit {A} says code.
Arguments Go {A} a.

(** The command of a run, if there is one. *)
Definition run_target (isInteractive : bool) (cmd script : string) (remaining : list string) :
    option (string * list string) :=
  if isInteractive then
    match remaining with
    | r :: rs => Some (r, rs)
    | [] => if negb (bool_decide (script = "")) then Some (cmd, ["-c"; script]) else Some ("/bin/sh", ["-i"])
    end
  else
    let script := if bool_decide (script = "") then hd "" remaining else script in
    if bool_decide (script = "") then None else Some (cmd, ["-c"; script]).

Definition run_timeout (isInteractive : bool) (timeoutSec : Z) : Z :=
  let d := int64 (timeoutSec * Second) in
  if isInteractive && (d =? 0) then 3600 * Second else d.

(** The socket and the options of a run, and whether to print its metrics. *)
Definition run_options (args : list string) : io (outcome (string * ExecOptions * bool)) :=
  match Parse run_kinds (normalize args) with
  | FlagHelp => mret (Exit [] 0)
  | FlagError => mret (Exit [] 2)
  | Parsed ss remaining =>
      let? mountSpecs := parseMounts (flag_list ss "v" "volume") onerr e =>
        mret (Exit [on_stderr ("Error in volume specification: " +:+ ErrorText e)] 1) in
      match parsePortMappings (flag_list ss "p" "publish") with
      | Err e => mret (Exit [on_stderr ("Error in port mapping specification: " +:+ ErrorText e)] 1)
      | Ok portMappings =>
          let dns := flag_list ss "dns" "dns" in
          let isInteractive := flag_bool ss "i" && flag_bool ss "t" in
          match run_target isInteractive (flag_string ss "cmd" "/bin/sh") (flag_string ss "c" "") remaining with
          | None => mret (Exit [on_stdout no_script] 1)
          | Some (targetCmd, targetArgs) =>
              mret (Go (flag_string ss "socket" "/var/run/gojail.sock",
                {| opt_Command := targetCmd; opt_Args := targetArgs; opt_Env := [];
                   opt_Timeout := run_timeout isInteractive (flag_int ss "timeout" 0);
                   opt_MemoryLimitBytes := int64 (int64 (flag_int ss "mem" 128 * 1024) * 1024);
                   opt_MaxProcesses := flag_int ss "procs" 64;
                   opt_StorageLimitMB := flag_int ss "storage" 64;
                   opt_Mounts := mountSpecs; opt_TTY := isInteractive;
                   opt_Stdout := Some 1; opt_Stderr := Some 2;
                   opt_SeccompProfile := flag_string ss "seccomp" "";
                   opt_NetworkMode := effective_net (flag_string ss "net" "none") portMappings dns;
                   opt_PortMappings := portMappings; opt_DNSServers := dns |},
                flag_bool ss "metrics"))
          end
      end
  end.

(** ** gojail direct *)

Definition directEnv : list string :=
  ["PATH=/usr/local/sbin:/usr/local/bin:/usr/sbin:/usr/bin:/sbin:/bin"; "HOME=/tmp"].

Definition direct_config (args : list string) : io (outcome Config) :=
  match Parse common_kinds args with
  | FlagHelp => mret (Exit [] 0)
  | FlagError => mret (Exit [] 2)
  | Parsed ss remaining =>
      let? mountSpecs := parseMounts (flag_list ss "v" "volume") onerr e =>
        mret (Exit [on_stderr ("Error in volume specification: " +:+ ErrorText e)] 1) in
      match parsePortMappings (flag_list ss "p" "publish") with
      | Err e => mret (Exit [on_stderr ("Error in port mapping specification: " +:+ ErrorText e)] 1)
      | Ok portMappings =>
          let dns := flag_list ss "dns" "dns" in
          let script := flag_string ss "c" "" in
          let script := if bool_decide (script = "") then hd "" remaining else script in
          if bool_decide (script = "") then mret (Exit [on_stdout no_direct_script] 1)
          else
            now ← sys Now;
            mret (Go
              {| cfg_ID := "jail-" +:+ Itoa now;
                 cfg_MemoryLimitBytes := int64 (int64 (flag_int ss "mem" 128 * 1024) * 1024);
                 cfg_MaxProcesses := flag_int ss "procs" 32;
                 cfg_StorageLimitMB := flag_int ss "storage" 64;
                 cfg_Timeout := int64 (flag_int ss "timeout" 5 * Second);
                 cfg_Command := flag_string ss "cmd" "/bin/sh"; cfg_Args := ["-c"; script];
                 cfg_Env := directEnv; cfg_RootPath := ""; cfg_Rootfs := ""; cfg_Mounts := mountSpecs;
                 cfg_TTY := false; cfg_SeccompProfile := flag_string ss "seccomp" "";
                 cfg_NetworkMode := effective_net (flag_string ss "net" "none") portMappings dns;
                 cfg_PortMappings := portMappings; cfg_DNSServers := dns |})
      end
  end.

(** ** The commands *)

(** A command makes system calls, prints, and, through the client, makes calls of its
    own. *)
Inductive gcall := GOs (c : oscall) | GCli (c : ccall) | GPrint (text : said).
Definition gans (c : gcall) : Type :=
  match c with GOs c => osans c | GCli c => cans c | GPrint _ => unit end.
Definition gsig : sig := Sig gcall gans.
Abbreviation gio A := (prog gsig A).

Definition on_os {A} (p : io A) : gio A := translate (T := gsig) (fun c : os => do_call (GOs c : gsig)) p.
Definition on_cli {A} (p : cio A) : gio A := translate (T := gsig) (fun c : cli => do_call (GCli c : gsig)) p.

Definition print (s : said) : gio unit := @do_call gsig (GPrint s).
Definition say_all (says : list said) : gio unit := foldM (fun _ s => print s) tt says.

(** Bytes in mebibytes, with two decimals. *)
Definition megabytes (n : Z) : string := Format2f (f64_div (f64_of_Z n) (f64_of_Z (1024 * 1024))).

Definition telemetry (resp : Response) : string :=
  nl +:+ "[Telemetry] Peak Memory: " +:+ megabytes (PeakMemoryBytes (rsp_Metrics resp)) +:+ " MB (" +:+
  Itoa (PeakMemoryBytes (rsp_Metrics resp)) +:+ " B) | User CPU: " +:+ Itoa (UserCPUTimeUS (rsp_Metrics resp)) +:+
  " " +:+ micro +:+ "s | Sys CPU: " +:+ Itoa (SystemCPUTimeUS (rsp_Metrics resp)) +:+ " " +:+ micro +:+
  "s | Wall: " +:+ DurationString (rsp_Duration resp).

(** What is said about the client's answer, and the exit code. *)
Definition run_says (showMetrics : bool) (r : result Response) : list said :=
  match r with
  | Err e => [on_stderr (nl +:+ "[gojail] Client error: " +:+ ErrorText e)]
  | Ok resp =>
      if negb (bool_decide (rsp_Error resp = "")) then
        [on_stderr (nl +:+ "[gojail] Execution rejected: " +:+ rsp_Error resp)]
      else
        (if rsp_TimedOut resp then
           [on_stderr (nl +:+ "[gojail] Execution timed out after " +:+ DurationString (rsp_Duration resp))] else []) ++
        (if showMetrics then [on_stderr (telemetry resp)] else [])
  end.

Definition run_exit (r : result Response) : Z :=
  match r with
  | Err _ => 1
  | Ok resp => if negb (bool_decide (rsp_Error resp = "")) then 1 else rsp_ExitCode resp
  end.

Definition direct_says (r : result Result) : list said :=
  match r with
  | Err e => [on_stderr ("[gojail] Direct execution error: " +:+ ErrorText e)]
  | Ok res =>
      (if negb (bool_decide (res_Stdout res = "")) then [(1, res_Stdout res)] else []) ++
      (if negb (bool_decide (res_Stderr res = "")) then [(2, res_Stderr res)] else [])
  end.

Definition direct_exit (r : result Result) : Z :=
  match r with Err _ => 1 | Ok res => res_ExitCode res end.

(** *** The table of ps *)

Definition ps_header : list string := ["CONTAINER ID"; "PID"; "STATUS"; "MEMORY"; "UPTIME"; "COMMAND"].

(** The command of a job, cut to 30 bytes. *)
Definition ps_command (j : JobInfo) : string :=
  let cmdStr := job_Command j +:+
    (if (0 <? length (job_Args j))%nat then " " +:+ Join (job_Args j) " " else "") in
  if (30 <? String.length cmdStr)%nat then take_str 27 cmdStr +:+ "..." else cmdStr.

Definition ps_memory (j : JobInfo) : string :=
  if 0 <? job_PeakMemoryBytes j then megabytes (job_PeakMemoryBytes j) +:+ " MB" else "-".

Definition ps_row (j : JobInfo) : list string :=
  [job_ID j; Itoa (job_PID j); job_Status j; ps_memory j;
   DurationString (Truncate_duration (job_Duration j) Second); ps_command j].

Definition ps_output (jobs : list JobInfo) : string :=
  match jobs with
  | [] => "No active or recent containers." +:+ nl
  | _ => tabulate (String.concat "" (map row_text (ps_header :: map ps_row jobs)))
  end.

(** *** The display of stats *)

Definition stats_header : string :=
  pad_right 24 "CONTAINER ID" +:+ " " +:+ pad_right 10 "CPU %" +:+ " " +:+ pad_right 20 "MEM USAGE / LIMIT" +:+ " " +:+
  pad_right 12 "PEAK MEM" +:+ " " +:+ pad_right 12 "PIDS" +:+ nl.

Definition stats_line (s : StatsPayload) : string :=
  let limitStr := if 0 <? st_MemoryLimitBytes s then megabytes (st_MemoryLimitBytes s) +:+ " MB" else "unlimited" in
  let pidLimitStr := if 0 <? st_PIDsLimit s then Itoa (st_PIDsLimit s) else "max" in
  String (chr 13) (pad_right 24 (st_ContainerID s)) +:+ " " +:+
  pad_right 9 (Format2f (st_CPUPercent s)) +:+ "% " +:+
  pad_right 7 (megabytes (st_MemoryBytes s)) +:+ "MB / " +:+ pad_right 9 limitStr +:+ " " +:+
  pad_right 10 (megabytes (st_PeakMemoryBytes s)) +:+ "MB " +:+
  Itoa (st_PIDsCurrent s) +:+ " / " +:+ pad_right 6 pidLimitStr.

(** The closure handed to StreamStats: the client's call of it prints, the header once. *)
Fixpoint show_stats {A} (headerPrinted : bool) (p : cio A) : gio A :=
  match p with
  | Ret a => mret a
  | Vis c k =>
      match c return (cans c -> prog cli A) -> (cans c -> gio A) -> gio A with
      | COnStats s => fun k _ =>
          do_ (if headerPrinted then mret tt else print (1, stats_header));;
          do_ print (1, stats_line s);;
          show_stats true (k tt)
      | c => fun _ rec => Vis (S := gsig) (GCli c) rec
      end k (fun r => show_stats headerPrinted (k r))
  end.

Definition socket_kinds (name : string) : option flag_kind :=
  if bool_decide (name = "socket") then Some FString else None.

(** *** The usage *)

Definition usage_lines : list string :=
  ["Usage: gojail <command> [options] [script]";
   "";
   "Commands:";
   "  run            Execute command via the background daemon (gojaild)";
   "  ps, list       List active and recently finished sandbox containers";
   "  stop <id>      Terminate an active sandbox container";
   "  pause <id>     Suspend execution of an active sandbox container";
   "  unpause <id>   Resume execution of a paused sandbox container";
   "  stats <id>     Stream real-time resource utilization for an active container";
   "  direct         Execute command directly using root permissions (standalone mode)";
   "";
   "Options for run:";
   "  -it            Run an interactive session connected to a pseudo-TTY";
   "  --net mode     Network isolation: 'none' (default) or 'bridge'";
   "  -p, --publish  Port forwarding: host:container[/tcp|udp]";
   "  --dns ip       Custom DNS nameserver IP (can be specified multiple times)";
   "  -v, --volume   Bind mount: host:target[:ro|rw] (can be specified multiple times)";
   "  -mem int       Memory ceiling in MB (default 128)";
   "  -procs int     Max processes (default 64)";
   "  -storage int   Scratch storage ceiling in MB (default 64)";
   "  -timeout int   Timeout in seconds (default 5)";
   "  -metrics       Print peak memory and CPU telemetry";
   "  -seccomp path  Path to custom JSON seccomp profile"].

(** *** Dispatch *)

Section commands.
Context `{JSON Request, JSON ExitPayload, JSON StatsPayload}.
Context `{SliceSort, IpamJSON}.
Variable netlink_ParseAddr : string -> result string.
Variable MarshalConfig : Config -> result string.
Variable UnmarshalConfig : string -> result Config.
Variable profile_json : string -> result Profile.
Variable yaml_Unmarshal : string -> DaemonConfig -> result DaemonConfig.

Definition handleRunCommand (args : list string) : gio Z :=
  o ← on_os (run_options args);
  match o with
  | Exit says code => do_ say_all says;; mret code
  | Go (socket, opts, showMetrics) =>
      r ← on_cli (Client.Run (NewClient socket) opts);
      do_ say_all (run_says showMetrics r);; mret (run_exit r)
  end.

(** A command about one container, the first argument after the flags. *)
Definition target_command (missing : string) (f : Client -> string -> gio Z) (args : list string) : gio Z :=
  match Parse socket_kinds args with
  | FlagHelp => mret 0
  | FlagError => mret 2
  | Parsed ss remaining =>
      let target := hd "" remaining in
      if bool_decide (target = "") then
        do_ print (on_stdout ("Error: must specify a container ID to " +:+ missing));; mret 1
      else f (NewClient (flag_string ss "socket" "/var/run/gojail.sock")) target
  end.

(** A control request and what is said about its answer. *)
Definition control_command (f : Client -> string -> cio (result unit)) (doing done_ : string)
    (c : Client) (target : string) : gio Z :=
  r ← on_cli (f c target);
  match r with
  | Err e => do_ print (on_stderr ("Error " +:+ doing +:+ " container " +:+ target +:+ ": " +:+ ErrorText e));; mret 1
  | Ok _ => do_ print (on_stdout ("Container " +:+ target +:+ " " +:+ done_ +:+ " successfully."));; mret 0
  end.

Definition handleStopCommand : list string -> gio Z :=
  target_command "stop" (control_command StopJob "stopping" "stopped").
Definition handlePauseCommand : list string -> gio Z :=
  target_command "pause" (control_command PauseJob "pausing" "paused").
Definition handleUnpauseCommand : list string -> gio Z :=
  target_command "unpause" (control_command UnpauseJob "unpausing" "resumed").

Definition handleStatsCommand : list string -> gio Z :=
  target_command "stream stats for" (fun c target =>
    r ← show_stats false (Client.StreamStats c target true);
    do_ print (1, nl);;
    match r with
    | Err e => do_ print (on_stderr ("Stats stream error: " +:+ ErrorText e));; mret 1
    | Ok _ => mret 0
    end).

Definition handlePsCommand (args : list string) : gio Z :=
  match Parse socket_kinds args with
  | FlagHelp => mret 0
  | FlagError => mret 2
  | Parsed ss _ =>
      r ← on_cli (ListJobs (NewClient (flag_string ss "socket" "/var/run/gojail.sock")));
      match r with
      | Err e => do_ print (on_stderr ("Error querying jobs from daemon: " +:+ ErrorText e));; mret 1
      | Ok jobs => do_ print (1, ps_output jobs);; mret 0
      end
  end.

(** [ctx] is the context of the run. *)
Definition handleDirectCommand (ctx : Z) (args : list string) : gio Z :=
  o ← on_os (direct_config args);
  match o with
  | Exit says code => do_ say_all says;; mret code
  | Go cfg =>
      r ← on_os (Runner.Run netlink_ParseAddr MarshalConfig (NewRunner cfg) ctx);
      do_ say_all (direct_says r);; mret (direct_exit r)
  end.

Definition init_error (e : error) : said := on_stderr ("Error in child init: " +:+ ErrorText e).

(** The re-executed child of a sandbox. *)
Definition child_main (cfgJSON : string) : gio Z :=
  r ← on_os (InitChild profile_json UnmarshalConfig cfgJSON);
  match r with
  | Err e => do_ print (init_error e);; mret 1
  | Ok _ => mret 0
  end.

Definition printUsage : gio unit :=
  print (1, String.concat "" (map (fun l => l +:+ nl) usage_lines)).

(** [os.Args], the program's name first; the exit code. *)
Definition main (ctx : Z) (args : list string) : gio Z :=
  match args with
  | _ :: "__init_child__" :: cfgJSON :: _ => child_main cfgJSON
  | _ :: cmd :: rest =>
      if bool_decide (cmd = "run") then handleRunCommand rest
      else if bool_decide (cmd ∈ ["ps"; "list"]) then handlePsCommand rest
      else if bool_decide (cmd = "stop") then handleStopCommand rest
      else if bool_decide (cmd = "pause") then handlePauseCommand rest
      else if bool_decide (cmd = "unpause") then handleUnpauseCommand rest
      else if bool_decide (cmd ∈ ["stats"; "top"]) then handleStatsCommand rest
      else if bool_decide (cmd = "direct") then handleDirectCommand ctx rest
      else if bool_decide (cmd ∈ ["-h"; "--help"; "help"]) then do_ printUsage;; mret 0
      else handleDirectCommand ctx (cmd :: rest)
  | _ => do_ printUsage;; mret 1
  end.

(** The daemon's program, from its start to its stop; the wait for a signal, and what
    is printed when it comes, is between. *)
Definition gojaild_kinds (name : string) : option flag_kind :=
  if bool_decide (name = "config") then Some FString else None.

Definition gojaild_main (args : list string) : gio Z :=
  match args with
  | _ :: "__init_child__" :: cfgJSON :: _ => child_main cfgJSON
  | _ =>
      match Parse gojaild_kinds (tail args) with
      | FlagHelp => mret 0
      | FlagError => mret 2
      | Parsed ss _ =>
          let? cfg := on_os (LoadConfig yaml_Unmarshal (flag_string ss "config" "")) onerr e =>
            (do_ print (on_stderr ("[gojaild] Configuration error: " +:+ ErrorText e));; mret 1) in
          started ← on_os (Start MarshalConfig (NewDaemon (Some cfg)));
          match started with
          | (_, Err e) => do_ print (on_stderr ("[gojaild] Fatal startup error: " +:+ ErrorText e));; mret 1
          | (d, Ok _) => do_ on_os (Server.Stop d);; mret 0
          end
      end
  end.
End commands.

(** ** Port mappings *)

(** The text of a mapping. *)
Definition mapping_text (m : PortMapping) : string :=
  Itoa (pm_HostPort m) +:+ ":" +:+ Itoa (pm_ContainerPort m) +:+ "/" +:+ pm_Protocol m.

Definition mapping_ok (m : PortMapping) : Prop :=
  1 <= pm_HostPort m <= 65535 /\ 1 <= pm_ContainerPort m <= 65535 /\
  (pm_Protocol m = "tcp" \/ pm_Protocol m = "udp").

Lemma parse_port_range s n : parse_port s = Some n -> 1 <= n <= 65535 /\ Atoi s = (n, None).
Proof.
  unfold parse_port. destruct (Atoi s) as [v [e|]]; [done |]. case_match eqn:E; [done |].
  intros [= <-]. bool_hyps. split; [lia | done].
Qed.

Lemma parse_port_Itoa n : 1 <= n <= 65535 -> parse_port (Itoa n) = Some n.
Proof.
  intros Hn. unfold parse_port. rewrite Atoi_Itoa by (unfold in_sint; lia).
  rewrite (proj2 (Z.leb_gt _ _)), (proj2 (Z.ltb_ge _ _)) by lia. done.
Qed.

Lemma parsePortMapping_ok p m : parsePortMapping p = Ok m -> mapping_ok m.
Proof.
  unfold parsePortMapping. destruct (split_proto p) as [portPart proto].
  destruct (Split ":" portPart) as [|h [|c [|]]]; try done.
  destruct (parse_port h) as [hp|] eqn:Hh; [| done]. destruct (parse_port c) as [cp|] eqn:Hc; [| done].
  apply parse_port_range in Hh as [Hh _]. apply parse_port_range in Hc as [Hc _].
  case_match eqn:E; [done |]. intros [= <-]. split; [exact Hh |]. split; [exact Hc |]. simpl.
  apply andb_false_iff in E as [E | E]; bool_hyps; auto.
Qed.

Lemma drop_after c s t : drop_str (S (String.length s)) (s +:+ String c t) = t.
Proof.
  replace (S (String.length s)) with (String.length (s +:+ String c "")).
  - replace (s +:+ String c t) with ((s +:+ String c "") +:+ t) by (rewrite app_str_assoc; done).
    apply drop_str_app.
  - rewrite <- !length_list_of, list_of_app, length_app. simpl. lia.
Qed.

Lemma parsePortMapping_text m : mapping_ok m -> parsePortMapping (mapping_text m) = Ok m.
Proof.
  destruct m as [hp cp proto]. unfold mapping_ok, mapping_text. cbn [pm_HostPort pm_ContainerPort pm_Protocol].
  intros (Hh & Hc & Hp). unfold parsePortMapping, split_proto.
  change (Itoa hp +:+ ":" +:+ Itoa cp +:+ "/" +:+ proto) with
    (Itoa hp +:+ String ":" (Itoa cp +:+ String "/" proto)).
  replace (Itoa hp +:+ String ":" (Itoa cp +:+ String "/" proto))
    with ((Itoa hp +:+ String ":" (Itoa cp)) +:+ String "/" proto) by (rewrite app_str_assoc; done).
  rewrite IndexByte_app; [| rewrite no_char_app; simpl; rewrite !Itoa_no_char by done; done].
  rewrite take_str_app, drop_after. rewrite Split_app, Split_single by by apply Itoa_no_char.
  rewrite !parse_port_Itoa by done.
  destruct Hp as [-> | ->]; reflexivity.
Qed.

(** C38: Port mappings: the parser accepts only ports from 1 to 65535 and the protocols
    tcp and udp, gives one mapping for each argument, in order, and reads back every such
    list of mappings from its text; one bad argument rejects them all. *)
Theorem parsePortMappings_spec raw ms :
  (parsePortMappings raw = Ok ms -> Forall mapping_ok ms /\ Forall2 (fun p m => parsePortMapping p = Ok m) raw ms) /\
  (Forall mapping_ok ms -> parsePortMappings (map mapping_text ms) = Ok ms) /\
  (forall p e, p ∈ raw -> parsePortMapping p = Err e -> is_ok (parsePortMappings raw) = false).
Proof.
  split; [| split].
  - revert ms. induction raw as [|p raw IH]; intros ms; cbn [parsePortMappings]; [by intros [= <-] |].
    destruct (parsePortMapping p) as [m|] eqn:Hp; [| done].
    destruct (parsePortMappings raw) as [ms'|]; [| done]. intros [= <-].
    destruct (IH ms' eq_refl) as [Hf Hf2]. split; constructor; try done. by eapply parsePortMapping_ok.
  - induction 1 as [|m ms Hm _ IH]; [done |]. cbn [map parsePortMappings].
    by rewrite parsePortMapping_text, IH by done.
  - intros p e Hin Hp. induction raw as [|q raw IH]; [set_solver |]. cbn [parsePortMappings].
    apply elem_of_cons in Hin as [-> | Hin]; [by rewrite Hp |]. apply IH in Hin.
    destruct (parsePortMapping q); [| done]. by destruct (parsePortMappings raw).
Qed.

(** ** Options that the daemon can apply *)

Lemma wp_ParseMountSpec spec :
  wp no_mon (ParseMountSpec spec) tt (fun _ r => forall m, r = Ok m -> clean_abs (ContainerPath m)).
Proof.
  unfold ParseMountSpec, Abs. destruct (Split ":" spec) as [|host [|cont rest]]; wp_steps; try done.
  all: intros m [= <-]; simpl; apply clean_abs_Clean; repeat case_match; done || apply HasPrefix_app.
Qed.

Lemma wp_parseMounts raw specs :
  Forall (fun m => clean_abs (ContainerPath m)) specs ->
  wp no_mon (parseMounts_go raw specs) tt (fun _ r => forall ms, r = Ok ms ->
    Forall (fun m => clean_abs (ContainerPath m)) ms).
Proof.
  revert specs. induction raw as [|m raw IH]; intros specs Hs; cbn [parseMounts_go].
  - wp_step. by intros ms [= <-].
  - wp_step. eapply wp_mono; [| apply wp_ParseMountSpec]. intros [] [spec|e] Hspec; [| by wp_step].
    apply IH. apply Forall_app. split; [done |]. constructor; [by apply Hspec | done].
Qed.

(** The network mode of a run whose flag says [given]: the bridge instead of none when
    there are ports or resolvers, and otherwise the flag as it is. *)
Definition net_asked (given : string) (ports : list PortMapping) (dns : list string) (net : string) : Prop :=
  (given = "none" /\ (ports <> [] \/ dns <> []) -> net = "bridge") /\
  (given <> "none" \/ (ports = [] /\ dns = []) -> net = given).

(** What both kinds of run ask for. *)
Definition asks_well (given : string) (ms : list MountSpec) (ports : list PortMapping) (dns : list string)
    (net : string) : Prop :=
  Forall (fun m => clean_abs (ContainerPath m)) ms /\ Forall mapping_ok ports /\ net_asked given ports dns net.

Lemma effective_net_spec given ports dns : net_asked given ports dns (effective_net given ports dns).
Proof.
  unfold net_asked, effective_net. split.
  - intros [-> Hne].
    assert ((0 <? length ports)%nat || (0 <? length dns)%nat = true) as -> by (destruct ports, dns; naive_solver).
    done.
  - intros [Hg | [-> ->]]; [| done]. rewrite bool_decide_eq_false_2 by done. by rewrite andb_false_r.
Qed.

Lemma parsePortMappings_ok raw ms : parsePortMappings raw = Ok ms -> Forall mapping_ok ms.
Proof.
  revert ms. induction raw as [|p raw IH]; intros ms; cbn [parsePortMappings]; [by intros [= <-] |].
  destruct (parsePortMapping p) as [m|] eqn:Hp; [| done].
  destruct (parsePortMappings raw) as [ms'|]; [| done]. intros [= <-].
  constructor; [by eapply parsePortMapping_ok | by apply IH].
Qed.

Lemma run_target_batch cmd script remaining t args :
  run_target false cmd script remaining = Some (t, args) -> t = cmd /\
  exists body, args = ["-c"; body] /\ body <> "" /\ body = if bool_decide (script = "") then hd "" remaining else script.
Proof. unfold run_target. cbv zeta. case_bool_decide; [done |]. intros [= <- <-]. eauto. Qed.

(** C39: What the command line asks for can be applied: whatever the arguments and the
    answers of the system, a run that goes on to the daemon has volumes with clean
    absolute container paths (so that they stay inside the container), port mappings in
    range, the network mode of its flag, but the bridge instead of none when it has ports
    or resolvers, and, when it is not interactive, a non-empty script: that of the flag, or
    the first argument. *)
Theorem run_options_well_formed args tr socket o metrics :
  ends (run_options args) tr (Go (socket, o, metrics)) ->
  exists ss remaining, Parse run_kinds (normalize args) = Parsed ss remaining /\
    asks_well (flag_string ss "net" "none") (opt_Mounts o) (opt_PortMappings o) (opt_DNSServers o) (opt_NetworkMode o) /\
    (opt_TTY o = false -> exists body, opt_Args o = ["-c"; body] /\ body <> "" /\
       body = if bool_decide (flag_string ss "c" "" = "") then hd "" remaining else flag_string ss "c" "").
Proof.
  intros He. refine (wp_ends_res _ tr (Go (socket, o, metrics)) (fun x => forall socket o metrics, x = Go (socket, o, metrics) ->
    exists ss remaining, _ = Parsed ss remaining /\ _) _ He _ _ _ eq_refl).
  unfold run_options. destruct (Parse run_kinds (normalize args)) as [ss remaining| |]; [| by wp_step | by wp_step].
  clear. wp_step. unfold parseMounts. eapply wp_mono; [| by apply wp_parseMounts].
  intros [] [ms|e] Hms; [| by wp_step]. specialize (Hms ms eq_refl).
  destruct (parsePortMappings _) as [ports|] eqn:Hports; [| by wp_step]. cbv zeta.
  destruct (run_target _ _ _ _) as [[t targs]|] eqn:Ht; [| by wp_step].
  wp_step. intros socket o metrics [= <- <- <-]. exists ss, remaining. split; [done |]. cbn. split.
  - split; [done |]. split; [by eapply parsePortMappings_ok | apply effective_net_spec].
  - intros Htty. rewrite Htty in Ht. by apply run_target_batch in Ht as [_ ?].
Qed.

Lemma jail_id_plain now : plain ("jail-" +:+ Itoa now).
Proof.
  unfold plain. split; [done |]. split; [done |]. split; [done |].
  rewrite no_char_app. simpl. by apply Itoa_no_char.
Qed.

(** A direct run likewise, and its identifier is a plain path component, so that its
    layer and its cgroup lie where the clean-up looks for them. *)
Theorem direct_config_well_formed args tr cfg :
  ends (direct_config args) tr (Go cfg) ->
  (exists given, asks_well given (cfg_Mounts cfg) (cfg_PortMappings cfg) (cfg_DNSServers cfg) (cfg_NetworkMode cfg)) /\
  plain (cfg_ID cfg) /\ exists body, cfg_Args cfg = ["-c"; body] /\ body <> "".
Proof.
  intros He. refine (wp_ends_res _ tr (Go cfg) (fun x => forall cfg, x = Go cfg -> _ /\ _) _ He _ eq_refl).
  unfold direct_config. destruct (Parse common_kinds args) as [ss remaining| |]; [| by wp_step | by wp_step].
  clear. wp_step. unfold parseMounts. eapply wp_mono; [| by apply wp_parseMounts].
  intros [] [ms|e] Hms; [| by wp_step]. specialize (Hms ms eq_refl).
  destruct (parsePortMappings _) as [ports|] eqn:Hports; [| by wp_step]. cbv zeta.
  case_bool_decide as Hbody; [by wp_step |]. wp_step. wp_step. wp_step. intros cfg [= <-]. cbn [cfg_Mounts cfg_PortMappings
    cfg_DNSServers cfg_NetworkMode cfg_ID cfg_Args]. split.
  - eexists. split; [done |]. split; [by eapply parsePortMappings_ok | apply effective_net_spec].
  - split; [apply jail_id_plain | by eexists].
Qed.

(** ** Concrete runs *)

Lemma parsePortMappings_spec_witness :
  parsePortMappings ["8080:80"; "53:5353/UDP"] = Ok [{| pm_HostPort := 8080; pm_ContainerPort := 80; pm_Protocol := "tcp" |};
    {| pm_HostPort := 53; pm_ContainerPort := 5353; pm_Protocol := "udp" |}] /\
  Forall mapping_ok [{| pm_HostPort := 8080; pm_ContainerPort := 80; pm_Protocol := "tcp" |};
    {| pm_HostPort := 53; pm_ContainerPort := 5353; pm_Protocol := "udp" |}].
Proof.
  split; [reflexivity |].
  apply (parsePortMappings_spec ["8080:80"; "53:5353/UDP"]). reflexivity.
Defined.

Definition demo_args : list string := ["-p"; "8080:80"; "-v=/srv:/data/../data:ro"; "--timeout=0x3"; "-t"; "echo hi"; "x"].

Definition demo_options : outcome (string * ExecOptions * bool) := Eval vm_compute in res ok_os (run_options demo_args) tt.

Lemma run_options_well_formed_witness :
  exists socket o metrics, demo_options = Go (socket, o, metrics) /\
    opt_NetworkMode o = "bridge" /\ opt_PortMappings o <> [] /\
    Forall (fun m => clean_abs (ContainerPath m)) (opt_Mounts o) /\ opt_Args o = ["-c"; "echo hi"].
Proof.
  assert (ends (run_options demo_args) (trace ok_os (run_options demo_args) tt) demo_options) as He.
  { replace demo_options with (res ok_os (run_options demo_args) tt) by (vm_compute; reflexivity). apply run_ends. }
  do 3 eexists. split; [reflexivity |].
  destruct (run_options_well_formed demo_args _ _ _ _ He) as (ss & remaining & Hp & (Hms & _ & Hnet & _) & Hargs).
  vm_compute in Hp. injection Hp as <- <-.
  split; [apply Hnet; split; [reflexivity | left; discriminate] |]. split; [discriminate |]. split; [exact Hms |].
  destruct (Hargs eq_refl) as (body & -> & _ & ->). reflexivity.
Defined.

Lemma direct_config_well_formed_witness :
  exists cfg, res ok_os (direct_config ["--dns"; "1.1.1.1"; "-c"; "id"]) tt = Go cfg /\ plain (cfg_ID cfg).
Proof.
  destruct (res ok_os (direct_config ["--dns"; "1.1.1.1"; "-c"; "id"]) tt) as [says code|cfg] eqn:E.
  - exfalso. revert E. vm_compute. discriminate.
  - exists cfg. split; [done |].
    destruct (direct_config_well_formed ["--dns"; "1.1.1.1"; "-c"; "id"]
      (trace ok_os (direct_config ["--dns"; "1.1.1.1"; "-c"; "id"]) tt) cfg) as (_ & H & _); [| exact H].
    rewrite <- E. apply run_ends.
Defined.

(** [-it] is rewritten in the arguments of the container's own command too. *)
Example normalize_rewrites_command : normalize ["-it"; "grep"; "-it"; "x"] = ["-i"; "-t"; "grep"; "-i"; "-t"; "x"].
Proof. reflexivity. Qed.
