(* ===== verification/EndToEnd.v ===== *)
(** * From the command line to the daemon and back

    What a user of [gojail run], [gojail stats] and [gojail ps] sees, as a function of what
    the daemon sent: the commands of [Cli] composed with the requests of [Client] and the
    handlers of [Server]. *)

From Stdlib Require Import Init.Byte.
From S2P Require Import Prelude GoStrings GoStrconv GoFmt GoFlag Effects OS GoTabwriter SandboxConfig Protocol.
From S2P Require Import Cgroup Registry GoNet Network Pool DaemonConfig Runner Server Client Cli.
#[local] Open Scope go_scope.

(** ** What is observed of a command

    The bytes the daemon sent (none when the command did not get that far), its answer to
    a control request, the writes to the two output descriptors and the samples since
    then. *)
Record seen := {
  sn_stream : option stream;
  sn_resp : option (result ControlResponse);
  sn_outs : list cli;
  sn_stats : list StatsPayload;
}.

Definition unseen : seen := {| sn_stream := None; sn_resp := None; sn_outs := []; sn_stats := [] |}.

Definition seen_mon (s : seen) (c : cli) (r : ans c) : seen :=
  match c return cans c -> seen with
  | CRecv => fun st =>
      {| sn_stream := Some st; sn_resp := sn_resp s; sn_outs := sn_outs s; sn_stats := sn_stats s |}
  | CResponse => fun a =>
      {| sn_stream := sn_stream s; sn_resp := Some a; sn_outs := sn_outs s; sn_stats := sn_stats s |}
  | COut fd bs => fun _ =>
      {| sn_stream := sn_stream s; sn_resp := sn_resp s; sn_outs := sn_outs s ++ [COut fd bs : cli];
         sn_stats := sn_stats s |}
  | COnStats x => fun _ =>
      {| sn_stream := sn_stream s; sn_resp := sn_resp s; sn_outs := sn_outs s;
         sn_stats := sn_stats s ++ [x] |}
  | _ => fun _ => s
  end r.

(** Of a command, also what it printed. *)
Definition shown_mon (s : seen * list said) (c : gsig) (r : ans c) : seen * list said :=
  match c return gans c -> seen * list said with
  | GCli c => fun r => (seen_mon s.1 c r, s.2)
  | GPrint t => fun _ => (s.1, s.2 ++ [t])
  | GOs _ => fun _ => s
  end r.

Definition observed (tr : list (event gsig)) : seen * list said := mon_trace shown_mon (unseen, []) tr.

Lemma wp_of_ends {S : sig} {G A} (mon : G -> forall c : S, ans c -> G) (p : prog S A) s (Q : G -> A -> Prop) :
  (forall tr a, ends p tr a -> Q (mon_trace mon s tr) a) -> wp mon p s Q.
Proof.
  revert s. induction p as [a | c k IH]; intros s H; simpl.
  - apply (H [] a). constructor.
  - intros r. apply IH. intros tr a He. apply (H (Ev c r :: tr) a). by constructor.
Qed.

Lemma wp_on_cli {A} (p : cio A) s says Q :
  wp seen_mon p s (fun s' a => Q (s', says) a) -> wp shown_mon (on_cli p) (s, says) Q.
Proof.
  unfold on_cli. revert s. induction p as [a | c k IH]; intros s Hp; simpl in *; [done |].
  intros r. apply IH, Hp.
Qed.

Lemma wp_on_os {A} (p : io A) s Q :
  wp no_mon p tt (fun _ a => Q s a) -> wp shown_mon (on_os p) s Q.
Proof.
  unfold on_os. induction p as [a | c k IH]; intros Hp; simpl in *; [done |].
  intros r. apply IH, Hp.
Qed.

Lemma wp_print t s says Q : Q (s, says ++ [t]) tt -> wp shown_mon (print t) (s, says) Q.
Proof. intros HQ []. exact HQ. Qed.

Lemma wp_say_all ts s says Q : Q (s, says ++ ts) tt -> wp shown_mon (say_all ts) (s, says) Q.
Proof.
  unfold say_all. revert says. induction ts as [|t ts IH]; intros says HQ; cbn [foldM].
  - rewrite app_nil_r in HQ. exact HQ.
  - apply wp_bind, wp_print. apply IH. by rewrite <- app_assoc.
Qed.

(** ** The client's requests, observed *)

Definition outs_only (tr : list (event cli)) : Prop :=
  Forall (fun c : cli => exists fd bs, c = COut fd bs) (calls tr).

Lemma seen_outs s tr :
  outs_only tr ->
  mon_trace seen_mon s tr =
    {| sn_stream := sn_stream s; sn_resp := sn_resp s; sn_outs := sn_outs s ++ calls tr; sn_stats := sn_stats s |}.
Proof.
  revert s. induction tr as [|[c r] tr IH]; intros s Ho; [destruct s; simpl; by rewrite app_nil_r |].
  apply Forall_cons in Ho as [(fd & bs & Hc) Ho]. simpl in Hc. subst c. cbn [mon_trace fold_left].
  unfold mon_trace in IH. rewrite IH by done. cbn. by rewrite <- app_assoc.
Qed.

Section client.
Context `{JSON Request, JSON ExitPayload, JSON StatsPayload}.

Lemma recv_outs fuel o e st tr r : ends (recv fuel o e st) tr r -> outs_only tr.
Proof.
  revert st tr. induction fuel as [|fuel IH]; intros st tr He; cbn [recv] in He.
  - apply ends_inv in He as [_ ->]. constructor.
  - destruct (ReadFrame st) as [[[t p]|er] st'].
    2: { destruct (errors_Is er EOF); apply ends_inv in He as [_ ->]; constructor. }
    destruct (t =? StreamStdout); [| destruct (t =? StreamStderr)];
      [apply ends_inv in He as (a & tr' & -> & He); constructor; [by eexists _, _ | by eapply IH] ..|].
    destruct (t =? StreamExit); [| by eapply IH].
    destruct (ParseExitPayload p); apply ends_inv in He as [_ ->]; constructor.
Qed.

Lemma neutral_seen_cfw {A} (p : prog wire A) : neutral seen_mon (cfw p).
Proof using. clear. intros s. unfold cfw. revert s. induction p as [a | c k IH]; intros s; [done |]. intros r. apply IH. Qed.

Lemma neutral_seen_size : neutral seen_mon send_size.
Proof using. clear. unfold send_size. neutral_steps. apply neutral_seen_cfw. Qed.

Lemma neutral_seen_encode req : neutral seen_mon (EncodeRequest req).
Proof. unfold EncodeRequest. neutral_steps. Qed.

Lemma wp_terminal_body tty body s Q :
  wp seen_mon body s Q -> wp seen_mon (with_terminal tty body) s Q.
Proof.
  intros Hb. unfold with_terminal. wp_step.
  eapply wp_mono with (Q := fun s' _ => s' = s). 2: { destruct tty; wp_step; done. }
  intros ? [|] ->; [| exact Hb]. wp_step. wp_step; cbv zeta; repeat wp_step;
    (eapply wp_mono; [| apply neutral_seen_size]; intros ? ? ->; cbv beta);
    repeat wp_step; (eapply wp_mono; [| exact Hb]); intros; repeat wp_step; done.
Qed.

(** What a run returns and writes: nothing before the daemon answers, and then what its
    receiving loop does with the daemon's bytes. *)
Definition run_seen (stdout stderr : Z) (s : seen) (r : result Response) : Prop :=
  match sn_stream s with
  | None => sn_outs s = [] /\ exists e, r = Err e
  | Some st => exists tr, ends (receive stdout stderr st) tr r /\ sn_outs s = calls tr
  end.

Lemma wp_client_Run c opts :
  wp seen_mon (Client.Run c opts) unseen
    (run_seen (default 1 (opt_Stdout opts)) (default 2 (opt_Stderr opts))).
Proof.
  unfold Client.Run, closing, run_seen. wp_step. wp_step; [| wp_step; split; [done | by eexists]].
  wp_step. eapply wp_mono with (Q := run_seen _ _).
  { intros s r Hs. wp_step. wp_step; wp_step; exact Hs. }
  wp_step. eapply wp_mono; [| apply neutral_seen_encode]. intros ? [[]|e] ->; cbv beta iota;
    [| wp_step; split; [done | by eexists]].
  apply wp_terminal_body. wp_step. wp_step. apply wp_of_ends. intros tr a He. unfold run_seen.
  rewrite seen_outs by (by eapply recv_outs). cbn. by exists tr.
Qed.






(** The jobs of a successful list are those of the daemon's answer. *)
Definition list_seen (s : seen) (r : result (list JobInfo)) : Prop :=
  forall jobs, r = Ok jobs -> exists a, sn_resp s = Some (Ok a) /\ resp_Success a = true /\ jobs = resp_Jobs a.

Lemma wp_ListJobs c : wp seen_mon (ListJobs c) unseen list_seen.
Proof.
  unfold ListJobs, control, closing. wp_step.
  eapply wp_mono with (Q := fun s r => forall a, r = Ok a -> sn_resp s = Some (Ok a) /\ resp_Success a = true).
  { intros s [a|e] Hs; wp_step; [| done]. intros jobs [= <-]. exists a. by destruct (Hs a eq_refl). }
  wp_step. wp_step; [| by wp_step]. wp_step.
  eapply wp_mono with (Q := fun s r => forall a, r = Ok a -> sn_resp s = Some (Ok a) /\ resp_Success a = true).
  { intros s r Hs. wp_step. wp_step; wp_step; exact Hs. }
  wp_step. eapply wp_mono; [| apply neutral_seen_encode]. intros ? [[]|e] ->; cbv beta iota; [| by wp_step].
  wp_step. wp_step; [| by wp_step]. wp_step; [by wp_step |]. wp_step. intros a [= <-].
  split; [done | by apply negb_false_iff].
Qed.
End client.

(** ** The statistics display *)





(** ** Printed values do not disturb a table *)

Lemma plain_cell_app s t : plain_cell (s +:+ t) = plain_cell s && plain_cell t.
Proof. unfold plain_cell. by rewrite list_of_app, forallb_app. Qed.

Lemma plain_Itoa n : plain_cell (Itoa n) = true.
Proof.
  destruct (Itoa_word n) as [_ Hp]. unfold plain_cell. revert Hp. generalize (list_of (Itoa n)).
  induction l as [|c l IH]; [done |]. cbn [forallb]. intros [Hc Hl]%andb_prop. rewrite IH, andb_true_r by done.
  unfold printable in Hc. apply andb_prop in Hc as [Hc _]. apply Z.leb_le in Hc. unfold cell_char.
  rewrite !bool_decide_false; [done | intros -> ..]; vm_compute in Hc; by apply Hc.
Qed.

Lemma plain_digit d s : 0 <= d <= 9 -> plain_cell (String (digit d) s) = plain_cell s.
Proof.
  intros Hd. unfold plain_cell. cbn [list_of forallb]. replace (cell_char (digit d)) with true; [done |].
  symmetry. pose proof (digit_code d Hd) as Hc. unfold cell_char.
  rewrite !bool_decide_false; [done | intros E; apply (f_equal code) in E; rewrite Hc in E ..];
    match type of E with _ = ?x => let v := eval vm_compute in x in change x with v in E end; lia.
Qed.

Lemma plain_hundredths q : plain_cell (show_hundredths q) = true.
Proof.
  unfold show_hundredths. rewrite !plain_cell_app, plain_Itoa.
  pose proof (Z.mod_pos_bound q 100 ltac:(lia)). pose proof (Z.mod_pos_bound q 10 ltac:(lia)).
  pose proof (Z.div_pos (q mod 100) 10 ltac:(lia) ltac:(lia)).
  pose proof (Z.div_lt_upper_bound (q mod 100) 10 10 ltac:(lia) ltac:(lia)).
  by rewrite !plain_digit by lia.
Qed.

Lemma plain_Format2f x : plain_cell (Format2f x) = true.
Proof. destruct x as [[]|[]| |[]]; try reflexivity; unfold Format2f; by rewrite plain_cell_app, plain_hundredths. Qed.

Lemma plain_frac prec print v acc : plain_cell acc = true -> plain_cell (fmtFrac prec print v acc).1 = true.
Proof.
  revert print v acc. induction prec as [|prec IH]; intros print v acc Ha; cbn [fmtFrac].
  - destruct print; simpl; [by rewrite plain_cell_app, Ha | done].
  - apply IH. pose proof (Z.mod_pos_bound v 10 ltac:(lia)).
    destruct (_ || _); [rewrite plain_digit by lia |]; done.
Qed.

Lemma plain_small u prec unit : plain_cell unit = true -> plain_cell (small_duration u prec unit) = true.
Proof.
  intros Hu. unfold small_duration. pose proof (plain_frac prec false u unit Hu) as Hf.
  destruct (fmtFrac prec false u unit) as [frac v]. by rewrite plain_cell_app, plain_Itoa.
Qed.

Lemma plain_DurationString d : plain_cell (DurationString d) = true.
Proof.
  unfold DurationString. rewrite plain_cell_app.
  replace (plain_cell (minus (d <? 0))) with true by (by destruct (d <? 0)). cbn [andb].
  unfold duration_text. repeat case_match; try (by apply plain_small); try done;
    match goal with E : fmtFrac _ _ ?u _ = _ |- _ => pose proof (plain_frac 9 false u "s" eq_refl) as Hf; rewrite E in Hf end;
    cbn [fst] in Hf; rewrite !plain_cell_app, !plain_Itoa, ?Hf; reflexivity.
Qed.

Lemma plain_take n s : plain_cell s = true -> plain_cell (take_str n s) = true.
Proof.
  unfold plain_cell. revert s. induction n as [|n IH]; intros [|c s]; try done. cbn [take_str list_of forallb].
  intros [-> Hs]%andb_prop. by apply IH.
Qed.

Lemma plain_Join sep l : plain_cell sep = true -> forallb plain_cell l = true -> plain_cell (Join l sep) = true.
Proof.
  intros Hsep. unfold Join. induction l as [|a l IH]; [done |]. cbn [forallb]. intros [Ha Hl]%andb_prop.
  destruct l as [|b l]; [done |].
  change (String.concat sep (a :: b :: l)) with (a +:+ sep +:+ String.concat sep (b :: l)).
  by rewrite !plain_cell_app, Ha, Hsep, IH.
Qed.

Section end_to_end.
Context `{JSON Request, JSON ExitPayload, JSON StatsPayload, JSON ControlResponse}.









(** ** A run *)

(** The options of a run write to the two standard descriptors. *)
Lemma run_options_writers args :
  wp no_mon (run_options args) tt (fun _ o => forall socket opts metrics, o = Go (socket, opts, metrics) ->
    opt_Stdout opts = Some 1 /\ opt_Stderr opts = Some 2).
Proof using.
  clear. unfold run_options. destruct (Parse run_kinds _) as [ss remaining| |]; [| by wp_step | by wp_step].
  wp_step. eapply wp_mono; [| by apply (wp_parseMounts _ [])]. intros [] [ms|er] _; [| by wp_step].
  destruct (parsePortMappings _); [| by wp_step]. cbv zeta.
  destruct (run_target _ _ _ _) as [[t targs]|]; [| by wp_step]. wp_step. by intros ? ? ? [= <- <- <-].
Qed.

Lemma wp_handleRunCommand args :
  wp shown_mon (handleRunCommand args) (unseen, []) (fun g code =>
    forall st, sn_stream g.1 = Some st -> exists tr r metrics,
      ends (receive 1 2 st) tr r /\ sn_outs g.1 = calls tr /\ g.2 = run_says metrics r /\ code = run_exit r).
Proof.
  unfold handleRunCommand. wp_step. apply wp_on_os. eapply wp_mono; [| apply run_options_writers].
  intros [] [says code | [[socket opts] metrics]] Ho; cbv iota.
  - wp_step. apply wp_say_all. by wp_step.
  - destruct (Ho _ _ _ eq_refl) as [E1 E2]. wp_step. apply wp_on_cli. eapply wp_mono; [| apply wp_client_Run].
    rewrite E1, E2. intros s r Hs. wp_step. apply wp_say_all. wp_step. intros st Hst. cbn [fst] in *.
    unfold run_seen in Hs. rewrite Hst in Hs. destruct Hs as (tr & He & Hout). by exists tr, r, metrics.
Qed.

(** What is printed for the answer of an execution, after its output: a rejection; or a
    time-out, if there was one, and at most the telemetry.  All on standard error. *)
Definition telemetry_text (m : ResourceMetrics) (duration : Z) : string :=
  nl +:+ "[Telemetry] Peak Memory: " +:+ megabytes (PeakMemoryBytes m) +:+ " MB (" +:+ Itoa (PeakMemoryBytes m) +:+
  " B) | User CPU: " +:+ Itoa (UserCPUTimeUS m) +:+ " " +:+ micro +:+ "s | Sys CPU: " +:+ Itoa (SystemCPUTimeUS m) +:+
  " " +:+ micro +:+ "s | Wall: " +:+ DurationString duration +:+ nl.

Definition run_printed (x : result Result) (says : list said) : Prop :=
  match x with
  | Err er => ErrorText er <> "" -> says = [(2, nl +:+ "[gojail] Execution rejected: " +:+ ErrorText er +:+ nl)]
  | Ok res => exists report,
      says = (if res_TimedOut res
              then [(2, nl +:+ "[gojail] Execution timed out after " +:+ DurationString (res_Duration res) +:+ nl)]
              else []) ++ report /\
      (report = [] \/ report = [(2, telemetry_text (res_Metrics res) (res_Duration res))])
  end.

Lemma run_says_printed metrics x : run_printed x (run_says metrics (Ok (response_of (final_payload x)))).
Proof using.
  clear. destruct x as [res|er]; cbn [final_payload run_printed].
  - exists (if metrics then [on_stderr (telemetry (response_of (final_payload (Ok res))))] else []). split.
    + unfold run_says, on_stderr. cbn -[telemetry String.append]. destruct (res_TimedOut res); [| done].
      destruct metrics; reflexivity.
    + destruct metrics; [right | by left]. unfold telemetry, telemetry_text, on_stderr. cbn -[String.append].
      do 2 f_equal. by rewrite !app_str_assoc.
  - intros Hne. unfold run_says. cbn -[String.append]. rewrite bool_decide_eq_false_2 by done. cbn [negb].
    reflexivity.
Qed.

(** C1: What a user of gojail run sees is what the worker did.  For every run of the
    daemon's handler in which no write to the connection failed and the worker was
    executed, with the answer [x] and the output [out], when the payload of [x] can be
    encoded and fits in a frame and every chunk of [out] fits in one: a gojail run that
    reads the bytes the daemon sent, whatever its arguments and however its own writes are
    answered, writes exactly the chunks of [out], in order, those a batch worker wrote to
    its standard error to descriptor 2 and all others to descriptor 1; exits with the exit
    code of the execution, or 1 when there was none; and prints after the output only the
    rejection, or the time-out if there was one and at most the telemetry of this
    execution.  The worker was executed at a terminal exactly when the request was for
    one. *)
Theorem gojail_run_end_to_end cfg fuel req dtr tty w x out b e args tr code :
  run_request req = true ->
  ends (handleConnection cfg fuel) (Ev (SDecode : srv) (Ok req) :: dtr) (Ok tt) ->
  rp_broken (mon_trace reply_mon no_reply dtr) = false ->
  rp_exec (mon_trace reply_mon no_reply dtr) = Some (tty, w, (x, out)) ->
  Marshal (final_payload x) = Ok b -> json_faithful (final_payload x) -> Z.of_nat (length b) < 2 ^ 32 ->
  Forall (fun c : Z * string => Z.of_nat (String.length c.2) < 2 ^ 32) out ->
  ends (handleRunCommand args) tr code ->
  sn_stream (observed tr).1 = Some (Stream (rp_sent (mon_trace reply_mon no_reply dtr)) e) ->
  tty = req_TTY req /\
  Forall2 (heard 1 2 tty w) out (sn_outs (observed tr).1) /\
  code = match x with Ok res => res_ExitCode res | Err _ => 1 end /\
  run_printed x (observed tr).2.
Proof.
  intros Hreq Hd Hb Hx Hm Hj Hl Hout Hc Hst.
  pose proof (wp_ends shown_mon _ _ _ _ _ (wp_handleRunCommand args) Hc) as Hw. fold (observed tr) in Hw. cbv beta in Hw.
  destruct (Hw _ Hst) as (tr' & r & metrics & He & Ho & Hsays & ->). rewrite Ho, Hsays.
  destruct (run_end_to_end cfg fuel req dtr tty w x out b e 1 2 tr' r) as (Htty & -> & Hheard); try done.
  split; [done |]. split; [done |]. split; [| apply run_says_printed]. destruct x as [res|er]; [done |].
  unfold run_exit. by destruct (negb _).
Qed.

(** ** The table of ps *)

(** Text that does not disturb the table. *)
Definition job_plain (j : JobInfo) : Prop :=
  plain_cell (job_ID j) = true /\ plain_cell (job_Status j) = true /\ plain_cell (job_Command j) = true /\
  forallb plain_cell (job_Args j) = true.

(** Every cell of the row is in the line, and starts at its column's place. *)
Definition in_columns (places : list nat) (row : list string) (line : string) : Prop :=
  length row = length places /\
  forall j, (j < length places)%nat -> exists pre post,
    line = pre +:+ nth j row "" +:+ post /\ RuneCount pre = nth j places O.

(** The cells of a job: its identifier, process and status; its peak memory in mebibytes,
    if it is known; how long it has run, in whole seconds; and its command with its
    arguments, of which at most 30 bytes are shown. *)
Definition row_of (j : JobInfo) (row : list string) : Prop :=
  exists mem cmd,
    row = [job_ID j; Itoa (job_PID j); job_Status j; mem;
           DurationString (Z.quot (job_Duration j) (10 ^ 9) * 10 ^ 9); cmd] /\
    (job_PeakMemoryBytes j <= 0 -> mem = "-") /\
    (0 < job_PeakMemoryBytes j ->
       mem = Format2f (f64_div (f64_of_Z (job_PeakMemoryBytes j)) (f64_of_Z (2 ^ 20))) +:+ " MB") /\
    let full := String.concat " " (job_Command j :: job_Args j) in
    ((String.length full <= 30)%nat -> cmd = full) /\
    ((30 < String.length full)%nat -> cmd = String.substring 0 27 full +:+ "...").

(** A header, then one line for each job, in order, the cells of a column one below the
    other. *)
Definition is_table (jobs : list JobInfo) (text : string) : Prop :=
  exists places rows lines, text = String.concat "" (map (fun l => l +:+ nl) lines) /\ length places = 6%nat /\
    Forall2 row_of jobs rows /\
    Forall2 (in_columns places) (["CONTAINER ID"; "PID"; "STATUS"; "MEMORY"; "UPTIME"; "COMMAND"] :: rows) lines.

Lemma take_substring n s : take_str n s = String.substring 0 n s.
Proof using. clear. revert s. induction n as [|n IH]; intros [|c s]; try done. cbn. by rewrite IH. Qed.

Lemma ps_row_of j : row_of j (ps_row j).
Proof using.
  clear. exists (ps_memory j), (ps_command j). split; [| split; [| split]].
  - assert (Truncate_duration (job_Duration j) Second = Z.quot (job_Duration j) (10 ^ 9) * 10 ^ 9) as <-; [| done].
    unfold Truncate_duration. change (Second <=? 0) with false. cbv iota. change Second with (10 ^ 9).
    pose proof (Z.quot_rem' (job_Duration j) (10 ^ 9)). lia.
  - intros Hm. unfold ps_memory. by rewrite (proj2 (Z.ltb_ge _ _) Hm).
  - intros Hm. unfold ps_memory. by rewrite (proj2 (Z.ltb_lt _ _) Hm).
  - assert (String.concat " " (job_Command j :: job_Args j) =
      job_Command j +:+ (if (0 <? length (job_Args j))%nat then " " +:+ Join (job_Args j) " " else "")) as ->.
    { destruct (job_Args j); [simpl; by rewrite app_str_nil_r | done]. }
    unfold ps_command. cbv zeta. rewrite take_substring.
    split; intros Hl; [by rewrite (proj2 (Nat.ltb_ge _ _) Hl) | by rewrite (proj2 (Nat.ltb_lt _ _) Hl)].
Qed.

Lemma plain_ps_command j : job_plain j -> plain_cell (ps_command j) = true.
Proof using.
  clear. intros (_ & _ & Hc & Ha). unfold ps_command. cbv zeta.
  match goal with |- plain_cell (if _ then take_str 27 ?s +:+ _ else _) = true =>
    assert (plain_cell s = true) as Hs
  end.
  { rewrite plain_cell_app, Hc. destruct (0 <? _)%nat; [| done].
    rewrite plain_cell_app. change (plain_cell " ") with true. cbn [andb]. by apply plain_Join. }
  destruct (30 <? _)%nat; [| done]. by rewrite plain_cell_app, plain_take.
Qed.

Lemma ps_rows_ok jobs : Forall job_plain jobs -> Forall (row_ok 6) (ps_header :: map ps_row jobs).
Proof using.
  clear. intros Hj. constructor; [by split |]. induction Hj as [|j jobs Hj _ IH]; constructor; [| done].
  split; [done |]. unfold ps_row. cbn [forallb]. rewrite plain_Itoa, plain_DurationString, plain_ps_command by done.
  destruct Hj as (-> & -> & _ & _). cbn [andb]. rewrite !andb_true_r. unfold ps_memory, megabytes.
  destruct (0 <? _); [| done]. by rewrite plain_cell_app, plain_Format2f.
Qed.

Lemma ps_output_table jobs : jobs <> [] -> Forall job_plain jobs -> is_table jobs (ps_output jobs).
Proof using.
  clear. intros Hne Hj. pose proof (ps_rows_ok jobs Hj) as Hrows.
  assert (ps_output jobs = aligned 6 (ps_header :: map ps_row jobs)) as ->.
  { destruct jobs; [done |]. apply tabulate_table; [lia | done]. }
  set (rows := ps_header :: map ps_row jobs) in *.
  exists (map (fun j => sum_list (take j (table_widths 6 rows))) (seq 0 6)), (map ps_row jobs),
    (map (line_text (table_widths 6 rows)) rows).
  split; [unfold aligned; by rewrite map_map |]. split; [done |].
  split; [apply Forall2_fmap_r, Forall_Forall2_diag, Forall_forall; intros j _; apply ps_row_of |].
  change (Forall2 (in_columns (map (fun j => sum_list (take j (table_widths 6 rows))) (seq 0 6))) rows
    (map (line_text (table_widths 6 rows)) rows)).
  apply Forall2_fmap_r, Forall_Forall2_diag, Forall_forall. intros r Hr.
  pose proof (proj1 (Forall_forall _ _) Hrows r Hr) as [Hl _]. split; [done |].
  rewrite length_map, length_seq. intros j Hlt. destruct (table_cell 6 rows r j) as (pre & post & E & Hpre); try done.
  exists pre, post. split; [done |]. rewrite Hpre. do 6 (destruct j as [|j]; [reflexivity |]). lia.
Qed.

(** What [gojail ps] prints and exits with: one error and 1, or, once, what it makes of the
    jobs of the daemon's answer and 0. *)
Definition ps_shown (g : seen * list said) (code : Z) : Prop :=
  (code = 1 /\ exists e, g.2 = [on_stderr ("Error querying jobs from daemon: " +:+ ErrorText e)]) \/
  (code = 0 /\ exists a text, sn_resp g.1 = Some (Ok a) /\ resp_Success a = true /\ g.2 = [(1, text)] /\
     (resp_Jobs a = [] -> text = "No active or recent containers." +:+ nl) /\
     (resp_Jobs a <> [] -> Forall job_plain (resp_Jobs a) -> is_table (resp_Jobs a) text)).

(** C37: The table of gojail ps: with well-formed flags the command prints either one error
    and exits with 1, or, once, the daemon's answer and exits with 0: a sentence when there
    is no job; and when no identifier, status, command or argument has a tab, a newline or
    another control character of the table in it (a script with a newline breaks its row),
    a header and one line for each job, in the order of the answer, with its identifier,
    process, status, memory, time and command, the cells of every column starting at the
    same place. *)
Theorem handlePsCommand_table args ss remaining tr code :
  Parse socket_kinds args = Parsed ss remaining ->
  ends (handlePsCommand args) tr code -> ps_shown (observed tr) code.
Proof.
  intros Hp. apply (wp_ends shown_mon _ (unseen, []) ps_shown).
  unfold handlePsCommand. rewrite Hp. wp_step. apply wp_on_cli. eapply wp_mono; [| apply wp_ListJobs].
  intros s [jobs|e] Hs; cbv beta iota; wp_step; apply wp_print; wp_step; [right | left]; (split; [done |]).
  - destruct (Hs jobs eq_refl) as (a & Ha & Hok & ->). exists a, (ps_output (resp_Jobs a)).
    split; [done |]. split; [done |]. split; [done |]. split; [by intros -> | apply ps_output_table].
  - by exists e.
Qed.
End end_to_end.

(** ** Concrete runs *)

#[local] Existing Instances exit_json stats_json response_json Client.request_json.

(** A machine on which every call succeeds, with a daemon that sends the bytes of [s] and
    knows the jobs [jobs]. *)
Definition ok_gojail (s : stream) (jobs : list JobInfo) : handler gsig unit := fun c w =>
  match c return gans c * unit with
  | GOs c => ok_os c w
  | GCli CResponse => (Ok {| resp_Success := true; resp_Error := ""; resp_Jobs := jobs |}, w)
  | GCli c => ok_cli s c w
  | GPrint _ => (tt, w)
  end.

Definition run_args : list string := ["-metrics"; "-c"; "echo hi; oops"].

Lemma gojail_run_end_to_end_witness :
  let s := rp_sent (mon_trace reply_mon no_reply (tail (trace pipe_srv pipe_run (∅ : registry)))) in
  let tr := trace (ok_gojail (Stream s EOF) []) (handleRunCommand run_args) tt in
  sn_outs (observed tr).1 = [COut 1 [x68; x69] : cli; COut 2 [x6f; x6f; x70; x73] : cli] /\
  res (ok_gojail (Stream s EOF) []) (handleRunCommand run_args) tt = 3.
Proof.
  intros s tr. destruct (gojail_run_end_to_end DefaultConfig 0 (demo_request "run" false)
    (tail (trace pipe_srv pipe_run (∅ : registry))) false pipe_worker (Ok demo_result) demo_out
    (pos_bytes (encode (exit_of demo_result))) EOF run_args tr
    (res (ok_gojail (Stream s EOF) []) (handleRunCommand run_args) tt)) as (_ & Ho & Hc & _).
  - reflexivity.
  - exact pipe_ends.
  - vm_compute. reflexivity.
  - vm_compute. reflexivity.
  - reflexivity.
  - exact I.
  - vm_compute. reflexivity.
  - by repeat constructor.
  - apply run_ends.
  - vm_compute. reflexivity.
  - split; [| exact Hc]. clearbody s tr.
    apply Forall2_cons_inv_l in Ho as (c1 & cs1 & (f1 & -> & H1) & Ho & ->).
    apply Forall2_cons_inv_l in Ho as (c2 & cs2 & (f2 & -> & H2) & Ho & ->). apply Forall2_nil_inv_l in Ho as ->.
    assert (f1 = 1) as -> by (destruct H1 as [[[_ [=]] _] | [_ E]]; exact E).
    assert (f2 = 2) as -> by (destruct H2 as [[_ E] | [Hn _]]; [exact E | exfalso; by apply Hn]).
    reflexivity.
Defined.

(** Three samples of a running job, until the client is gone. *)
Abbreviation stats_run := (handleStatsStream 3 "warm-1").
Abbreviation stats_trace := (trace demo_srv stats_run (sample "running")).


Definition demo_job (id : string) (args : list string) (peak duration : Z) : JobInfo :=
  {| job_ID := id; job_PID := 4242; job_Command := "/bin/sh"; job_Args := args; job_Status := "running";
     job_StartTime := 0; job_Duration := duration; job_PeakMemoryBytes := peak; job_ExitCode := 0 |}.

Definition demo_jobs : list JobInfo :=
  [demo_job "warm-0" ["-c"; "make -j4 all && make install"] 3276800 3725500000000; demo_job "warm-170" ["-i"] 0 999999999].

Lemma handlePsCommand_table_witness :
  ps_shown (observed (trace (ok_gojail (Stream [] EOF) demo_jobs) (handlePsCommand []) tt)) 0 /\
  is_table demo_jobs (ps_output demo_jobs).
Proof.
  assert (ps_shown (observed (trace (ok_gojail (Stream [] EOF) demo_jobs) (handlePsCommand []) tt)) 0) as Hs.
  { pose proof (handlePsCommand_table [] [] [] _ _ eq_refl
      (run_ends (ok_gojail (Stream [] EOF) demo_jobs) (handlePsCommand []) tt)) as Hs.
    replace (res (ok_gojail (Stream [] EOF) demo_jobs) (handlePsCommand []) tt) with 0 in Hs by (vm_compute; reflexivity).
    exact Hs. }
  split; [exact Hs |]. destruct Hs as [[Hc _] | (_ & a & text & Ha & _ & Ht & _ & Htab)]; [discriminate |].
  replace a with {| resp_Success := true; resp_Error := ""; resp_Jobs := demo_jobs |} in *.
  - replace (ps_output demo_jobs) with text; [| vm_compute in Ht; injection Ht as <-; vm_compute; reflexivity].
    apply Htab; [discriminate |]. by repeat constructor.
  - vm_compute in Ha. injection Ha as <-. reflexivity.
Defined.

Example ps_output_example :
  ps_output demo_jobs =
  "CONTAINER ID  PID   STATUS   MEMORY   UPTIME  COMMAND" +:+ nl +:+
  "warm-0        4242  running  3.12 MB  1h2m5s  /bin/sh -c make -j4 all && ..." +:+ nl +:+
  "warm-170      4242  running  -        0s      /bin/sh -i" +:+ nl.
Proof. vm_compute. reflexivity. Qed.

(** A script with a newline in its first bytes breaks its row in two. *)
Example ps_newline_breaks :
  ps_output [demo_job "warm-0" ["-c"; "cd /srv" +:+ nl +:+ "make"] 0 0] =
  "CONTAINER ID  PID   STATUS   MEMORY  UPTIME  COMMAND" +:+ nl +:+
  "warm-0        4242  running  -       0s      /bin/sh -c cd /srv" +:+ nl +:+ "make" +:+ nl.
Proof. vm_compute. reflexivity. Qed.
